(* ===== verification/_CoqProject ===== *)
-Q . S2P
Prelude.v
GoString.v
Regexp.v
PolicyContent.v
Schedule.v
Sha256.v
Redact.v
RedactProps.v
Coalescer.v
CoalescerProps.v
Rows.v
Policy.v
PolicyProps.v
Tables.v
AuditLog.v
AuditProps.v
Outbox.v
Actions.v
Turn.v
Jobs.v
Ingest.v
TurnClaim.v
ActionsProps.v
ActionsFacts.v
JobsProps.v
JobsQueue.v
TurnClaimProps.v
JobsTheorems.v
IngestProps.v
Program.v
Effects.v
Executor.v
Disclosure.v
ExecutorProps.v
ExecutorSafety.v
OAuthStore.v
OAuth.v
OAuthProps.v
OAuthSafety.v
OAuthTheorems.v
Linear.v
Notifications.v
BotUpdates.v
Receiver.v
ReceiverProps.v
ReceiverSafety.v
ReceiverSweep.v
Utf8.v
Json.v
JsonProps.v
BroadcastPolicy.v
BroadcastCanonical.v
BroadcastStore.v
ProductUpdates.v
Broadcast.v
BroadcastWorker.v
BroadcastProps.v
BroadcastFacts.v
BroadcastLedger.v
BroadcastPass.v
AudienceProps.v
BroadcastSafety.v
BroadcastRun.v
BroadcastTheorems.v
DigestProps.v
Notices.v
HumanInputTables.v
WorkClient.v
OwnerEffects.v
Notifier.v
Sanitize.v
HumanInputStore.v
HumanInput.v
OwnerProps.v
OwnerRuns.v
OwnerTables.v
OwnerSafety.v
OwnerTheorems.v
OwnerTexts.v
OwnerRun.v
