(* ===== verification/Prelude.v ===== *)
(** * A verification development for mctl-telegram

    mctl-telegram runs communication agents on Telegram accounts and lets MCP
    clients act for a signed-in user.  This library models its cores: the
    part that decides and sends messages (incoming messages become events and
    jobs, a worker turns a job into an action, policy decides the action, the
    owner approves it or not, and the executor sends it once), the token
    endpoint that keeps clients signed in, the broadcasts with which an
    operator writes to all clients through the login bot, the receiver of what
    clients send to that bot, the surface on which an owner is notified and
    answers the questions of agents, and the audit log of tool calls.  The code is
    under [src/internal/agent], [src/internal/db], [src/internal/oauth],
    [src/internal/broadcast], [src/internal/notify], [src/internal/bot],
    [src/internal/humaninput], [src/internal/workctx] and [src/internal/audit].

    ** Parts

    - [Prelude], [GoString], [Sha256], [Program]: results, Go's [time.Time]
      arithmetic, record update, tactics and hint databases; Go strings as byte
      strings with the library functions the code uses ([strings.TrimSpace],
      [strings.Fields], UTF-8 decoding, [strconv]); SHA-256, HMAC and base64url;
      programs over store calls and queries, and the class of protocols between
      a store and the programs that call it.
    - [Regexp], [PolicyContent]: a backtracking matcher of Go's regular
      expression semantics and the content filters of [agent/policy/policy.go].
    - [Schedule]: [agent/schedule/schedule.go], working hours.
    - [Coalescer], [CoalescerProps]: [agent/turn/turn.go], bursts of messages
      grouped into turns, on a heap of turns.
    - [Rows], [Tables]: the structs of [db/agent_domain.go] and the tables of
      [db/agent_schema.go] as finite maps.  An operation of the store is a
      function [DB -> result db_error (A * DB)]; an error rolls its transaction
      back.  The encryption of a column is the class [Sealer] with the law that
      opening undoes sealing.
    - [Policy], [PolicyProps]: [policy.Evaluate] and what it decides.
    - [Outbox]: [db/event_outbox.go].
    - [Actions], [ActionsProps], [ActionsFacts]: the lifecycle of agent actions,
      [db/agent_actions.go], [agent_delivery.go], [agent_source_supersession.go].
    - [Turn]: the sources of a job, [db/agent_events.go], [agent_turn_context.go].
    - [Ingest], [IngestProps]: messages and deletes as they arrive, deletes that
      overtake their message, inactive conversations, and the retention sweep,
      [db/agent_events.go], [agent_ingest_atomic.go], [agent_source_supersession.go].
    - [Jobs], [JobsProps], [JobsQueue], [JobsTheorems]: the queue,
      [db/agent_jobs.go].
    - [TurnClaim], [TurnClaimProps]: the claim that folds the pending jobs of a
      burst into one turn, [db/agent_turn_claim.go], through [Coalescer].
    - [Effects], [Executor], [ExecutorProps], [ExecutorSafety], [Disclosure]:
      [agent/executor/executor.go] as programs over store calls and queries to
      its collaborators (clock, sender, gate, owner profile, kill switch).
    - [OAuthStore], [OAuth]: refresh tokens, authorization codes and what an
      account deletion does to them, [db/refresh_tokens.go], [store_oauth.go] and
      part of [store.go]; the handlers of [oauth/server.go] for [/oauth/token]
      and [/oauth/revoke] as programs over them.
    - [OAuthProps], [OAuthSafety], [OAuthTheorems]: the protocol between the two,
      the invariant of the token table, and the theorems.
    - [Notifications]: consent and reachability, [db/notification_prefs.go],
      [db/reachability.go], [notify/classify.go].
    - [Utf8], [Json], [JsonProps]: encoded strings; the reader and writer of
      [encoding/json] and that the one reads back what the other wrote.
    - [BroadcastPolicy], [BroadcastCanonical], [AudienceProps]: the audience of a
      campaign and who is eligible, [broadcast/policy.go]; its canonical form;
      its agreement with the preferences page.
    - [BroadcastStore], [ProductUpdates]: one definition per statement of
      [db/broadcast.go], [broadcast_deliveries.go] and [product_updates.go].
    - [Broadcast], [BroadcastWorker]: [broadcast/service.go], [worker.go] and
      [report.go] as programs over these statements and queries to the clock,
      the rate limiter, the random source and the Bot API.
    - [BroadcastProps], [Linear], [BroadcastLedger], [BroadcastSafety]: the
      invariant of the tables; programs that own tokens; the ledger of
      deliveries in which a claim is such a token; runs of any number of workers
      and operators.  [BroadcastFacts], [BroadcastPass], [BroadcastRun]: single
      functions, one undisturbed pass, a computed run.
    - [BroadcastTheorems], [DigestProps]: the theorems.
    - [BotUpdates], [Receiver]: the table of [db/bot_updates.go]; the files
      [bot/update.go], [registry.go], [start.go], [wiring.go],
      [receiver.go] and [bridge.go] as programs over its statements and the Bot
      API.  [ReceiverProps], [ReceiverSafety], [ReceiverSweep]: the protocol
      between them, every run of rounds and bridge requests, and one undisturbed
      sweep.
    - [Notices], [HumanInputTables], [HumanInputStore]: the notifications of
      [db/agent_actions.go]; the deliveries, actors and bindings of
      [db/human_input.go] and [work_item_bindings.go], one definition per
      statement, and its methods as programs over them.
    - [WorkClient], [OwnerEffects]: the errors and answers of [workctx/errors.go],
      [humaninput.go] and [client.go]; the calls and queries of the surface.
    - [Notifier], [Sanitize], [HumanInput]: [agent/control/notifier.go],
      [sanitize/sanitize.go]; the poller and the handler of [/mctl input],
      [humaninput/poller.go], [handler.go] and [answercode/answercode.go].
    - [OwnerProps], [OwnerRuns], [OwnerTables], [OwnerSafety]: the ledger of the
      surface, that its programs keep to it, that the tables do, and runs of any
      number of them.  [OwnerTheorems], [OwnerTexts], [OwnerRun]: the theorems,
      the texts and codes, and a computed run.
    - [Redact], [RedactProps], [AuditLog], [AuditProps]: [audit/redact.go], the
      masking of logs; [db/audit_chain.go], the part of [db/store.go] on
      [audit_logs], and [edgectx/edgectx.go], the hash chain of tool calls.

    ** How they interact

    [Executor] calls the operations of [Actions] through [Effects.call]; [Effects]
    gives each call its meaning with [call_op] and each collaborator as a query
    whose answer is arbitrary.  [ExecutorSafety] runs any number of such programs
    on one database, with lost answers, failed calls, crashes and any other write
    that keeps the invariant of [ActionsProps] between two of their steps.
    [Executor] asks [Policy.Evaluate] on the rows it read.  [Actions], [Jobs] and
    [Ingest] route events through [Outbox] in the same transaction.  A history of
    the queue mixes ingestion, deletes, sweeps, plain and coalescing claims and
    ends of attempts; a call of several statements ([RecordMessageDelete],
    [SweepAgentMessageBodies], [EnsureUserByTelegramID]) is one step.
    The handlers of [OAuth] are proved against [token_protocol], an instance of
    [Program.Protocol]; [OAuthProps.store_implements] discharges it for the
    tables, and [OAuthSafety] runs any number of requests side by side.
    The programs of [BroadcastWorker] and [Broadcast] are proved against the
    ledger of [BroadcastLedger], an instance of [Linear]: a claim gives a worker
    the one right to send and to close a delivery.  [BroadcastSafety] discharges
    the ledger for the tables and adds what others do meanwhile: users, tokens,
    preferences and reachability change, digests are saved and discarded, and the
    content columns of campaigns are overwritten by somebody without the key.
    The rounds of [Receiver] are proved against the protocol of [ReceiverProps],
    which [ReceiverSafety] discharges for the table and for a Telegram that keeps
    an update until a [getUpdates] confirmed it and may give a new update any id
    it has not used; the [/start] handler writes
    through [Notifications] in the transaction of the dispatch.  The poller
    queues a question and its notification in one transaction of [HumanInputTables], the
    [Notifier] claims, sends and marks notifications through [Notices], and
    [HumanInput.Answer] submits to the platform; they are proved against the
    ledger of [OwnerProps], again an instance of [Linear], whose world is the
    questions, the claimed random ids, the owners' messages, the accounts read as
    linked, the commands of the owners and the traffic with the platform.  [OwnerTables] discharges it,
    and [OwnerSafety] adds Telegram, which takes a random id of a user once, and
    the writers that queue other notifications.  [AuditLog] stores what [Redact]
    made of a text; a call that writes a row is three statements, which
    [AuditProps] interleaves with those of other calls.

    ** What the theorems show

    - Sending: one Telegram message per action in every interleaving
      ([ExecutorSafety]); a message leaves only after every check passed on
      exactly its text ([ExecutorProps]); the disclosure line is there once and
      the text still fits ([Disclosure]).
    - Actions: the invariant of the table over every history of the modelled
      calls, fixed send identity, final statuses, budgets, idempotent inserts,
      deletes that stop replies ([ActionsProps], [ActionsFacts]).
    - Ingestion: a delete that overtakes its message wins, a message into an
      inactive conversation starts no work, the sweep clears what is old and
      nothing in flight ([IngestProps]).
    - Queue: one job of a conversation in flight, attempts within bounds, an
      attempt log that matches the claims, stale workers refused, current workers
      served, the retry schedule and the in-flight cap ([JobsProps],
      [JobsQueue], [JobsTheorems]); a coalescing claim accounts for every job
      ([TurnClaimProps]).
    - Turns: each message in exactly one turn, in order and within the limits;
      ticks do not depend on the map order ([CoalescerProps]).
    - Outbox: the lease excludes, the first routing reason wins.
    - Policy: [Evaluate] refines a declarative specification; links are denied;
      denials carry codes ([PolicyProps]).  Schedule: parsing round trip and the
      meaning of windows past midnight.
    - Tokens: no response goes beyond the grant of its family, a family has at
      most one live token and none after a revocation or an account deletion,
      replays recover the one successor or revoke the family, and a code exchange
      checked client, redirect URI and PKCE verifier ([OAuthTheorems]).  The
      theorems on runs assume that no two tokens stored in the run had the same
      hash and no two families the same random id ([OAuthProps.fresh]).
    - Broadcasts: only text an identity on the operator list approved is sent,
      under the selector it approved; of the messages sent to one recipient of a
      campaign at most one is taken or ends without an answer; every send of a
      pass follows its checks on what was just read, within the lease; a
      campaign only moves forward; a pass on its own leaves none of its
      deliveries in flight; the report is exact ([BroadcastTheorems]).  Content
      survives sealing and opening ([BroadcastFacts]); equal JSON means equal
      audience ([BroadcastCanonical]); eligibility agrees with the preferences
      page ([AudienceProps]); an entry of the feed is carried by the versions of
      one digest ([DigestProps]).
    - Receiver: an update Telegram no longer keeps, and sent with a larger id
      than those before it, is stored; an update is
      handled in one committed transaction, whatever interleaves and crashes
      ([ReceiverSafety]); a sweep ends and drains the table ([ReceiverSweep]).
    - Owner: a notification is at most one message and what is marked sent was
      delivered; a request of the platform is asked once, a question only moves
      forward, is answered only when the platform says so, and an answer is
      submitted as its owner typed it, under the key of the message it came in
      and for the question that was shown ([OwnerTheorems]); the commands of a draft survive the cap, answer codes
      are uniform ([OwnerTexts]).
    - Audit log: a chain that verifies with the same newest hash holds the same
      rows; a log verifies when no two of its rows share their predecessor, and
      then exactly the deletions that leave a gap show ([AuditProps]); a
      scrubbed text has no handle and no run of seven digits ([RedactProps]).

    ** Bounds and fuel

    The regular-expression matcher takes fuel from the length of its input
    ([Regexp]) and the JSON parser twice the length of its input and two
    ([Json]; [JsonProps] shows that this is enough for what the encoder writes);
    the pages of a sweep are counted by fuel, of which one page more than there
    are pending updates is enough ([ReceiverSweep]); everything else is
    structural.  Integers are [Z]: ids and counters
    are columns the database bounds, and arithmetic that could overflow in Go
    ([Time.Sub], the backoff, the byte count of a turn) states its saturation,
    its wrap-around or its bound.  The size of a batch that fits a lease, computed in
    floating point by [WorkerConfig.withDefaults], is an argument.  The Unicode
    case and space tables are the class [UnicodeTables], of which the canonical
    forms assume the laws in [Utf8.LowerTables]; the ASCII tables are an instance
    of both.  What the column of a timestamp keeps of a time and the text of a
    slog group are arguments of [AuditLog] and [Redact].  The text a question is
    rendered to and the reference it shows are arguments of the poller
    ([HumanInput]), and the Unicode category of format characters is the class
    [Sanitize.FormatTable].
    [AuditProps.audit_chain_tamper_evident] assumes that SHA-256 gives different
    digests to the inputs of the two chains it compares.

    ** Not modelled

    Telegram, HTTP, SQL errors other than constraint conflicts and missing rows,
    metrics, logging and notifications to the relay are outside: a database
    failure of a call is a step of [ExecutorSafety] and [OAuthSafety], elsewhere
    it is an error that changes nothing.  Row ids come from one counter for all
    tables of the agent store.  The legacy plaintext column [approval_code], the
    usage ledger of the managed runtime and job leads are left out.  The histories of [ActionsProps] do not delete an
    account.  Of the broadcasts, the web and MCP surfaces, the HTTP client of the
    Bot API, the rate limiter and the feed of product updates are left out, as
    are the columns [updated_at] of deliveries and digests.  Of the receiver, the
    HTTP and JSON decoding of updates and observations and the wait after a
    failed poll are left out, and of the audit log the export for operators.  Of
    the owner's surface, the rendering of a question ([humaninput/render.go]: it
    parses times and URLs), the building of requests to the platform and the
    decoding of its JSON, the throttle of the log line for requests that cannot be
    shown, and the loops that start a poll or a sweep are left out; rows are not
    deleted with their user.  Of the OAuth server, the authorize, callback, registration and
    browser flows, the in-memory code store of a server without Postgres and the
    verification of client metadata documents are left out: issuing a code is a
    step of the environment, and the resolver, the token issuer and the random
    source answer arbitrarily. *)

From Stdlib Require Export Ascii.
From stdpp Require Export base tactics option list list_numbers sorting gmap strings pretty.
From Stdlib Require Export ZArith Lia.

#[global] Open Scope string_scope.
#[global] Open Scope list_scope.
#[global] Open Scope Z_scope.

(** ** Results

    A Go function returning [(T, error)] is a function returning
    [result E T]: [Ok] is a nil error, [Err] a non-nil one.  No caller in the
    modelled code reads the value next to a non-nil error. *)
Inductive result (E A : Type) : Type :=
| Ok (a : A)
| Err (e : E).
Arguments Ok {E A} a.
Arguments Err {E A} e.

Declare Scope result_scope.
Delimit Scope result_scope with result.

Definition rbind {E A B} (m : result E A) (k : A → result E B) : result E B :=
  match m with Ok a => k a | Err e => Err e end.

Definition map_err {E F A} (f : E → F) (m : result E A) : result F A :=
  match m with Ok a => Ok a | Err e => Err (f e) end.

Notation "'let!' x ':=' c 'in' k" := (rbind c (λ x, k))
  (at level 10, x pattern, c at level 100, k at level 200) : result_scope.

Definition is_ok {E A} (m : result E A) : bool :=
  match m with Ok _ => true | Err _ => false end.

Lemma rbind_Ok {E A B} (m : result E A) (k : A → result E B) b :
  rbind m k = Ok b ↔ ∃ a, m = Ok a ∧ k a = Ok b.
Proof.
  destruct m as [a|e]; cbn; [| split; [done | by intros (? & ? & _)]].
  split; [by exists a | by intros (? & [= <-] & ?)].
Qed.

Lemma map_err_Ok {E F A} (f : E → F) (m : result E A) a :
  map_err f m = Ok a ↔ m = Ok a.
Proof. destruct m; cbn; split; congruence. Qed.

(** [mapM] for results: the loop [for _, x := range xs { y, err := f(x); if
    err != nil { return err }; ys = append(ys, y) }]. *)
Fixpoint rmapM {E A B} (f : A → result E B) (l : list A) : result E (list B) :=
  match l with
  | [] => Ok []
  | x :: l => rbind (f x) (λ y, rbind (rmapM f l) (λ ys, Ok (y :: ys)))
  end.

Lemma rmapM_Ok {E A B} (f : A → result E B) l ys :
  rmapM f l = Ok ys ↔ Forall2 (λ x y, f x = Ok y) l ys.
Proof.
  revert ys. induction l as [|x l IH]; intros ys; cbn.
  - split; [intros [= <-]; constructor | inversion 1; done].
  - split.
    + intros (y & Hy & (ys' & Hys & [= <-])%rbind_Ok)%rbind_Ok.
      constructor; [done | by apply IH].
    + inversion 1 as [|? y ? ys' Hy Hys]; subst. rewrite Hy; cbn.
      by rewrite (proj2 (IH _) Hys).
Qed.

(** ** Time

    An instant ([time.Time]) is its distance in nanoseconds from the Unix
    epoch; the zero [time.Time] is the first second of year 1, and Go's
    [IsZero] compares with it.  A [time.Duration] is an [int64] count of
    nanoseconds: [Time.Sub] saturates at its bounds. *)
Abbreviation time := Z (only parsing).
Abbreviation duration := Z (only parsing).

Definition Nanosecond : duration := 1.
Definition Millisecond : duration := 1000000.
Definition Second : duration := 1000 * Millisecond.
Definition Minute : duration := 60 * Second.
Definition Hour : duration := 60 * Minute.

Definition time_zero : time := (- 62135596800) * Second.
Definition IsZero (t : time) : bool := t =? time_zero.

Definition int64_min : Z := - 2 ^ 63.
Definition int64_max : Z := 2 ^ 63 - 1.
Definition time_sub (t u : time) : duration :=
  Z.max int64_min (Z.min int64_max (t - u)).
Definition Milliseconds (d : duration) : Z := Z.quot d Millisecond.

Lemma time_sub_small t u :
  int64_min ≤ t - u ≤ int64_max → time_sub t u = t - u.
Proof. unfold time_sub. lia. Qed.

Lemma time_sub_mono t t' u : t ≤ t' → time_sub t u ≤ time_sub t' u.
Proof. unfold time_sub. lia. Qed.

Lemma Milliseconds_mono d d' : d ≤ d' → Milliseconds d ≤ Milliseconds d'.
Proof. intros. unfold Milliseconds, Millisecond. apply Z.quot_le_mono; lia. Qed.

(** ** Record update

    [r <|f := v|>] is the record [r] with field [f] set to [v].  A record type
    registers its expanded form [λ r, Build (f1 r) ... (fn r)] as its [Eta]
    instance; the setter of a field is that term with the field replaced. *)
Class Eta (R : Type) := eta : R → R.
Class Update {R A : Type} (f : R → A) := update : A → R → R.
Arguments update {R A} f {_} v r /.

Ltac solve_update f :=
  match type of f with
  | ?R → ?A =>
    exact (λ (v : A) (r : R), ltac:(
      let e := eval hnf in (@eta R _ r) in
      match e with
      | context C [f r] => let t := context C [v] in exact t
      end))
  end.
#[export] Hint Extern 0 (Update ?f) => solve_update f : typeclass_instances.

Notation "r <| f := v |>" := (update f v r)
  (at level 1, left associativity, format "r  <| f  :=  v |>").

(** ** Lists *)
Lemma elem_of_map {A B} (f : A → B) l y : y ∈ map f l ↔ ∃ x, y = f x ∧ x ∈ l.
Proof.
  rewrite list_elem_of_In, in_map_iff. setoid_rewrite list_elem_of_In.
  split; intros (x & ? & ?); exists x; by split.
Qed.

Lemma head_filter {A} (P : A → Prop) `{∀ x, Decision (P x)} l :
  is_Some (head (filter P l)) ↔ ∃ x, x ∈ l ∧ P x.
Proof.
  split.
  - intros [x Hx]. exists x. apply head_Some in Hx as [k Hk].
    assert (x ∈ filter P l) as [? ?]%list_elem_of_filter by (rewrite Hk; left). done.
  - intros (x & Hx & HP). destruct (filter P l) as [|y k] eqn:E; [| by eexists].
    assert (x ∈ filter P l) as Hf by by apply list_elem_of_filter. rewrite E in Hf.
    by apply elem_of_nil in Hf.
Qed.

Lemma existsb_elem_of {A} (p : A → bool) l : existsb p l = true ↔ ∃ x, x ∈ l ∧ p x = true.
Proof. rewrite existsb_exists. by setoid_rewrite list_elem_of_In. Qed.

Lemma elem_of_keys {A B} (l : list (A * B)) k v : (k, v) ∈ l → k ∈ l.*1.
Proof. intros Hl. apply elem_of_map. by exists (k, v). Qed.

Lemma NoDup_keys_inj {A B} (l : list (A * B)) k v v' : NoDup l.*1 → (k, v) ∈ l → (k, v') ∈ l → v = v'.
Proof.
  induction l as [|[k0 v0] l IH]; cbn; [by intros _ ?%elem_of_nil |].
  intros [Hn Hl]%NoDup_cons [[= <- <-]|H1]%elem_of_cons [[= <-]|H2]%elem_of_cons; [done | | | auto].
  all: destruct Hn; by eapply elem_of_keys.
Qed.

Lemma not_is_Some_false {A} (x : option A) : ¬ is_Some x ↔ x = None.
Proof. by rewrite eq_None_not_Some. Qed.

(** Evaluates to a boolean, for values too large to print. *)
Lemma is_Some_eval {A} (x : option A) :
  (match x with Some _ => true | None => false end) = true → is_Some x.
Proof. by destruct x. Qed.

(** ** Automation *)

Create HintDb regexp.
Create HintDb safe.
Create HintDb tame.
Create HintDb neutral.
Create Rewrite HintDb reflect.

Lemma bool_decide_eq_true' (P : Prop) `{Decision P} : bool_decide P = true ↔ P.
Proof. apply bool_decide_eq_true. Qed.
Lemma bool_decide_eq_false' (P : Prop) `{Decision P} : bool_decide P = false ↔ ¬ P.
Proof. apply bool_decide_eq_false. Qed.

#[export] Hint Rewrite andb_true_iff andb_false_iff orb_true_iff orb_false_iff
  negb_true_iff negb_false_iff Z.eqb_eq Z.eqb_neq Z.ltb_lt Z.ltb_ge Z.leb_le Z.leb_gt
  @bool_decide_eq_true' @bool_decide_eq_false' String.eqb_eq String.eqb_neq : reflect.

(** [split_ifs] splits every conditional of the goal and turns the tests into
    propositions. *)
Ltac split_ifs :=
  repeat match goal with
  | |- context [if ?b then _ else _] => destruct b eqn:?
  end;
  autorewrite with reflect in *.


(** [crush_match] splits every match or conditional whose scrutinee is in the
    goal or in a hypothesis, discharging the branches a constructor clash or
    linear arithmetic refutes. *)
Ltac crush_match :=
  repeat (case_match || case_bool_decide || case_decide);
  simplify_eq/=; try done; try lia.

(** [bool_to_Prop] turns the boolean tests the code makes into propositions. *)
Ltac bool_to_Prop :=
  repeat match goal with
  | H : _ && _ = true |- _ => apply andb_true_iff in H as [? ?]
  | H : _ || _ = false |- _ => apply orb_false_iff in H as [? ?]
  | H : negb _ = true |- _ => apply negb_true_iff in H
  | H : negb _ = false |- _ => apply negb_false_iff in H
  | H : (_ =? _)%Z = true |- _ => apply Z.eqb_eq in H
  | H : (_ =? _)%Z = false |- _ => apply Z.eqb_neq in H
  | H : (_ <? _)%Z = true |- _ => apply Z.ltb_lt in H
  | H : (_ <? _)%Z = false |- _ => apply Z.ltb_ge in H
  | H : (_ <=? _)%Z = true |- _ => apply Z.leb_le in H
  | H : (_ <=? _)%Z = false |- _ => apply Z.leb_gt in H
  | H : bool_decide _ = true |- _ => apply bool_decide_eq_true in H
  | H : bool_decide _ = false |- _ => apply bool_decide_eq_false in H
  end.
