(* ===== verification/GoString.v ===== *)
(** * Go's string type and the parts of [strings], [strconv], [unicode] and
    [unicode/utf8] the modelled code calls.

    A Go string is a byte sequence; it is a Rocq [string], whose characters
    are bytes.  Functions that look at characters decode UTF-8 first, the way
    Go does: an invalid byte is one [RuneError] of width one.  Tables of the
    Unicode character database that the functions consult beyond [IsSpace]
    (case mapping, simple folding, printability) are data of the Go
    distribution; they are the fields of the class [UnicodeTables]. *)

From S2P Require Import Prelude.

(** ** Bytes *)
Definition byte_of_ascii (a : Ascii.ascii) : Z := Z.of_N (Ascii.N_of_ascii a).
Definition ascii_of_byte (b : Z) : Ascii.ascii := Ascii.ascii_of_N (Z.to_N b).

Fixpoint bytes (s : string) : list Z :=
  match s with
  | EmptyString => []
  | String a s => byte_of_ascii a :: bytes s
  end.

Fixpoint of_bytes (l : list Z) : string :=
  match l with
  | [] => ""
  | b :: l => String (ascii_of_byte b) (of_bytes l)
  end.

Definition is_byte (b : Z) : Prop := 0 ≤ b < 256.

Lemma byte_of_ascii_range a : is_byte (byte_of_ascii a).
Proof. unfold is_byte, byte_of_ascii. pose proof (Ascii.N_ascii_bounded a). lia. Qed.

Lemma ascii_of_byte_of_ascii a : ascii_of_byte (byte_of_ascii a) = a.
Proof. unfold ascii_of_byte, byte_of_ascii. by rewrite N2Z.id, Ascii.ascii_N_embedding. Qed.

Lemma byte_of_ascii_of_byte b : is_byte b → byte_of_ascii (ascii_of_byte b) = b.
Proof.
  unfold is_byte, ascii_of_byte, byte_of_ascii. intros.
  rewrite Ascii.N_ascii_embedding; lia.
Qed.

Lemma of_bytes_bytes s : of_bytes (bytes s) = s.
Proof. induction s as [|a s IH]; cbn; [done | by rewrite ascii_of_byte_of_ascii, IH]. Qed.

Lemma bytes_of_bytes l : Forall is_byte l → bytes (of_bytes l) = l.
Proof. induction 1 as [|b l Hb _ IH]; cbn; [done | by rewrite byte_of_ascii_of_byte, IH]. Qed.

Lemma bytes_range s : Forall is_byte (bytes s).
Proof. induction s; cbn; constructor; auto using byte_of_ascii_range. Qed.

Lemma bytes_app s t : bytes (s +:+ t) = bytes s ++ bytes t.
Proof. induction s as [|a s IH]; [done |]. exact (f_equal (cons _) IH). Qed.

#[global] Instance bytes_inj : Inj (=) (=) bytes.
Proof. intros s t H. by rewrite <- (of_bytes_bytes s), H, of_bytes_bytes. Qed.

(** ** UTF-8 ([unicode/utf8]) *)
Definition RuneError : Z := 65533.

Definition cont (b : Z) : bool := (128 <=? b) && (b <=? 191).
Definition in_range (lo hi b : Z) : bool := (lo <=? b) && (b <=? hi).

(** The accepted range of the byte after a lead byte: [utf8.acceptRanges]. *)
Definition second_ok (b0 b1 : Z) : bool :=
  if b0 =? 224 then in_range 160 191 b1
  else if b0 =? 237 then in_range 128 159 b1
  else if b0 =? 240 then in_range 144 191 b1
  else if b0 =? 244 then in_range 128 143 b1
  else cont b1.

(** [utf8.DecodeRune] of a non-empty byte sequence: the rune, the byte when it
    is an invalid one (read as a [RuneError] of width one), and the width.  A
    missing byte reads as 0, which is no continuation byte. *)
Definition DecodeRune (l : list Z) : Z * option Z * nat :=
  let b0 := nth 0 l 0 in let b1 := nth 1 l 0 in
  let b2 := nth 2 l 0 in let b3 := nth 3 l 0 in
  if b0 <? 128 then (b0, None, 1%nat)
  else if in_range 194 223 b0 && cont b1 then
    ((b0 - 192) * 64 + (b1 - 128), None, 2%nat)
  else if in_range 224 239 b0 && second_ok b0 b1 && cont b2 then
    (((b0 - 224) * 64 + (b1 - 128)) * 64 + (b2 - 128), None, 3%nat)
  else if in_range 240 244 b0 && second_ok b0 b1 && cont b2 && cont b3 then
    ((((b0 - 240) * 64 + (b1 - 128)) * 64 + (b2 - 128)) * 64 + (b3 - 128), None, 4%nat)
  else (RuneError, Some b0, 1%nat).

(** The runes of a byte sequence, as [for _, r := range s] visits them.  Every
    round consumes at least one byte, so the length is enough fuel. *)
Fixpoint decode_fuel (n : nat) (l : list Z) : list (Z * option Z) :=
  match n, l with
  | S n, _ :: _ => (DecodeRune l).1 :: decode_fuel n (drop (DecodeRune l).2 l)
  | _, _ => []
  end.
Definition decode (l : list Z) : list (Z * option Z) := decode_fuel (length l) l.

(** The runes together with the bytes they were read from. *)
Fixpoint chunks_fuel (n : nat) (l : list Z) : list (Z * list Z) :=
  match n, l with
  | S n, _ :: _ =>
    let w := (DecodeRune l).2 in
    ((DecodeRune l).1.1, take w l) :: chunks_fuel n (drop w l)
  | _, _ => []
  end.
Definition chunks (s : string) : list (Z * list Z) := chunks_fuel (length (bytes s)) (bytes s).

Definition runes (s : string) : list Z := (decode (bytes s)).*1.

(** [len([]rune(s))] *)
Definition rune_count (s : string) : Z := Z.of_nat (length (decode (bytes s))).

(** [utf8.AppendRune]: an invalid rune is written as [RuneError]. *)
Definition encode_rune (r : Z) : list Z :=
  let enc3 r := [224 + r / 4096; 128 + r / 64 mod 64; 128 + r mod 64] in
  if in_range 0 127 r then [r]
  else if in_range 128 2047 r then [192 + r / 64; 128 + r mod 64]
  else if in_range 55296 57343 r then enc3 RuneError
  else if in_range 2048 65535 r then enc3 r
  else if in_range 65536 1114111 r then
    [240 + r / 262144; 128 + r / 4096 mod 64; 128 + r / 64 mod 64; 128 + r mod 64]
  else enc3 RuneError.

(** [string(rs)] of a [[]rune] *)
Definition string_of_runes (rs : list Z) : string := of_bytes (concat (map encode_rune rs)).

(** ** White space: [unicode.IsSpace], [strings.TrimSpace] *)
Definition IsSpace (r : Z) : bool :=
  in_range 9 13 r || (r =? 32) || (r =? 133) || (r =? 160) || (r =? 5760)
  || in_range 8192 8202 r || in_range 8232 8233 r || (r =? 8239) || (r =? 8287)
  || (r =? 12288).

(** The UTF-8 encodings of the white-space runes, by length.  UTF-8 is
    self-synchronising, so trimming white space off either end of a byte
    sequence is dropping these byte patterns off that end. *)
Definition space1 (b : Z) : bool := in_range 9 13 b || (b =? 32).
Definition space2 (b0 b1 : Z) : bool := (b0 =? 194) && ((b1 =? 133) || (b1 =? 160)).
Definition space3 (b0 b1 b2 : Z) : bool :=
  ((b0 =? 225) && (b1 =? 154) && (b2 =? 128))
  || ((b0 =? 226) && (b1 =? 128) && (in_range 128 138 b2 || in_range 168 169 b2 || (b2 =? 175)))
  || ((b0 =? 226) && (b1 =? 129) && (b2 =? 159))
  || ((b0 =? 227) && (b1 =? 128) && (b2 =? 128)).

Fixpoint trim_left (l : list Z) : list Z :=
  match l with
  | b0 :: l1 =>
    if space1 b0 then trim_left l1 else
    match l1 with
    | b1 :: l2 =>
      if space2 b0 b1 then trim_left l2 else
      match l2 with
      | b2 :: l3 => if space3 b0 b1 b2 then trim_left l3 else l
      | [] => l
      end
    | [] => l
    end
  | [] => l
  end.

(** [trim_left] on the reversed bytes: the patterns read backwards. *)
Fixpoint trim_left_rev (l : list Z) : list Z :=
  match l with
  | b0 :: l1 =>
    if space1 b0 then trim_left_rev l1 else
    match l1 with
    | b1 :: l2 =>
      if space2 b1 b0 then trim_left_rev l2 else
      match l2 with
      | b2 :: l3 => if space3 b2 b1 b0 then trim_left_rev l3 else l
      | [] => l
      end
    | [] => l
    end
  | [] => l
  end.
Definition trim_right (l : list Z) : list Z := rev (trim_left_rev (rev l)).

Definition TrimLeftSpace (s : string) : string := of_bytes (trim_left (bytes s)).
(** [strings.TrimRightFunc(s, unicode.IsSpace)] *)
Definition TrimRightSpace (s : string) : string := of_bytes (trim_right (bytes s)).
Definition TrimSpace (s : string) : string := of_bytes (trim_right (trim_left (bytes s))).

(** ** Searching and splitting *)
Definition HasPrefix (s p : string) : bool := String.prefix p s.

Fixpoint str_drop (n : nat) (s : string) : string :=
  match n, s with
  | S n, String _ s => str_drop n s
  | _, _ => s
  end.

Definition HasSuffix (s p : string) : bool :=
  (String.length p <=? String.length s)%nat
  && String.eqb (str_drop (String.length s - String.length p) s) p.

Definition TrimPrefix (s p : string) : string :=
  if HasPrefix s p then str_drop (String.length p) s else s.
Definition TrimSuffix (s p : string) : string :=
  if HasSuffix s p then String.substring 0 (String.length s - String.length p) s else s.

(** [strings.Cut], around the first occurrence of [sep]. *)
Fixpoint Cut (s sep : string) : option (string * string) :=
  if HasPrefix s sep then Some ("", str_drop (String.length sep) s)
  else match s with
       | EmptyString => None
       | String a s =>
         match Cut s sep with
         | Some (before, after) => Some (String a before, after)
         | None => None
         end
       end.

Definition Contains (s sub : string) : bool := bool_decide (is_Some (Cut s sub)).

(** [strings.Split] for a non-empty separator: each round cuts at least one
    byte off, so the length of the string is enough fuel. *)
Fixpoint split_fuel (n : nat) (s sep : string) : list string :=
  match n with
  | O => [s]
  | S n => match Cut s sep with
           | Some (before, after) => before :: split_fuel n after sep
           | None => [s]
           end
  end.
Definition Split (s sep : string) : list string := split_fuel (String.length s) s sep.

Definition Join (l : list string) (sep : string) : string := String.concat sep l.

(** [strings.ContainsAny] and [strings.TrimRight] for an ASCII set. *)
Definition ContainsAny (s set : string) : bool :=
  existsb (λ b, existsb (Z.eqb b) (bytes set)) (bytes s).
Fixpoint drop_while (p : Z → bool) (l : list Z) : list Z :=
  match l with
  | b :: l' => if p b then drop_while p l' else l
  | [] => []
  end.
Definition TrimRight (s cutset : string) : string :=
  of_bytes (rev (drop_while (λ b, existsb (Z.eqb b) (bytes cutset)) (rev (bytes s)))).

(** [strings.Fields]: the maximal runs of runes that are no white space. *)
Fixpoint fields_of (cs : list (Z * list Z)) (cur : list Z) : list (list Z) :=
  let flush := if bool_decide (cur = []) then [] else [cur] in
  match cs with
  | [] => flush
  | (r, b) :: cs => if IsSpace r then flush ++ fields_of cs [] else fields_of cs (cur ++ b)
  end.
Definition Fields (s : string) : list string := map of_bytes (fields_of (chunks s) []).

(** [s[:n]] for [n] within the length, and [strings.ToValidUTF8] with the
    empty replacement. *)
Definition str_prefix (n : nat) (s : string) : string := of_bytes (take n (bytes s)).
Definition ToValidUTF8 (s : string) : string :=
  of_bytes (concat (map (λ '(d, c), match d with (_, None) => c | (_, Some _) => [] end)
                      (zip (decode (bytes s)) (chunks s).*2))).

(** [strconv.FormatInt(n, 10)] *)
Definition FormatInt (n : Z) : string := pretty n.

(** ** Case, folding and quoting *)
Class UnicodeTables := {
  rune_lower : Z → Z;             (** [unicode.ToLower] *)
  rune_upper : Z → Z;             (** [unicode.ToUpper] *)
  rune_fold : Z → Z → bool;       (** equal under [unicode.SimpleFold] orbits *)
  rune_print : Z → bool;          (** [strconv.IsPrint] *)
  rune_letter : Z → bool;         (** [unicode.L] *)
  rune_number : Z → bool;         (** [unicode.N] *)
  rune_punct : Z → bool;          (** [unicode.IsPunct] *)
  rune_lower_ascii r : in_range 0 127 r = true →
    rune_lower r = if in_range 65 90 r then r + 32 else r;
  rune_upper_ascii r : in_range 0 127 r = true →
    rune_upper r = if in_range 97 122 r then r - 32 else r;
  rune_fold_refl r : rune_fold r r = true;
  rune_fold_ascii r r' : in_range 0 127 r = true → in_range 0 127 r' = true →
    rune_fold r r' = (rune_lower r =? rune_lower r');
  rune_letter_ascii r : in_range 0 127 r = true →
    rune_letter r = in_range 65 90 r || in_range 97 122 r;
  rune_number_ascii r : in_range 0 127 r = true → rune_number r = in_range 48 57 r;
}.

Definition ascii_only (s : string) : bool := forallb (λ b, b <? 128) (bytes s).

Section case.
Context `{UnicodeTables}.

(** [strings.ToLower] / [strings.ToUpper] map bytes directly when the string
    is ASCII and re-encode the mapped runes otherwise. *)
Definition ToLower (s : string) : string :=
  if ascii_only s then of_bytes (map rune_lower (bytes s))
  else of_bytes (concat (map (λ r, encode_rune (rune_lower r)) (runes s))).
Definition ToUpper (s : string) : string :=
  if ascii_only s then of_bytes (map rune_upper (bytes s))
  else of_bytes (concat (map (λ r, encode_rune (rune_upper r)) (runes s))).

Fixpoint fold_runes (l k : list Z) : bool :=
  match l, k with
  | [], [] => true
  | r :: l, r' :: k => rune_fold r r' && fold_runes l k
  | _, _ => false
  end.
Definition EqualFold (s t : string) : bool := fold_runes (runes s) (runes t).

Definition hex_digit (d : Z) : Z := if d <? 10 then 48 + d else 87 + d.
Fixpoint hex_pad (n : nat) (v : Z) : list Z :=
  match n with
  | O => []
  | S n => hex_pad n (v / 16) ++ [hex_digit (v mod 16)]
  end.

(** [strconv.appendEscapedRune] with the quote [q] *)
Definition quote_rune (q : Z) (rv : Z * option Z) : list Z :=
  let (r, invalid) := rv in
  match invalid with Some b => [92; 120] ++ hex_pad 2 b | None =>
  if (r =? q) || (r =? 92) then [92; r]
  else if rune_print r then encode_rune r
  else if r =? 7 then [92; 97] else if r =? 8 then [92; 98]
  else if r =? 12 then [92; 102] else if r =? 10 then [92; 110]
  else if r =? 13 then [92; 114] else if r =? 9 then [92; 116]
  else if r =? 11 then [92; 118]
  else if (r <? 32) || (r =? 127) then [92; 120] ++ hex_pad 2 r
  else if r <? 65536 then [92; 117] ++ hex_pad 4 r
  else [92; 85] ++ hex_pad 8 r
  end.
Definition Quote (s : string) : string :=
  of_bytes ([34] ++ concat (map (quote_rune 34) (decode (bytes s))) ++ [34]).
Definition QuoteRune (r : Z) : string := of_bytes ([39] ++ quote_rune 39 (r, None) ++ [39]).
End case.

(** An instance that is exact on ASCII and leaves every other rune as it is:
    the concrete tables the witnesses run with. *)
Definition ascii_lower (r : Z) : Z := if in_range 65 90 r then r + 32 else r.
Definition ascii_upper (r : Z) : Z := if in_range 97 122 r then r - 32 else r.
Lemma ascii_lower_eqb_refl r : (ascii_lower r =? ascii_lower r) = true.
Proof. apply Z.eqb_refl. Qed.
Definition ascii_tables : UnicodeTables := {|
  rune_lower := ascii_lower; rune_upper := ascii_upper;
  rune_fold r r' := ascii_lower r =? ascii_lower r';
  rune_print r := in_range 32 126 r;
  rune_letter r := in_range 65 90 r || in_range 97 122 r;
  rune_number r := in_range 48 57 r;
  rune_punct r := in_range 33 35 r || in_range 37 42 r || in_range 44 47 r
    || in_range 58 59 r || in_range 63 64 r || in_range 91 93 r || (r =? 95)
    || (r =? 123) || (r =? 125);
  rune_lower_ascii r _ := eq_refl; rune_upper_ascii r _ := eq_refl;
  rune_fold_refl := ascii_lower_eqb_refl; rune_fold_ascii r r' _ _ := eq_refl;
  rune_letter_ascii r _ := eq_refl; rune_number_ascii r _ := eq_refl;
|}.

(** ** Decoding *)
Lemma DecodeRune_width_pos l : (1 ≤ (DecodeRune l).2)%nat.
Proof. unfold DecodeRune. repeat case_match; cbn; lia. Qed.

Lemma decode_fuel_enough n l : (length l ≤ n)%nat → decode_fuel n l = decode l.
Proof.
  enough (∀ n m l, (length l ≤ n)%nat → (length l ≤ m)%nat →
    decode_fuel n l = decode_fuel m l) as H by (intros; by apply H).
  clear. induction n as [|n IH]; intros m [|b l] Hn Hm; try (by destruct m); cbn in Hn; [lia|].
  destruct m as [|m]; cbn in Hm; [lia|]. cbn. f_equal.
  pose proof (DecodeRune_width_pos (b :: l)).
  apply IH; rewrite length_drop; cbn; lia.
Qed.

Lemma decode_unfold b l :
  decode (b :: l) = (DecodeRune (b :: l)).1 :: decode (drop (DecodeRune (b :: l)).2 (b :: l)).
Proof.
  unfold decode at 1. cbn [length decode_fuel]. f_equal. apply decode_fuel_enough.
  pose proof (DecodeRune_width_pos (b :: l)). rewrite length_drop; cbn; lia.
Qed.

Lemma cont_ascii b : b < 128 → cont b = false.
Proof. intros. unfold cont. destruct (Z.leb_spec 128 b); [lia | done]. Qed.

Lemma second_ok_lead b0 b : cont b = false → second_ok b0 b = false.
Proof. unfold second_ok, cont, in_range. intros. repeat case_match; lia. Qed.

(** A byte that is no continuation byte starts a new rune. *)
Lemma DecodeRune_app_lead l b k :
  cont b = false → l ≠ [] →
  DecodeRune (l ++ b :: k) = DecodeRune l ∧ ((DecodeRune l).2 ≤ length l)%nat.
Proof.
  intros Hb Hl. assert (cont 0 = false) as H0 by done. unfold DecodeRune.
  destruct l as [|b0 [|b1 [|b2 [|b3 l]]]]; [done | ..]; cbn [nth app length];
    rewrite ?Hb, ?H0, ?(second_ok_lead _ b), ?(second_ok_lead _ 0), ?andb_false_r by done; cbn [andb];
    rewrite ?andb_false_r; split; try done; repeat case_match; cbn; lia.
Qed.

Lemma decode_app_lead l b k :
  cont b = false → decode (l ++ b :: k) = decode l ++ decode (b :: k).
Proof.
  intros Hb. remember (length l) as n eqn:Hn. revert l Hn.
  induction n as [n IH] using lt_wf_ind. intros [|b0 l] ->; [done |].
  destruct (DecodeRune_app_lead (b0 :: l) b k Hb) as [HD Hw]; [done |].
  pose proof (DecodeRune_width_pos (b0 :: l)).
  rewrite <- app_comm_cons, (decode_unfold b0 (l ++ _)), (decode_unfold b0 l).
  rewrite app_comm_cons, HD.
  cbn [app]. f_equal. rewrite app_comm_cons, drop_app_le by done.
  eapply IH; [| reflexivity]. rewrite length_drop. cbn in *; lia.
Qed.

Lemma decode_app_ascii l b k : b < 128 → decode (l ++ b :: k) = decode l ++ decode (b :: k).
Proof. intros. by apply decode_app_lead, cont_ascii. Qed.

Lemma rune_count_app_ascii s c t :
  byte_of_ascii c < 128 →
  rune_count (s +:+ String c t) = rune_count s + rune_count (String c t).
Proof.
  intros. unfold rune_count. rewrite bytes_app. cbn [bytes].
  rewrite decode_app_ascii, length_app by done. lia.
Qed.

Lemma rune_count_nonneg s : 0 ≤ rune_count s.
Proof. unfold rune_count. lia. Qed.

(** ** Separators of one character *)
Definition chr (c : Ascii.ascii) : string := String c "".

Fixpoint has_char (c : Ascii.ascii) (s : string) : bool :=
  match s with
  | EmptyString => false
  | String a s => Ascii.eqb a c || has_char c s
  end.

Lemma has_char_app c s t : has_char c (s +:+ t) = has_char c s || has_char c t.
Proof.
  induction s as [|a s IH]; [done |].
  change (Ascii.eqb a c || has_char c (s +:+ t) = Ascii.eqb a c || has_char c s || has_char c t).
  by rewrite IH, orb_assoc.
Qed.

Lemma HasPrefix_chr c a s : HasPrefix (String a s) (chr c) = Ascii.eqb a c.
Proof.
  unfold HasPrefix, chr. cbn. destruct (Ascii.ascii_dec c a) as [->|Hne].
  - by rewrite Ascii.eqb_refl; destruct s.
  - symmetry. apply Ascii.eqb_neq. congruence.
Qed.

Lemma Cut_chr_unfold c a s :
  Cut (String a s) (chr c) =
  if Ascii.eqb a c then Some ("", s)
  else match Cut s (chr c) with Some (x, y) => Some (String a x, y) | None => None end.
Proof. cbn [Cut]. by rewrite HasPrefix_chr. Qed.

Lemma Cut_chr_None c s : Cut s (chr c) = None ↔ has_char c s = false.
Proof.
  induction s as [|a s IH]; [done |]. rewrite Cut_chr_unfold. cbn [has_char].
  destruct (Ascii.eqb a c); cbn; [done |]. rewrite <- IH.
  destruct (Cut s (chr c)) as [[??]|]; done.
Qed.

Lemma Cut_chr_Some c s x y :
  Cut s (chr c) = Some (x, y) ↔ s = x +:+ String c y ∧ has_char c x = false.
Proof.
  revert x. induction s as [|a s IH]; intros x.
  { split; [done |]. intros [H _]. destruct x; discriminate H. }
  rewrite Cut_chr_unfold. destruct (Ascii.eqb a c) eqn:E.
  - apply Ascii.eqb_eq in E as ->. split.
    + intros [= <- <-]. done.
    + destruct x as [|a x]; [intros [[= ->] _]; done |].
      intros [[= -> _] Hx]. cbn in Hx. by rewrite Ascii.eqb_refl in Hx.
  - destruct x as [|a' x].
    + split; [by destruct (Cut s (chr c)) as [[??]|] |].
      intros [[= -> _] _]. by rewrite Ascii.eqb_refl in E.
    + cbn [has_char]. specialize (IH x). split.
      * destruct (Cut s (chr c)) as [[x' y']|]; [| done]. intros [= <- <- <-].
        destruct IH as [[-> ->] _]; [done |]. rewrite E. done.
      * intros [[= <- ->] [_ Hx]%orb_false_iff]. by rewrite (proj2 IH).
Qed.

Lemma Cut_chr_app c x y :
  has_char c x = false → Cut (x +:+ String c y) (chr c) = Some (x, y).
Proof. intros. by apply Cut_chr_Some. Qed.

Lemma str_length_app s t : String.length (s +:+ t) = (String.length s + String.length t)%nat.
Proof. induction s as [|a s IH]; [done |]. exact (f_equal S IH). Qed.

Lemma split_fuel_chr_None n c s : has_char c s = false → split_fuel n s (chr c) = [s].
Proof. intros H%Cut_chr_None. destruct n; cbn; [done | by rewrite H]. Qed.

Lemma Join_cons2 x y l sep : Join (x :: y :: l) sep = x +:+ sep +:+ Join (y :: l) sep.
Proof. done. Qed.

Lemma split_fuel_Join n c x l :
  Forall (λ s, has_char c s = false) (x :: l) →
  (String.length (Join (x :: l) (chr c)) ≤ n)%nat →
  split_fuel n (Join (x :: l) (chr c)) (chr c) = x :: l.
Proof.
  revert x n. induction l as [|y l IH]; intros x n [Hx Hl]%Forall_cons Hn.
  { by apply split_fuel_chr_None. }
  rewrite Join_cons2 in *. change (chr c +:+ Join (y :: l) (chr c))
    with (String c (Join (y :: l) (chr c))) in *.
  rewrite str_length_app in Hn. cbn [String.length] in Hn.
  destruct n as [|n]; [lia |]. cbn [split_fuel].
  rewrite Cut_chr_app by done. f_equal. apply IH; [done | lia].
Qed.

(** [strings.Split] undoes [strings.Join] of separator-free parts. *)
Lemma Split_Join c x l :
  Forall (λ s, has_char c s = false) (x :: l) →
  Split (Join (x :: l) (chr c)) (chr c) = x :: l.
Proof. intros. by apply split_fuel_Join. Qed.

(** ** Trimming and case mapping of clean ASCII strings *)
Lemma trim_left_solid b l : 32 < b < 128 → trim_left (b :: l) = b :: l.
Proof.
  intros. cbn. unfold space1, space2, space3, in_range.
  replace (b =? 32) with false by lia. replace (b <=? 13) with false by lia.
  rewrite andb_false_r. cbn [orb].
  destruct l as [|b1 [|b2 l]]; [done | ..]; replace (b =? 194) with false by lia; cbn; [done |].
  replace (b =? 225) with false by lia. replace (b =? 226) with false by lia.
  by replace (b =? 227) with false by lia.
Qed.

Lemma trim_left_rev_solid b l : 32 < b < 128 → trim_left_rev (b :: l) = b :: l.
Proof.
  intros. cbn. unfold space1, space2, space3, in_range.
  replace (b =? 32) with false by lia. replace (b <=? 13) with false by lia.
  rewrite andb_false_r. cbn [orb].
  destruct l as [|b1 [|b2 l]]; [done | ..];
    replace (b =? 133) with false by lia; replace (b =? 160) with false by lia;
    cbn [orb]; rewrite !andb_false_r; [done |].
  replace (b =? 128) with false by lia. replace (b =? 175) with false by lia.
  replace (b =? 159) with false by lia. replace (128 <=? b) with false by lia.
  replace (168 <=? b) with false by lia. cbn [orb andb]. by rewrite !andb_false_r.
Qed.

(** A string that starts and ends with a non-space ASCII character is its own
    trimmed form. *)
Lemma TrimSpace_ends s b c :
  head (bytes s) = Some b → last (bytes s) = Some c → 32 < b < 128 → 32 < c < 128 →
  TrimSpace s = s.
Proof.
  intros (k & Hk)%head_Some (l & Hl)%last_Some Hb Hc. unfold TrimSpace.
  rewrite Hk, trim_left_solid, <- Hk, Hl by done. unfold trim_right.
  rewrite rev_app_distr. cbn [rev app]. rewrite trim_left_rev_solid by done.
  cbn [rev]. rewrite rev_involutive, <- Hl. apply of_bytes_bytes.
Qed.

(** ** [strconv.Atoi] *)
Definition is_digit (b : Z) : bool := in_range 48 57 b.
Definition digits_value (l : list Z) : Z := foldl (λ n b, 10 * n + (b - 48)) 0 l.
Definition parse_digits (l : list Z) : option Z :=
  if negb (bool_decide (l = [])) && forallb is_digit l then Some (digits_value l) else None.
Definition Atoi (s : string) : option Z :=
  let v := match bytes s with
           | 43 :: l => parse_digits l
           | 45 :: l => Z.opp <$> parse_digits l
           | l => parse_digits l
           end in
  match v with
  | Some n => if (int64_min <=? n) && (n <=? int64_max) then Some n else None
  | None => None
  end.

Definition lower_ascii (s : string) : bool :=
  forallb (λ b, (b <? 128) && negb (in_range 65 90 b)) (bytes s).

Lemma ToLower_id `{UnicodeTables} s : lower_ascii s = true → ToLower s = s.
Proof.
  unfold lower_ascii, ToLower, ascii_only. rewrite forallb_forall. intros Hs.
  replace (forallb _ _) with true.
  2:{ symmetry. apply forallb_forall. intros b Hb%Hs. by bool_to_Prop; lia. }
  rewrite <- (of_bytes_bytes s) at 2. f_equal.
  rewrite <- (map_id (bytes s)) at 2. apply map_ext_in. intros b Hb.
  pose proof (proj1 (List.Forall_forall _ _) (bytes_range s) _ Hb) as Hr.
  apply Hs in Hb. unfold is_byte in Hr. bool_to_Prop.
  rewrite rune_lower_ascii by (unfold in_range; lia). by case_match.
Qed.

Lemma bytes_nil s : bytes s = [] ↔ s = "".
Proof. split; [by destruct s | by intros ->]. Qed.

(** [all_bytes p s]: every byte of [s] passes [p]. *)
Definition all_bytes (p : Z → bool) (s : string) : bool := forallb p (bytes s).

Lemma all_bytes_app p s t : all_bytes p (s +:+ t) = all_bytes p s && all_bytes p t.
Proof. unfold all_bytes. by rewrite bytes_app, forallb_app. Qed.

Lemma all_bytes_impl p q s :
  (∀ b, p b = true → q b = true) → all_bytes p s = true → all_bytes q s = true.
Proof. unfold all_bytes. rewrite !forallb_forall. auto. Qed.

Lemma has_char_all_bytes c s :
  all_bytes (λ b, negb (b =? byte_of_ascii c)) s = true → has_char c s = false.
Proof.
  induction s as [|a s IH]; cbn; [done |]. intros [Ha Hs]%andb_true_iff.
  rewrite IH by done. rewrite orb_false_r. apply Ascii.eqb_neq. intros ->.
  by rewrite Z.eqb_refl in Ha.
Qed.

Lemma head_all_bytes p s b : all_bytes p s = true → head (bytes s) = Some b → p b = true.
Proof. unfold all_bytes. destruct (bytes s); [done |]. cbn. intros [? _]%andb_true_iff [= <-]. done. Qed.

Lemma last_all_bytes p s b : all_bytes p s = true → last (bytes s) = Some b → p b = true.
Proof.
  unfold all_bytes. intros Hs (l & Hl)%last_Some. rewrite Hl, forallb_app in Hs.
  apply andb_true_iff in Hs as [_ Hs]. cbn in Hs. by rewrite andb_true_r in Hs.
Qed.

(** ** [strings.Fields] undoes [strings.Join] with a space *)

(** A non-empty word of visible ASCII characters. *)
Definition word_ok (s : string) : bool :=
  negb (bool_decide (s = "")) && forallb (in_range 33 126) (bytes s).

Lemma chunks_ascii n l :
  (length l ≤ n)%nat → Forall (λ b, b < 128) l → chunks_fuel n l = map (λ b, (b, [b])) l.
Proof.
  revert n. induction l as [|b l IH]; intros [|n] Hn Hl; cbn in *; try done; try lia.
  inversion Hl as [|? ? Hb Hl']; subst. unfold DecodeRune. cbn.
  rewrite (proj2 (Z.ltb_lt _ _) Hb). cbn. rewrite take_0, drop_0, IH by (done || lia). done.
Qed.

Lemma fields_of_word w cs cur :
  forallb (in_range 33 126) w = true →
  fields_of (map (λ b, (b, [b])) w ++ cs) cur = fields_of cs (cur ++ w).
Proof.
  revert cur. induction w as [|b w IH]; intros cur Hw; cbn in *; [by rewrite app_nil_r |].
  apply andb_true_iff in Hw as [Hb Hw]. unfold in_range in Hb. bool_to_Prop.
  assert (IsSpace b = false) as -> by (unfold IsSpace, in_range; destruct_or?; lia).
  rewrite IH by done. by rewrite <- (assoc_L (++)).
Qed.

Lemma bytes_Join_cons x l :
  bytes (Join (x :: l) " ") = bytes x ++ flat_map (λ y, 32 :: bytes y) l.
Proof.
  revert x. induction l as [|y l IH]; intros x; [by rewrite app_nil_r |].
  rewrite Join_cons2, !bytes_app, IH. by cbn.
Qed.

Lemma Fields_Join l : Forall word_ok l → Fields (Join l " ") = l.
Proof.
  intros Hl. destruct l as [|x l]; [done |]. unfold Fields, chunks. rewrite chunks_ascii; [| done |].
  - rewrite bytes_Join_cons, map_app. inversion Hl as [|? ? Hx Hl']; subst. clear Hl.
    revert x Hx. induction Hl' as [|y l Hy Hl IH]; intros x [Hne Hx]%Is_true_true%andb_true_iff.
    all: rewrite fields_of_word by done; cbn [app].
    all: assert (bytes x ≠ []) as Hbx by (by destruct x).
    + cbn. rewrite bool_decide_false by done. cbn. by rewrite of_bytes_bytes.
    + cbn. rewrite bool_decide_false by done. cbn. rewrite map_app. rewrite IH by done.
      by rewrite of_bytes_bytes.
  - rewrite bytes_Join_cons.
    assert (∀ y, word_ok y → Forall (λ b, b < 128) (bytes y)) as Hy.
    { intros y [_ Hy]%Is_true_true%andb_true_iff. apply Forall_forall. intros b Hb.
      rewrite forallb_forall in Hy. apply list_elem_of_In, Hy in Hb. unfold in_range in Hb. lia. }
    inversion Hl as [|? ? Hx Hl']; subst. apply Forall_app. split; [auto |]. clear Hx Hl x.
    induction Hl' as [|y l Hyy Hl' IH]; cbn; constructor; [lia |]. apply Forall_app. auto.
Qed.

(** The chunks of a string hold its bytes. *)
Lemma chunks_bytes s : Forall (λ c, Forall is_byte c.2) (chunks s).
Proof.
  unfold chunks. pose proof (bytes_range s) as Hb. generalize (length (bytes s)) as n. revert Hb.
  generalize (bytes s) as l. intros l Hb n. revert l Hb. induction n as [|n IH]; intros [|b l] Hb; try constructor.
  - by apply Forall_take.
  - apply IH. by apply Forall_drop.
Qed.
