(* ===== verification/Regexp.v ===== *)
(** * Go's [regexp] as the code uses it

    Patterns are syntax trees over rune predicates.  [ends] lists the ends of
    the matches that start at a position in the priority order of a
    leftmost-first (Perl-like) engine; [rmatch] is the declarative meaning of a
    pattern, and [elem_of_ends] states that the two agree. *)

From S2P Require Import Prelude GoString.

Inductive regex :=
| Empty
| Rune (p : Z → bool)
| Cat (r1 r2 : regex)
| Alt (r1 r2 : regex)            (** prefers [r1] *)
| Star (greedy : bool) (r : regex)
| BeginText
| EndText
| WordB.

(** ** Derived forms *)
Definition Opt (r : regex) : regex := Alt r Empty.
Definition OptLazy (r : regex) : regex := Alt Empty r.
Definition Plus (r : regex) : regex := Cat r (Star true r).
Definition cats (l : list regex) : regex := foldr Cat Empty l.
Fixpoint alts (r : regex) (l : list regex) : regex :=
  match l with [] => r | r' :: l => Alt r (alts r' l) end.

(** [x{n}], [x{n,}] and [x{n,m}] as Go's simplifier expands them. *)
Definition Exactly (n : nat) (r : regex) : regex := cats (replicate n r).
Definition AtLeast (n : nat) (r : regex) : regex := Cat (Exactly n r) (Star true r).
Fixpoint up_to (opt : regex → regex) (m : nat) (r : regex) : regex :=
  match m with O => Empty | S m => opt (Cat r (up_to opt m r)) end.
Definition Between (n m : nat) (r : regex) : regex := Cat (Exactly n r) (up_to Opt (m - n) r).
Definition UpToLazy (m : nat) (r : regex) : regex := up_to OptLazy m r.

Definition is_word (r : Z) : bool :=
  in_range 48 57 r || in_range 65 90 r || in_range 97 122 r || (r =? 95).
Definition digit : regex := Rune (in_range 48 57).
(** [\s] is the ASCII blanks without the vertical tab. *)
Definition is_blank (r : Z) : bool :=
  (r =? 9) || (r =? 10) || (r =? 12) || (r =? 13) || (r =? 32).
Definition blank : regex := Rune is_blank.
Definition nonblank : regex := Rune (λ r, negb (is_blank r)).
Definition one_of (s : string) (r : Z) : bool := existsb (Z.eqb r) (runes s).
Definition lit (s : string) : regex := cats (map (λ c, Rune (Z.eqb c)) (runes s)).

Section fold.
Context `{UnicodeTables}.

(** Under [(?i)] a literal or a class also matches what folds to it. *)
Definition ilit (s : string) : regex := cats (map (λ c, Rune (rune_fold c)) (runes s)).
Definition irange (lo hi : Z) (r : Z) : bool :=
  existsb (λ c, rune_fold c r) (seqZ lo (hi - lo + 1)).
Definition ialts (s : string) : regex :=
  match Split s "|" with
  | x :: l => alts (ilit x) (map ilit l)
  | [] => Empty
  end.
(** [\p{L}] under [(?i)] also holds U+0345, which folds into the category. *)
Definition iletter (r : Z) : bool := rune_letter r || (r =? 837).
End fold.

(** ** The engine *)
Section engine.
Variable u : list Z.

Definition word_at (i : nat) : bool :=
  match u !! i with Some r => is_word r | None => false end.
Definition word_before (i : nat) : bool :=
  match i with O => false | S i => word_at i end.

(** Drops the later occurrences: an earlier thread at the same position has
    priority. *)
Fixpoint nub (seen l : list nat) : list nat :=
  match l with
  | [] => []
  | x :: l => if bool_decide (x ∈ seen) then nub seen l else x :: nub (x :: seen) l
  end.

(** Each round of a star advances, so as many rounds as runes are enough. *)
Fixpoint star_ends (n : nat) (greedy : bool) (body : nat → list nat) (i : nat) : list nat :=
  match n with
  | O => [i]
  | S n =>
    let more := flat_map (star_ends n greedy body) (filter (λ j, (i < j)%nat) (body i)) in
    nub [] (if greedy then more ++ [i] else i :: more)
  end.

Fixpoint ends (r : regex) (i : nat) : list nat :=
  match r with
  | Empty => [i]
  | Rune p => match u !! i with
              | Some c => if p c then [S i] else []
              | None => []
              end
  | Cat r1 r2 => nub [] (flat_map (ends r2) (ends r1 i))
  | Alt r1 r2 => nub [] (ends r1 i ++ ends r2 i)
  | Star g r => star_ends (length u - i) g (ends r) i
  | BeginText => if (i =? 0)%nat then [i] else []
  | EndText => if (i =? length u)%nat then [i] else []
  | WordB => if xorb (word_before i) (word_at i) then [i] else []
  end.

(** The leftmost match that starts at [i] or later; [n] bounds the number of
    starts tried. *)
Fixpoint find_from (n : nat) (r : regex) (i : nat) : option (nat * nat) :=
  match ends r i with
  | j :: _ => Some (i, j)
  | [] => match n with O => None | S n => find_from n r (S i) end
  end.

Definition MatchRunes (r : regex) : bool := bool_decide (is_Some (find_from (length u) r 0)).

(** [allMatches]: an empty match at the search position moves the position on
    by one rune, and is skipped next to the previous match. *)
Fixpoint find_all (n : nat) (r : regex) (pos : nat) (prev : option nat) : list (nat * nat) :=
  match n with
  | O => []
  | S n =>
    if (length u <? pos)%nat then [] else
    match find_from (length u - pos) r pos with
    | None => []
    | Some (i, j) =>
      let rest := find_all n r (if (j =? pos)%nat then S pos else j) (Some j) in
      if (j =? pos)%nat && bool_decide (prev = Some i) then rest else (i, j) :: rest
    end
  end.
Definition FindAllRunes (r : regex) : list (nat * nat) := find_all (S (length u)) r 0 None.
End engine.

Definition MatchString (r : regex) (s : string) : bool := MatchRunes (runes s) r.

(** [FindAllStringIndex], each match with the text it covers and the text
    after it. *)
Definition FindAllString (r : regex) (s : string) : list (string * string) :=
  let cs := chunks s in
  map (λ '(i, j), (of_bytes (concat (take (j - i) (drop i cs)).*2),
                   of_bytes (concat (drop j cs).*2)))
      (FindAllRunes (runes s) r).

(** ** The engine finds exactly the matches *)
Section meaning.
Variable u : list Z.

Inductive rmatch : regex → nat → nat → Prop :=
| rmatch_empty i : rmatch Empty i i
| rmatch_rune p i c : u !! i = Some c → p c = true → rmatch (Rune p) i (S i)
| rmatch_cat r1 r2 i j k : rmatch r1 i j → rmatch r2 j k → rmatch (Cat r1 r2) i k
| rmatch_altl r1 r2 i j : rmatch r1 i j → rmatch (Alt r1 r2) i j
| rmatch_altr r1 r2 i j : rmatch r2 i j → rmatch (Alt r1 r2) i j
| rmatch_star0 g r i : rmatch (Star g r) i i
| rmatch_star1 g r i j k : rmatch r i j → rmatch (Star g r) j k → rmatch (Star g r) i k
| rmatch_begin : rmatch BeginText 0 0
| rmatch_end : rmatch EndText (length u) (length u)
| rmatch_word i : xorb (word_before u i) (word_at u i) = true → rmatch WordB i i.

Lemma elem_of_nub seen l x : x ∈ nub seen l ↔ x ∈ l ∧ x ∉ seen.
Proof.
  revert seen. induction l as [|y l IH]; intros seen; cbn.
  { rewrite elem_of_nil. tauto. }
  case_bool_decide; rewrite ?elem_of_cons, IH, ?elem_of_cons, ?not_elem_of_cons.
  - split; [tauto |]. intros [[->|?] ?]; tauto.
  - destruct (decide (x = y)) as [->|]; tauto.
Qed.

Lemma elem_of_flat_map {A B} (f : A → list B) l y :
  y ∈ flat_map f l ↔ ∃ x, x ∈ l ∧ y ∈ f x.
Proof.
  rewrite list_elem_of_In, in_flat_map. by setoid_rewrite list_elem_of_In.
Qed.

Lemma rmatch_bounds r i j :
  rmatch r i j → (i ≤ j)%nat ∧ (i < j → j ≤ length u)%nat.
Proof.
  induction 1; try lia.
  apply lookup_lt_Some in H. lia.
Qed.

Lemma rmatch_star_inv g r i k :
  rmatch (Star g r) i k → k = i ∨ ∃ j, (i < j)%nat ∧ rmatch r i j ∧ rmatch (Star g r) j k.
Proof.
  intros Hm. remember (Star g r) as s eqn:Hs. revert Hs.
  induction Hm; intros [=]; subst; [by left |].
  destruct (decide (i = j)) as [->|Hne]; [by apply IHHm2 |].
  right. exists j. pose proof (rmatch_bounds _ _ _ Hm1). split_and!; [lia | done..].
Qed.

Lemma elem_of_star_ends n g r i k :
  (∀ i j, j ∈ ends u r i ↔ rmatch r i j) → (length u - i ≤ n)%nat →
  k ∈ star_ends n g (ends u r) i ↔ rmatch (Star g r) i k.
Proof.
  intros Hbody. revert i. induction n as [|n IH]; intros i Hn; cbn.
  - rewrite list_elem_of_singleton. split; [intros ->; constructor |].
    intros [->|(j & Hij & [_ Hm]%rmatch_bounds & _)]%rmatch_star_inv; [done | lia].
  - assert (k ∈ flat_map (star_ends n g (ends u r)) (filter (λ j, (i < j)%nat) (ends u r i)) ↔
      ∃ j, (i < j)%nat ∧ rmatch r i j ∧ rmatch (Star g r) j k) as Hmore.
    { rewrite elem_of_flat_map. split.
      - intros (j & [Hij Hj]%list_elem_of_filter & Hk). exists j.
        split_and!; [done | by apply Hbody | by apply IH; [lia |]].
      - intros (j & Hij & Hj & Hk). exists j. rewrite list_elem_of_filter, Hbody.
        split; [done | apply IH; [lia | done]]. }
    assert (k = i ∨ (∃ j, (i < j)%nat ∧ rmatch r i j ∧ rmatch (Star g r) j k) ↔
      rmatch (Star g r) i k) as <-.
    { split; [| apply rmatch_star_inv].
      intros [->|(j & _ & ? & ?)]; [constructor | by eapply rmatch_star1]. }
    rewrite elem_of_nub, <- Hmore.
    destruct g; rewrite ?elem_of_app, ?elem_of_cons, ?elem_of_nil; tauto.
Qed.

Lemma elem_of_ends r i j : j ∈ ends u r i ↔ rmatch r i j.
Proof.
  revert i j. induction r as [|p|r1 IH1 r2 IH2|r1 IH1 r2 IH2|g r IH| | |]; intros i j; cbn [ends].
  - rewrite list_elem_of_singleton. split; [intros ->; constructor | by inversion 1].
  - split.
    + destruct (u !! i) as [c|] eqn:Hc; [destruct (p c) eqn:Hp |];
        rewrite ?list_elem_of_singleton, ?elem_of_nil; try done. intros ->. by econstructor.
    + inversion 1 as [|? ? c Hc Hp| | | | | | | |]; subst. rewrite Hc, Hp.
      by apply list_elem_of_singleton.
  - rewrite elem_of_nub, elem_of_flat_map, elem_of_nil. split.
    + intros ((k & Hk%IH1 & Hj%IH2) & _). by econstructor.
    + inversion 1; subst. split; [| tauto]. eexists. rewrite IH1, IH2. eauto.
  - rewrite elem_of_nub, elem_of_app, IH1, IH2, elem_of_nil. split.
    + intros ([?|?] & _); by constructor.
    + inversion 1; subst; tauto.
  - by apply elem_of_star_ends.
  - destruct (Nat.eqb_spec i 0) as [->|]; rewrite ?list_elem_of_singleton, ?elem_of_nil;
      (split; [try (intros ->; constructor); done | inversion 1; by subst]).
  - destruct (Nat.eqb_spec i (length u)) as [->|]; rewrite ?list_elem_of_singleton, ?elem_of_nil;
      (split; [try (intros ->; constructor); done | inversion 1; by subst]).
  - destruct (xorb _ _) eqn:E; rewrite ?list_elem_of_singleton, ?elem_of_nil;
      (split; [try (intros ->; by constructor); done | inversion 1; congruence]).
Qed.

Lemma find_from_Some n r i i' j :
  find_from u n r i = Some (i', j) → (i ≤ i' ≤ i + n)%nat ∧ rmatch r i' j.
Proof.
  revert i. induction n as [|n IH]; intros i; cbn; destruct (ends u r i) as [|k l] eqn:E; try done.
  2:{ intros [? ?]%IH. split; [lia | done]. }
  all: intros [= <- <-]; split; [lia | apply elem_of_ends; rewrite E; left].
Qed.

Lemma find_from_complete n r i i' j :
  (i ≤ i' ≤ i + n)%nat → rmatch r i' j → is_Some (find_from u n r i).
Proof.
  revert i. induction n as [|n IH]; intros i Hi Hm; cbn;
    destruct (ends u r i) as [|k l] eqn:E; try by eexists.
  - assert (i' = i) as -> by lia. apply elem_of_ends in Hm. rewrite E in Hm. by apply elem_of_nil in Hm.
  - destruct (decide (i' = i)) as [->|]; [| apply IH; [lia | done]].
    apply elem_of_ends in Hm. rewrite E in Hm. by apply elem_of_nil in Hm.
Qed.

(** No match starts before the one found. *)
Lemma find_from_least n r i i' j :
  find_from u n r i = Some (i', j) → ∀ k, (i ≤ k < i')%nat → ∀ j', ¬ rmatch r k j'.
Proof.
  revert i. induction n as [|n IH]; intros i; cbn; destruct (ends u r i) as [|m l] eqn:E; try done;
    try (intros [= <- <-]; lia).
  intros Hf k Hk j' Hm. destruct (decide (k = i)) as [->|]; [| by eapply IH; [| | exact Hm]; [done | lia]].
  apply elem_of_ends in Hm. rewrite E in Hm. by apply elem_of_nil in Hm.
Qed.

Lemma MatchRunes_spec r :
  MatchRunes u r = true ↔ ∃ i j, (i ≤ length u)%nat ∧ rmatch r i j.
Proof.
  unfold MatchRunes. rewrite bool_decide_eq_true. split.
  - intros [[i j] (Hi & Hm)%find_from_Some]. exists i, j. split; [lia | done].
  - intros (i & j & Hi & Hm). eapply find_from_complete; [| exact Hm]. lia.
Qed.
End meaning.
#[export] Hint Constructors rmatch : regexp.

(** ** Matching sequences of rune predicates *)
Lemma rmatch_cats u ps i :
  (∀ k p, ps !! k = Some p → ∃ c, u !! (i + k)%nat = Some c ∧ p c = true) →
  rmatch u (cats (map Rune ps)) i (i + length ps).
Proof.
  revert i. induction ps as [|p ps IH]; intros i Hps; cbn.
  { rewrite Nat.add_0_r. constructor. }
  destruct (Hps 0%nat p eq_refl) as (c & Hc & Hp). rewrite Nat.add_0_r in Hc.
  replace (i + S (length ps))%nat with (S i + length ps)%nat by lia.
  eapply rmatch_cat; [by econstructor |]. apply IH. intros k q Hk.
  rewrite Nat.add_succ_comm. by apply (Hps (S k)).
Qed.

Lemma rmatch_star_rune u g p i n :
  (∀ k, (k < n)%nat → ∃ c, u !! (i + k)%nat = Some c ∧ p c = true) →
  rmatch u (Star g (Rune p)) i (i + n).
Proof.
  revert i. induction n as [|n IH]; intros i Hn.
  { rewrite Nat.add_0_r. constructor. }
  destruct (Hn 0%nat) as (c & Hc & Hp); [lia |]. rewrite Nat.add_0_r in Hc.
  replace (i + S n)%nat with (S i + n)%nat by lia.
  eapply rmatch_star1; [by econstructor |]. apply IH. intros k Hk.
  rewrite Nat.add_succ_comm. apply Hn. lia.
Qed.
