(* ===== verification/Schedule.v ===== *)
(** * Working hours: [src/internal/agent/schedule/schedule.go]

    The windows in which the owner answers messages personally.  The time zone
    database ([time.LoadLocation] and the embedded zoneinfo) is the class
    [TimeZones]; everything else is the code's. *)

From S2P Require Import Prelude GoString.

(** ** The time zone database

    [zone_offset l t] is the offset, in seconds east of UTC, of the wall clock
    of [l] at the instant [t].  [time.LoadLocation] returns, for a name other
    than the empty one and [Local], a location of that name; the names of the
    database have no semicolon. *)
Class TimeZones := {
  Location : Type;
  LoadLocation : string → option Location;
  loc_String : Location → string;
  zone_offset : Location → time → Z;
  LoadLocation_name z l : z ≠ "" → z ≠ "Local" → LoadLocation z = Some l →
    loc_String l = z ∧ has_char ";"%char z = false;
}.

(** The zone database of the witnesses: UTC and one fixed zone. *)
Definition two_zones_load (z : string) : option (string * Z) :=
  if bool_decide (z = "") || bool_decide (z = "UTC") then Some ("UTC", 0)
  else if bool_decide (z = "Etc/GMT-3") then Some ("Etc/GMT-3", 10800)
  else None.
Lemma two_zones_name z l :
  z ≠ "" → z ≠ "Local" → two_zones_load z = Some l → l.1 = z ∧ has_char ";"%char z = false.
Proof.
  unfold two_zones_load. intros Hz _. rewrite bool_decide_eq_false_2 by done. cbn.
  repeat case_bool_decide; intros; by simplify_eq/=.
Qed.
Definition two_zones : TimeZones := {|
  Location := string * Z; LoadLocation := two_zones_load; loc_String := fst;
  zone_offset l _ := l.2; LoadLocation_name := two_zones_name |}.

(** ** Windows *)
Definition Sunday : Z := 0.
Definition Monday : Z := 1.
Definition Tuesday : Z := 2.
Definition Wednesday : Z := 3.
Definition Thursday : Z := 4.
Definition Friday : Z := 5.
Definition Saturday : Z := 6.

Definition days : gmap string Z := list_to_map
  [("sun", Sunday); ("mon", Monday); ("tue", Tuesday); ("wed", Wednesday);
   ("thu", Thursday); ("fri", Friday); ("sat", Saturday)].

Record window := Window {
  w_days : list bool;   (** [[7]bool] *)
  w_start : Z;
  w_end : Z;
  w_spec : string;
}.

Inductive window_error :=
| EShape            (** no blank between days and times *)
| EUnknownDay
| ETimeShape        (** no dash between the times *)
| EBadTime (s : string)
| EEmptyWindow.

Inductive error :=
| ETimezoneRequired
| ETimezoneLocal
| EUnknownTimezone (z : string)
| ENoWindow
| EWindow (raw : string) (e : window_error).

Definition byte_at (s : string) (i : nat) : Z := nth i (bytes s) 0.
Definition twoDigits (s : string) : bool :=
  (String.length s =? 2)%nat
  && (48 <=? byte_at s 0) && (byte_at s 0 <=? 57)
  && (48 <=? byte_at s 1) && (byte_at s 1 <=? 57).

Definition clock (s : string) (is_end : bool) : result window_error Z :=
  match Cut s ":" with
  | None => Err (EBadTime s)
  | Some (hh, mm) =>
    if negb (twoDigits hh) || negb (twoDigits mm) then Err (EBadTime s) else
    match Atoi hh, Atoi mm with
    | Some h, Some m =>
      if 59 <? m then Err (EBadTime s)
      else if (h =? 24) && (m =? 0) && is_end then Ok (24 * 60)
      else if 23 <? h then Err (EBadTime s)
      else Ok (h * 60 + m)
    | _, _ => Err (EBadTime s)
    end
  end.

(** The loop [for d := d0; ; d = (d + 1) % 7 { days[d] = true; if d == d1 {
    break } }]; [None] when [n] rounds are not enough. *)
Fixpoint mark_days (n : nat) (d d1 : Z) (ds : list bool) : option (list bool) :=
  match n with
  | O => None
  | S n =>
    let ds := <[Z.to_nat d := true]> ds in
    if d =? d1 then Some ds else mark_days n ((d + 1) mod 7) d1 ds
  end.

Definition parse_days (dayPart : string) : result window_error (list bool) :=
  let (first, last) := default (dayPart, dayPart) (Cut dayPart "-") in
  match days !! first, days !! last with
  | Some d0, Some d1 =>
    match mark_days 7 d0 d1 (replicate 7 false) with
    | Some ds => Ok ds
    | None => Err EUnknownDay
    end
  | _, _ => Err EUnknownDay
  end.

Section Schedule.
Context `{UnicodeTables, TimeZones}.
Local Open Scope result_scope.

Record Hours := MkHours { h_loc : Location; h_windows : list window }.

Definition parseWindow1 (spec : string) : result window_error window :=
  match Cut spec " " with
  | None => Err EShape
  | Some (dayPart, timePart) =>
    let! ds := parse_days dayPart in
    match Cut (TrimSpace timePart) "-" with
    | None => Err ETimeShape
    | Some (from, to) =>
      let! start := clock from false in
      let! stop := clock to true in
      if start =? stop then Err EEmptyWindow else
      Ok (Window ds start stop (dayPart +:+ " " +:+ from +:+ "-" +:+ to))
    end
  end.

Definition parseWindow (raw : string) : result error window :=
  map_err (EWindow raw) (parseWindow1 (ToLower (TrimSpace raw))).

Definition Parse (timezone : string) (hours : list string) : result error Hours :=
  if bool_decide (TrimSpace timezone = "") then Err ETimezoneRequired
  else if bool_decide (timezone = "Local") then Err ETimezoneLocal
  else match LoadLocation timezone with
       | None => Err (EUnknownTimezone timezone)
       | Some loc =>
         if bool_decide (hours = []) then Err ENoWindow
         else let! ws := rmapM parseWindow hours in Ok (MkHours loc ws)
       end.

(** Wall-clock reading of an instant in a location. *)
Definition local_seconds (l : Location) (t : time) : Z := t / Second + zone_offset l t.
Definition Weekday (s : Z) : Z := (s / 86400 + 4) mod 7.
Definition Clock_Hour (s : Z) : Z := s mod 86400 / 3600.
Definition Clock_Minute (s : Z) : Z := s mod 3600 / 60.

Definition window_covers (day m : Z) (w : window) : bool :=
  let on d := nth (Z.to_nat d) (w_days w) false in
  let prev := (day + 6) mod 7 in
  if w_start w <? w_end w then on day && (w_start w <=? m) && (m <? w_end w)
  else (on day && (w_start w <=? m)) || (on prev && (m <? w_end w)).

Definition Contains (h : Hours) (t : time) : bool :=
  let local := local_seconds (h_loc h) t in
  let day := Weekday local in
  let m := Clock_Hour local * 60 + Clock_Minute local in
  existsb (window_covers day m) (h_windows h).

Definition String' (h : Hours) : string :=
  Join (loc_String (h_loc h) :: map w_spec (h_windows h)) ";".

Definition ParseStored (s : string) : result error Hours :=
  match Split s ";" with
  | z :: hours => Parse z hours
  | [] => Err ETimezoneRequired
  end.

(** ** Days *)
Definition in_span (d d1 i : Z) : bool := (i - d) mod 7 <=? (d1 - d) mod 7.

Definition mark_days_ok (d d1 : Z) : bool :=
  bool_decide (mark_days 7 d d1 (replicate 7 false) = Some (map (in_span d d1) (seqZ 0 7))).

Lemma mark_days_span d d1 :
  0 ≤ d < 7 → 0 ≤ d1 < 7 →
  mark_days 7 d d1 (replicate 7 false) = Some (map (in_span d d1) (seqZ 0 7)).
Proof.
  intros Hd Hd1.
  assert (forallb (λ d, forallb (mark_days_ok d) (seqZ 0 7)) (seqZ 0 7) = true)
    as Hall by (vm_compute; reflexivity).
  rewrite forallb_forall in Hall.
  assert (mark_days_ok d d1 = true) as H2%bool_decide_eq_true; [| done].
  apply (proj1 (forallb_forall _ _) (Hall d ltac:(apply list_elem_of_In, elem_of_seqZ; lia))).
  apply list_elem_of_In, elem_of_seqZ; lia.
Qed.

Lemma days_Some k d :
  days !! k = Some d →
  0 ≤ d < 7 ∧ String.length k = 3%nat ∧ all_bytes (in_range 97 122) k = true.
Proof.
  intros Hk%elem_of_map_to_list. revert Hk. vm_compute (map_to_list days).
  rewrite !elem_of_cons, elem_of_nil.
  intros Hk. repeat destruct Hk as [[= -> ->]|Hk]; try done; by split; [lia |].
Qed.

(** A cleaned window specification consists of these bytes. *)
Definition spec_byte (b : Z) : bool :=
  in_range 97 122 b || is_digit b || (b =? 58) || (b =? 45).

Lemma parse_days_clean s ds :
  parse_days s = Ok ds →
  all_bytes spec_byte s = true ∧ s ≠ "" ∧ length ds = 7%nat.
Proof.
  unfold parse_days. intros H1.
  assert (∀ k d, days !! k = Some d → all_bytes spec_byte k = true) as Hkey.
  { intros k d (_ & _ & Hk)%days_Some. revert Hk. apply all_bytes_impl.
    intros b Hb. unfold spec_byte. by rewrite Hb. }
  assert (∀ d0 d1 f l, days !! f = Some d0 → days !! l = Some d1 →
    match mark_days 7 d0 d1 (replicate 7 false) with
    | Some ds => Ok ds | None => Err EUnknownDay end = Ok ds → length ds = 7%nat) as Hlen.
  { intros d0 d1 f l (Hd0 & _)%days_Some (Hd1 & _)%days_Some.
    rewrite mark_days_span by done. by intros [= <-]. }
  destruct (Cut s "-") as [[f l]|] eqn:E; cbn [from_option id] in H1.
  - change "-" with (chr "-"%char) in E. apply Cut_chr_Some in E as [-> _].
    destruct (days !! f) eqn:Hf, (days !! l) eqn:Hl; try done.
    split_and!; [| destruct f; discriminate | eapply (Hlen _ _ _ _ Hf Hl); exact H1].
    change (String "-"%char l) with (chr "-"%char +:+ l).
    rewrite !all_bytes_app. by rewrite (Hkey f _ Hf), (Hkey l _ Hl).
  - destruct (days !! s) eqn:Hf; try done.
    split_and!; [by eapply Hkey | | by eapply Hlen]. intros ->. apply days_Some in Hf as (_ & Hn & _). discriminate Hn.
Qed.

(** ** Clock times *)
Lemma twoDigits_bytes s :
  twoDigits s = true → ∃ a b, bytes s = [a; b] ∧ is_digit a = true ∧ is_digit b = true.
Proof.
  unfold twoDigits, byte_at. intros H1.
  assert (String.length s = length (bytes s)) as Hl.
  { clear. induction s as [|? s IH]; cbn; by rewrite ?IH. }
  rewrite Hl in H1. destruct (bytes s) as [|a [|b [|? ?]]]; try done. cbn in H1.
  bool_to_Prop. exists a, b. unfold is_digit, in_range. split_and!; [done | lia..].
Qed.

Lemma Atoi_two a b s :
  bytes s = [a; b] → is_digit a = true → is_digit b = true →
  Atoi s = Some (10 * (a - 48) + (b - 48)).
Proof.
  intros Hs Ha Hb. unfold Atoi. rewrite Hs. unfold is_digit, in_range in *.
  assert (Hdigit : ∀ x, (48 <=? x) && (x <=? 57) = true →
    x ∈ [48; 49; 50; 51; 52; 53; 54; 55; 56; 57]).
  { intros x Hx. bool_to_Prop. rewrite !elem_of_cons. lia. }
  apply Hdigit in Ha, Hb. clear Hs Hdigit.
  rewrite !elem_of_cons, elem_of_nil in Ha, Hb.
  repeat destruct Ha as [->|Ha]; try done; repeat destruct Hb as [->|Hb]; done.
Qed.

Lemma clock_Ok s is_end n :
  clock s is_end = Ok n →
  0 ≤ n ≤ 1440 ∧ (is_end = false → n < 1440) ∧ s ≠ "" ∧
  all_bytes (λ b, is_digit b || (b =? 58)) s = true.
Proof.
  unfold clock. intros H1. change ":" with (chr ":"%char) in H1.
  destruct (Cut s _) as [[hh mm]|] eqn:E; [| done]. apply Cut_chr_Some in E as [-> _].
  destruct (twoDigits hh) eqn:Hh, (twoDigits mm) eqn:Hm; cbn in H1; try done.
  apply twoDigits_bytes in Hh as (a & b & Hh & Ha & Hb).
  apply twoDigits_bytes in Hm as (c & d & Hm & Hc & Hd).
  rewrite (Atoi_two a b), (Atoi_two c d) in H1 by done.
  assert (hh +:+ String ":" mm ≠ "") by (by destruct hh).
  assert (all_bytes (λ b, is_digit b || (b =? 58)) (hh +:+ String ":" mm) = true).
  { unfold all_bytes. rewrite bytes_app. cbn [bytes]. rewrite Hh, Hm. cbn.
    by rewrite Ha, Hb, Hc, Hd. }
  unfold is_digit, in_range in *.
  repeat case_match; simplify_eq/=; bool_to_Prop; split_and!; try done; try lia; congruence.
Qed.

(** ** Windows and their canonical form *)
Definition window_ok (w : window) : Prop :=
  length (w_days w) = 7%nat ∧ 0 ≤ w_start w < 1440 ∧ 0 ≤ w_end w ≤ 1440 ∧
  w_start w ≠ w_end w.

Lemma clock_clean s is_end n :
  clock s is_end = Ok n → s ≠ "" ∧ all_bytes spec_byte s = true ∧ has_char "-"%char s = false.
Proof.
  intros (_ & _ & Hs & Hb)%clock_Ok. split_and!; [done | |].
  - revert Hb. apply all_bytes_impl. intros b. unfold spec_byte.
    intros [->| ->]%orb_true_iff; by rewrite ?orb_true_r.
  - apply has_char_all_bytes. revert Hb. apply all_bytes_impl. intros b.
    unfold is_digit, in_range. change (byte_of_ascii "-") with 45. intros. lia.
Qed.

Lemma spec_byte_range b : spec_byte b = true → 32 < b < 128 ∧ in_range 65 90 b = false ∧ b ≠ 59.
Proof. unfold spec_byte, is_digit, in_range. lia. Qed.

Lemma clean_no_char c s :
  spec_byte (byte_of_ascii c) = false → all_bytes spec_byte s = true → has_char c s = false.
Proof.
  intros Hc Hs. apply has_char_all_bytes. revert Hs. apply all_bytes_impl. intros b Hb.
  apply negb_true_iff, Z.eqb_neq. intros ->. congruence.
Qed.

Lemma nonempty_bytes s : s ≠ "" → ∃ b, head (bytes s) = Some b.
Proof. destruct s; [done | by eexists]. Qed.

Lemma nonempty_bytes_last s : s ≠ "" → ∃ b, last (bytes s) = Some b.
Proof.
  intros Hs. destruct (last (bytes s)) as [b|] eqn:E; [by exists b |].
  apply last_None, bytes_nil in E. done.
Qed.

Lemma TrimSpace_clean s x m y :
  bytes s = bytes x ++ m ++ bytes y →
  x ≠ "" → y ≠ "" → all_bytes spec_byte x = true → all_bytes spec_byte y = true →
  TrimSpace s = s.
Proof.
  intros Hs (b & Hb)%nonempty_bytes (c & Hc)%nonempty_bytes_last Hx Hy.
  eapply (TrimSpace_ends _ b c).
  - rewrite Hs. destruct (bytes x); [done | exact Hb].
  - apply last_Some in Hc as (k & Hc). rewrite Hs, Hc, !app_assoc. apply last_snoc.
  - by apply (spec_byte_range b), (head_all_bytes _ x).
  - by apply (spec_byte_range c), (last_all_bytes _ y).
Qed.

Lemma parseWindow1_Ok spec w :
  parseWindow1 spec = Ok w →
  ∃ dayPart from to,
    w_spec w = dayPart +:+ " " +:+ from +:+ "-" +:+ to ∧
    parse_days dayPart = Ok (w_days w) ∧ clock from false = Ok (w_start w) ∧
    clock to true = Ok (w_end w) ∧ w_start w ≠ w_end w.
Proof.
  unfold parseWindow1. destruct (Cut spec " ") as [[dayPart timePart]|]; [| done].
  intros (ds & Hds & H1)%rbind_Ok. destruct (Cut _ "-") as [[from to]|]; [| done].
  apply rbind_Ok in H1 as (start & Hs & (stop & He & H1)%rbind_Ok).
  destruct (Z.eqb_spec start stop); [done |]. injection H1 as <-.
  exists dayPart, from, to. by split_and!.
Qed.

Lemma parseWindow1_canonical dayPart from to ds start stop :
  parse_days dayPart = Ok ds → clock from false = Ok start → clock to true = Ok stop →
  start ≠ stop →
  let spec := dayPart +:+ " " +:+ from +:+ "-" +:+ to in
  parseWindow spec = Ok (Window ds start stop spec) ∧ has_char ";"%char spec = false.
Proof.
  intros Hds Hf Ht Hne spec.
  pose proof (parse_days_clean _ _ Hds) as (Hdc & Hd0 & _).
  pose proof (clock_clean _ _ _ Hf) as (Hf0 & Hfc & Hfd).
  pose proof (clock_clean _ _ _ Ht) as (Ht0 & Htc & _).
  split.
  2:{ unfold spec. rewrite !has_char_app, (clean_no_char _ dayPart), (clean_no_char _ from),
      (clean_no_char _ to) by done. done. }
  unfold parseWindow. rewrite (TrimSpace_clean spec dayPart (32 :: bytes from ++ [45]) to), ToLower_id.
  - unfold parseWindow1, spec. change " " with (chr " "%char).
    change (chr " " +:+ ?x) with (String " " x).
    rewrite Cut_chr_app, Hds by by apply clean_no_char. cbn [rbind].
    rewrite (TrimSpace_clean (from +:+ "-" +:+ to) from [45] to);
      [| by rewrite !bytes_app | done..].
    change ("-" +:+ to) with (String "-" to). change "-" with (chr "-"%char).
    rewrite Cut_chr_app, Hf by done. cbn [rbind]. rewrite Ht. cbn [rbind].
    by destruct (Z.eqb_spec start stop).
  - unfold lower_ascii. fold (all_bytes (λ b, (b <? 128) && negb (in_range 65 90 b)) spec).
    assert (∀ b, spec_byte b = true → (b <? 128) && negb (in_range 65 90 b) = true) as Hi.
    { intros b (? & -> & _)%spec_byte_range. cbn. lia. }
    unfold spec. rewrite !all_bytes_app. rewrite (all_bytes_impl _ _ dayPart Hi), (all_bytes_impl _ _ from Hi),
      (all_bytes_impl _ _ to Hi) by done. done.
  - unfold spec. rewrite !bytes_app. cbn. by rewrite <- app_assoc.
  - done.
  - done.
  - done.
  - done.
Qed.

Lemma parseWindow_Ok raw w :
  parseWindow raw = Ok w →
  window_ok w ∧ parseWindow (w_spec w) = Ok w ∧ has_char ";"%char (w_spec w) = false.
Proof.
  intros (dayPart & from & to & Hspec & Hds & Hf & Ht & Hne)%map_err_Ok%parseWindow1_Ok.
  pose proof (clock_Ok _ _ _ Hf) as ([? ?] & Hlt & _). pose proof (clock_Ok _ _ _ Ht) as (? & _).
  pose proof (parse_days_clean _ _ Hds) as (_ & _ & ?).
  split.
  - specialize (Hlt eq_refl). unfold window_ok. split_and!; done || lia.
  - destruct (parseWindow1_canonical _ _ _ _ _ _ Hds Hf Ht Hne) as [Hp Hc].
    destruct w as [ds start stop spec]; cbn in *. subst spec. done.
Qed.

(** ** Parsing and printing *)
Definition Hours_ok (h : Hours) : Prop := Forall window_ok (h_windows h).

Lemma Parse_Ok tz hours h :
  Parse tz hours = Ok h ↔
  TrimSpace tz ≠ "" ∧ tz ≠ "Local" ∧ LoadLocation tz = Some (h_loc h) ∧ hours ≠ [] ∧
  Forall2 (λ raw w, parseWindow raw = Ok w) hours (h_windows h).
Proof.
  unfold Parse. rewrite <- rmapM_Ok. destruct h as [loc ws]; cbn.
  case_bool_decide; [by split; [| intros (? & _)] |].
  case_bool_decide; [by split; [| intros (_ & ? & _)] |].
  destruct (LoadLocation tz) as [l|]; [| by split; [| intros (_ & _ & ? & _)]].
  case_bool_decide; [by split; [| intros (_ & _ & _ & ? & _)] |].
  rewrite rbind_Ok. split.
  - by intros (? & ? & [= -> ->]).
  - intros (_ & _ & [= ->] & _ & ?). by eexists.
Qed.

Lemma Parse_Hours_ok tz hours h : Parse tz hours = Ok h → Hours_ok h.
Proof.
  intros (_ & _ & _ & _ & Hws)%Parse_Ok. unfold Hours_ok.
  induction Hws as [|raw w hours ws Hw _ IH]; constructor; [| done].
  by apply (parseWindow_Ok raw).
Qed.

(** C34: the stored form of a schedule round-trips: whatever [Parse] accepts,
    [ParseStored] reads back from the canonical string as the very same
    schedule (zone, day sets, minutes and specifications). *)
Theorem ParseStored_String tz hours h :
  Parse tz hours = Ok h → ParseStored (String' h) = Ok h.
Proof.
  intros (Htz & Hlocal & Hload & Hne & Hws)%Parse_Ok.
  destruct (LoadLocation_name tz (h_loc h)) as [Hname Hsemi]; try done.
  { intros ->. done. }
  assert (Forall (λ w, parseWindow (w_spec w) = Ok w ∧ has_char ";"%char (w_spec w) = false)
    (h_windows h)) as Hws'.
  { clear -Hws. induction Hws as [|raw w hours ws Hw _ IH]; constructor; [| done].
    by apply (parseWindow_Ok raw). }
  unfold ParseStored, String'. change ";" with (chr ";"%char). rewrite Hname, Split_Join.
  2:{ constructor; [done |]. rewrite Forall_map. eapply Forall_impl; [exact Hws' | by intros ? [_ ?]]. }
  apply Parse_Ok. split_and!; try done.
  - destruct Hws; [done | by cbn].
  - clear -Hws'. induction Hws' as [|w ws [Hw _] _ IH]; by constructor.
Qed.

(** A day range marks the cyclic span from its first to its last day,
    whatever the two days are (the loop over the days always ends). *)
Theorem parse_days_span f l d0 d1 :
  days !! f = Some d0 → days !! l = Some d1 →
  ∃ ds, parse_days (f +:+ "-" +:+ l) = Ok ds ∧ length ds = 7%nat ∧
    ∀ i, 0 ≤ i < 7 → nth (Z.to_nat i) ds false = ((i - d0) mod 7 <=? (d1 - d0) mod 7).
Proof.
  intros Hf Hl. pose proof (days_Some _ _ Hf) as (Hd0 & _ & Hfa).
  pose proof (days_Some _ _ Hl) as (Hd1 & _).
  exists (map (in_span d0 d1) (seqZ 0 7)). split_and!; [| done |].
  - unfold parse_days. change ("-" +:+ l) with (String "-" l). change "-" with (chr "-"%char).
    rewrite Cut_chr_app.
    + cbn [from_option id]. rewrite Hf, Hl. by rewrite mark_days_span.
    + apply has_char_all_bytes. revert Hfa. apply all_bytes_impl. intros b.
      unfold in_range. change (byte_of_ascii "-") with 45. lia.
  - intros i Hi. assert (i ∈ [0; 1; 2; 3; 4; 5; 6]) as Hin by (rewrite !elem_of_cons; lia).
    rewrite !elem_of_cons, elem_of_nil in Hin. clear Hi.
    by repeat destruct Hin as [->|Hin]; [..|done].
Qed.

(** ** Containment on the local time line *)

(** The wall-clock minute of an instant, counted from the local midnight of
    1970-01-01; day [n] of that line starts at minute [1440 * n] and its
    weekday is [(n + 4) mod 7]. *)
Definition local_minute (l : Location) (t : time) : Z := local_seconds l t / 60.

Definition window_minutes (w : window) : Z :=
  if w_start w <? w_end w then w_end w - w_start w else w_end w + 1440 - w_start w.

(** The occurrence of [w] that starts on day [n] covers minute [m]. *)
Definition occurrence (w : window) (n m : Z) : Prop :=
  nth (Z.to_nat ((n + 4) mod 7)) (w_days w) false = true ∧
  1440 * n + w_start w ≤ m < 1440 * n + w_start w + window_minutes w.

Lemma window_covers_occurrence w s :
  window_ok w →
  window_covers (Weekday s) (Clock_Hour s * 60 + Clock_Minute s) w = true ↔
  ∃ n, occurrence w n (s / 60).
Proof.
  intros (_ & Hs & He & Hne).
  assert (Clock_Hour s * 60 + Clock_Minute s = s / 60 - 1440 * (s / 86400)) as ->.
  { unfold Clock_Hour, Clock_Minute. Z.to_euclidean_division_equations; lia. }
  assert (0 ≤ s / 60 - 1440 * (s / 86400) < 1440) as Hm.
  { Z.to_euclidean_division_equations; lia. }
  set (m := s / 60) in *. set (n := s / 86400) in *.
  assert (Weekday s = (n + 4) mod 7) as -> by done.
  assert (((n + 4) mod 7 + 6) mod 7 = (n - 1 + 4) mod 7) as Hprev.
  { Z.to_euclidean_division_equations; lia. }
  unfold window_covers, occurrence, window_minutes. rewrite Hprev. clear Hprev.
  destruct (Z.ltb_spec (w_start w) (w_end w)).
  - split.
    + intros. bool_to_Prop. exists n. split; [done | lia].
    + intros (n' & Hd & Hr). assert (n' = n) as -> by lia. rewrite Hd. cbn. lia.
  - split.
    + intros [Hc|Hc]%orb_true_iff; bool_to_Prop; [exists n | exists (n - 1)]; (split; [done | lia]).
    + intros (n' & Hd & Hr). apply orb_true_iff.
      assert (n' = n ∨ n' = n - 1) as [->| ->] by lia; rewrite Hd; cbn; [left | right]; lia.
Qed.

(** A parsed schedule contains an instant exactly when its local minute
    lies in an occurrence of one of the windows, an occurrence being an
    interval of the local time line that starts on a marked day and may run
    past midnight into the next day. *)
Theorem Contains_iff tz hours h t :
  Parse tz hours = Ok h →
  Contains h t = true ↔
  ∃ w n, w ∈ h_windows h ∧ occurrence w n (local_minute (h_loc h) t).
Proof.
  intros Hok%Parse_Hours_ok. unfold Contains, Hours_ok, local_minute in *.
  rewrite existsb_exists. rewrite Forall_forall in Hok. split.
  - intros (w & Hw%list_elem_of_In & (n & Hn)%window_covers_occurrence); [| by apply Hok].
    by exists w, n.
  - intros (w & n & Hw & Hn). exists w. split; [by apply list_elem_of_In |].
    apply window_covers_occurrence; [by apply Hok | by exists n].
Qed.
End Schedule.

(** ** Witnesses *)
Definition office : list string := ["Mon-Fri 09:00-18:00"; "sat 22:00-02:00 "].

Lemma ParseStored_String_witness :
  ∃ h, @Parse ascii_tables two_zones "Etc/GMT-3" office = Ok h ∧
       @ParseStored ascii_tables two_zones (String' h) = Ok h ∧
       String' h = "Etc/GMT-3;mon-fri 09:00-18:00;sat 22:00-02:00".
Proof.
  eexists. split; [vm_compute; reflexivity |]. split; [| vm_compute; reflexivity].
  apply (@ParseStored_String ascii_tables two_zones "Etc/GMT-3" office).
  vm_compute; reflexivity.
Defined.

Lemma parse_days_span_witness :
  ∃ ds, parse_days "fri-mon" = Ok ds ∧ length ds = 7%nat ∧
    ∀ i, 0 ≤ i < 7 → nth (Z.to_nat i) ds false = ((i - 5) mod 7 <=? (1 - 5) mod 7).
Proof. apply (parse_days_span "fri" "mon" 5 1); vm_compute; reflexivity. Defined.

(** Sunday 1970-01-04, 01:30 at UTC+3: still Saturday's window. *)
Lemma Contains_iff_witness :
  ∃ h, @Parse ascii_tables two_zones "Etc/GMT-3" office = Ok h ∧
       Contains h (3 * 24 * Hour - 90 * Minute) = true ∧
       ∃ w n, w ∈ h_windows h ∧
         occurrence w n (local_minute (h_loc h) (3 * 24 * Hour - 90 * Minute)).
Proof.
  eexists. split; [vm_compute; reflexivity |]. split; [vm_compute; reflexivity |].
  apply (@Contains_iff ascii_tables two_zones "Etc/GMT-3" office);
    vm_compute; reflexivity.
Defined.
