(* ===== verification/Sha256.v ===== *)
(** * SHA-256 and HMAC, [crypto/sha256] and [crypto/hmac]

    The hash of FIPS 180-4 on byte strings.  The code hashes turn ids and refresh
    tokens with it; no theorem of the library assumes that it has no collisions
    without saying on which inputs. *)

From S2P Require Import Prelude GoString.

Definition word (x : Z) : Z := x mod 2 ^ 32.
Definition rotr (n x : Z) : Z := Z.lor (Z.shiftr x n) (word (Z.shiftl x (32 - n))).
Definition choose (x y z : Z) : Z := Z.lxor (Z.land x y) (Z.land (word (Z.lnot x)) z).
Definition majority (x y z : Z) : Z := Z.lxor (Z.land x y) (Z.lxor (Z.land x z) (Z.land y z)).
Definition big0 (x : Z) : Z := Z.lxor (rotr 2 x) (Z.lxor (rotr 13 x) (rotr 22 x)).
Definition big1 (x : Z) : Z := Z.lxor (rotr 6 x) (Z.lxor (rotr 11 x) (rotr 25 x)).
Definition small0 (x : Z) : Z := Z.lxor (rotr 7 x) (Z.lxor (rotr 18 x) (Z.shiftr x 3)).
Definition small1 (x : Z) : Z := Z.lxor (rotr 17 x) (Z.lxor (rotr 19 x) (Z.shiftr x 10)).

(** The constants are the first 32 bits of the fractional parts of the cube
    roots of the first 64 primes, and of the square roots of the first 8. *)
Definition is_prime (n : nat) : bool := forallb (λ d, negb (n mod d =? 0)%nat) (seq 2 (n - 2)).
Definition primes : list Z := Z.of_nat <$> filter is_prime (seq 2 310).
Fixpoint cube_root (bits : nat) (r n : Z) : Z :=
  match bits with
  | O => r
  | S k => let r' := r + 2 ^ Z.of_nat k in cube_root k (if r' ^ 3 <=? n then r' else r) n
  end.
Definition round_constants : list Z :=
  Eval vm_compute in (λ p, word (cube_root 36 0 (p * 2 ^ 96))) <$> primes.
Definition initial_state : list Z :=
  Eval vm_compute in (λ p, word (Z.sqrt (p * 2 ^ 64))) <$> take 8 primes.

(** Big-endian bytes. *)
Fixpoint be_bytes (n : nat) (x : Z) : list Z :=
  match n with O => [] | S n => be_bytes n (x / 256) ++ [x mod 256] end.
Definition be_word (l : list Z) : Z := foldl (λ acc b, acc * 256 + b) 0 l.

Fixpoint groups (n : nat) (fuel : nat) (l : list Z) : list (list Z) :=
  match fuel, l with
  | O, _ | _, [] => []
  | S fuel, _ => take n l :: groups n fuel (drop n l)
  end.

(** The one bit, the zeros and the length in bits. *)
Definition padding (len : nat) : list Z :=
  let zeros := Z.to_nat ((55 - Z.of_nat len) mod 64) in
  128 :: replicate zeros 0 ++ be_bytes 8 (8 * Z.of_nat len).

(** The message schedule, latest word first. *)
Fixpoint extend (n : nat) (w : list Z) : list Z :=
  match n with
  | O => w
  | S n => extend n (word (small1 (nth 1 w 0) + nth 6 w 0 + small0 (nth 14 w 0) + nth 15 w 0) :: w)
  end.

Definition round (s : list Z) (kw : Z * Z) : list Z :=
  match s with
  | [a; b; c; d; e; f; g; h] =>
    let t1 := h + big1 e + choose e f g + kw.1 + kw.2 in
    let t2 := big0 a + majority a b c in
    [word (t1 + t2); a; b; c; word (d + t1); e; f; g]
  | _ => s
  end.

Definition block (s : list Z) (b : list Z) : list Z :=
  let w := rev (extend 48 (rev (map be_word (groups 4 16 b)))) in
  zip_with (λ x y, word (x + y)) s (foldl round s (zip round_constants w)).

Definition digest (m : list Z) : list Z :=
  let p := m ++ padding (length m) in
  flat_map (be_bytes 4) (foldl block initial_state (groups 64 (length p) p)).

(** [sha256.Sum256] of a string, as the string of its 32 bytes. *)
Definition Sum256 (s : string) : string := of_bytes (digest (bytes s)).

(** [hex.EncodeToString] *)
Definition hex_encode (s : string) : string := of_bytes (flat_map (hex_pad 2) (bytes s)).

(** [hmac.New(sha256.New, key)] of one message. *)
Definition hmac_sha256 (key msg : list Z) : list Z :=
  let k := if (64 <? length key)%nat then digest key else key in
  let k := k ++ replicate (64 - length k) 0 in
  digest (map (Z.lxor 92) k ++ digest (map (Z.lxor 54) k ++ msg)).

(** [base64.RawURLEncoding] *)
Definition base64_digit (d : Z) : Z :=
  if d <? 26 then 65 + d else if d <? 52 then 71 + d else if d <? 62 then d - 4
  else if d =? 62 then 45 else 95.
Fixpoint base64_raw (fuel : nat) (l : list Z) : list Z :=
  match fuel, l with
  | O, _ | _, [] => []
  | S _, [a] => [base64_digit (a / 4); base64_digit (a mod 4 * 16)]
  | S _, [a; b] => [base64_digit (a / 4); base64_digit (a mod 4 * 16 + b / 16); base64_digit (b mod 16 * 4)]
  | S fuel, a :: b :: c :: l =>
    base64_digit (a / 4) :: base64_digit (a mod 4 * 16 + b / 16)
      :: base64_digit (b mod 16 * 4 + c / 64) :: base64_digit (c mod 64) :: base64_raw fuel l
  end.
Definition base64_url (l : list Z) : string := of_bytes (base64_raw (length l) l).

(** ** Test vectors of FIPS 180-4, RFC 4231 and RFC 4648 *)
Example Sum256_empty :
  hex_encode (Sum256 "") = "e3b0c44298fc1c149afbf4c8996fb92427ae41e4649b934ca495991b7852b855".
Proof. vm_compute. reflexivity. Qed.
Example Sum256_abc :
  hex_encode (Sum256 "abc") = "ba7816bf8f01cfea414140de5dae2223b00361a396177a9cb410ff61f20015ad".
Proof. vm_compute. reflexivity. Qed.
Example Sum256_two_blocks :
  hex_encode (Sum256 "abcdbcdecdefdefgefghfghighijhijkijkljklmklmnlmnomnopnopq")
  = "248d6a61d20638b8e5c026930c3e6039a33ce45964ff2167f6ecedd419db06c1".
Proof. vm_compute. reflexivity. Qed.
Example hmac_jefe :
  hex_encode (of_bytes (hmac_sha256 (bytes "Jefe") (bytes "what do ya want for nothing?")))
  = "5bdcc146bf60754e6a042426089575c75a003f089d2739839dec58b964ec3843".
Proof. vm_compute. reflexivity. Qed.
Example base64_vectors : map base64_url [[102]; [102; 111]; [102; 111; 111]; [251; 255; 191]]
  = ["Zg"; "Zm8"; "Zm9v"; "-_-_"].
Proof. vm_compute. reflexivity. Qed.

(** ** Lengths *)
Lemma length_be_bytes n x : length (be_bytes n x) = n.
Proof. revert x. induction n as [|n IH]; intros x; cbn; [done |]. rewrite length_app, IH. cbn. lia. Qed.

Lemma length_round s kw : length (round s kw) = length s.
Proof. by destruct s as [|? [|? [|? [|? [|? [|? [|? [|? [|? ?]]]]]]]]]. Qed.

Lemma length_block s b : length s = 8%nat → length (block s b) = 8%nat.
Proof.
  intros Hs. unfold block. rewrite length_zip_with, Hs. set (l := zip _ _). clearbody l.
  assert (length (foldl round s l) = 8%nat) as ->; [| done].
  revert s Hs. induction l as [|kw l IH]; intros s Hs; cbn; [done |]. apply IH. by rewrite length_round.
Qed.

Lemma length_digest m : length (digest m) = 32%nat.
Proof.
  unfold digest. set (gs := groups _ _ _). clearbody gs.
  assert (∀ s, length s = 8%nat → length (foldl block s gs) = 8%nat) as Hf.
  { induction gs as [|b gs IH]; intros s Hs; cbn; [done |]. apply IH. by apply length_block. }
  specialize (Hf initial_state eq_refl). set (s := foldl _ _ _) in *. clearbody s. revert Hf.
  destruct s as [|? [|? [|? [|? [|? [|? [|? [|? [|? ?]]]]]]]]]; done.
Qed.
