(* ===== verification/Redact.v ===== *)
(** * What must not reach a log: [src/internal/audit/redact.go]

    The masking of Telegram identifiers in free text, and the redaction of
    attribute values before a log handler sees them. *)

From S2P Require Import Prelude GoString Regexp.

(** ** Replacing matches

    [ReplaceAllString] for a pattern no empty text matches: what lies between
    the matches is copied byte by byte. *)
Definition span (cs : list (Z * list Z)) (i j : nat) : list Z := concat (take (j - i) (drop i cs)).*2.

Fixpoint splice (cs : list (Z * list Z)) (repl : nat * nat → list Z) (pos : nat) (ms : list (nat * nat)) : list Z :=
  match ms with
  | [] => span cs pos (length cs)
  | m :: ms => span cs pos m.1 ++ repl m ++ splice cs repl m.2 ms
  end.

Definition ReplaceAll (r : regex) (repl : list (Z * list Z) → nat * nat → list Z) (s : string) : string :=
  let cs := chunks s in of_bytes (splice cs (repl cs) 0 (FindAllRunes cs.*1 r)).

(** The end of the group in a match of [Cat group rest] that starts at [i]: the
    first end of the group from which the rest matches. *)
Definition group_end (u : list Z) (group rest : regex) (i : nat) : nat :=
  default i (head (filter (λ k, negb (bool_decide (ends u rest k = []))) (ends u group i))).

(** ** Free text *)

(** [@[A-Za-z0-9_]{4,}|\+?\d{7,}] *)
Definition peerLike : regex :=
  Alt (Cat (Rune (Z.eqb 64)) (AtLeast 4 (Rune is_word)))
      (Cat (Opt (Rune (Z.eqb 43))) (AtLeast 7 digit)).

(** A word boundary, one of the words [peer], [resolve], [for] and [format:] (the
    group), blanks, and a double-quoted text with backslash escapes; cut behind
    the group. *)
Definition quotedPeer_group : regex :=
  Cat WordB (alts (lit "peer") [lit "resolve"; lit "for"; lit "format:"]).
Definition quotedPeer_rest : regex :=
  cats [Plus blank; Rune (Z.eqb 34);
        Star true (Alt (Rune (λ r, negb ((r =? 34) || (r =? 92))))
                       (Cat (Rune (Z.eqb 92)) (Rune (λ r, negb (r =? 10)))));
        Rune (Z.eqb 34)].
Definition quotedPeer : regex := Cat quotedPeer_group quotedPeer_rest.

Definition redacted : list Z := bytes "[redacted]".
Definition mask_quoted (cs : list (Z * list Z)) (m : nat * nat) : list Z :=
  span cs m.1 (group_end cs.*1 quotedPeer_group quotedPeer_rest m.1) ++ [32; 34] ++ redacted ++ [34].
Definition mask_peer (cs : list (Z * list Z)) (m : nat * nat) : list Z := redacted.

Definition ScrubText (s : string) : string :=
  ReplaceAll peerLike mask_peer (ReplaceAll quotedPeer mask_quoted s).

(** ** Attributes of log records

    A [slog.Value] is a string, a group, or a value of another kind, of which
    the handler sees what its [String] method returns. *)
Inductive Value :=
| StringValue (s : string)
| GroupValue (attrs : list (string * Value))
| OtherValue (text : string).

Definition toLower (s : string) : string :=
  of_bytes (map (λ c, if in_range 65 90 c then c + 32 else c) (bytes s)).

Definition sensitiveKeys : list string :=
  ["agent_openai_api_key"; "agent_gateway_token"; "cf-aig-authorization"; "text"; "body";
   "proposed_text"; "payload"; "password"; "phone"; "code"; "approval_code_encrypted";
   "session_encrypted"; "session"; "tg_api_hash"; "oauth_jwt_secret"; "jwt_secret"; "client_secret";
   "telegram_oidc_client_secret"; "encryption_key"; "authorization"; "bearer"; "question";
   "options"; "answer"; "value"; "user_code"; "device_code"; "consent_token"; "nonce"; "signature";
   "device_registration_key"; "worker_token"; "bridge_token"; "mctl_surface_telegram_token";
   "bot_token"; "callback_data"; "callback_payload"; "update_json"; "bot_start_bridge_token";
   "botstartbridgetoken"; "file_base64"; "file_path"; "first_name"; "last_name"; "content";
   "campaign_content"; "broadcast_text"].

Definition sensitive (key : string) : bool := bool_decide (toLower key ∈ sensitiveKeys).

(** [slog.GroupValue] drops the groups without attributes. *)
Definition empty_group (v : Value) : bool := match v with GroupValue [] => true | _ => false end.
Definition Group (key : string) (attrs : list (string * Value)) : string * Value :=
  (key, GroupValue (filter (λ a, empty_group a.2 = false) attrs)).

Section redact.
(** [Value.String] of a group, which [fmt] writes. *)
Variable group_text : list (string * Value) → string.

Definition Value_String (v : Value) : string :=
  match v with StringValue s => s | GroupValue l => group_text l | OtherValue s => s end.
Definition lengthOf (v : Value) : Z := Z.of_nat (String.length (Value_String v)).

Definition mask (v : Value) : Value :=
  StringValue ("[redacted len=" +:+ FormatInt (lengthOf v) +:+ "]").

Fixpoint redactAttr (key : string) (v : Value) : string * Value :=
  if sensitive key then (key, mask v) else
  match v with
  | GroupValue attrs => Group key (map (λ a, redactAttr a.1 a.2) attrs)
  | _ => (key, v)
  end.

(** [Handle] and [WithAttrs]: what the inner handler receives. *)
Definition redact_attrs (attrs : list (string * Value)) : list (string * Value) :=
  map (λ a, redactAttr a.1 a.2) attrs.
End redact.

(** ** Examples *)
Example scrub_handle :
  ScrubText "peer @some_handle not found, call +15550001234" = "peer [redacted] not found, call [redacted]".
Proof. vm_compute. reflexivity. Qed.

(** Scrubbing what was scrubbed can mask more: the digits before a keyword kept
    it from standing at a word boundary. *)
Example ScrubText_not_idempotent :
  let s := of_bytes (bytes "1234567for " ++ [34] ++ bytes "bob" ++ [34]) in
  ScrubText (ScrubText s) ≠ ScrubText s.
Proof. vm_compute. discriminate. Qed.
