(* ===== verification/RedactProps.v ===== *)
(** * What is masked stays out

    No handle and no phone number is left in a scrubbed text, whatever the text
    was; and no value of a sensitive key reaches the inner log handler. *)

From S2P Require Import Prelude GoString Regexp Redact.

(** ** Runs of bytes *)

(** The bytes at the front of [l] satisfy the predicates one by one. *)
Fixpoint starts (ps : list (Z → bool)) (l : list Z) : Prop :=
  match ps, l with
  | [], _ => True
  | p :: ps, b :: l => p b = true ∧ starts ps l
  | _ :: _, [] => False
  end.
Definition run (ps : list (Z → bool)) (l : list Z) : Prop := ∃ k, starts ps (drop k l).

Lemma starts_lookup ps l : starts ps l → ∀ k p, ps !! k = Some p → ∃ b, l !! k = Some b ∧ p b = true.
Proof.
  revert l. induction ps as [|q ps IH]; intros [|b l]; cbn; [done.. |].
  intros [Hb Hl] [|k] p; cbn; [intros [= <-]; eauto | by apply IH].
Qed.

Lemma starts_cut ps a x b :
  Forall (λ p : Z → bool, p x = false) ps → starts ps (a ++ x :: b) → starts ps a.
Proof.
  intros Hps. revert a. induction Hps as [|p ps Hp Hps IH]; intros [|y a]; cbn; [done.. | |].
  - intros [Hx _]. congruence.
  - intros [Hy Ha]. split; [done | by apply IH].
Qed.

(** A byte that no predicate accepts cuts every run. *)
Lemma run_cut ps a x b :
  Forall (λ p : Z → bool, p x = false) ps → ps ≠ [] → run ps (a ++ x :: b) → run ps a ∨ run ps b.
Proof.
  intros Hps Hne [k Hk]. destruct (decide (k ≤ length a)%nat) as [Hka|Hka].
  - left. exists k. rewrite drop_app_le in Hk by done. by eapply starts_cut.
  - right. exists (k - S (length a))%nat. rewrite drop_app_ge in Hk by lia.
    replace (k - length a)%nat with (S (k - S (length a))) in Hk by lia. done.
Qed.

Lemma run_head p ps l : existsb p l = false → ¬ run (p :: ps) l.
Proof.
  intros Hl [k Hk]. destruct (drop k l) as [|b l'] eqn:E; [done |]. destruct Hk as [Hb _].
  assert (existsb p l = true) as Ht; [| congruence]. apply existsb_elem_of. exists b. split; [| done].
  apply list_elem_of_In. rewrite <- (take_drop k l), E. apply in_or_app. right. by left.
Qed.

(** ** From bytes to runes *)

(** A byte below 128 is a rune of its own. *)
Definition ascii_alone (c : Z * list Z) : Prop :=
  c.2 ≠ [] ∧ ∀ b, b ∈ c.2 → b < 128 → c = (b, [b]).

Lemma cont_high b : cont b = true → 128 ≤ b.
Proof. unfold cont. intros. bool_to_Prop. lia. Qed.
Lemma second_ok_high b0 b : second_ok b0 b = true → 128 ≤ b.
Proof. unfold second_ok, in_range. repeat case_match; intros; bool_to_Prop; try lia. by apply cont_high. Qed.

Lemma elem_of_take2 (x b : Z) l : x ∈ take 2 (b :: l) → x = b ∨ x = nth 0 l 0.
Proof. destruct l; cbn; rewrite ?elem_of_cons, ?elem_of_nil; tauto. Qed.
Lemma elem_of_take3 (x b : Z) l : x ∈ take 3 (b :: l) → x = b ∨ x = nth 0 l 0 ∨ x = nth 1 l 0.
Proof. destruct l as [|? [|? l]]; cbn; rewrite ?elem_of_cons, ?elem_of_nil; tauto. Qed.
Lemma elem_of_take4 (x b : Z) l : x ∈ take 4 (b :: l) → x = b ∨ x = nth 0 l 0 ∨ x = nth 1 l 0 ∨ x = nth 2 l 0.
Proof. destruct l as [|? [|? [|? l]]]; cbn; rewrite ?elem_of_cons, ?elem_of_nil; tauto. Qed.

Lemma take_DecodeRune_alone b l :
  ascii_alone ((DecodeRune (b :: l)).1.1, take (DecodeRune (b :: l)).2 (b :: l)).
Proof.
  split.
  { cbn [snd]. pose proof (DecodeRune_width_pos (b :: l)). by destruct (DecodeRune (b :: l)).2 as [|w]; [lia |]. }
  intros x. unfold DecodeRune. change (nth 0 (b :: l) 0) with b. change (nth 1 (b :: l) 0) with (nth 0 l 0).
  change (nth 2 (b :: l) 0) with (nth 1 l 0). change (nth 3 (b :: l) 0) with (nth 2 l 0).
  destruct (Z.ltb_spec b 128) as [Hb|Hb]; [cbn; rewrite take_0, list_elem_of_singleton; by intros -> |].
  destruct (in_range 194 223 b && cont (nth 0 l 0)) eqn:E2; cbn [fst snd].
  { apply andb_true_iff in E2 as [_ ?%cont_high]. intros [->| ->]%elem_of_take2; lia. }
  destruct (in_range 224 239 b && _ && _) eqn:E3; cbn [fst snd].
  { apply andb_true_iff in E3 as [[_ ?%second_ok_high]%andb_true_iff ?%cont_high].
    intros [->|[->| ->]]%elem_of_take3; lia. }
  destruct (in_range 240 244 b && _ && _ && _) eqn:E4; cbn [fst snd].
  { apply andb_true_iff in E4 as [[[_ ?%second_ok_high]%andb_true_iff ?%cont_high]%andb_true_iff ?%cont_high].
    intros [->|[->|[->| ->]]]%elem_of_take4; lia. }
  rewrite firstn_cons, take_0, list_elem_of_singleton. intros ->. lia.
Qed.

Lemma chunks_alone s : Forall ascii_alone (chunks s).
Proof.
  unfold chunks. generalize (length (bytes s)) as n. generalize (bytes s) as l. intros l n. revert l.
  induction n as [|n IH]; intros [|b l]; cbn [chunks_fuel]; try by constructor.
  constructor; [apply take_DecodeRune_alone | apply IH].
Qed.

Definition ascii_only_pred (p : Z → bool) : Prop := ∀ b, p b = true → b < 128.

Lemma starts_runes ps cs :
  Forall ascii_alone cs → Forall ascii_only_pred ps → starts ps (concat cs.*2) → starts ps cs.*1.
Proof.
  intros Hcs Hps. revert cs Hcs. induction Hps as [|p ps Hp Hps IH]; intros cs Hcs; [done |].
  destruct Hcs as [|[r bs] cs [Hne Ha] Hcs]; [done |]. cbn in *. destruct bs as [|b bs]; [done |].
  cbn. intros [Hb Hs]. pose proof (Ha b ltac:(left) (Hp _ Hb)) as [= -> ->]. auto.
Qed.

(** A run of ASCII bytes is a run of runes. *)
Lemma run_runes ps cs :
  Forall ascii_alone cs → Forall ascii_only_pred ps → ps ≠ [] → run ps (concat cs.*2) →
  ∃ k, (k < length cs)%nat ∧ starts ps (drop k cs.*1).
Proof.
  intros Hcs Hps Hne. induction Hcs as [|[r bs] cs Hc Hcs IH]; intros [k Hk]; cbn in Hk.
  { rewrite drop_nil in Hk. by destruct ps. }
  destruct (decide (length bs ≤ k)%nat) as [Hkb|Hkb].
  { rewrite drop_app_ge in Hk by done. destruct IH as (k' & Hk' & Hs); [by eexists |].
    exists (S k'). cbn. split; [lia | done]. }
  exists 0%nat. cbn [length]. split; [lia |]. rewrite drop_0. apply starts_runes; [by constructor | done |].
  destruct ps as [|p ps]; [done |]. apply Forall_cons in Hps as [Hp Hps].
  rewrite drop_app_le in Hk by lia. destruct Hc as [_ Ha]. cbn in Ha.
  destruct (drop k bs) as [|b bs'] eqn:E.
  { apply (f_equal length) in E. rewrite length_drop in E. cbn in E. lia. }
  pose proof Hk as [Hb _]. assert (b ∈ bs) as Hin.
  { apply list_elem_of_In. rewrite <- (take_drop k bs), E. apply in_or_app. right. by left. }
  pose proof (Ha b Hin (Hp _ Hb)) as [= -> ->]. destruct k as [|k]; cbn in E; [by injection E as <- | by rewrite drop_nil in E].
Qed.

(** ** From runes to matches *)
Lemma starts_rmatch ps u k : starts ps (drop k u) → rmatch u (cats (map Rune ps)) k (k + length ps).
Proof.
  intros Hs. apply rmatch_cats. intros i p Hp. destruct (starts_lookup _ _ Hs _ _ Hp) as (b & Hb & ?).
  rewrite lookup_drop in Hb. eauto.
Qed.

Section replace.
Variable r : regex.
Variable ps : list (Z → bool).
Variable mid : list Z.
Context (Hascii : Forall ascii_only_pred ps) (Hne : ps ≠ [])
        (Hl : Forall (λ p : Z → bool, p 91 = false) ps) (Hr : Forall (λ p : Z → bool, p 93 = false) ps)
        (Hmid : ¬ run ps mid)
        (Hmatch : ∀ u k, starts ps (drop k u) → ∃ j, rmatch u r k j)
        (Hadvance : ∀ u i j, rmatch u r i j → (i < j)%nat).

Lemma run_gap cs i n :
  Forall ascii_alone cs → run ps (concat (take n (drop i cs)).*2) →
  ∃ k j, (i ≤ k < i + n)%nat ∧ (k < length cs)%nat ∧ rmatch cs.*1 r k j.
Proof.
  intros Hcs Hrun. apply run_runes in Hrun as (k & Hk & Hs); [| by apply Forall_take, Forall_drop | done | done].
  rewrite length_take, length_drop in Hk. exists (i + k)%nat.
  destruct (Hmatch cs.*1 (i + k)) as [j Hj]; [| exists j; split_and!; [lia.. | done]].
  rewrite fmap_take, fmap_drop, skipn_firstn_comm, drop_drop in Hs.
  rewrite <- (take_drop (n - k) (drop (i + k) cs.*1)).
  clear -Hs. revert Hs. generalize (take (n - k) (drop (i + k) cs.*1)) as l. generalize (drop (n - k) (drop (i + k) cs.*1)) as l'.
  intros l' l. revert l. induction ps as [|p ps' IH]; intros [|b l]; cbn; [done.. |]. intros [? ?]. auto.
Qed.

(** No run is left when every match is replaced by the middle in brackets. *)
Lemma splice_no_run cs n pos prev :
  Forall ascii_alone cs → (length cs - pos < n)%nat →
  ¬ run ps (splice cs (λ _, 91 :: mid ++ [93]) pos (find_all cs.*1 n r pos prev)).
Proof.
  intros Hcs. revert pos prev. induction n as [|n IH]; intros pos prev Hn; [lia |].
  cbn [find_all]. rewrite length_map. destruct (Nat.ltb_spec (length cs) pos).
  { cbn. unfold span. rewrite drop_ge, take_nil by lia. intros [k Hk]. rewrite ?drop_nil in Hk. destruct ps; [done |]. by destruct k. }
  destruct (find_from cs.*1 (length cs - pos) r pos) as [[i j]|] eqn:E.
  - pose proof (find_from_Some _ _ _ _ _ _ E) as [Hi Hij]. pose proof (Hadvance _ _ _ Hij) as Hlt.
    pose proof (rmatch_bounds _ _ _ _ Hij) as [_ Hlen]. rewrite length_map in Hlen. specialize (Hlen Hlt).
    destruct (Nat.eqb_spec j pos) as [|_]; [lia |]. cbn [andb splice fst snd].
    replace (span cs pos i ++ (91 :: mid ++ [93]) ++ splice cs (λ _, 91 :: mid ++ [93]) j (find_all cs.*1 n r j (Some j)))
      with (span cs pos i ++ 91 :: mid ++ 93 :: splice cs (λ _, 91 :: mid ++ [93]) j (find_all cs.*1 n r j (Some j)))
      by (cbn; by rewrite <- app_assoc).
    intros [Hs|[Hs|Hs]%run_cut]%run_cut; try done.
    + apply run_gap in Hs as (k & j' & Hk & _ & Hm); [| done].
      eapply (find_from_least _ _ _ _ _ _ E k); [lia | exact Hm].
    + by eapply IH; [| exact Hs]; lia.
  - cbn. intros Hs. apply run_gap in Hs as (k & j & Hk & Hkl & Hm); [| done].
    destruct (find_from_complete cs.*1 (length cs - pos) r pos k j) as [x Hx]; [lia | done |]. congruence.
Qed.
End replace.

Definition handle : list (Z → bool) := Z.eqb 64 :: replicate 4 is_word.
Definition phone : list (Z → bool) := replicate 7 (in_range 48 57).

Lemma peerLike_advance u i j : rmatch u peerLike i j → (i < j)%nat.
Proof.
  unfold peerLike, AtLeast, Exactly, digit, Opt. cbn [replicate cats foldr].
  inversion 1; subst; repeat match goal with
    | H : rmatch _ (Cat _ _) _ _ |- _ => inversion H; subst; clear H
    | H : rmatch _ (Rune _) _ _ |- _ => inversion H; subst; clear H
    | H : rmatch _ ?r _ _ |- _ => apply rmatch_bounds in H
  end; lia.
Qed.

Lemma peerLike_handle u k : starts handle (drop k u) → ∃ j, rmatch u peerLike k j.
Proof.
  intros Hs. exists (S k + 4)%nat. apply rmatch_altl. unfold handle in Hs.
  pose proof (starts_lookup _ _ Hs 0 _ eq_refl) as (b & Hb & Hp). rewrite lookup_drop, Nat.add_0_r in Hb.
  eapply rmatch_cat; [by econstructor |]. eapply rmatch_cat; [| apply rmatch_star0].
  apply (starts_rmatch (replicate 4 is_word)). change (S k) with (1 + k)%nat. rewrite Nat.add_comm, <- drop_drop.
  by destruct (drop k u); [done |]; destruct Hs.
Qed.

Lemma peerLike_phone u k : starts phone (drop k u) → ∃ j, rmatch u peerLike k j.
Proof.
  intros Hs. exists (k + 7)%nat. apply rmatch_altr. eapply rmatch_cat; [apply rmatch_altr, rmatch_empty |].
  eapply rmatch_cat; [| apply rmatch_star0]. by apply (starts_rmatch phone).
Qed.

Lemma span_bytes s i j : Forall is_byte (span (chunks s) i j).
Proof. unfold span. apply Forall_concat, Forall_map, Forall_take, Forall_drop, chunks_bytes. Qed.

Lemma splice_bytes s repl pos ms :
  (∀ m, Forall is_byte (repl m)) → Forall is_byte (splice (chunks s) repl pos ms).
Proof.
  intros Hr. revert pos. induction ms as [|m ms IH]; intros pos; cbn [splice]; [apply span_bytes |].
  rewrite !Forall_app. auto using span_bytes.
Qed.

(** C37: nothing that looks like a handle or a phone number survives scrubbing:
    a scrubbed text holds no [@] followed by four letters, digits or underscores
    and no seven digits in a row, whatever the text was - invalid UTF-8 and the
    text the quoted-peer rule put in included.  That masks numeric chat ids too,
    which the comment of [peerLike] says are left alone ([chat_id_masked]). *)
Theorem ScrubText_masks s : ¬ run handle (bytes (ScrubText s)) ∧ ¬ run phone (bytes (ScrubText s)).
Proof.
  assert (∀ ps, Forall ascii_only_pred ps → ps ≠ [] → Forall (λ p : Z → bool, p 91 = false) ps →
    Forall (λ p : Z → bool, p 93 = false) ps → ¬ run ps (bytes "redacted") →
    (∀ u k, starts ps (drop k u) → ∃ j, rmatch u peerLike k j) → ¬ run ps (bytes (ScrubText s))) as Hall.
  { intros ps Ha Hne Hl Hr Hmid Hm. unfold ScrubText. generalize (ReplaceAll quotedPeer mask_quoted s) as t.
    intros t. unfold ReplaceAll. rewrite bytes_of_bytes by (apply splice_bytes; intros; apply bytes_range).
    unfold FindAllRunes. rewrite length_map.
    change (mask_peer (chunks t)) with (λ _ : nat * nat, 91 :: bytes "redacted" ++ [93]).
    apply splice_no_run; try done; [apply peerLike_advance | apply chunks_alone | lia]. }
  split; apply Hall; try done; try (by repeat constructor).
  - constructor; [intros b; by intros <-%Z.eqb_eq |]. apply Forall_replicate. intros b. unfold is_word, in_range. lia.
  - by apply run_head.
  - apply peerLike_handle.
  - apply Forall_replicate. intros b. unfold in_range. lia.
  - by apply run_head.
  - apply peerLike_phone.
Qed.

Example chat_id_masked :
  ScrubText "chat 1234567890 unavailable" = "chat [redacted] unavailable" ∧ ScrubText "chat 123456" = "chat 123456".
Proof. split; vm_compute; reflexivity. Qed.

(** ** Attributes *)
Section attributes.
Variable group_text : list (string * Value) → string.

(** An attribute whose key is sensitive holds a mask, at every depth. *)
Inductive clean : string → Value → Prop :=
| clean_masked key v : sensitive key = true → clean key (mask group_text v)
| clean_string key s : sensitive key = false → clean key (StringValue s)
| clean_other key s : sensitive key = false → clean key (OtherValue s)
| clean_group key attrs :
    sensitive key = false → (∀ a, a ∈ attrs → clean a.1 a.2) → clean key (GroupValue attrs).

Lemma Value_nested_ind (P : Value → Prop) :
  (∀ s, P (StringValue s)) → (∀ s, P (OtherValue s)) →
  (∀ attrs, Forall (λ a, P a.2) attrs → P (GroupValue attrs)) → ∀ v, P v.
Proof.
  intros Hs Ho Hg. fix IH 1. intros [s|attrs|s]; [apply Hs | | apply Ho].
  apply Hg. induction attrs as [|[k v] attrs IHa]; constructor; [apply IH | apply IHa].
Qed.

Lemma redactAttr_key key v : (redactAttr group_text key v).1 = key.
Proof. destruct v; cbn; by case_match. Qed.

Lemma redactAttr_clean v key : clean key (redactAttr group_text key v).2.
Proof.
  revert key. induction v as [s|s|attrs IH] using Value_nested_ind; intros key; cbn;
    (destruct (sensitive key) eqn:E; [by apply clean_masked |]); [by constructor.. |].
  constructor; [done |]. intros [k v] [_ Hin]%list_elem_of_filter.
  apply elem_of_map in Hin as ([k' v'] & -> & Hin). rewrite Forall_forall in IH. rewrite redactAttr_key.
  exact (IH _ Hin k').
Qed.

(** What the inner handler receives has no sensitive value left in it. *)
Theorem redact_attrs_clean attrs k v : (k, v) ∈ redact_attrs group_text attrs → clean k v.
Proof.
  intros ([k' v'] & E & _)%elem_of_map. cbn in E. pose proof (redactAttr_key k' v') as Hk.
  rewrite <- E in Hk. cbn in Hk. subst k'. pose proof (redactAttr_clean v' k) as Hc. by rewrite <- E in Hc.
Qed.
End attributes.
