(* ===== verification/Coalescer.v ===== *)
(** * The turn coalescer: [src/internal/agent/turn/turn.go]

    A pure state machine that groups a burst of messages of one conversation
    into a turn.  Both maps of the code hold pointers to turns, so a turn is
    modelled as a cell of a heap and the maps hold its address. *)

From S2P Require Import Prelude GoString Sha256.

(** ** Turns *)
Inductive State := StateCollecting | StateReady | StateClaimed | StateDone.
#[global] Instance State_eq_dec : EqDecision State.
Proof. solve_decision. Defined.

Record Config := MkConfig { QuietMS : Z; MaxWaitMS : Z; MaxMsgs : Z; MaxBytes : Z }.

Record Event := MkEvent { evt_ID : string; evt_SessionKey : string; evt_At : time; evt_Bytes : Z }.

(** The four limits are the configuration the turn was opened with. *)
Record Turn := MkTurn {
  TurnID : string;
  tn_SessionKey : string;
  SourceEventIDs : list string;
  WindowOpenedAt : time;
  LastEventAt : time;
  tn_Config : Config;
  tn_Bytes : Z;
  tn_State : State;
}.
#[global] Instance eta_Turn : Eta Turn := λ t,
  MkTurn (TurnID t) (tn_SessionKey t) (SourceEventIDs t) (WindowOpenedAt t) (LastEventAt t)
    (tn_Config t) (tn_Bytes t) (tn_State t).

Definition SessionKey (userID peerTGID : Z) : string :=
  "telegram:" +:+ FormatInt userID +:+ ":" +:+ FormatInt peerTGID.

(** ** The coalescer *)
Record Coalescer := MkCoalescer {
  co_cfg : Config;
  co_open : gmap string Z;
  co_turns : gmap string Z;
  co_heap : gmap Z Turn;
  co_next : Z;                  (** the next free address *)
}.
#[global] Instance eta_Coalescer : Eta Coalescer := λ c,
  MkCoalescer (co_cfg c) (co_open c) (co_turns c) (co_heap c) (co_next c).

Definition New (cfg : Config) : option Coalescer :=
  if (QuietMS cfg <=? 0) || (MaxWaitMS cfg <=? 0) || (MaxMsgs cfg <=? 0) || (MaxBytes cfg <=? 0)
  then None else Some (MkCoalescer cfg ∅ ∅ ∅ 0).

Definition turnID (sessionKey firstEventID : string) : string :=
  "turn:v1:" +:+ str_prefix 24 (hex_encode (Sum256 (sessionKey +:+ firstEventID))).

Definition ms (d : duration) : Z := Milliseconds d.

(** Go's [int] is 64 bits wide. *)
Definition int_wrap (x : Z) : Z := (x + 2 ^ 63) mod 2 ^ 64 - 2 ^ 63.

Definition n_sources (t : Turn) : Z := Z.of_nat (length (SourceEventIDs t)).

(** [ready]: closes the turn at address [r] and returns its snapshot. *)
Definition ready (r : Z) (c : Coalescer) : list Turn * Coalescer :=
  match co_heap c !! r with
  | None => ([], c)
  | Some t =>
    let t := t <|tn_State := StateReady|> in
    ([t], c <|co_heap := <[r := t]> (co_heap c)|> <|co_open := delete (tn_SessionKey t) (co_open c)|>)
  end.

Definition joins (ev : Event) (t : Turn) : bool :=
  (ms (time_sub (evt_At ev) (LastEventAt t)) <=? QuietMS (tn_Config t))
  && (ms (time_sub (evt_At ev) (WindowOpenedAt t)) <=? MaxWaitMS (tn_Config t))
  && (n_sources t + 1 <=? MaxMsgs (tn_Config t))
  && (int_wrap (tn_Bytes t + evt_Bytes ev) <=? MaxBytes (tn_Config t)).

Definition add_event (ev : Event) (t : Turn) : Turn :=
  t <|SourceEventIDs := SourceEventIDs t ++ [evt_ID ev]|>
    <|tn_Bytes := int_wrap (tn_Bytes t + evt_Bytes ev)|> <|LastEventAt := evt_At ev|>.

Definition open_turn (cfg : Config) (ev : Event) : Turn :=
  MkTurn (turnID (evt_SessionKey ev) (evt_ID ev)) (evt_SessionKey ev) [evt_ID ev] (evt_At ev) (evt_At ev)
    cfg (evt_Bytes ev) StateCollecting.

(** The part of [Offer] that opens a new turn; a single oversized event, or
    [MaxMsgs == 1], closes it at once. *)
Definition start_turn (ev : Event) (c : Coalescer) : list Turn * Coalescer :=
  let t := open_turn (co_cfg c) ev in
  let r := co_next c in
  let c := c <|co_heap := <[r := t]> (co_heap c)|> <|co_next := r + 1|>
             <|co_turns := <[TurnID t := r]> (co_turns c)|>
             <|co_open := <[tn_SessionKey t := r]> (co_open c)|> in
  if (MaxBytes (tn_Config t) <=? tn_Bytes t) || (MaxMsgs (tn_Config t) <=? n_sources t)
  then ready r c else ([], c).

Definition current (key : string) (c : Coalescer) : option (Z * Turn) :=
  match co_open c !! key with
  | Some r => match co_heap c !! r with Some t => Some (r, t) | None => None end
  | None => None
  end.

Definition Offer (ev : Event) (c : Coalescer) : list Turn * Coalescer :=
  match current (evt_SessionKey ev) c with
  | Some (r, cur) =>
    if joins ev cur then
      let cur := add_event ev cur in
      let c := c <|co_heap := <[r := cur]> (co_heap c)|> in
      if MaxMsgs (tn_Config cur) <=? n_sources cur then ready r c else ([], c)
    else
      let closed := ready r c in
      let opened := start_turn ev closed.2 in
      (closed.1 ++ opened.1, opened.2)
  | None => start_turn ev c
  end.

(** ** Tick *)
Definition past_window (now : time) (t : Turn) : bool :=
  (QuietMS (tn_Config t) <? ms (time_sub now (LastEventAt t)))
  || (MaxWaitMS (tn_Config t) <? ms (time_sub now (WindowOpenedAt t))).

Definition less (a b : Turn) : bool :=
  if negb (WindowOpenedAt a =? WindowOpenedAt b) then WindowOpenedAt a <? WindowOpenedAt b
  else String.ltb (TurnID a) (TurnID b).

(** The insertion sort: [sorted] is the part already sorted, last element
    first, and the next element moves towards the front while it is less. *)
Fixpoint sink (x : Turn) (sorted : list Turn) : list Turn :=
  match sorted with
  | [] => [x]
  | y :: l => if less x y then y :: sink x l else x :: y :: l
  end.
Definition sortTurns (ts : list Turn) : list Turn := rev (foldl (λ sorted x, sink x sorted) [] ts).

(** The loop over the map of open turns visits its keys in the order [keys],
    which Go does not fix. *)
Fixpoint tick_loop (now : time) (keys : list string) (closed : list Turn) (c : Coalescer)
  : list Turn * Coalescer :=
  match keys with
  | [] => (closed, c)
  | k :: keys =>
    match current k c with
    | Some (r, t) =>
      if past_window now t then
        let step := ready r c in tick_loop now keys (closed ++ step.1) step.2
      else tick_loop now keys closed c
    | None => tick_loop now keys closed c
    end
  end.
Definition Tick (keys : list string) (now : time) (c : Coalescer) : list Turn * Coalescer :=
  let loop := tick_loop now keys [] c in (sortTurns loop.1, loop.2).

(** ** The lifecycle *)
Definition transition (id : string) (from to : State) (c : Coalescer) : option Coalescer :=
  match co_turns c !! id with
  | None => None
  | Some r =>
    match co_heap c !! r with
    | Some t =>
      if bool_decide (tn_State t = from)
      then Some (c <|co_heap := <[r := t <|tn_State := to|>]> (co_heap c)|>) else None
    | None => None
    end
  end.
Definition Claim (turnID : string) : Coalescer → option Coalescer := transition turnID StateReady StateClaimed.
Definition Done (turnID : string) : Coalescer → option Coalescer := transition turnID StateClaimed StateDone.

(** The burst of the code's own test: three messages 400 ms apart, closed by a
    tick after the quiet window. *)
Example burst :
  let t0 := 1767268800 * Second in
  let at_ m := t0 + m * Millisecond in
  let offer c e := (Offer e c).2 in
  let c := foldl offer (MkCoalescer (MkConfig 1000 5000 10 1000) ∅ ∅ ∅ 0)
    [MkEvent "e1" "s" (at_ 0) 10; MkEvent "e2" "s" (at_ 400) 10; MkEvent "e3" "s" (at_ 800) 10] in
  (Tick ["s"] (at_ 1800) c).1 = [] ∧
  map SourceEventIDs (Tick ["s"] (at_ 1801) c).1 = [["e1"; "e2"; "e3"]].
Proof. vm_compute. split; reflexivity. Qed.
