(* ===== verification/CoalescerProps.v ===== *)
(** * The turn coalescer, properties

    Every message of a conversation lands in exactly one turn, in arrival order
    and within the limits; a turn is closed once and then only moves forward; and
    what a tick returns does not depend on the order Go visits its map in. *)

From S2P Require Import Prelude GoString Sha256 Coalescer.

(** ** Histories *)
Inductive co_call :=
| CallOffer (ev : Event)
| CallTick (keys : list string) (now : time)   (** [keys]: the order of the map *)
| CallClaim (id : string)
| CallDone (id : string).

Definition keep (o : option Coalescer) (c : Coalescer) : list Turn * Coalescer := ([], default c o).
Definition co_exec (call : co_call) (c : Coalescer) : list Turn * Coalescer :=
  match call with
  | CallOffer ev => Offer ev c
  | CallTick keys now => Tick keys now c
  | CallClaim id => keep (Claim id c) c
  | CallDone id => keep (Done id c) c
  end.
Fixpoint co_play (calls : list co_call) (c : Coalescer) : list Turn * Coalescer :=
  match calls with
  | [] => ([], c)
  | call :: calls =>
    let step := co_exec call c in let rest := co_play calls step.2 in (step.1 ++ rest.1, rest.2)
  end.
Definition offered (k : string) (calls : list co_call) : list Event :=
  omap (λ call, match call with
                | CallOffer ev => if bool_decide (evt_SessionKey ev = k) then Some ev else None
                | _ => None end) calls.
Definition of_session (k : string) : list Turn → list Turn := filter (λ t, tn_SessionKey t = k).

Lemma of_session_other k k' out : k' ≠ k → Forall (λ t, tn_SessionKey t = k) out → of_session k' out = [].
Proof.
  intros Hk. induction 1 as [|t out Ht _ IH]; [done |]. unfold of_session. rewrite filter_cons, decide_False; [done |].
  congruence.
Qed.
Lemma of_session_all k out : Forall (λ t, tn_SessionKey t = k) out → of_session k out = out.
Proof.
  induction 1 as [|t out Ht _ IH]; [done |]. unfold of_session in *. by rewrite filter_cons, decide_True, IH.
Qed.

(** ** Well-formed coalescers *)
Record wf (c : Coalescer) : Prop := {
  wf_open k r : co_open c !! k = Some r →
    ∃ t, co_heap c !! r = Some t ∧ tn_SessionKey t = k ∧ tn_State t = StateCollecting;
  wf_heap r t : co_heap c !! r = Some t →
    r < co_next c ∧ (tn_State t = StateCollecting → co_open c !! tn_SessionKey t = Some r);
  wf_turns id r : co_turns c !! id = Some r → ∃ t, co_heap c !! r = Some t ∧ TurnID t = id;
}.

Lemma current_Some k c r t :
  wf c → current k c = Some (r, t) →
  co_open c !! k = Some r ∧ co_heap c !! r = Some t ∧ tn_SessionKey t = k ∧ tn_State t = StateCollecting.
Proof.
  unfold current. intros Hw. destruct (co_open c !! k) as [r'|] eqn:Ho; [| done].
  destruct (co_heap c !! r') as [t'|] eqn:Hh; [| done]. intros [= -> ->].
  destruct (wf_open _ Hw _ _ Ho) as (t' & ? & ? & ?). by simplify_eq.
Qed.

Lemma current_None k c : wf c → current k c = None → co_open c !! k = None.
Proof.
  unfold current. intros Hw. destruct (co_open c !! k) as [r|] eqn:Ho; [| done].
  destruct (wf_open _ Hw _ _ Ho) as (t & -> & _). done.
Qed.

(** [c'] differs from [c] in the turn of session [k] only. *)
Definition only_session (k : string) (c c' : Coalescer) : Prop :=
  co_cfg c' = co_cfg c ∧ ∀ k', k' ≠ k → current k' c' = current k' c.

Lemma only_session_trans k c1 c2 c3 : only_session k c1 c2 → only_session k c2 c3 → only_session k c1 c3.
Proof. intros [? H1] [? H2]. split; [congruence |]. intros k' ?. by rewrite H2, H1. Qed.

(** Replacing an open turn by another collecting turn of the same session and id. *)
Lemma replace_spec k c r t t' :
  wf c → current k c = Some (r, t) → tn_SessionKey t' = k → tn_State t' = StateCollecting → TurnID t' = TurnID t →
  let c' := c <|co_heap := <[r := t']> (co_heap c)|> in
  wf c' ∧ current k c' = Some (r, t') ∧ only_session k c c'.
Proof.
  intros Hw Hc Hk Hs Hid. destruct (current_Some _ _ _ _ Hw Hc) as (Ho & Hh & Hkt & Hst). split_and!.
  - split; cbn.
    + intros k1 r1 Ho1. destruct (wf_open _ Hw _ _ Ho1) as (t1 & Ht1 & Hk1 & ?).
      destruct (decide (r1 = r)) as [->|?]; [| exists t1; by rewrite lookup_insert_ne].
      exists t'. rewrite lookup_insert_eq. split_and!; congruence.
    + intros r1 t1 [[<- <-]|[? Hr1]]%lookup_insert_Some; [| by apply (wf_heap _ Hw)].
      split; [by apply (wf_heap _ Hw r t) | by rewrite Hk].
    + intros id r1 Hr1. destruct (wf_turns _ Hw _ _ Hr1) as (t1 & Ht1 & Hid1).
      destruct (decide (r1 = r)) as [->|?]; [| exists t1; by rewrite lookup_insert_ne].
      exists t'. rewrite lookup_insert_eq. split; congruence.
  - unfold current. cbn. by rewrite Ho, lookup_insert_eq.
  - split; [done |]. intros k' Hk'. unfold current. cbn. destruct (co_open c !! k') as [r1|] eqn:Ho1; [| done].
    rewrite lookup_insert_ne; [done |]. intros <-. destruct (wf_open _ Hw _ _ Ho1) as (t1 & Ht1 & ? & _). congruence.
Qed.

Lemma ready_spec k c r t :
  wf c → current k c = Some (r, t) →
  (ready r c).1 = [t <|tn_State := StateReady|>] ∧ wf (ready r c).2 ∧
  current k (ready r c).2 = None ∧ only_session k c (ready r c).2.
Proof.
  intros Hw Hc. destruct (current_Some _ _ _ _ Hw Hc) as (Ho & Hh & Hkt & Hst). unfold ready. rewrite Hh. cbn.
  split_and!; [done | | |].
  - split; cbn.
    + intros k1 r1 [Hne Ho1]%lookup_delete_Some. destruct (wf_open _ Hw _ _ Ho1) as (t1 & Ht1 & Hk1 & ?).
      exists t1. rewrite lookup_insert_ne; [done |]. intros <-. congruence.
    + intros r1 t1 [[<- <-]|[Hne Hr1]]%lookup_insert_Some; [split; [by apply (wf_heap _ Hw r t) | done] |].
      destruct (wf_heap _ Hw _ _ Hr1) as [? Hcol]. split; [done |]. intros Hs. specialize (Hcol Hs).
      rewrite lookup_delete_ne; [done |]. intros Heq. rewrite <- Heq, Hkt in Hcol. congruence.
    + intros id r1 Hr1. destruct (wf_turns _ Hw _ _ Hr1) as (t1 & Ht1 & Hid1).
      destruct (decide (r1 = r)) as [->|?]; [| exists t1; by rewrite lookup_insert_ne].
      eexists. rewrite lookup_insert_eq. split; [done |]. cbn. congruence.
  - unfold current. cbn. by rewrite Hkt, lookup_delete_eq.
  - split; [done |]. intros k' Hk'. unfold current. cbn. rewrite Hkt, lookup_delete_ne by done.
    destruct (co_open c !! k') as [r1|] eqn:Ho1; [| done].
    rewrite lookup_insert_ne; [done |]. intros <-. destruct (wf_open _ Hw _ _ Ho1) as (t1 & Ht1 & ? & _). congruence.
Qed.

(** A fresh cell for a new turn. *)
Definition alloc (t : Turn) (c : Coalescer) : Coalescer :=
  c <|co_heap := <[co_next c := t]> (co_heap c)|> <|co_next := co_next c + 1|>
    <|co_turns := <[TurnID t := co_next c]> (co_turns c)|>
    <|co_open := <[tn_SessionKey t := co_next c]> (co_open c)|>.

Lemma heap_fresh c : wf c → co_heap c !! co_next c = None.
Proof.
  intros Hw. destruct (co_heap c !! co_next c) as [t|] eqn:Ht; [| done].
  destruct (wf_heap _ Hw _ _ Ht). lia.
Qed.

Lemma alloc_spec k c t :
  wf c → current k c = None → tn_SessionKey t = k → tn_State t = StateCollecting →
  wf (alloc t c) ∧ current k (alloc t c) = Some (co_next c, t) ∧ only_session k c (alloc t c).
Proof.
  intros Hw Hc Hk Hs. apply current_None in Hc; [| done]. pose proof (heap_fresh c Hw) as Hf. split_and!.
  - split; cbn.
    + intros k1 r1 [[<- <-]|[? Ho1]]%lookup_insert_Some; [exists t; by rewrite lookup_insert_eq |].
      destruct (wf_open _ Hw _ _ Ho1) as (t1 & Ht1 & ? & ?). exists t1. rewrite lookup_insert_ne; [done |]. congruence.
    + intros r1 t1 [[<- <-]|[? Hr1]]%lookup_insert_Some; [split; [lia | by rewrite lookup_insert_eq] |].
      destruct (wf_heap _ Hw _ _ Hr1) as [? Hcol]. split; [lia |]. intros Hst.
      rewrite lookup_insert_ne; [by apply Hcol |]. intros Heq. rewrite Hk in Heq. rewrite <- Heq in Hcol.
      rewrite Hcol in Hc; done.
    + intros id r1 [[<- <-]|[? Hr1]]%lookup_insert_Some; [exists t; by rewrite lookup_insert_eq |].
      destruct (wf_turns _ Hw _ _ Hr1) as (t1 & Ht1 & ?). exists t1. rewrite lookup_insert_ne; [done |]. congruence.
  - unfold current. cbn. by rewrite Hk, !lookup_insert_eq.
  - split; [done |]. intros k' Hk'. unfold current. cbn. rewrite Hk, lookup_insert_ne by done.
    destruct (co_open c !! k') as [r1|] eqn:Ho1; [| done].
    destruct (wf_open _ Hw _ _ Ho1) as (t1 & Ht1 & _). rewrite lookup_insert_ne; [done |]. congruence.
Qed.

(** ** What a turn is made of *)
Fixpoint gaps (q : Z) (e : Event) (l : list Event) : Prop :=
  match l with
  | [] => True
  | e' :: l => ms (time_sub (evt_At e') (evt_At e)) ≤ q ∧ gaps q e' l
  end.
Fixpoint last_event (e : Event) (l : list Event) : Event :=
  match l with [] => e | e' :: l => last_event e' l end.
Definition total_bytes (evs : list Event) : Z := foldr (λ e n, evt_Bytes e + n) 0 evs.
Definition sane_size (b : Z) : Prop := 0 ≤ b ≤ 2 ^ 61.

(** Turn [t] of session [k] holds [e] and then [l], in this order and within the
    limits [cfg]. *)
Record made_of (cfg : Config) (k : string) (t : Turn) (e : Event) (l : list Event) : Prop := {
  mo_ids : SourceEventIDs t = map evt_ID (e :: l);
  mo_name : TurnID t = turnID k (evt_ID e) ∧ tn_SessionKey t = k ∧ tn_Config t = cfg;
  mo_times : WindowOpenedAt t = evt_At e ∧ LastEventAt t = evt_At (last_event e l);
  mo_count : Z.of_nat (length (e :: l)) ≤ MaxMsgs cfg;
  mo_size : l = [] ∨ tn_Bytes t ≤ MaxBytes cfg;
  mo_exact : Forall (λ e, sane_size (evt_Bytes e)) (e :: l) → sane_size (MaxBytes cfg) →
    tn_Bytes t = total_bytes (e :: l);
  mo_gaps : gaps (QuietMS cfg) e l;
  mo_wait : Forall (λ e', ms (time_sub (evt_At e') (evt_At e)) ≤ MaxWaitMS cfg) l;
}.

Lemma made_of_state cfg k t e l s : made_of cfg k t e l → made_of cfg k (t <|tn_State := s|>) e l.
Proof. by intros []. Qed.

Lemma gaps_snoc q e l x :
  gaps q e (l ++ [x]) ↔ gaps q e l ∧ ms (time_sub (evt_At x) (evt_At (last_event e l))) ≤ q.
Proof. revert e. induction l as [|e' l IH]; intros e; cbn; [tauto |]. rewrite IH. tauto. Qed.
Lemma last_event_snoc e l x : last_event e (l ++ [x]) = x.
Proof. revert e. induction l as [|e' l IH]; intros e; cbn; [done | apply IH]. Qed.
Lemma total_bytes_app l l' : total_bytes (l ++ l') = total_bytes l + total_bytes l'.
Proof. unfold total_bytes. induction l as [|e l IH]; cbn; [done |]. rewrite IH. lia. Qed.

Lemma int_wrap_small x : 0 ≤ x < 2 ^ 63 → int_wrap x = x.
Proof. intros Hx. unfold int_wrap. rewrite Z.mod_small; lia. Qed.

Lemma open_turn_made cfg ev :
  1 ≤ MaxMsgs cfg → made_of cfg (evt_SessionKey ev) (open_turn cfg ev) ev [].
Proof. intros Hm. split; cbn; auto. intros _ _. lia. Qed.

Lemma add_event_made cfg k t e l ev :
  made_of cfg k t e l → joins ev t = true → made_of cfg k (add_event ev t) e (l ++ [ev]).
Proof.
  intros [Hids (Hid & Hk & Hc) [Hopen Hlast] Hn Hs Hx Hg Hw] Hj. unfold joins in Hj.
  autorewrite with reflect in Hj. destruct Hj as [[[Hq Hwait] Hcount] Hb]. rewrite Hc in *. split; cbn.
  - by rewrite Hids, map_app.
  - done.
  - by rewrite last_event_snoc.
  - unfold n_sources in Hcount. rewrite Hids in Hcount. cbn in Hcount. rewrite length_map in Hcount.
    rewrite length_app. cbn. lia.
  - by right.
  - intros Hall Hmax. rewrite app_comm_cons, Forall_app in Hall. destruct Hall as [Hel [Hev _]%Forall_cons].
    specialize (Hx Hel Hmax).
    match goal with |- _ = ?x => change x with (total_bytes ((e :: l) ++ [ev])) end.
    rewrite total_bytes_app, <- Hx, int_wrap_small; [unfold total_bytes; cbn; lia |].
    assert (0 ≤ tn_Bytes t ≤ 2 ^ 61).
    { split.
      - rewrite Hx. clear -Hel. unfold total_bytes. induction Hel as [|x l' [? ?] _ IH]; cbn; lia.
      - destruct Hs as [->|Hs]; [| destruct Hmax; lia]. rewrite Hx. apply Forall_cons in Hel as [[? ?] _]. unfold total_bytes. cbn. lia. }
    unfold sane_size in *. lia.
  - apply gaps_snoc. split; [done |]. by rewrite <- Hlast.
  - apply Forall_app. split; [done |]. constructor; [by rewrite <- Hopen | done].
Qed.

(** The events waiting in the open turn of a session. *)
Definition open_events (k : string) (c : Coalescer) (pend : list Event) : Prop :=
  match current k c with
  | Some (_, t) => ∃ e l, pend = e :: l ∧ made_of (co_cfg c) k t e l
  | None => pend = []
  end.
Definition group (cfg : Config) (k : string) (t : Turn) (evs : list Event) : Prop :=
  ∃ e l, evs = e :: l ∧ made_of cfg k t e l.

(** One step of session [k]: [out] is closed, [c'] follows, and [new] arrived. *)
Definition grouped (k : string) (c : Coalescer) (out : list Turn) (c' : Coalescer) (new : list Event) : Prop :=
  ∀ pend, open_events k c pend →
  ∃ groups pend', Forall2 (group (co_cfg c) k) (of_session k out) groups ∧ open_events k c' pend' ∧
    concat groups ++ pend' = pend ++ new.

Definition valid (cfg : Config) : Prop := 0 < QuietMS cfg ∧ 0 < MaxWaitMS cfg ∧ 0 < MaxMsgs cfg ∧ 0 < MaxBytes cfg.

Lemma grouped_other k k' c out c' new :
  k' ≠ k → only_session k c c' → Forall (λ t, tn_SessionKey t = k) out → new = [] → grouped k' c out c' new.
Proof.
  intros Hk [Hc Ho] Hout -> pend Hp. exists [], pend. rewrite app_nil_r. split_and!; [| | done].
  - rewrite (of_session_other k k') by done. constructor.
  - unfold open_events in *. by rewrite Ho, Hc.
Qed.

Definition arrives (ev : Event) (k : string) : list Event :=
  if bool_decide (evt_SessionKey ev = k) then [ev] else [].

(** What a step keeps: well-formedness, the limits, and the grouping of every
    session. *)
Definition step_ok (c : Coalescer) (step : list Turn * Coalescer) (new : string → list Event) : Prop :=
  wf step.2 ∧ co_cfg step.2 = co_cfg c ∧ ∀ k, grouped k c step.1 step.2 (new k).

Lemma step_trans c s1 s2 new1 new2 :
  step_ok c s1 new1 → step_ok s1.2 s2 new2 → step_ok c (s1.1 ++ s2.1, s2.2) (λ k, new1 k ++ new2 k).
Proof.
  intros (_ & Hc1 & Hg1) (Hw2 & Hc2 & Hg2). split_and!; cbn; [done | congruence |].
  intros k pend Hp. destruct (Hg1 k pend Hp) as (g1 & p1 & Hf1 & Ho1 & He1).
  destruct (Hg2 k p1 Ho1) as (g2 & p2 & Hf2 & Ho2 & He2). rewrite Hc1 in Hf2.
  exists (g1 ++ g2), p2. split_and!; [| done |].
  - unfold of_session. rewrite filter_app. by apply Forall2_app.
  - rewrite concat_app, <- app_assoc, He2, app_assoc, He1. by rewrite app_assoc.
Qed.

Lemma step_new c s new new' : (∀ k, new k = new' k) → step_ok c s new → step_ok c s new'.
Proof. intros Hn (? & ? & Hg). split_and!; [done | done |]. intros k. rewrite <- Hn. apply Hg. Qed.

Lemma ready_ok k c r t :
  wf c → current k c = Some (r, t) → step_ok c (ready r c) (λ _, []).
Proof.
  intros Hw Hc. destruct (ready_spec k c r t Hw Hc) as (Hout & Hw' & Hnone & Ho).
  destruct (current_Some _ _ _ _ Hw Hc) as (_ & _ & Hk & _).
  split; [done |]. split; [apply Ho |]. intros k'. rewrite Hout. destruct (decide (k' = k)) as [->|Hne].
  - intros pend Hp. unfold open_events in Hp. rewrite Hc in Hp. exists [pend], []. split_and!.
    + rewrite of_session_all by (by constructor). constructor; [| constructor].
      destruct Hp as (e & l & -> & Hm). exists e, l. split; [done |]. by apply made_of_state.
    + unfold open_events. by rewrite Hnone.
    + cbn. by rewrite !app_nil_r.
  - eapply grouped_other; [exact Hne | exact Ho | by constructor | done].
Qed.

Lemma alloc_ok c ev :
  valid (co_cfg c) → wf c → current (evt_SessionKey ev) c = None →
  step_ok c ([], alloc (open_turn (co_cfg c) ev) c) (arrives ev).
Proof.
  intros (_ & _ & Hm & _) Hw Hc.
  destruct (alloc_spec _ c (open_turn (co_cfg c) ev) Hw Hc eq_refl eq_refl) as (Hw' & Hcur & Ho).
  split; [done |]. split; [done |]. intros k. unfold arrives. case_bool_decide as Hk.
  - subst k. intros pend Hp. unfold open_events in Hp. rewrite Hc in Hp. subst pend.
    exists [], [ev]. split_and!; [constructor | | done]. unfold open_events. cbn [snd]. rewrite Hcur.
    exists ev, []. split; [done |]. apply open_turn_made. cbn. lia.
  - eapply grouped_other; [by apply not_eq_sym | exact Ho | constructor | done].
Qed.

Lemma join_ok c ev r t :
  wf c → current (evt_SessionKey ev) c = Some (r, t) → joins ev t = true →
  step_ok c ([], c <|co_heap := <[r := add_event ev t]> (co_heap c)|>) (arrives ev).
Proof.
  intros Hw Hc Hj. destruct (current_Some _ _ _ _ Hw Hc) as (_ & _ & Hk & Hs).
  destruct (replace_spec _ c r t (add_event ev t) Hw Hc Hk Hs eq_refl) as (Hw' & Hcur & Ho).
  split; [done |]. split; [done |]. intros k. unfold arrives. case_bool_decide as Hkk.
  - subst k. intros pend Hp. unfold open_events in Hp. rewrite Hc in Hp. destruct Hp as (e & l & -> & Hm).
    exists [], (e :: l ++ [ev]). split_and!; [constructor | | done]. unfold open_events. cbn [snd]. rewrite Hcur.
    exists e, (l ++ [ev]). split; [done |]. by apply add_event_made.
  - eapply grouped_other; [by apply not_eq_sym | exact Ho | constructor | done].
Qed.

Lemma stay_ok c : wf c → step_ok c ([], c) (λ _, []).
Proof.
  intros Hw. split_and!; [done | done |]. intros k pend Hp. exists [], pend. rewrite app_nil_r.
  by split_and!.
Qed.

Lemma start_turn_ok c ev :
  valid (co_cfg c) → wf c → current (evt_SessionKey ev) c = None → step_ok c (start_turn ev c) (arrives ev).
Proof.
  intros Hv Hw Hc. pose proof (alloc_ok c ev Hv Hw Hc) as Ha.
  assert (start_turn ev c = let c' := alloc (open_turn (co_cfg c) ev) c in
    if (MaxBytes (co_cfg c) <=? evt_Bytes ev) || (MaxMsgs (co_cfg c) <=? 1) then ready (co_next c) c' else ([], c'))
    as -> by reflexivity. cbv zeta. destruct (_ || _); [| done].
  destruct (alloc_spec _ c (open_turn (co_cfg c) ev) Hw Hc eq_refl eq_refl) as (Hw' & Hcur & _).
  pose proof (step_trans _ _ _ _ _ Ha (ready_ok _ _ _ _ Hw' Hcur)) as Hs. cbn in Hs.
  eapply step_new in Hs; [| intros k; apply app_nil_r]. by destruct (ready _ _).
Qed.

Lemma Offer_ok c ev : valid (co_cfg c) → wf c → step_ok c (Offer ev c) (arrives ev).
Proof.
  intros Hv Hw. unfold Offer. destruct (current (evt_SessionKey ev) c) as [[r t]|] eqn:Hc;
    [| by apply start_turn_ok].
  destruct (joins ev t) eqn:Hj.
  - pose proof (join_ok c ev r t Hw Hc Hj) as Ha. destruct (_ <=? _); [| done].
    destruct (current_Some _ _ _ _ Hw Hc) as (_ & _ & Hk & Hs).
    destruct (replace_spec _ c r t (add_event ev t) Hw Hc Hk Hs eq_refl) as (Hw' & Hcur & _).
    pose proof (step_trans _ _ _ _ _ Ha (ready_ok _ _ _ _ Hw' Hcur)) as Hst. cbn [fst snd app] in Hst.
    eapply step_new in Hst; [| intros k; apply app_nil_r]. by destruct (ready _ _).
  - destruct (ready_spec _ c r t Hw Hc) as (_ & Hw' & Hnone & Ho).
    pose proof (ready_ok _ _ _ _ Hw Hc) as Ha.
    eapply step_new; [| eapply step_trans; [exact Ha | apply start_turn_ok]]; [done | | done | done].
    by rewrite (proj1 Ho).
Qed.

(** ** Ticks *)
Lemma tick_loop_acc now keys : ∀ closed c,
  tick_loop now keys closed c = (closed ++ (tick_loop now keys [] c).1, (tick_loop now keys [] c).2).
Proof.
  induction keys as [|k keys IH]; intros closed c; cbn; [by rewrite app_nil_r |].
  destruct (current k c) as [[r t]|]; [| apply IH]. destruct (past_window now t); [| apply IH].
  rewrite IH, (IH (ready r c).1). cbn. by rewrite app_assoc.
Qed.

(** The visit of one key. *)
Definition visit (now : time) (k : string) (c : Coalescer) : list Turn * Coalescer :=
  match current k c with
  | Some (r, t) => if past_window now t then ready r c else ([], c)
  | None => ([], c)
  end.

Lemma tick_loop_cons now k keys c :
  tick_loop now (k :: keys) [] c =
  ((visit now k c).1 ++ (tick_loop now keys [] (visit now k c).2).1, (tick_loop now keys [] (visit now k c).2).2).
Proof.
  cbn. unfold visit. destruct (current k c) as [[r t]|]; [destruct (past_window now t) |]; cbn;
    [by rewrite tick_loop_acc | by destruct (tick_loop _ _ _ _)..].
Qed.

Lemma visit_ok now k c : wf c → step_ok c (visit now k c) (λ _, []).
Proof.
  intros Hw. unfold visit. destruct (current k c) as [[r t]|] eqn:Hc; [| by apply stay_ok].
  destruct (past_window now t); [by eapply ready_ok | by apply stay_ok].
Qed.

Lemma visit_only now k c : wf c →
  only_session k c (visit now k c).2 ∧ Forall (λ t, tn_SessionKey t = k) (visit now k c).1 ∧
  (visit now k c = ([], c) ∨ (current k (visit now k c).2 = None ∧ is_Some (current k c) ∧
                               length (visit now k c).1 = 1%nat)).
Proof.
  intros Hw. unfold visit. destruct (current k c) as [[r t]|] eqn:Hc; [| split_and!; by auto].
  destruct (past_window now t); [| split_and!; by auto].
  destruct (ready_spec k c r t Hw Hc) as (Hout & _ & Hnone & Ho).
  destruct (current_Some _ _ _ _ Hw Hc) as (_ & _ & Hk & _).
  split; [done |]. rewrite Hout. split; [by constructor |]. right. split_and!; by try eexists.
Qed.

Lemma tick_loop_ok now keys c : wf c → step_ok c (tick_loop now keys [] c) (λ _, []).
Proof.
  revert c. induction keys as [|k keys IH]; intros c Hw; [by apply stay_ok |]. rewrite tick_loop_cons.
  pose proof (visit_ok now k c Hw) as Hv. eapply step_new; [| eapply step_trans; [exact Hv | apply IH, Hv]]. done.
Qed.

Lemma tick_loop_once now keys c k : wf c →
  (length (of_session k (tick_loop now keys [] c).1) ≤ if current k c is Some _ then 1 else 0)%nat.
Proof.
  revert c. induction keys as [|k0 keys IH]; intros c Hw; [cbn; lia |]. rewrite tick_loop_cons.
  destruct (visit_ok now k0 c Hw) as (Hw' & _). destruct (visit_only now k0 c Hw) as (Ho & Hall & Hcase).
  specialize (IH _ Hw'). unfold of_session in *. cbn [fst]. rewrite filter_app, length_app.
  change (filter _ (visit now k0 c).1) with (of_session k (visit now k0 c).1).
  destruct Hcase as [Heq|(Hnone & [rt Hrt] & Hlen)]; [rewrite Heq in IH |- *; exact IH |].
  destruct (decide (k = k0)) as [->|Hne].
  - rewrite Hnone in IH. rewrite of_session_all, Hlen, Hrt by done. lia.
  - rewrite (of_session_other k0 k) by done. rewrite (proj2 Ho) in IH by done. exact IH.
Qed.

Lemma sink_perm x l : sink x l ≡ₚ x :: l.
Proof.
  induction l as [|y l IH]; cbn; [done |]. destruct (less x y); [| done]. rewrite IH. apply perm_swap.
Qed.
Lemma sort_perm ts : sortTurns ts ≡ₚ ts.
Proof.
  unfold sortTurns. rewrite <- Permutation_rev.
  assert (∀ acc, foldl (λ sorted x, sink x sorted) acc ts ≡ₚ ts ++ acc) as Hf.
  { induction ts as [|x ts IH]; intros acc; cbn; [done |]. rewrite IH, sink_perm. by rewrite Permutation_middle. }
  rewrite Hf. by rewrite app_nil_r.
Qed.

Lemma perm_small {A} (l l' : list A) : l ≡ₚ l' → (length l' ≤ 1)%nat → l = l'.
Proof.
  intros Hp Hl. destruct l' as [|x [|y l']]; [by apply Permutation_nil_r | by apply Permutation_singleton_r | cbn in Hl; lia].
Qed.

Lemma Tick_ok keys now c : wf c → step_ok c (Tick keys now c) (λ _, []).
Proof.
  intros Hw. destruct (tick_loop_ok now keys c Hw) as (Hw' & Hc & Hg). unfold Tick. cbn.
  split_and!; [done | done |]. intros k pend Hp. destruct (Hg k pend Hp) as (gs & p' & Hf & Ho & He).
  exists gs, p'. split_and!; [| done | done]. cbn [fst snd].
  rewrite (perm_small (of_session k (sortTurns (tick_loop now keys [] c).1)) (of_session k (tick_loop now keys [] c).1)).
  - done.
  - unfold of_session. by rewrite sort_perm.
  - pose proof (tick_loop_once now keys c k Hw). destruct (current k c); lia.
Qed.

(** ** Claims *)
Lemma transition_Some id from to c c' :
  transition id from to c = Some c' ↔
  ∃ r t, co_turns c !! id = Some r ∧ co_heap c !! r = Some t ∧ tn_State t = from ∧
    c' = c <|co_heap := <[r := t <|tn_State := to|>]> (co_heap c)|>.
Proof.
  unfold transition. destruct (co_turns c !! id) as [r|]; [| by split; [| intros (? & ? & ? & _)]].
  destruct (co_heap c !! r) as [t|] eqn:Ht; [| by split; [| intros (? & ? & [= <-] & ? & _); congruence]].
  case_bool_decide; split.
  - intros [= <-]. by exists r, t.
  - intros (? & ? & [= <-] & Ht' & _ & ->). by simplify_eq.
  - done.
  - intros (? & ? & [= <-] & Ht' & ? & _). congruence.
Qed.

Lemma transition_ok id from to c c' :
  wf c → from ≠ StateCollecting → to ≠ StateCollecting → transition id from to c = Some c' →
  step_ok c ([], c') (λ _, []).
Proof.
  intros Hw Hf Ht (r & t & Hid & Hr & Hs & ->)%transition_Some.
  set (c' := c <|co_heap := _|>).
  assert (∀ k, current k c' = current k c) as Hcur.
  { intros k. unfold current, c'. cbn. destruct (co_open c !! k) as [r1|] eqn:Ho; [| done].
    rewrite lookup_insert_ne; [done |]. intros <-. destruct (wf_open _ Hw _ _ Ho) as (t1 & ? & _ & ?). congruence. }
  split_and!; [split; cbn | done |].
  - intros k r1 Ho. destruct (wf_open _ Hw _ _ Ho) as (t1 & Ht1 & ? & ?). exists t1.
    rewrite lookup_insert_ne; [done |]. congruence.
  - intros r1 t1 [[<- <-]|[? Hr1]]%lookup_insert_Some; [| by apply (wf_heap _ Hw)].
    split; [by apply (wf_heap _ Hw r t) | done].
  - intros i r1 Hr1. destruct (wf_turns _ Hw _ _ Hr1) as (t1 & Ht1 & Hi).
    destruct (decide (r1 = r)) as [->|?]; [| exists t1; by rewrite lookup_insert_ne].
    eexists. rewrite lookup_insert_eq. split; [done |]. cbn. congruence.
  - intros k pend Hp. exists [], pend. rewrite app_nil_r. split_and!; [constructor | | done].
    unfold open_events in *. cbn [snd]. by rewrite Hcur.
Qed.

Definition call_arrives (call : co_call) (k : string) : list Event :=
  match call with CallOffer ev => arrives ev k | _ => [] end.

Lemma co_exec_ok call c : valid (co_cfg c) → wf c → step_ok c (co_exec call c) (call_arrives call).
Proof.
  intros Hv Hw. destruct call as [ev|keys now|id|id]; cbn [co_exec].
  - by apply Offer_ok.
  - by apply Tick_ok.
  - unfold keep. destruct (Claim id c) as [c'|] eqn:Hc; cbn; [by eapply transition_ok in Hc | by apply stay_ok].
  - unfold keep. destruct (Done id c) as [c'|] eqn:Hc; cbn; [by eapply transition_ok in Hc | by apply stay_ok].
Qed.

Lemma offered_cons k call calls : offered k (call :: calls) = call_arrives call k ++ offered k calls.
Proof. destruct call; cbn; try done. unfold arrives. by case_bool_decide. Qed.

Lemma co_play_ok calls : ∀ c, valid (co_cfg c) → wf c → step_ok c (co_play calls c) (λ k, offered k calls).
Proof.
  induction calls as [|call calls IH]; intros c Hv Hw; [by apply stay_ok |]. cbn [co_play].
  pose proof (co_exec_ok call c Hv Hw) as Hs.
  eapply step_new; [| eapply step_trans; [exact Hs | apply IH; [| apply Hs]]].
  - intros k. symmetry. apply offered_cons.
  - by rewrite (proj1 (proj2 Hs)).
Qed.

Lemma New_ok cfg c : New cfg = Some c → valid cfg ∧ co_cfg c = cfg ∧ wf c ∧ ∀ k, current k c = None.
Proof.
  unfold New. destruct (_ || _) eqn:Hv; [done |]. intros [= <-]. autorewrite with reflect in Hv. unfold valid.
  split; [lia |]. split; [done |]. split; [by split | done].
Qed.

(** ** Grouping *)

(** C18: whatever the traffic, each message of a session is in exactly one turn: the
    events of the turns closed for the session, in the order they were closed,
    followed by those of its open turn, are the events offered for it in arrival
    order; and every turn is named after its first event and within the limits
    on count, size, gaps and total wait. *)
Theorem bursts_grouped cfg c calls k :
  New cfg = Some c →
  ∃ groups pend,
    Forall2 (group cfg k) (of_session k (co_play calls c).1) groups ∧
    open_events k (co_play calls c).2 pend ∧
    concat groups ++ pend = offered k calls.
Proof.
  intros (Hv & Hc & Hw & Hn)%New_ok. rewrite <- Hc in Hv. destruct (co_play_ok calls c Hv Hw) as (_ & _ & Hg).
  rewrite <- Hc. apply (Hg k []). unfold open_events. by rewrite Hn.
Qed.

Lemma gaps_ms q e l i a b :
  gaps q e l → (e :: l) !! i = Some a → l !! i = Some b → ms (time_sub (evt_At b) (evt_At a)) ≤ q.
Proof.
  revert e i. induction l as [|e' l IH]; intros e i; [by rewrite lookup_nil |].
  intros [Hq Hg] Ha Hb. destruct i as [|i]; cbn in *; [by simplify_eq |]. by eapply IH.
Qed.

(** A closed turn holds messages that were offered for its session. *)
Lemma closed_from_offered cfg c calls t :
  New cfg = Some c → t ∈ (co_play calls c).1 →
  ∃ e l, made_of cfg (tn_SessionKey t) t e l ∧ (e :: l) `sublist_of` offered (tn_SessionKey t) calls.
Proof.
  intros (Hv & Hc & Hw & Hn)%New_ok Ht. rewrite <- Hc in Hv.
  destruct (co_play_ok calls c Hv Hw) as (_ & _ & Hg). rewrite Hc in *.
  destruct (Hg (tn_SessionKey t) []) as (groups & pend & Hf & _ & He).
  { unfold open_events. by rewrite Hn. }
  assert (t ∈ of_session (tn_SessionKey t) (co_play calls c).1) as [i Hi]%list_elem_of_lookup
    by by apply list_elem_of_filter.
  rewrite Hc in Hf. destruct (Forall2_lookup_l _ _ _ _ _ Hf Hi) as (evs & Hevs & e & l & -> & Hm).
  exists e, l. split; [done |].
  rewrite app_nil_l in He. rewrite <- He. apply sublist_inserts_r.
  apply list_elem_of_lookup_2 in Hevs. clear -Hevs. induction Hevs; cbn.
  - by apply sublist_inserts_r.
  - by apply sublist_inserts_l.
Qed.

(** Every turn the coalescer returns holds between one and [MaxMsgs] messages;
    with message sizes a chat can have it holds at most [MaxBytes] bytes unless it
    is a single oversized message, and its byte count is exact. *)
Theorem turn_limits cfg c calls t :
  New cfg = Some c → t ∈ (co_play calls c).1 →
  ∃ evs, SourceEventIDs t = map evt_ID evs ∧ evs `sublist_of` offered (tn_SessionKey t) calls ∧
    1 ≤ n_sources t ≤ MaxMsgs cfg ∧
    (Forall (λ e, sane_size (evt_Bytes e)) evs → sane_size (MaxBytes cfg) →
       tn_Bytes t = total_bytes evs ∧ (n_sources t = 1 ∨ total_bytes evs ≤ MaxBytes cfg)).
Proof.
  intros Hnew Ht. destruct (closed_from_offered cfg c calls t Hnew Ht) as (e & l & Hm & Hsub).
  exists (e :: l). split; [apply Hm |]. split; [done |].
  destruct Hm as [Hids _ _ Hcount Hsize Hexact _ _].
  unfold n_sources. rewrite Hids, length_map. split; [cbn in *; lia |].
  intros Hall Hmax. rewrite <- (Hexact Hall Hmax). split; [done |].
  destruct Hsize as [->|?]; [by left | by right].
Qed.

(** ** Lifecycle *)
Definition rank (s : State) : nat :=
  match s with StateCollecting => 0 | StateReady => 1 | StateClaimed => 2 | StateDone => 3 end.

(** The turn [t] later: its state moved forward, and once closed nothing else. *)
Record later (t t' : Turn) : Prop := {
  lt_rank : (rank (tn_State t) ≤ rank (tn_State t'))%nat;
  lt_name : TurnID t' = TurnID t ∧ tn_SessionKey t' = tn_SessionKey t;
  lt_ids : SourceEventIDs t `prefix_of` SourceEventIDs t';
  lt_frozen : tn_State t ≠ StateCollecting → t' = t <|tn_State := tn_State t'|>;
}.
Definition heap_later (h h' : gmap Z Turn) : Prop :=
  ∀ r t, h !! r = Some t → ∃ t', h' !! r = Some t' ∧ later t t'.

Lemma later_refl t : later t t.
Proof. by split; try destruct t. Qed.
Lemma later_trans t1 t2 t3 : later t1 t2 → later t2 t3 → later t1 t3.
Proof.
  intros [Hr1 [Hi1 Hk1] Hp1 Hf1] [Hr2 [Hi2 Hk2] Hp2 Hf2]. split; [lia | split; congruence | by etransitivity |].
  intros Hs. specialize (Hf1 Hs).
  assert (tn_State t2 ≠ StateCollecting) as Hc by (intros Hc; rewrite Hc in Hr1; destruct (tn_State t1); cbn in *; [done | lia..]).
  specialize (Hf2 Hc). clear Hs Hc Hr1 Hr2. destruct t1, t2, t3. cbn in *. congruence.
Qed.
#[local] Instance heap_later_preorder : PreOrder heap_later.
Proof.
  split.
  - intros h r t Ht. exists t. split; [done | apply later_refl].
  - intros h1 h2 h3 H1 H2 r t Ht. destruct (H1 _ _ Ht) as (t2 & Ht2 & Hl).
    destruct (H2 _ _ Ht2) as (t3 & Ht3 & Hl'). exists t3. split; [done | by eapply later_trans].
Qed.

Lemma heap_later_insert h r t' :
  (∀ t, h !! r = Some t → later t t') → heap_later h (<[r := t']> h).
Proof.
  intros Hl r1 t1 Ht1. destruct (decide (r1 = r)) as [->|Hne].
  - exists t'. rewrite lookup_insert_eq. auto.
  - exists t1. rewrite lookup_insert_ne by done. split; [done | apply later_refl].
Qed.

Lemma ready_later k c r t : wf c → current k c = Some (r, t) → heap_later (co_heap c) (co_heap (ready r c).2).
Proof.
  intros Hw Hc. destruct (current_Some _ _ _ _ Hw Hc) as (_ & Hr & _ & Hs). unfold ready. rewrite Hr. cbn.
  apply heap_later_insert. intros t' Ht'. simplify_eq. split; cbn; [rewrite Hs; cbn; lia | done | done | congruence].
Qed.

Lemma alloc_later c t : wf c → heap_later (co_heap c) (co_heap (alloc t c)).
Proof. intros Hw. apply heap_later_insert. intros t' Ht'. by rewrite heap_fresh in Ht'. Qed.

Lemma start_later c ev :
  wf c → current (evt_SessionKey ev) c = None → heap_later (co_heap c) (co_heap (start_turn ev c).2).
Proof.
  intros Hw Hc. destruct (alloc_spec _ c (open_turn (co_cfg c) ev) Hw Hc eq_refl eq_refl) as (Hw' & Hcur & _).
  pose proof (alloc_later c (open_turn (co_cfg c) ev) Hw) as Ha.
  unfold start_turn. destruct (_ || _); [| exact Ha]. etransitivity; [exact Ha | by eapply ready_later].
Qed.

Lemma Offer_later c ev : wf c → heap_later (co_heap c) (co_heap (Offer ev c).2).
Proof.
  intros Hw. unfold Offer. destruct (current _ c) as [[r t]|] eqn:Hc; [| by apply start_later].
  destruct (current_Some _ _ _ _ Hw Hc) as (_ & Hr & Hk & Hs). destruct (joins ev t) eqn:Hj.
  - destruct (replace_spec _ c r t (add_event ev t) Hw Hc Hk Hs eq_refl) as (Hw' & Hcur & _).
    assert (heap_later (co_heap c) (<[r := add_event ev t]> (co_heap c))) as Ha.
    { apply heap_later_insert. intros t' Ht'. simplify_eq.
      split; cbn; [done | done | by apply prefix_app_r | congruence]. }
    destruct (_ <=? _); [| done]. etransitivity; [exact Ha | by eapply (ready_later _ _ _ _ Hw')].
  - destruct (ready_spec _ c r t Hw Hc) as (_ & Hw' & Hnone & _). cbn.
    etransitivity; [by eapply ready_later | by apply start_later].
Qed.

Lemma tick_later now keys c : wf c → heap_later (co_heap c) (co_heap (Tick keys now c).2).
Proof.
  unfold Tick. cbn [snd]. revert c. induction keys as [|k keys IH]; intros c Hw; [done |]. rewrite tick_loop_cons.
  cbn [snd]. etransitivity; [| apply IH, (visit_ok now k c Hw)]. unfold visit.
  destruct (current k c) as [[r t]|] eqn:Hc; [| done]. destruct (past_window now t); [by eapply ready_later | done].
Qed.

Lemma transition_later id from to c c' :
  from ≠ StateCollecting → (rank from ≤ rank to)%nat → transition id from to c = Some c' →
  heap_later (co_heap c) (co_heap c').
Proof.
  intros Hf Hr (r & t & _ & Ht & Hs & ->)%transition_Some. apply heap_later_insert. intros t' Ht'. simplify_eq.
  by split.
Qed.

Lemma co_exec_later call c : wf c → heap_later (co_heap c) (co_heap (co_exec call c).2).
Proof.
  intros Hw. destruct call as [ev|keys now|id|id]; cbn [co_exec].
  - by apply Offer_later.
  - by apply tick_later.
  - unfold keep. destruct (Claim id c) eqn:Hc; [| done]. cbn. eapply transition_later; [.. | exact Hc]; [done | cbn; lia].
  - unfold keep. destruct (Done id c) eqn:Hc; [| done]. cbn. eapply transition_later; [.. | exact Hc]; [done | cbn; lia].
Qed.

Lemma co_play_later calls : ∀ c, valid (co_cfg c) → wf c → heap_later (co_heap c) (co_heap (co_play calls c).2).
Proof.
  induction calls as [|call calls IH]; intros c Hv Hw; [done |]. cbn [co_play snd].
  destruct (co_exec_ok call c Hv Hw) as (Hw' & Hc & _).
  etransitivity; [by apply co_exec_later | apply IH; [by rewrite Hc | done]].
Qed.

(** A turn is collecting exactly while it is its session's open turn; over any
    further calls its state only moves forward and, once closed, its messages do
    not change; and a turn that was claimed is not claimed again. *)
Theorem turn_lifecycle cfg c0 past calls r t :
  New cfg = Some c0 →
  let c := (co_play past c0).2 in
  let c' := (co_play calls c).2 in
  co_heap c !! r = Some t →
  (tn_State t = StateCollecting ↔ co_open c !! tn_SessionKey t = Some r) ∧
  (∃ t', co_heap c' !! r = Some t' ∧ later t t') ∧
  (∀ id c1, co_turns c !! id = Some r → Claim id c = Some c1 →
     let c2 := (co_play calls c1).2 in co_turns c2 !! id = Some r → Claim id c2 = None).
Proof.
  intros (Hv & Hcfg & Hw0 & _)%New_ok c c' Ht. rewrite <- Hcfg in Hv.
  destruct (co_play_ok past c0 Hv Hw0) as (Hw & Hc & _). fold c in Hw, Hc. rewrite <- Hc in Hv.
  split; [split | split].
  - by apply (wf_heap _ Hw r t).
  - intros Ho. destruct (wf_open _ Hw _ _ Ho) as (t1 & Ht1 & _ & ?). by simplify_eq.
  - by apply co_play_later.
  - intros id c1 Hid Hcl c2 Hid2. pose proof Hcl as Hw1. apply transition_ok in Hw1 as (Hw1 & Hc1 & _); [| done..].
    apply transition_Some in Hcl as (r1 & t1 & Hid1 & Ht1 & Hs & ->). simplify_eq. cbn [snd] in *.
    destruct (co_play_later calls _ ltac:(by rewrite Hc1) Hw1 r _ (lookup_insert_eq _ _ _)) as (t2 & Ht2 & [Hl _ _ _]).
    unfold Claim, transition. fold c2 in Ht2. rewrite Hid2, Ht2. case_bool_decide as Hst; [| done].
    rewrite Hst in Hl. cbn in Hl. lia.
Qed.

(** ** The order of the map *)
Definition before (a b : Turn) : Prop :=
  WindowOpenedAt a < WindowOpenedAt b ∨
  (WindowOpenedAt a = WindowOpenedAt b ∧ String.le (TurnID a) (TurnID b)).

Lemma less_spec a b : less a b = false ↔ before b a.
Proof.
  unfold less, before. destruct (Z.eqb_spec (WindowOpenedAt a) (WindowOpenedAt b)) as [->|Hne]; cbn.
  - assert (String.ltb (TurnID a) (TurnID b) = negb (String.leb (TurnID b) (TurnID a))) as ->.
    { unfold String.ltb, String.leb. rewrite String.compare_antisym. by destruct (String.compare _ _). }
    rewrite negb_false_iff. unfold String.le. rewrite Is_true_true. intuition lia.
  - rewrite Z.ltb_ge. intuition lia.
Qed.
Lemma less_before a b : less a b = true → before a b.
Proof.
  intros Hl. destruct (less b a) eqn:Hb; [| by apply less_spec in Hb].
  unfold less in *. rewrite (Z.eqb_sym (WindowOpenedAt b)) in Hb.
  destruct (Z.eqb_spec (WindowOpenedAt a) (WindowOpenedAt b)); cbn in *; [| lia].
  unfold String.ltb in *. rewrite String.compare_antisym in Hb. by destruct (String.compare _ _).
Qed.
#[local] Instance before_trans : Transitive before.
Proof.
  intros a b c [Hab|[Hab Hi]] [Hbc|[Hbc Hj]]; unfold before; [left; lia.. |].
  right. split; [lia | by etransitivity].
Qed.

Lemma sink_sorted x l : Sorted (flip before) l → Sorted (flip before) (sink x l).
Proof.
  induction 1 as [|y l Hs IH Hd]; cbn; [by repeat constructor |]. destruct (less x y) eqn:Hl.
  - constructor; [done |]. destruct l as [|z l]; cbn; [constructor; by apply less_before |].
    inversion Hd; subst. destruct (less x z); constructor; [done | by apply less_before].
  - constructor; [by constructor |]. constructor. by apply less_spec.
Qed.
Lemma sortTurns_sorted ts : Sorted before (sortTurns ts).
Proof.
  unfold sortTurns. rewrite rev_alt. apply (Sorted_reverse (flip before)).
  assert (∀ acc, Sorted (flip before) acc → Sorted (flip before) (foldl (λ sorted x, sink x sorted) acc ts)) as Hf.
  { induction ts as [|x ts IH]; intros acc Ha; [done |]. cbn. by apply IH, sink_sorted. }
  apply Hf. constructor.
Qed.

Lemma visit_comm now k1 k2 c :
  wf c → k1 ≠ k2 →
  (visit now k2 (visit now k1 c).2).1 = (visit now k2 c).1 ∧
  (visit now k1 (visit now k2 c).2).1 = (visit now k1 c).1 ∧
  (visit now k2 (visit now k1 c).2).2 = (visit now k1 (visit now k2 c).2).2.
Proof.
  intros Hw Hne. destruct (visit_only now k1 c Hw) as ([_ Ho1] & _). destruct (visit_only now k2 c Hw) as ([_ Ho2] & _).
  unfold visit at 1 3 4 6 7 9. rewrite Ho1, Ho2 by done. unfold visit.
  destruct (current k1 c) as [[r1 t1]|] eqn:H1; destruct (current k2 c) as [[r2 t2]|] eqn:H2; try done;
    destruct (past_window now t1) eqn:?; try destruct (past_window now t2) eqn:?; try done.
  destruct (current_Some _ _ _ _ Hw H1) as (_ & Hr1 & Hk1 & _). destruct (current_Some _ _ _ _ Hw H2) as (_ & Hr2 & Hk2 & _).
  assert (r1 ≠ r2) by congruence. unfold ready. rewrite Hr1, Hr2. cbn.
  rewrite !lookup_insert_ne, Hr1, Hr2 by done. cbn. split_and!; [done | done |].
  by rewrite insert_insert_ne, delete_delete by done.
Qed.

Lemma tick_loop_perm now keys keys' : keys ≡ₚ keys' → ∀ c, wf c →
  (tick_loop now keys [] c).1 ≡ₚ (tick_loop now keys' [] c).1 ∧
  (tick_loop now keys [] c).2 = (tick_loop now keys' [] c).2.
Proof.
  induction 1 as [|k keys keys' _ IH|k1 k2 keys|keys1 keys2 keys3 _ IH1 _ IH2]; intros c Hw.
  - done.
  - rewrite !tick_loop_cons. cbn [fst snd]. destruct (IH _ (proj1 (visit_ok now k c Hw))) as [Hp ->].
    split; [by rewrite Hp | done].
  - destruct (decide (k1 = k2)) as [->|Hne]; [done |]. rewrite !tick_loop_cons. cbn [fst snd].
    destruct (visit_comm now k1 k2 c Hw Hne) as (-> & -> & ->). split; [| done].
    rewrite !app_assoc. f_equiv. apply Permutation_app_comm.
  - destruct (IH1 c Hw) as [Hp1 Hs1]. destruct (IH2 c Hw) as [Hp2 Hs2]. split; [by rewrite Hp1 | congruence].
Qed.

Lemma tick_loop_elem now keys t : ∀ c, wf c → t ∈ (tick_loop now keys [] c).1 →
  ∃ k r t0, current k c = Some (r, t0) ∧ t = t0 <|tn_State := StateReady|>.
Proof.
  induction keys as [|k keys IH]; intros c Hw; [by intros ?%elem_of_nil |]. rewrite tick_loop_cons. cbn [fst].
  intros [Ht|Ht]%elem_of_app.
  - unfold visit in Ht. destruct (current k c) as [[r t0]|] eqn:Hc; [| by apply elem_of_nil in Ht].
    destruct (past_window now t0); [| by apply elem_of_nil in Ht].
    destruct (ready_spec k c r t0 Hw Hc) as (Hr & _). rewrite Hr in Ht. apply list_elem_of_singleton in Ht as ->.
    by exists k, r, t0.
  - destruct (visit_ok now k c Hw) as (Hw' & _). destruct (visit_only now k c Hw) as ([_ Ho] & _ & Hcase).
    destruct (IH _ Hw' Ht) as (k' & r & t0 & Hc & ->). exists k', r, t0. split; [| done].
    destruct (decide (k' = k)) as [->|Hne]; [| by rewrite <- Ho].
    destruct Hcase as [Heq|(Hn & _)]; [by rewrite Heq in Hc | congruence].
Qed.

(** What a tick returns and leaves does not depend on the order Go visits the
    map of open turns in, as long as two open turns do not share an id; the
    turns come out sorted by the start of their window, then by id. *)
Theorem tick_deterministic cfg c0 past now keys keys' :
  New cfg = Some c0 →
  let c := (co_play past c0).2 in
  (∀ k k' r r' t t', current k c = Some (r, t) → current k' c = Some (r', t') → TurnID t = TurnID t' → k = k') →
  keys ≡ₚ keys' →
  Tick keys now c = Tick keys' now c ∧ Sorted before (Tick keys now c).1.
Proof.
  intros (Hv & Hcfg & Hw0 & _)%New_ok c Hids Hp. rewrite <- Hcfg in Hv.
  destruct (co_play_ok past c0 Hv Hw0) as (Hw & _). fold c in Hw.
  destruct (tick_loop_perm now keys keys' Hp c Hw) as [Hpo Hs]. split; [| apply sortTurns_sorted].
  unfold Tick. rewrite Hs. f_equal. apply (Sorted_unique_strong before); try apply sortTurns_sorted.
  - intros t t' Ht Ht' Hb Hb'. rewrite sort_perm in Ht, Ht'. rewrite <- Hpo in Ht'.
    apply tick_loop_elem in Ht as (k & r & t1 & Hc & ->); [| done].
    apply tick_loop_elem in Ht' as (k' & r' & t2 & Hc' & ->); [| done].
    assert (TurnID t1 = TurnID t2) as Hid.
    { destruct Hb as [Hb|[Hb Hi]], Hb' as [Hb'|[Hb' Hi']]; cbn in *; try lia. by apply (anti_symm String.le). }
    pose proof (Hids _ _ _ _ _ _ Hc Hc' Hid) as ->. by simplify_eq.
  - by rewrite !sort_perm.
Qed.

(** ** Witnesses *)
Module Witnesses.
Definition t0 : time := 1767268800 * Second.
Definition message (id key : string) (m : Z) : Event := MkEvent id key (t0 + m * Millisecond) 10.
Definition limits : Config := MkConfig 1000 5000 2 1000.
Definition start : Coalescer := MkCoalescer limits ∅ ∅ ∅ 0.

(** Two sessions; the third message of the first opens a second turn. *)
Definition traffic : list co_call :=
  [CallOffer (message "a1" "telegram:1:5" 0); CallOffer (message "b1" "telegram:1:6" 100);
   CallOffer (message "a2" "telegram:1:5" 200); CallOffer (message "a3" "telegram:1:5" 300)].
Definition later_state : Coalescer := (co_play traffic start).2.

Lemma bursts_grouped_witness :
  ∃ groups pend, concat groups ++ pend = [message "a1" "telegram:1:5" 0; message "a2" "telegram:1:5" 200;
      message "a3" "telegram:1:5" 300] ∧
    Forall2 (group limits "telegram:1:5") (of_session "telegram:1:5" (co_play traffic start).1) groups.
Proof.
  destruct (bursts_grouped limits start traffic "telegram:1:5" eq_refl) as (groups & pend & Hf & _ & He).
  exists groups, pend. split; [rewrite He; vm_compute; reflexivity | exact Hf].
Defined.

Lemma turn_limits_witness :
  ∃ t, t ∈ (co_play traffic start).1 ∧ 1 ≤ n_sources t ≤ 2.
Proof.
  destruct (co_play traffic start).1 as [|t l] eqn:Hout; [vm_compute in Hout; discriminate |].
  assert (t ∈ (co_play traffic start).1) as Ht by (rewrite Hout; left).
  exists t. split; [left |]. destruct (turn_limits limits start traffic t eq_refl Ht) as (_ & _ & _ & Hn & _).
  exact Hn.
Defined.

(** The first session's full turn is claimed once. *)
Lemma turn_lifecycle_witness :
  ∃ c1, Claim (turnID "telegram:1:5" "a1") later_state = Some c1 ∧
    Claim (turnID "telegram:1:5" "a1") c1 = None.
Proof.
  destruct (co_heap later_state !! 0) as [t|] eqn:Ht; [| vm_compute in Ht; discriminate].
  destruct (turn_lifecycle limits start traffic [] 0 t eq_refl Ht) as (_ & _ & Hc).
  assert (is_Some (Claim (turnID "telegram:1:5" "a1") later_state)) as [c1 H1].
  { apply is_Some_eval. vm_compute. reflexivity. }
  exists c1. split; [exact H1 |].
  apply (Hc _ c1); [vm_compute; reflexivity | exact H1 |].
  pose proof H1 as (r & t' & _ & _ & _ & ->)%transition_Some. vm_compute. reflexivity.
Defined.

Lemma tick_deterministic_witness :
  Tick ["telegram:1:5"; "telegram:1:6"] (t0 + 2000 * Millisecond) later_state
    = Tick ["telegram:1:6"; "telegram:1:5"] (t0 + 2000 * Millisecond) later_state.
Proof.
  apply (tick_deterministic limits start traffic); [reflexivity | | by apply perm_swap].
  assert (∀ k, k ≠ "telegram:1:5" → k ≠ "telegram:1:6" → current k later_state = None) as Hother.
  { intros k H5 H6. unfold current, later_state.
    assert (co_open (co_play traffic start).2 = {["telegram:1:5" := 2; "telegram:1:6" := 1]}) as ->
      by (vm_compute; reflexivity).
    rewrite lookup_insert_ne, lookup_singleton_ne by done. reflexivity. }
  set (id5 := turnID "telegram:1:5" "a3"). set (id6 := turnID "telegram:1:6" "b1").
  assert ((λ rt, TurnID rt.2) <$> current "telegram:1:5" later_state = Some id5) as H5 by (vm_compute; reflexivity).
  assert ((λ rt, TurnID rt.2) <$> current "telegram:1:6" later_state = Some id6) as H6 by (vm_compute; reflexivity).
  assert (id5 ≠ id6) as Hne by (vm_compute; discriminate). clearbody id5 id6.
  fold later_state. generalize dependent later_state. intros c Hother H5 H6 k k' r r' t t' Hc Hc' Hid.
  assert (∀ k r t, current k c = Some (r, t) →
    (k = "telegram:1:5" ∧ TurnID t = id5) ∨ (k = "telegram:1:6" ∧ TurnID t = id6)) as Hids.
  { clear -Hother H5 H6. intros k r t Hc.
    destruct (decide (k = "telegram:1:5")) as [->|Hn5]; [left; rewrite Hc in H5; by injection H5 |].
    destruct (decide (k = "telegram:1:6")) as [->|Hn6]; [right; rewrite Hc in H6; by injection H6 |].
    by rewrite Hother in Hc. }
  destruct (Hids _ _ _ Hc) as [[-> H1]|[-> H1]], (Hids _ _ _ Hc') as [[-> H2]|[-> H2]]; congruence.
Defined.
End Witnesses.
