(* ===== verification/Rows.v ===== *)
(** * Rows of the agent tables: [src/internal/db/agent_domain.go]

    The structs the agent components exchange.  A nullable column or pointer is
    an option, a zero [time.Time] is [time_zero], and a [float64] that no
    modelled code computes with is its bit pattern. *)

From S2P Require Import Prelude GoString.

(** ** Modes, states and directions *)
Definition AgentModeObserve : string := "observe".
Definition AgentModeGuarded : string := "guarded".
Definition AgentModeOff : string := "off".

Definition ConversationActive : string := "active".
Definition ConversationPaused : string := "paused".
Definition ConversationTakenOver : string := "taken_over".
Definition ConversationClosed : string := "closed".

Definition DirectionIncoming : string := "incoming".
Definition DirectionAgentOutgoing : string := "agent_outgoing".
Definition DirectionOwnerOutgoing : string := "owner_outgoing".

Definition PeerContactYes : string := "contact".
Definition PeerContactNo : string := "non_contact".

Definition ActionTypeReply : string := "propose_reply".
Definition ActionTypeOwnerSummary : string := "send_owner_summary".
Definition ActionTypeOwnerApproval : string := "request_owner_approval".

(** ** Profiles *)
Record AgentProfile := MkAgentProfile {
  p_UserID : Z;
  p_Mode : string;
  p_AutopilotPaused : bool;
  p_ListenerEnabled : bool;
  p_DisclosureText : string;
  p_DisclosureDisabled : bool;
  p_MaxAutonomousTurns : Z;
  p_MaxMsgsPerMinute : Z;
  p_MaxReplyChars : Z;
  p_IntentAllowlist : string;
  p_IntentDenylist : string;
  p_WorkingHours : string;
  p_AudienceExcludes : string;
  p_AssistantInstalledAt : time;
  p_InstallRevision : Z;
  p_AssistantName : string;
  p_BlockedSenders : string;
  p_SenderAllowlist : string;
  p_Runtime : string;
  p_ManagedConsentVersion : string;
  p_ManagedConsentAt : time;
  p_BudgetPausedUntil : time;
  p_ManagedBudgetUSDDay : option Z;
  p_ManagedBudgetUSDMonth : option Z;
  p_CreatedAt : time;
  p_UpdatedAt : time;
}.
#[global] Instance eta_AgentProfile : Eta AgentProfile := λ p,
  MkAgentProfile (p_UserID p) (p_Mode p) (p_AutopilotPaused p) (p_ListenerEnabled p)
    (p_DisclosureText p) (p_DisclosureDisabled p) (p_MaxAutonomousTurns p)
    (p_MaxMsgsPerMinute p) (p_MaxReplyChars p) (p_IntentAllowlist p) (p_IntentDenylist p)
    (p_WorkingHours p) (p_AudienceExcludes p) (p_AssistantInstalledAt p)
    (p_InstallRevision p) (p_AssistantName p) (p_BlockedSenders p) (p_SenderAllowlist p)
    (p_Runtime p) (p_ManagedConsentVersion p) (p_ManagedConsentAt p) (p_BudgetPausedUntil p)
    (p_ManagedBudgetUSDDay p) (p_ManagedBudgetUSDMonth p) (p_CreatedAt p) (p_UpdatedAt p).

(** A profile as [EnsureAgentProfile] leaves it, for user [uid]. *)
Definition default_profile (uid : Z) (now : time) : AgentProfile :=
  MkAgentProfile uid AgentModeObserve true false "" false 6 2 1200 "" "" "" "" time_zero 1
    "hr-recruiter" "" "" "own" "" time_zero time_zero None None now now.

(** ** Conversations *)
Record Conversation := MkConversation {
  c_UserID : Z;
  c_ID : Z;
  c_PeerTGID : Z;
  c_PeerAccessHash : Z;
  c_PeerUsername : string;
  c_PeerDisplayName : string;
  c_State : string;
  c_AutonomousTurns : Z;
  c_LastIncomingAt : time;
  c_LastAgentReplyAt : time;
  c_OwnerEngagedAt : time;
  c_PeerContact : string;
  c_CreatedAt : time;
  c_UpdatedAt : time;
}.
#[global] Instance eta_Conversation : Eta Conversation := λ c,
  MkConversation (c_UserID c) (c_ID c) (c_PeerTGID c) (c_PeerAccessHash c) (c_PeerUsername c)
    (c_PeerDisplayName c) (c_State c) (c_AutonomousTurns c) (c_LastIncomingAt c)
    (c_LastAgentReplyAt c) (c_OwnerEngagedAt c) (c_PeerContact c) (c_CreatedAt c) (c_UpdatedAt c).

Definition OwnerEngagementWindow : duration := 30 * 24 * Hour.
Definition OwnerEngaged (c : Conversation) (now : time) : bool :=
  if IsZero (c_OwnerEngagedAt c) then false
  else time_sub now (c_OwnerEngagedAt c) <=? OwnerEngagementWindow.

Definition IsForkAssistant (name : string) : bool := Contains name "~".

(** ** Events *)
Record IncomingEvent := MkIncomingEvent {
  ev_ID : Z;
  ev_EventID : string;
  ev_UserID : Z;
  ev_Kind : string;
  ev_ChatTGID : Z;
  ev_SenderTGID : Z;
  ev_MessageID : Z;
  ev_Body : string;
  ev_Meta : string;
  ev_CreatedAt : time;
}.

(** ** Source supersession kinds *)
Definition SourceEdited : string := "edited".
Definition SourceDeleted : string := "deleted".
Definition ReasonSourceEdited : string := "source message edited".
Definition ReasonSourceDeleted : string := "source message deleted".
Definition SourceSupersededReason (kind : string) : string :=
  if bool_decide (kind = SourceDeleted) then ReasonSourceDeleted else ReasonSourceEdited.
