(* ===== verification/Policy.v ===== *)
(** * The agent policy: [src/internal/agent/policy/policy.go]

    [Evaluate] judges every action before it can reach Telegram.  Its first
    half are denials no approval releases; its second half collects the reasons
    for which a reply waits for the owner. *)

From S2P Require Import Prelude GoString Regexp PolicyContent Schedule Rows.

Definition telegramMaxMessageLen : Z := 4096.

Inductive Decision := Allow | RequireApproval | Deny.
#[global] Instance Decision_eq_dec : EqDecision Decision.
Proof. solve_decision. Defined.

Definition newline : Ascii.ascii := Ascii.ascii_of_nat 10.
Definition DisclosureSep : string := String newline "".

Definition EffectiveDisclosure (p : AgentProfile) : string :=
  if p_DisclosureDisabled p then "" else p_DisclosureText p.

Record Action := MkAction {
  act_Type : string;
  act_Intent : string;
  act_Text : string;
  act_PeerTGID : Z;
}.

Record ProtectedField := MkProtectedField { pf_Key : string; pf_Never : bool }.

Record Input := MkInput {
  in_Profile : AgentProfile;
  in_Conversation : Conversation;
  in_Action : Action;
  in_RecentAgentSends : list time;
  in_GlobalKill : bool;
  in_Now : time;
  in_ProtectedField : option ProtectedField;
  in_SourceSuperseded : string;
  in_InstallRevision : Z;
  in_ForkPromoted : bool;
}.
#[global] Instance eta_Input : Eta Input := λ i,
  MkInput (in_Profile i) (in_Conversation i) (in_Action i) (in_RecentAgentSends i)
    (in_GlobalKill i) (in_Now i) (in_ProtectedField i) (in_SourceSuperseded i)
    (in_InstallRevision i) (in_ForkPromoted i).

Inductive DenyCode :=
| DenyGlobalKill | DenyUserMismatch | DenyModeOff | DenyModeUnrecognized
| DenyAutopilotPaused | DenyConvTakenOver | DenyConvClosed | DenyConvPaused
| DenyConvStateUnknown | DenySenderBlocked | DenyActionTypeUnknown | DenyPeerMismatch
| DenyNoDisclosure | DenyEmptyReply | DenyReplyTooLong | DenyReplyURL
| DenyReplyCredentials | DenyReplyNeverField | DenyIntentNever | DenyAudienceExcluded
| DenyInstallChanged | DenySourceSuperseded | DenyToolNotAllowed | DenyUnknown.
#[global] Instance DenyCode_eq_dec : EqDecision DenyCode.
Proof. solve_decision. Defined.

(** [r_Code = None] is the empty code of a result that is no denial. *)
Record Result := MkResult {
  r_Decision : Decision;
  r_Reasons : list string;
  r_Code : option DenyCode;
}.
Definition Result_DenyCode (r : Result) : DenyCode := default DenyUnknown (r_Code r).
Definition deny (code : DenyCode) (reason : string) : Result := MkResult Deny [reason] (Some code).

Definition ReasonAutopilotPaused : string := "autopilot paused for this account".
Definition ReasonInstallChanged : string := "the assistant install changed since this work began".
Definition ReasonObserveMode : string := "observe mode: never auto-send".
Definition ReasonTurnBudget : string := "autonomous turn budget exhausted".
Definition ReasonIntentNotAllowed : string := "intent not in allowlist".
Definition ReasonRateLimit : string := "rate limit exceeded".
Definition ReasonWorkingHours : string := "within the owner's working hours".
Definition ReasonScheduleUnreadable : string := "working hours unreadable".
Definition protectedFieldReasonPrefix : string := "reply echoes owner_profile field ".
Definition protectedFieldReasonSuffix : string := " before the owner engaged".

(** ** Lists in configuration columns *)
Definition containsID (csv : string) (id : Z) : bool :=
  if (id =? 0) || bool_decide (TrimSpace csv = "") then false
  else existsb (λ part, String.eqb (TrimSpace part) (FormatInt id)) (Split csv ",").
Definition isBlocked (csv : string) (peerID : Z) : bool := containsID csv peerID.

Definition overRate (sends : list time) (maxPerMin : Z) (now : time) : bool :=
  let maxPerMin := if maxPerMin <=? 0 then 2 else maxPerMin in
  let windowStart := now - Minute in
  maxPerMin <=? Z.of_nat (length (filter (λ t, (windowStart <? t) = true) sends)).

(** ** Audience *)
Definition AudienceContacts : string := "contacts".
Definition AudienceNonContacts : string := "non_contacts".
Definition AudienceNewChats : string := "new_chats".
Definition AudienceExistingChats : string := "existing_chats".
Definition audience_classes : gset string :=
  {[AudienceContacts; AudienceNonContacts; AudienceNewChats; AudienceExistingChats]}.

Definition audience_set (csv : string) : gset string :=
  list_to_set (filter (λ part, part ≠ "") (map TrimSpace (Split csv ","))).

Inductive audience_error :=
| EUnknownClass (part : string)
| EBothContacts
| EBothChats
| ENotInstalled.

(** The first unknown class in the order of the list is the one reported. *)
Definition ValidAudienceExcludes (csv : string) (installed : bool) : result audience_error unit :=
  let parts := filter (λ part, part ≠ "") (map TrimSpace (Split csv ",")) in
  let ex := audience_set csv in
  match filter (λ part, part ∉ audience_classes) parts with
  | part :: _ => Err (EUnknownClass part)
  | [] =>
    if bool_decide (AudienceContacts ∈ ex) && bool_decide (AudienceNonContacts ∈ ex)
    then Err EBothContacts
    else if bool_decide (AudienceNewChats ∈ ex) && bool_decide (AudienceExistingChats ∈ ex)
    then Err EBothChats
    else if (bool_decide (AudienceNewChats ∈ ex) || bool_decide (AudienceExistingChats ∈ ex))
            && negb installed
    then Err ENotInstalled
    else Ok tt
  end.

(** [Some reason] when the conversation is outside the audience. *)
Definition AudienceExcluded (p : AgentProfile) (c : Conversation) : option string :=
  let ex := audience_set (p_AudienceExcludes p) in
  let has class := bool_decide (class ∈ ex) in
  let known := bool_decide (c_PeerContact c = PeerContactYes)
               || bool_decide (c_PeerContact c = PeerContactNo) in
  let contact := bool_decide (c_PeerContact c = PeerContactYes) in
  let by_contact :=
    if has AudienceContacts || has AudienceNonContacts then
      if negb known then Some "audience: contact status unknown"
      else if contact && has AudienceContacts then Some "audience: contacts are excluded"
      else if negb contact && has AudienceNonContacts then Some "audience: non-contacts are excluded"
      else None
    else None in
  let by_age :=
    if has AudienceNewChats || has AudienceExistingChats then
      if IsZero (p_AssistantInstalledAt p)
      then Some "audience: no install time to judge new chats against"
      else
        let existing := contact || (negb (IsZero (c_CreatedAt c))
                                    && (c_CreatedAt c <? p_AssistantInstalledAt p)) in
        if existing && has AudienceExistingChats then Some "audience: existing chats are excluded"
        else if negb existing && negb known then Some "audience: contact status unknown"
        else if negb existing && has AudienceNewChats then Some "audience: new chats are excluded"
        else None
    else None in
  if bool_decide (ex = ∅) then None
  else if negb (bool_decide (ex ⊆ audience_classes)) then Some "audience setting unreadable"
  else match by_contact with Some r => Some r | None => by_age end.

(** ** Evaluation *)
Section Evaluate.
Context `{UnicodeTables, TimeZones}.

Definition allowlistEntry (csv intent : string) : option string :=
  let intent := TrimSpace intent in
  if bool_decide (intent = "") then None
  else head (filter (λ part, EqualFold part intent = true) (map TrimSpace (Split csv ","))).

(** The gates of the account, the conversation and the audience; [inr] is a
    final result, [inl tt] goes on to the reply's own checks. *)
Definition account_gates (i : Input) : option Result :=
  let p := in_Profile i in let c := in_Conversation i in let a := in_Action i in
  if in_GlobalKill i then Some (deny DenyGlobalKill "global kill switch engaged")
  else if bool_decide (act_Type a = ActionTypeReply)
          && ((p_UserID p =? 0) || (c_UserID c =? 0) || negb (p_UserID p =? c_UserID c))
  then Some (deny DenyUserMismatch "profile and conversation belong to different users")
  else if negb (in_InstallRevision i =? 0) && negb (in_InstallRevision i =? p_InstallRevision p)
  then Some (deny DenyInstallChanged ReasonInstallChanged)
  else if bool_decide (p_Mode p = AgentModeOff) then Some (deny DenyModeOff "agent mode is off")
  else if negb (bool_decide (p_Mode p = AgentModeObserve) || bool_decide (p_Mode p = AgentModeGuarded))
  then Some (deny DenyModeUnrecognized ("unrecognized agent mode " +:+ Quote (p_Mode p)))
  else if bool_decide (act_Type a = ActionTypeOwnerSummary)
          || bool_decide (act_Type a = ActionTypeOwnerApproval)
  then Some (MkResult Allow ["owner-facing action"] None)
  else None.

Definition conversation_gates (i : Input) : option Result :=
  let p := in_Profile i in let c := in_Conversation i in
  if bool_decide (c_State c = ConversationTakenOver)
  then Some (deny DenyConvTakenOver "conversation taken over by owner")
  else if bool_decide (c_State c = ConversationClosed)
  then Some (deny DenyConvClosed "conversation closed")
  else if bool_decide (c_State c = ConversationPaused)
  then Some (deny DenyConvPaused "conversation paused")
  else if negb (bool_decide (c_State c = ConversationActive))
  then Some (deny DenyConvStateUnknown ("unrecognized conversation state " +:+ Quote (c_State c)))
  else if isBlocked (p_BlockedSenders p) (c_PeerTGID c)
  then Some (deny DenySenderBlocked "sender is blocked")
  else match AudienceExcluded p c with
  | Some reason => Some (deny DenyAudienceExcluded reason)
  | None =>
    if negb (bool_decide (in_SourceSuperseded i = ""))
    then Some (deny DenySourceSuperseded (SourceSupersededReason (in_SourceSuperseded i)))
    else if p_AutopilotPaused p then Some (deny DenyAutopilotPaused ReasonAutopilotPaused)
    else None
  end.

(** The length budget of a reply, and what the reply takes of it. *)
Definition reply_max_chars (p : AgentProfile) : Z :=
  let maxChars := if p_MaxReplyChars p <=? 0 then 1200 else p_MaxReplyChars p in
  if telegramMaxMessageLen <? maxChars then telegramMaxMessageLen else maxChars.
Definition reply_len (p : AgentProfile) (text : string) : Z :=
  rune_count text +
  (if bool_decide (EffectiveDisclosure p = "") then 0
   else rune_count DisclosureSep + rune_count (EffectiveDisclosure p)).

Definition reply_denials (i : Input) : option Result :=
  let p := in_Profile i in let c := in_Conversation i in let a := in_Action i in
  let text := act_Text a in
  if negb (bool_decide (act_Type a = ActionTypeReply))
  then Some (deny DenyActionTypeUnknown ("unrecognized action type " +:+ Quote (act_Type a)))
  else match allowlistEntry (p_IntentDenylist p) (act_Intent a) with
  | Some denied => Some (deny DenyIntentNever ("intent " +:+ Quote denied +:+ " is never sent"))
  | None =>
    if negb (act_PeerTGID a =? 0) && negb (act_PeerTGID a =? c_PeerTGID c)
    then Some (deny DenyPeerMismatch "reply peer does not match conversation")
    else if negb (p_DisclosureDisabled p) && bool_decide (TrimSpace (p_DisclosureText p) = "")
    then Some (deny DenyNoDisclosure "no disclosure text configured")
    else if bool_decide (TrimSpace text = "") then Some (deny DenyEmptyReply "empty reply")
    else if reply_max_chars p <? reply_len p text
    then Some (deny DenyReplyTooLong "reply exceeds max length once the disclosure is appended")
    else if containsURL text then Some (deny DenyReplyURL "reply contains a URL")
    else if containsCredentialLike text
    then Some (deny DenyReplyCredentials "reply contains credentials-like content")
    else match in_ProtectedField i with
         | Some f => if pf_Never f
                     then Some (deny DenyReplyNeverField
                       ("reply echoes owner_profile field " +:+ Quote (pf_Key f) +:+ " marked never"))
                     else None
         | None => None
         end
  end.

Definition observing (i : Input) : bool :=
  bool_decide (p_Mode (in_Profile i) = AgentModeObserve)
  || (bool_decide (p_Mode (in_Profile i) = AgentModeGuarded)
      && IsForkAssistant (p_AssistantName (in_Profile i)) && negb (in_ForkPromoted i)).

Definition hours_reason (hours : string) (now : time) : list string :=
  if bool_decide (hours = "") then []
  else match ParseStored hours with
       | Err _ => [ReasonScheduleUnreadable]
       | Ok h => if Schedule.Contains h now then [ReasonWorkingHours] else []
       end.

Definition hold_reasons (i : Input) : list string :=
  let p := in_Profile i in let c := in_Conversation i in
  let maxTurns := if p_MaxAutonomousTurns p <=? 0 then 6 else p_MaxAutonomousTurns p in
  (if observing i then [ReasonObserveMode] else [])
  ++ (if maxTurns <=? c_AutonomousTurns c then [ReasonTurnBudget] else [])
  ++ (match allowlistEntry (p_IntentAllowlist p) (act_Intent (in_Action i)) with
      | Some _ => [] | None => [ReasonIntentNotAllowed] end)
  ++ (if overRate (in_RecentAgentSends i) (p_MaxMsgsPerMinute p) (in_Now i)
      then [ReasonRateLimit] else [])
  ++ hours_reason (p_WorkingHours p) (in_Now i)
  ++ (match in_ProtectedField i with
      | Some f => [protectedFieldReasonPrefix +:+ Quote (pf_Key f) +:+ protectedFieldReasonSuffix]
      | None => [] end).

Definition Evaluate (i : Input) : Result :=
  match account_gates i with
  | Some r => r
  | None =>
    match conversation_gates i with
    | Some r => r
    | None =>
      match reply_denials i with
      | Some r => r
      | None =>
        match hold_reasons i with
        | [] =>
          let allowed := default "" (allowlistEntry (p_IntentAllowlist (in_Profile i))
                                       (act_Intent (in_Action i))) in
          MkResult Allow ["guarded: allowlisted " +:+ allowed +:+ " intent"] None
        | reasons => MkResult RequireApproval reasons None
        end
      end
    end
  end.

(** ** The owner's wording of stored reasons *)
Definition owner_reason (r : string) : string :=
  if bool_decide (r = ReasonObserveMode)
  then "observe mode is on, so every reply needs your approval"
  else if bool_decide (r = ReasonTurnBudget)
  then "the agent has used up its reply budget for this chat (/mctl continue resets it)"
  else if bool_decide (r = ReasonIntentNotAllowed)
  then "this kind of reply is not on your auto-send list"
  else if bool_decide (r = ReasonRateLimit)
  then "the agent already sent the most replies allowed per minute"
  else if bool_decide (r = ReasonWorkingHours)
  then "it is within your working hours, when you answer yourself"
  else if bool_decide (r = ReasonScheduleUnreadable)
  then "your working hours could not be read, so every reply waits for you"
  else if HasPrefix r protectedFieldReasonPrefix && HasSuffix r protectedFieldReasonSuffix
  then "it repeats your profile field "
       +:+ TrimSuffix (TrimPrefix r protectedFieldReasonPrefix) protectedFieldReasonSuffix
       +:+ " to someone you have not been in touch with yet"
  else r.
Definition OwnerHoldReasons (stored : string) : list string :=
  map owner_reason (filter (λ r, r ≠ "") (map TrimSpace (Split stored "; "))).
End Evaluate.
