(* ===== verification/PolicyProps.v ===== *)
(** * What the agent policy guarantees

    The theorems about [Policy]: a declarative specification of the replies
    the policy permits and of those it sends without asking, the refinement of
    [Evaluate] to it, and the properties of the audience classes. *)

From S2P Require Import Prelude GoString Regexp PolicyContent Schedule Rows Policy.

Section spec.
Context `{UnicodeTables, TimeZones}.

(** The intent matches an entry of the comma-separated list. *)
Definition on_list (csv intent : string) : Prop :=
  TrimSpace intent ≠ "" ∧
  ∃ part, part ∈ Split csv "," ∧ EqualFold (TrimSpace part) (TrimSpace intent) = true.

Lemma allowlistEntry_on_list csv intent :
  is_Some (allowlistEntry csv intent) ↔ on_list csv intent.
Proof.
  unfold allowlistEntry, on_list. case_bool_decide as Hi.
  - split; [by intros [? ?] | by intros [? _]].
  - rewrite head_filter. setoid_rewrite elem_of_map. split.
    + intros (x & (part & -> & Hp) & Hx). by split; [| exists part].
    + intros (_ & part & Hp & Hx). by exists (TrimSpace part); split; [exists part |].
Qed.

Definition blocked_on (csv : string) (peer : Z) : Prop :=
  peer ≠ 0 ∧ TrimSpace csv ≠ "" ∧ ∃ part, part ∈ Split csv "," ∧ TrimSpace part = FormatInt peer.

Lemma isBlocked_on csv peer : isBlocked csv peer = true ↔ blocked_on csv peer.
Proof.
  unfold isBlocked, containsID, blocked_on.
  destruct (Z.eqb_spec peer 0); cbn [orb]; [by split; [| intros [? _]] |].
  case_bool_decide; [by split; [| intros (_ & ? & _)] |].
  rewrite existsb_elem_of. setoid_rewrite String.eqb_eq. tauto.
Qed.

(** ** The specification *)

(** A reply no rule forbids: it may leave, at least with the owner's approval. *)
Record reply_permitted (i : Input) : Prop := {
  rp_kill : in_GlobalKill i = false;
  rp_user : p_UserID (in_Profile i) ≠ 0 ∧ p_UserID (in_Profile i) = c_UserID (in_Conversation i);
  rp_revision : in_InstallRevision i = 0 ∨ in_InstallRevision i = p_InstallRevision (in_Profile i);
  rp_mode : p_Mode (in_Profile i) = AgentModeObserve ∨ p_Mode (in_Profile i) = AgentModeGuarded;
  rp_state : c_State (in_Conversation i) = ConversationActive;
  rp_blocked : ¬ blocked_on (p_BlockedSenders (in_Profile i)) (c_PeerTGID (in_Conversation i));
  rp_audience : AudienceExcluded (in_Profile i) (in_Conversation i) = None;
  rp_source : in_SourceSuperseded i = "";
  rp_paused : p_AutopilotPaused (in_Profile i) = false;
  rp_intent : ¬ on_list (p_IntentDenylist (in_Profile i)) (act_Intent (in_Action i));
  rp_peer : act_PeerTGID (in_Action i) = 0
            ∨ act_PeerTGID (in_Action i) = c_PeerTGID (in_Conversation i);
  rp_disclosure : p_DisclosureDisabled (in_Profile i) = true
                  ∨ TrimSpace (p_DisclosureText (in_Profile i)) ≠ "";
  rp_nonempty : TrimSpace (act_Text (in_Action i)) ≠ "";
  rp_length : reply_len (in_Profile i) (act_Text (in_Action i)) ≤ reply_max_chars (in_Profile i);
  rp_url : containsURL (act_Text (in_Action i)) = false;
  rp_credentials : containsCredentialLike (act_Text (in_Action i)) = false;
  rp_never : ∀ f, in_ProtectedField i = Some f → pf_Never f = false;
}.

(** A permitted reply that needs no approval. *)
Record reply_autonomous (i : Input) : Prop := {
  ra_mode : p_Mode (in_Profile i) ≠ AgentModeObserve;
  ra_fork : p_Mode (in_Profile i) = AgentModeGuarded →
            IsForkAssistant (p_AssistantName (in_Profile i)) = true → in_ForkPromoted i = true;
  ra_turns : c_AutonomousTurns (in_Conversation i) <
             (if p_MaxAutonomousTurns (in_Profile i) <=? 0 then 6
              else p_MaxAutonomousTurns (in_Profile i));
  ra_intent : on_list (p_IntentAllowlist (in_Profile i)) (act_Intent (in_Action i));
  ra_rate : Z.of_nat (length (filter (λ t, (in_Now i - Minute <? t) = true) (in_RecentAgentSends i)))
            < (if p_MaxMsgsPerMinute (in_Profile i) <=? 0 then 2
               else p_MaxMsgsPerMinute (in_Profile i));
  ra_hours : p_WorkingHours (in_Profile i) = "" ∨
             ∃ h, ParseStored (p_WorkingHours (in_Profile i)) = Ok h ∧
                  Schedule.Contains h (in_Now i) = false;
  ra_field : in_ProtectedField i = None;
}.

(** ** The gates, one by one *)
Ltac unfold_names :=
  unfold AgentModeObserve, AgentModeGuarded, AgentModeOff, ConversationActive,
    ConversationPaused, ConversationTakenOver, ConversationClosed, ActionTypeReply,
    ActionTypeOwnerSummary, ActionTypeOwnerApproval in *.
(** Decides a gate: a denial contradicts a field of the specification. *)
Ltac gate :=
  split_ifs; unfold_names;
  try (split; [done | intros []; unfold_names; intuition (congruence || lia)]);
  try (intuition (congruence || lia)).

Lemma account_gates_reply i :
  act_Type (in_Action i) = ActionTypeReply →
  match account_gates i with
  | Some r => r_Decision r = Deny ∧ ¬ reply_permitted i
  | None => in_GlobalKill i = false ∧
      (p_UserID (in_Profile i) ≠ 0 ∧ p_UserID (in_Profile i) = c_UserID (in_Conversation i)) ∧
      (in_InstallRevision i = 0 ∨ in_InstallRevision i = p_InstallRevision (in_Profile i)) ∧
      (p_Mode (in_Profile i) = AgentModeObserve ∨ p_Mode (in_Profile i) = AgentModeGuarded)
  end.
Proof.
  intros Ha. unfold account_gates. gate.
Qed.

Lemma conversation_gates_spec i :
  match conversation_gates i with
  | Some r => r_Decision r = Deny ∧ ¬ reply_permitted i
  | None => c_State (in_Conversation i) = ConversationActive ∧
      ¬ blocked_on (p_BlockedSenders (in_Profile i)) (c_PeerTGID (in_Conversation i)) ∧
      AudienceExcluded (in_Profile i) (in_Conversation i) = None ∧
      in_SourceSuperseded i = "" ∧ p_AutopilotPaused (in_Profile i) = false
  end.
Proof.
  pose proof (isBlocked_on (p_BlockedSenders (in_Profile i)) (c_PeerTGID (in_Conversation i))).
  unfold conversation_gates. destruct (AudienceExcluded _ _) eqn:?; gate.
Qed.

Lemma reply_denials_spec i :
  act_Type (in_Action i) = ActionTypeReply →
  match reply_denials i with
  | Some r => r_Decision r = Deny ∧ ¬ reply_permitted i
  | None => ¬ on_list (p_IntentDenylist (in_Profile i)) (act_Intent (in_Action i)) ∧
      (act_PeerTGID (in_Action i) = 0 ∨
       act_PeerTGID (in_Action i) = c_PeerTGID (in_Conversation i)) ∧
      (p_DisclosureDisabled (in_Profile i) = true ∨
       TrimSpace (p_DisclosureText (in_Profile i)) ≠ "") ∧
      TrimSpace (act_Text (in_Action i)) ≠ "" ∧
      reply_len (in_Profile i) (act_Text (in_Action i)) ≤ reply_max_chars (in_Profile i) ∧
      containsURL (act_Text (in_Action i)) = false ∧
      containsCredentialLike (act_Text (in_Action i)) = false ∧
      (∀ f, in_ProtectedField i = Some f → pf_Never f = false)
  end.
Proof.
  intros Ha. pose proof (allowlistEntry_on_list (p_IntentDenylist (in_Profile i))
    (act_Intent (in_Action i))) as Hl.
  unfold reply_denials. rewrite bool_decide_eq_true_2 by done. cbn [negb].
  destruct (allowlistEntry _ _) as [e|].
  { split; [done |]. intros []. apply rp_intent0, Hl. by eexists. }
  rewrite is_Some_alt in Hl.
  destruct (in_ProtectedField i) as [f|] eqn:Hf; gate.
  split; [done |]. intros []. specialize (rp_never0 f Hf). congruence.
Qed.

Lemma hours_reason_nil hours now :
  hours_reason hours now = [] ↔
  hours = "" ∨ ∃ h, ParseStored hours = Ok h ∧ Schedule.Contains h now = false.
Proof.
  unfold hours_reason. case_bool_decide as Hh; [tauto |].
  destruct (ParseStored hours) as [h|e].
  - destruct (Schedule.Contains h now) eqn:Hc; split; try done; [| eauto].
    intros [?|(h' & [= <-] & ?)]; congruence.
  - split; [done | intros [?|(h & ? & _)]; done].
Qed.

Lemma app_nil_iff {A} (l k : list A) : l ++ k = [] ↔ l = [] ∧ k = [].
Proof. split; [apply app_nil | by intros [-> ->]]. Qed.

Lemma if_nil_iff {A} (b : bool) (x : A) : (if b then [x] else []) = [] ↔ b = false.
Proof. by destruct b. Qed.

Lemma observing_false i :
  observing i = false ↔
  p_Mode (in_Profile i) ≠ AgentModeObserve ∧
  (p_Mode (in_Profile i) = AgentModeGuarded →
   IsForkAssistant (p_AssistantName (in_Profile i)) = true → in_ForkPromoted i = true).
Proof.
  unfold observing. autorewrite with reflect.
  destruct (IsForkAssistant _), (in_ForkPromoted i); intuition congruence.
Qed.

Lemma hold_reasons_nil i : hold_reasons i = [] ↔ reply_autonomous i.
Proof.
  unfold hold_reasons, overRate. rewrite !app_nil_iff, !if_nil_iff, observing_false, hours_reason_nil.
  pose proof (allowlistEntry_on_list (p_IntentAllowlist (in_Profile i)) (act_Intent (in_Action i))) as Hl.
  rewrite Z.leb_gt, Z.leb_gt. split.
  - intros ((? & ?) & ? & Hi & ? & ? & Hf).
    constructor; [done | done | done | | done | done |].
    + apply Hl. by destruct (allowlistEntry _ _).
    + by destruct (in_ProtectedField i).
  - intros []. destruct (allowlistEntry _ _); [| by apply Hl in ra_intent0 as []].
    by rewrite ra_field0.
Qed.

Lemma Evaluate_permitted i :
  act_Type (in_Action i) = ActionTypeReply → r_Decision (Evaluate i) ≠ Deny → reply_permitted i.
Proof.
  intros Ha. unfold Evaluate.
  pose proof (account_gates_reply i Ha) as H1. pose proof (conversation_gates_spec i) as H2.
  pose proof (reply_denials_spec i Ha) as H3.
  destruct (account_gates i); [by intros []; destruct H1 |].
  destruct (conversation_gates i); [by intros []; destruct H2 |].
  destruct (reply_denials i); [by intros []; destruct H3 |].
  intros _. constructor; intuition.
Qed.

(** C17: the decision on a reply is the declarative specification: it is denied
    exactly when some hard rule forbids it, sent without asking exactly when it
    is permitted and nothing asks for the owner, and held for approval
    otherwise. *)
Theorem Evaluate_reply i :
  act_Type (in_Action i) = ActionTypeReply →
  (r_Decision (Evaluate i) = Deny ↔ ¬ reply_permitted i) ∧
  (r_Decision (Evaluate i) = Allow ↔ reply_permitted i ∧ reply_autonomous i) ∧
  (r_Decision (Evaluate i) = RequireApproval ↔ reply_permitted i ∧ ¬ reply_autonomous i).
Proof.
  intros Ha. unfold Evaluate. rewrite <- hold_reasons_nil.
  pose proof (account_gates_reply i Ha) as H1. pose proof (conversation_gates_spec i) as H2.
  pose proof (reply_denials_spec i Ha) as H3.
  destruct (account_gates i); [intuition congruence |].
  destruct (conversation_gates i); [intuition congruence |].
  destruct (reply_denials i); [intuition congruence |].
  assert (reply_permitted i) as Hp by (constructor; intuition).
  destruct (hold_reasons i); cbn; intuition congruence.
Qed.

(** An owner-facing action passes exactly when the kill switch is off, the
    work belongs to the current install and the account's mode is a live one,
    whatever the state of the conversation; an action of any other unknown type
    is always denied. *)
Theorem Evaluate_other_types i :
  act_Type (in_Action i) ≠ ActionTypeReply →
  (r_Decision (Evaluate i) = Allow ↔
     act_Type (in_Action i) ∈ [ActionTypeOwnerSummary; ActionTypeOwnerApproval] ∧
     in_GlobalKill i = false ∧
     (in_InstallRevision i = 0 ∨ in_InstallRevision i = p_InstallRevision (in_Profile i)) ∧
     (p_Mode (in_Profile i) = AgentModeObserve ∨ p_Mode (in_Profile i) = AgentModeGuarded)) ∧
  r_Decision (Evaluate i) ≠ RequireApproval.
Proof.
  intros Ha. rewrite !elem_of_cons, elem_of_nil.
  assert (is_Some (reply_denials i) ∧ ∀ r, reply_denials i = Some r → r_Decision r = Deny) as [[d Hd] Hd'].
  { unfold reply_denials. rewrite bool_decide_eq_false_2 by done. cbn.
    split; [by eexists | by intros ? [= <-]]. }
  pose proof (conversation_gates_spec i) as Hc. specialize (Hd' d Hd).
  unfold Evaluate. rewrite Hd. unfold account_gates.
  destruct (conversation_gates i) as [r|]; [destruct Hc as [Hc _] | clear Hc];
    split_ifs; cbn; unfold_names; intuition congruence.
Qed.

Definition well_coded (r : Result) : Prop :=
  (r_Decision r = Deny ↔ is_Some (r_Code r)) ∧
  r_Code r ≠ Some DenyUnknown ∧ r_Code r ≠ Some DenyToolNotAllowed ∧ r_Reasons r ≠ [].

Lemma well_coded_deny d x : d ≠ DenyUnknown → d ≠ DenyToolNotAllowed → well_coded (deny d x).
Proof. intros. unfold well_coded. cbn. split_and!; first [congruence | by split; [eexists |]]. Qed.

Lemma well_coded_pass d x l : d ≠ Deny → well_coded (MkResult d (x :: l) None).
Proof. intros. unfold well_coded. cbn. split_and!; first [done | by split; [| intros []]]. Qed.

Ltac well_coded :=
  repeat match goal with |- context [if ?b then _ else _] => destruct b end;
  intros [= <-]; (apply well_coded_deny || apply well_coded_pass); done.

Lemma account_gates_coded i r : account_gates i = Some r → well_coded r.
Proof. unfold account_gates. well_coded. Qed.
Lemma conversation_gates_coded i r : conversation_gates i = Some r → well_coded r.
Proof. unfold conversation_gates. destruct (AudienceExcluded _ _); well_coded. Qed.
Lemma reply_denials_coded i r : reply_denials i = Some r → well_coded r.
Proof.
  unfold reply_denials. destruct (allowlistEntry _ _), (in_ProtectedField i); well_coded.
Qed.

(** Every denial carries a code of its own, never the fallback, other
    decisions carry none, and every decision has a reason. *)
Theorem Evaluate_codes i :
  (r_Decision (Evaluate i) = Deny ↔ is_Some (r_Code (Evaluate i))) ∧
  r_Code (Evaluate i) ≠ Some DenyUnknown ∧ r_Code (Evaluate i) ≠ Some DenyToolNotAllowed ∧
  r_Reasons (Evaluate i) ≠ [].
Proof.
  fold (well_coded (Evaluate i)). unfold Evaluate.
  destruct (account_gates i) eqn:E1; [by eapply account_gates_coded |].
  destruct (conversation_gates i) eqn:E2; [by eapply conversation_gates_coded |].
  destruct (reply_denials i) eqn:E3; [by eapply reply_denials_coded |].
  destruct (hold_reasons i); by apply well_coded_pass.
Qed.

(** The pause denial, which alerts the owner, is reported only for a reply
    that nothing about its conversation refuses: an active conversation with a
    sender who is neither blocked nor outside the audience, and a source that
    is current. *)
Theorem pause_denial_last i :
  r_Code (Evaluate i) = Some DenyAutopilotPaused →
  p_AutopilotPaused (in_Profile i) = true ∧
  c_State (in_Conversation i) = ConversationActive ∧
  ¬ blocked_on (p_BlockedSenders (in_Profile i)) (c_PeerTGID (in_Conversation i)) ∧
  AudienceExcluded (in_Profile i) (in_Conversation i) = None ∧
  in_SourceSuperseded i = "".
Proof.
  pose proof (isBlocked_on (p_BlockedSenders (in_Profile i)) (c_PeerTGID (in_Conversation i))).
  unfold Evaluate, conversation_gates.
  destruct (account_gates i) as [r|] eqn:E1.
  { revert E1. unfold account_gates. repeat (case_match; [by intros [= <-] | ]). done. }
  destruct (AudienceExcluded _ _) eqn:?; split_ifs; try done; [intuition congruence |].
  destruct (reply_denials i) as [r|] eqn:E3; [| by destruct (hold_reasons i)].
  revert E3. unfold reply_denials.
  destruct (allowlistEntry _ _), (in_ProtectedField i); split_ifs; by intros [= <-].
Qed.

(** ** Links *)
Lemma decode_ascii b l : b < 128 → decode (b :: l) = (b, None) :: decode l.
Proof.
  intros. rewrite decode_unfold. unfold DecodeRune. cbn [nth].
  by replace (b <? 128) with true by lia.
Qed.

Lemma runes_ascii_app s t :
  all_bytes (λ b, b <? 128) s = true → runes (s +:+ t) = bytes s ++ runes t.
Proof.
  unfold runes, all_bytes. rewrite bytes_app. induction (bytes s) as [|b l IH]; [done |].
  cbn [forallb]. intros [Hb Hl]%andb_true_iff. cbn [app]. rewrite decode_ascii by lia.
  rewrite fmap_cons. cbn. f_equal. by apply IH.
Qed.

Lemma runes_app_ascii s c t :
  byte_of_ascii c < 128 → runes (s +:+ String c t) = runes s ++ byte_of_ascii c :: runes t.
Proof.
  intros. unfold runes. rewrite bytes_app. cbn [bytes].
  by rewrite decode_app_ascii, decode_ascii, fmap_app, fmap_cons by done.
Qed.

Definition is_letter (b : Z) : bool := in_range 97 122 b || in_range 65 90 b.

Lemma iaz_letter b : is_letter b = true → iaz b = true.
Proof.
  unfold is_letter, iaz, irange. intros Hb. apply existsb_elem_of.
  exists (ascii_lower b). unfold ascii_lower, in_range in *. split.
  - apply elem_of_seqZ. case_match; lia.
  - rewrite rune_fold_ascii, !rune_lower_ascii by (unfold in_range; repeat case_match; lia).
    unfold in_range. repeat case_match; lia.
Qed.

(** The text before a link ends where a word may begin. *)
Definition word_may_start (a : string) : Prop :=
  a = "" ∨ ∃ a' c, a = a' +:+ chr c ∧ byte_of_ascii c < 128 ∧ is_word (byte_of_ascii c) = false.

Lemma word_before_start a l :
  word_may_start a → word_before (runes a ++ l) (length (runes a)) = false.
Proof.
  intros [->|(a' & c & -> & Hc & Hw)]; [done |].
  unfold chr. rewrite runes_app_ascii by done. cbn [runes bytes decode].
  change (runes "") with (@nil Z). rewrite length_app. cbn [length].
  rewrite Nat.add_1_r. unfold word_before, word_at.
  rewrite <- app_assoc. cbn [app]. rewrite list_lookup_middle by done. exact Hw.
Qed.

Lemma lookup_runes_app (l k : list Z) n : (l ++ k) !! (length l + n)%nat = k !! n.
Proof. rewrite lookup_app_r by lia. f_equal. lia. Qed.

Lemma explicitURLPattern_matches u a h s b t :
  u = a ++ h :: s ++ [58; 47; 47] ++ b :: t →
  word_before u (length a) = false → is_letter h = true → forallb is_letter s = true →
  is_blank b = false →
  MatchRunes u explicitURLPattern = true.
Proof.
  intros Hu Hw Hh Hs Hb. apply MatchRunes_spec. set (n := length a).
  assert (Hat : ∀ k, u !! (n + k)%nat = (h :: s ++ [58; 47; 47] ++ b :: t) !! k).
  { intros k. rewrite Hu. apply lookup_runes_app. }
  assert (Hsk : ∀ k, u !! (S n + length s + k)%nat = ([58; 47; 47] ++ b :: t) !! k).
  { intros k. replace (S n + length s + k)%nat with (n + S (length s + k))%nat by lia.
    rewrite Hat. cbn [lookup list_lookup]. apply lookup_runes_app. }
  assert (u !! n = Some h) as Hn by (specialize (Hat 0%nat); by rewrite Nat.add_0_r in Hat).
  exists n, (S n + length s + 3 + 1)%nat. split.
  { rewrite Hu, length_app. lia. }
  unfold explicitURLPattern, cats. cbn [foldr]. apply rmatch_altl.
  eapply rmatch_cat with (j := n).
  { constructor. fold n in Hw. rewrite Hw. unfold word_at. rewrite Hn. cbn.
    unfold is_letter, is_word in *. revert Hh. unfold in_range. lia. }
  eapply rmatch_cat with (j := S n); [econstructor; [done | by apply iaz_letter] |].
  eapply rmatch_cat with (j := (S n + length s)%nat).
  { apply rmatch_star_rune. intros k Hk. destruct (lookup_lt_is_Some_2 s k Hk) as [c Hc].
    exists c. split.
    - rewrite Nat.add_succ_comm.
      transitivity ((s ++ [58; 47; 47] ++ b :: t) !! k); [exact (Hat (S k)) |].
      by rewrite lookup_app_l.
    - rewrite forallb_forall in Hs. unfold iaz09. rewrite iaz_letter; [done |].
      apply Hs, list_elem_of_In. by eapply list_elem_of_lookup_2. }
  eapply rmatch_cat with (j := (S n + length s + 3)%nat).
  { change (lit "://") with (cats (map Rune [Z.eqb 58; Z.eqb 47; Z.eqb 47])).
    apply (rmatch_cats u [Z.eqb 58; Z.eqb 47; Z.eqb 47]). intros k p Hk. rewrite Hsk.
    destruct k as [|[|[|k]]]; cbn in Hk |- *; simplify_eq; eexists; (split; [done | lia]). }
  eapply rmatch_cat; [| constructor]. unfold plus, Plus.
  rewrite Nat.add_1_r. eapply rmatch_cat; [| constructor].
  econstructor; [by rewrite Hsk | by rewrite Hb].
Qed.

Lemma containsURL_explicit a h s b t :
  word_may_start a → is_letter (byte_of_ascii h) = true → all_bytes is_letter s = true →
  byte_of_ascii b < 128 → is_blank (byte_of_ascii b) = false →
  containsURL (a +:+ String h (s +:+ "://" +:+ String b t)) = true.
Proof.
  intros Ha Hh Hs Hb Hbb. unfold containsURL, MatchString.
  assert (∀ x, is_letter x = true → (x <? 128) = true) as Hl.
  { intros x. unfold is_letter, in_range. lia. }
  assert (byte_of_ascii h < 128) as Hh' by (apply Hl in Hh; lia).
  rewrite (explicitURLPattern_matches _ (runes a) (byte_of_ascii h) (bytes s) (byte_of_ascii b)
    (runes t)); [done | | | done | done | done].
  - rewrite runes_app_ascii by done. do 2 f_equal.
    rewrite runes_ascii_app by by eapply all_bytes_impl. f_equal.
    rewrite runes_ascii_app by done. change (bytes "://") with [58; 47; 47]. f_equal.
    change (String b t) with ("" +:+ String b t). by rewrite runes_app_ascii.
  - rewrite runes_app_ascii by done. by apply word_before_start.
Qed.

(** No approval mode, allowlist or budget lets an explicit link out: a
    reply in which a scheme of ASCII letters starts a word and is followed by a
    colon, two slashes and anything but a blank is denied. *)
Theorem explicit_link_denied i a h s b t :
  act_Type (in_Action i) = ActionTypeReply →
  act_Text (in_Action i) = a +:+ String h (s +:+ "://" +:+ String b t) →
  word_may_start a → is_letter (byte_of_ascii h) = true → all_bytes is_letter s = true →
  byte_of_ascii b < 128 → is_blank (byte_of_ascii b) = false →
  r_Decision (Evaluate i) = Deny.
Proof.
  intros Ha Ht Hw Hh Hs Hb Hbb. destruct (decide (r_Decision (Evaluate i) = Deny)) as [|Hd]; [done |].
  apply Evaluate_permitted in Hd; [| done]. apply rp_url in Hd.
  rewrite Ht, containsURL_explicit in Hd by done. done.
Qed.
End spec.

(** ** The audience classes *)
Definition has (p : AgentProfile) (class : string) : bool :=
  bool_decide (class ∈ audience_set (p_AudienceExcludes p)).

Lemma ValidAudienceExcludes_Ok csv installed :
  ValidAudienceExcludes csv installed = Ok tt →
  let ex := audience_set csv in
  ex ⊆ audience_classes ∧
  ¬ (AudienceContacts ∈ ex ∧ AudienceNonContacts ∈ ex) ∧
  ¬ (AudienceNewChats ∈ ex ∧ AudienceExistingChats ∈ ex) ∧
  (AudienceNewChats ∈ ex ∨ AudienceExistingChats ∈ ex → installed = true).
Proof.
  unfold ValidAudienceExcludes. set (parts := filter _ (map _ _)). cbn.
  destruct (filter (λ part, part ∉ audience_classes) parts) as [|x l] eqn:E; [| done].
  split_ifs; try done. intros _. split; [| destruct installed; intuition congruence].
  intros part Hp%elem_of_list_to_set. destruct (decide (part ∈ audience_classes)); [done |].
  assert (part ∈ filter (λ part, part ∉ audience_classes) parts) as Hf
    by by apply list_elem_of_filter.
  rewrite E in Hf. by apply elem_of_nil in Hf.
Qed.

(** A conversation at the edge of the audience: the peer is a contact or not,
    and the chat began before the install or not. *)
Definition edge_conversation (contact before : bool) (installed : time) : Conversation :=
  MkConversation 1 1 7 0 "" "" ConversationActive 0 time_zero time_zero time_zero
    (if contact then PeerContactYes else PeerContactNo)
    (if before then if IsZero (installed - 1) then installed - 2 else installed - 1 else installed)
    time_zero.

Lemma edge_conversation_age contact before installed :
  IsZero installed = false →
  let c := edge_conversation contact before installed in
  negb (IsZero (c_CreatedAt c)) && (c_CreatedAt c <? installed) = before.
Proof.
  intros Hi. destruct before; cbn.
  - destruct (IsZero (installed - 1)) eqn:E; unfold IsZero in *; lia.
  - rewrite Hi. cbn. lia.
Qed.

Lemma audience_age p c contact before :
  AudienceExcluded p c = None →
  contact = bool_decide (c_PeerContact c = PeerContactYes) →
  before = negb (IsZero (c_CreatedAt c)) && (c_CreatedAt c <? p_AssistantInstalledAt p) →
  ¬ (has p AudienceNonContacts = true ∧ contact = false) ∧
  ¬ (has p AudienceExistingChats = true ∧ contact = true).
Proof.
  intros He -> ->. revert He. unfold AudienceExcluded. fold (has p AudienceContacts)
    (has p AudienceNonContacts) (has p AudienceNewChats) (has p AudienceExistingChats).
  case_bool_decide as Hempty.
  { assert (∀ class, has p class = false) as Hno.
    { intros. apply bool_decide_eq_false. rewrite Hempty. apply not_elem_of_empty. }
    rewrite !Hno. by split; intros [? _]. }
  case_bool_decide; cbn [negb]; [| done].
  destruct (bool_decide (c_PeerContact c = PeerContactYes)), (bool_decide (c_PeerContact c = PeerContactNo)),
    (has p AudienceContacts), (has p AudienceNonContacts); cbn; try done;
    destruct (has p AudienceNewChats), (has p AudienceExistingChats), (IsZero (p_AssistantInstalledAt p));
    cbn; try done; intuition congruence.
Qed.

Lemma audience_edge p contact before :
  IsZero (p_AssistantInstalledAt p) = false →
  audience_set (p_AudienceExcludes p) ⊆ audience_classes →
  (contact = true → has p AudienceContacts = false) →
  (contact = false → has p AudienceNonContacts = false) →
  (contact || before = true → has p AudienceExistingChats = false) →
  (contact || before = false → has p AudienceNewChats = false) →
  AudienceExcluded p (edge_conversation contact before (p_AssistantInstalledAt p)) = None.
Proof.
  intros Hi Hsub H1 H2 H3 H4. unfold AudienceExcluded. fold (has p AudienceContacts)
    (has p AudienceNonContacts) (has p AudienceNewChats) (has p AudienceExistingChats).
  rewrite Hi, edge_conversation_age by done. case_bool_decide; [done |].
  rewrite (bool_decide_eq_true_2 (_ ⊆ _)) by done. cbn [negb].
  destruct contact, before; cbn in *; rewrite ?H1, ?H2, ?H3, ?H4 by done; cbn;
    repeat case_match; done.
Qed.

(** A setting the validator accepts for an installed assistant leaves
    somebody to answer, except for one pair it does not reject: with
    non-contacts and existing chats both excluded nobody is answered, since a
    contact's chat is always an existing one. *)
Theorem audience_answers_somebody p :
  IsZero (p_AssistantInstalledAt p) = false →
  ValidAudienceExcludes (p_AudienceExcludes p) true = Ok tt →
  (∃ c, AudienceExcluded p c = None) ↔
  ¬ (AudienceNonContacts ∈ audience_set (p_AudienceExcludes p) ∧
     AudienceExistingChats ∈ audience_set (p_AudienceExcludes p)).
Proof.
  intros Hi (Hsub & Hcontacts & Hchats & _)%ValidAudienceExcludes_Ok. split.
  - intros (c & Hc) [Hn He]. pose proof (audience_age p c _ _ Hc eq_refl eq_refl) as [H1 H2].
    unfold has in H1, H2. rewrite bool_decide_eq_true_2 in H1, H2 by done.
    destruct (bool_decide (c_PeerContact c = PeerContactYes)); tauto.
  - intros Hpair. pose (contact := negb (has p AudienceContacts) && negb (has p AudienceExistingChats)).
    exists (edge_conversation contact (negb (has p AudienceExistingChats)) (p_AssistantInstalledAt p)).
    assert (∀ class, has p class = true ↔ class ∈ audience_set (p_AudienceExcludes p)) as Hhas
      by (intros; apply bool_decide_eq_true).
    rewrite <- !Hhas in *. apply audience_edge; [done | done | ..]; subst contact;
      destruct (has p AudienceContacts), (has p AudienceNonContacts), (has p AudienceNewChats),
        (has p AudienceExistingChats); cbn; intuition congruence.
Qed.

(** ** Witnesses *)
Module Witnesses.
#[local] Existing Instance ascii_tables.
#[local] Existing Instance two_zones.

Definition guarded : AgentProfile :=
  (default_profile 1 0) <|p_Mode := AgentModeGuarded|> <|p_AutopilotPaused := false|>
    <|p_DisclosureText := "Sent by an AI assistant"|> <|p_IntentAllowlist := "schedule_call, faq"|>.
Definition chat : Conversation := edge_conversation false true Hour.
Definition reply (text : string) : Input :=
  MkInput guarded chat (MkAction ActionTypeReply "FAQ" text 7) [] false (10 * Hour) None "" 1 false.

Lemma Evaluate_reply_witness :
  r_Decision (Evaluate (reply "Thursday works for me.")) = Allow ∧
  reply_permitted (reply "Thursday works for me.") ∧
  reply_autonomous (reply "Thursday works for me.").
Proof.
  split; [vm_compute; reflexivity |].
  apply (Evaluate_reply (reply "Thursday works for me.")); vm_compute; reflexivity.
Defined.

Definition summary : Input :=
  (reply "x") <|in_Action := MkAction ActionTypeOwnerSummary "" "done" 0|>
    <|in_Conversation := chat <|c_State := ConversationClosed|> |>.
Lemma Evaluate_other_types_witness :
  r_Decision (Evaluate summary) = Allow ∧ r_Decision (Evaluate summary) ≠ RequireApproval.
Proof.
  split; [vm_compute; reflexivity |].
  apply (Evaluate_other_types summary). vm_compute. discriminate.
Defined.

Definition paused : Input := (reply "x") <|in_Profile := guarded <|p_AutopilotPaused := true|> |>.
Lemma pause_denial_last_witness :
  r_Code (Evaluate paused) = Some DenyAutopilotPaused ∧ in_SourceSuperseded paused = "".
Proof.
  split; [vm_compute; reflexivity |]. apply (pause_denial_last paused). vm_compute. reflexivity.
Defined.

Definition linked : Input := reply "see https://x.example".
Lemma explicit_link_denied_witness : r_Decision (Evaluate linked) = Deny.
Proof.
  apply (explicit_link_denied linked "see " "h"%char "ttps" "x"%char ".example");
    try (vm_compute; reflexivity).
  right. exists "see", " "%char. by vm_compute.
Defined.

Definition nobody : AgentProfile :=
  guarded <|p_AudienceExcludes := "non_contacts,existing_chats"|> <|p_AssistantInstalledAt := Hour|>.
Lemma audience_answers_somebody_witness :
  ValidAudienceExcludes (p_AudienceExcludes nobody) true = Ok tt ∧
  ¬ (∃ c, AudienceExcluded nobody c = None) ∧
  ∃ c, AudienceExcluded (nobody <|p_AudienceExcludes := "contacts"|>) c = None.
Proof.
  split; [vm_compute; reflexivity |]. split.
  - rewrite (audience_answers_somebody nobody) by (vm_compute; reflexivity).
    intros Hn. apply Hn. split; vm_compute; reflexivity.
  - apply (audience_answers_somebody (nobody <|p_AudienceExcludes := "contacts"|>));
      try (vm_compute; reflexivity).
    intros [H _].
    assert (bool_decide (AudienceNonContacts ∈ audience_set "contacts") = true) as H'
      by by apply bool_decide_eq_true_2.
    vm_compute in H'. discriminate H'.
Defined.
End Witnesses.
