(* ===== verification/Tables.v ===== *)
(** * The tables of the agent store: [src/internal/db/agent_schema.go]

    A table is a finite map from row id to row.  The columns that hold sealed
    content have the blob type of the class [Sealer], which states what the
    store relies on: [OpenForUser] recovers what [SealForUser] sealed for the
    same user, and a blind index is a function of its purpose, value and user.

    An operation of the store is a function from the tables to a result and the
    new tables; when it returns an error its transaction is rolled back and the
    tables are as before. *)

From S2P Require Import Prelude GoString Rows.

Class Sealer := {
  sealed : Type;
  SealForUser : string → Z → option sealed;
  OpenForUser : sealed → Z → option string;
  BlindIndexForUser : string → string → Z → option string;
  Open_Seal s u b : SealForUser s u = Some b → OpenForUser b u = Some s;
}.

(** The sealer the witnesses run with: a blob is the owner and the text. *)
Definition pair_open (b : Z * string) (u : Z) : option string :=
  if b.1 =? u then Some b.2 else None.
Lemma pair_open_seal s u b : Some (u, s) = Some b → pair_open b u = Some s.
Proof. intros [= <-]. unfold pair_open. cbn. by rewrite Z.eqb_refl. Qed.
Definition pair_sealer : Sealer := {|
  sealed := Z * string; SealForUser s u := Some (u, s); OpenForUser := pair_open;
  BlindIndexForUser purpose v u := Some (purpose +:+ ":" +:+ FormatInt u +:+ ":" +:+ v);
  Open_Seal := pair_open_seal |}.

(** ** Statuses *)
Inductive ActionStatus :=
| ActionProposed | ActionPendingApproval | ActionApproved | ActionExecuting
| ActionExecuted | ActionRejected | ActionExpired | ActionDenied
| ActionDeliveryUnknown.
#[global] Instance ActionStatus_eq_dec : EqDecision ActionStatus.
Proof. solve_decision. Defined.

Inductive PolicyDecision := PolicyAllow | PolicyRequireApproval | PolicyDeny.
#[global] Instance PolicyDecision_eq_dec : EqDecision PolicyDecision.
Proof. solve_decision. Defined.

Inductive JobStatus :=
| JobPending | JobProcessing | JobCompleted | JobFailed | JobDeadLetter
| JobIgnored | JobCoalesced | JobRouted.
#[global] Instance JobStatus_eq_dec : EqDecision JobStatus.
Proof. solve_decision. Defined.

Definition EventKindPrivateMessage : string := "private_message".
Definition EventKindMessageEdit : string := "message_edit".
Definition EventKindMessageDelete : string := "message_delete".

Definition NotificationSummary : string := "summary".
Definition NotificationApproval : string := "approval_request".
Definition NotificationAlert : string := "alert".
Definition NotificationHumanInput : string := "human_input".
Definition NotificationDeliveryUnknown : string := "delivery_unknown".

Definition NotificationPending : string := "pending".
Definition NotificationSent : string := "sent".
Definition NotificationFailed : string := "failed".

Definition RuntimeOwn : string := "own".
Definition RuntimeManaged : string := "managed".

Inductive db_error :=
| ErrAgentActionNotFound
| ErrConversationNotFound
| ErrAgentProfileNotFound
| ErrAgentJobNotFound
| ErrIncomingEventNotFound
| ErrOwnerNotificationNotFound
| ErrAgentSendBudgetExhausted
| ErrSourceSupersededKind (kind : string)
| ErrInvalidActionTransition
| ErrInvalidStatus
| ErrAgentJobResultRequired
| ErrAgentJobResultInvalid
| ErrArgument           (** a required argument is missing *)
| ErrCrypt              (** sealing or opening failed *)
| ErrDB.                (** the statement failed: a constraint or an I/O error *)

Section tables.
Context `{Sealer}.

(** ** Rows.  The legacy plaintext column [approval_code] is only ever cleared
    and is left out. *)
Record action_row := ActionRow {
  a_ID : Z;
  a_CodeHash : option string;
  a_CodeEncrypted : option sealed;
  a_JobID : option Z;
  a_ConversationID : option Z;
  a_UserID : Z;
  a_ActionType : string;
  a_Intent : string;
  a_Payload : option sealed;
  a_PolicyDecision : PolicyDecision;
  a_PolicyReasons : string;
  a_Status : ActionStatus;
  a_ExecutedTGMessageID : option Z;
  a_SendRandomID : option Z;
  a_SendBody : option sealed;
  a_SendAttempts : Z;
  a_RetryNotBefore : option time;
  a_CreatedAt : time;
  a_UpdatedAt : time;
  a_InstallRevision : Z;
}.

Record message_row := MessageRow {
  m_ID : Z;
  m_ConversationID : Z;
  m_Direction : string;
  m_TGMessageID : option Z;
  m_EventID : option string;
  m_Body : option sealed;
  m_CreatedAt : time;
}.

Record notification_row := NotificationRow {
  n_ID : Z;
  n_UserID : Z;
  n_Kind : string;
  n_ActionID : option Z;
  n_Body : option sealed;
  n_Status : string;
  n_CreatedAt : time;
  n_TGMessageID : option Z;
  n_SentAt : option time;
  n_ClaimedUntil : option time;
  n_RandomID : option Z;
}.

Record event_row := EventRow {
  e_ID : Z;
  e_EventID : string;
  e_UserID : Z;
  e_Kind : string;
  e_ChatTGID : Z;
  e_SenderTGID : Z;
  e_MessageID : Z;
  e_Body : option sealed;
  e_Meta : string;
  e_CreatedAt : time;
}.

(** [j_TurnContext] is the decoded JSON list of the column [turn_context]. *)
Record job_row := JobRow {
  j_ID : Z;
  j_EventID : string;
  j_UserID : Z;
  j_ConversationID : option Z;
  j_Status : JobStatus;
  j_Attempts : Z;
  j_MaxAttempts : Z;
  j_NextRunAt : time;
  j_ClaimedBy : option string;
  j_ClaimedAt : option time;
  j_LastError : option string;
  j_ResultActionID : option Z;
  j_ResultLeadID : option Z;
  j_CreatedAt : time;
  j_UpdatedAt : time;
  j_TurnID : option string;
  j_CoalescedInto : option Z;
  j_InstallRevision : Z;
  j_Runtime : option string;
  j_TurnContext : option (list string);
  j_BodyBytes : option Z;
}.

Record attempt_row := AttemptRow {
  t_ID : Z;
  t_JobID : Z;
  t_Attempt : Z;
  t_StartedAt : time;
  t_FinishedAt : option time;
  t_Status : option JobStatus;   (** [None] while running *)
  t_Error : option string;
}.

Record outbox_row := OutboxRow {
  o_ID : Z;
  o_EventID : string;
  o_UserID : Z;
  o_Stream : string;
  o_Envelope : string;
  o_Attempts : Z;
  o_LastError : string;
  o_CreatedAt : time;
  o_PublishedAt : option time;
}.

(** ** The database.  [d_next] is the last row id given out. *)
Record DB := MkDB {
  d_profiles : gmap Z AgentProfile;
  d_conversations : gmap Z Conversation;
  d_messages : gmap Z message_row;
  d_actions : gmap Z action_row;
  d_notifications : gmap Z notification_row;
  d_events : gmap Z event_row;
  d_jobs : gmap Z job_row;
  d_attempts : gmap Z attempt_row;
  d_outbox : gmap Z outbox_row;
  d_leads : gmap Z Z;                     (** the owner of a lead *)
  d_lead_results : gset (Z * Z * Z);      (** lead, job and user of a result *)
  d_lease : option (string * time);   (** holder and expiry of the relay lease *)
  d_pending_deletes : gmap (Z * Z) (Z * time);   (** by user and message id: account and time *)
  d_next : Z;
}.
End tables.

#[global] Instance eta_action_row `{Sealer} : Eta action_row := λ a,
  ActionRow (a_ID a) (a_CodeHash a) (a_CodeEncrypted a) (a_JobID a) (a_ConversationID a)
    (a_UserID a) (a_ActionType a) (a_Intent a) (a_Payload a) (a_PolicyDecision a)
    (a_PolicyReasons a) (a_Status a) (a_ExecutedTGMessageID a) (a_SendRandomID a)
    (a_SendBody a) (a_SendAttempts a) (a_RetryNotBefore a) (a_CreatedAt a) (a_UpdatedAt a)
    (a_InstallRevision a).
#[global] Instance eta_event_row `{Sealer} : Eta event_row := λ e,
  EventRow (e_ID e) (e_EventID e) (e_UserID e) (e_Kind e) (e_ChatTGID e) (e_SenderTGID e)
    (e_MessageID e) (e_Body e) (e_Meta e) (e_CreatedAt e).
#[global] Instance eta_notification_row `{Sealer} : Eta notification_row := λ n,
  NotificationRow (n_ID n) (n_UserID n) (n_Kind n) (n_ActionID n) (n_Body n) (n_Status n) (n_CreatedAt n)
    (n_TGMessageID n) (n_SentAt n) (n_ClaimedUntil n) (n_RandomID n).
#[global] Instance eta_job_row : Eta job_row := λ j,
  JobRow (j_ID j) (j_EventID j) (j_UserID j) (j_ConversationID j) (j_Status j) (j_Attempts j)
    (j_MaxAttempts j) (j_NextRunAt j) (j_ClaimedBy j) (j_ClaimedAt j) (j_LastError j)
    (j_ResultActionID j) (j_ResultLeadID j) (j_CreatedAt j) (j_UpdatedAt j) (j_TurnID j)
    (j_CoalescedInto j) (j_InstallRevision j) (j_Runtime j) (j_TurnContext j)
    (j_BodyBytes j).
#[global] Instance eta_attempt_row : Eta attempt_row := λ t,
  AttemptRow (t_ID t) (t_JobID t) (t_Attempt t) (t_StartedAt t) (t_FinishedAt t) (t_Status t)
    (t_Error t).
#[global] Instance eta_outbox_row : Eta outbox_row := λ o,
  OutboxRow (o_ID o) (o_EventID o) (o_UserID o) (o_Stream o) (o_Envelope o) (o_Attempts o)
    (o_LastError o) (o_CreatedAt o) (o_PublishedAt o).
#[global] Instance eta_DB `{Sealer} : Eta DB := λ d,
  MkDB (d_profiles d) (d_conversations d) (d_messages d) (d_actions d) (d_notifications d)
    (d_events d) (d_jobs d) (d_attempts d) (d_outbox d)
    (d_leads d) (d_lead_results d) (d_lease d) (d_pending_deletes d) (d_next d).

Definition empty_db `{Sealer} : DB := MkDB ∅ ∅ ∅ ∅ ∅ ∅ ∅ ∅ ∅ ∅ ∅ None ∅ 0.

(** ** Operations *)
Section ops.
Context `{Sealer}.

Definition op (A : Type) : Type := DB → result db_error (A * DB).

Definition op_ret {A} (a : A) : op A := λ d, Ok (a, d).
Definition op_err {A} (e : db_error) : op A := λ d, Err e.
Definition op_bind {A B} (m : op A) (k : A → op B) : op B := λ d,
  match m d with Ok (a, d') => k a d' | Err e => Err e end.
Definition op_get {A} (f : DB → A) : op A := λ d, Ok (f d, d).
Definition op_modify (f : DB → DB) : op unit := λ d, Ok (tt, f d).
Definition op_lift {A} (o : option A) (e : db_error) : op A :=
  match o with Some a => op_ret a | None => op_err e end.
Definition op_require (b : bool) (e : db_error) : op unit := if b then op_ret tt else op_err e.

(** The call as its caller sees it: an error leaves the tables alone. *)
Definition run {A} (m : op A) (d : DB) : result db_error A * DB :=
  match m d with Ok (a, d') => (Ok a, d') | Err e => (Err e, d) end.

(** The answer alone. *)
Definition answer {A} (m : op A) (d : DB) : option A :=
  match m d with Ok (a, _) => Some a | Err _ => None end.

(** A fresh row id. *)
Definition fresh_id : op Z := λ d,
  let id := d_next d + 1 in Ok (id, d <|d_next := id|>).
End ops.

Declare Scope op_scope.
Delimit Scope op_scope with op.
Notation "'let*' x ':=' c 'in' k" := (op_bind c (λ x, k))
  (at level 10, x pattern, c at level 100, k at level 200) : op_scope.
Notation "'do*' c 'in' k" := (op_bind c (λ _, k))
  (at level 10, c at level 100, k at level 200) : op_scope.

(** ** Statements on one table *)

(** [UPDATE ... SET f WHERE id = $id AND p]: the new table and whether a row
    was affected. *)
Definition update_row {R} (p : R → bool) (f : R → R) (id : Z) (t : gmap Z R) : option (gmap Z R) :=
  match t !! id with
  | Some r => if p r then Some (<[id := f r]> t) else None
  | None => None
  end.

(** [UPDATE ... SET f WHERE p] over the whole table. *)
Definition update_where {R} (p : R → bool) (f : R → R) (t : gmap Z R) : gmap Z R :=
  (λ r, if p r then f r else r) <$> t.
Definition count_where {R} (p : R → bool) (t : gmap Z R) : Z :=
  Z.of_nat (length (filter (λ r, p r = true) (map_to_list t).*2)).

(** The rows that pass [p], in id order. *)
Definition by_id {R} (x y : Z * R) : Prop := x.1 ≤ y.1.
#[global] Instance by_id_dec {R} : RelDecision (@by_id R) := λ x y, decide (x.1 ≤ y.1).
Definition rows_where {R} (p : R → bool) (t : gmap Z R) : list R :=
  filter (λ r, p r = true) (merge_sort by_id (map_to_list t)).*2.

Lemma answer_Some `{Sealer} {A} (m : op A) d a : answer m d = Some a → ∃ d', m d = Ok (a, d').
Proof. unfold answer. destruct (m d) as [[a' d']|e]; [intros [= ->]; by exists d' | done]. Qed.

(** Evaluates a call and an observation of the tables it leaves. *)
Lemma answer_then `{Sealer} {A B} (m : op A) (f : DB → B) d a b :
  answer (op_bind m (λ a, op_get (λ d, (a, f d)))) d = Some (a, b) → ∃ d', m d = Ok (a, d') ∧ f d' = b.
Proof.
  unfold answer, op_bind, op_get. destruct (m d) as [[a' d']|e]; [intros [= -> <-]; by exists d' | done].
Qed.

Lemma lookup_update_where {R} (p : R → bool) (f : R → R) (t : gmap Z R) i :
  update_where p f t !! i = (λ r, if p r then f r else r) <$> (t !! i).
Proof. unfold update_where. by rewrite lookup_fmap. Qed.

Lemma update_row_Some {R} (p : R → bool) f id (t t' : gmap Z R) :
  update_row p f id t = Some t' ↔
  ∃ r, t !! id = Some r ∧ p r = true ∧ t' = <[id := f r]> t.
Proof.
  unfold update_row. destruct (t !! id) as [r|]; [| by split; [| intros (? & ? & _)]].
  destruct (p r) eqn:Hp; split.
  - intros [= <-]. by exists r.
  - intros (? & [= <-] & _ & ->). done.
  - done.
  - intros (? & [= <-] & ? & _). congruence.
Qed.

Lemma elem_of_rows_where {R} (p : R → bool) (t : gmap Z R) r :
  r ∈ rows_where p t ↔ p r = true ∧ ∃ i, t !! i = Some r.
Proof.
  unfold rows_where. rewrite list_elem_of_filter, list_elem_of_fmap. f_equiv. split.
  - intros ([i r'] & -> & Hi). exists i. rewrite merge_sort_Permutation in Hi.
    by apply elem_of_map_to_list.
  - intros (i & Hi). exists (i, r). split; [done |]. rewrite merge_sort_Permutation.
    by apply elem_of_map_to_list.
Qed.

Lemma rows_where_nil {R} (p : R → bool) (t : gmap Z R) :
  rows_where p t = [] ↔ ∀ i r, t !! i = Some r → p r = false.
Proof.
  split.
  - intros Hn i r Hr. destruct (p r) eqn:Hp; [| done]. exfalso. eapply not_elem_of_nil. rewrite <- Hn.
    apply elem_of_rows_where. split; [done | by exists i].
  - intros Hp. apply elem_of_nil_inv. intros r [Hr [i Hi]]%elem_of_rows_where. by rewrite (Hp i r Hi) in Hr.
Qed.

(** ** Row order *)
Definition sorted_rows {R} (t : gmap Z R) : list (Z * R) := merge_sort by_id (map_to_list t).

#[global] Instance by_id_total {R} : Total (@by_id R).
Proof. intros x y. unfold by_id. lia. Qed.
#[global] Instance by_id_trans {R} : Transitive (@by_id R).
Proof. intros x y z. unfold by_id. lia. Qed.

Lemma elem_of_sorted_rows {R} (t : gmap Z R) i r : (i, r) ∈ sorted_rows t ↔ t !! i = Some r.
Proof. unfold sorted_rows. by rewrite merge_sort_Permutation, elem_of_map_to_list. Qed.

(** A list of the rows in id order is the one the queries see. *)
Lemma sorted_rows_unique {R} (t : gmap Z R) l :
  StronglySorted by_id l → l ≡ₚ map_to_list t → sorted_rows t = l.
Proof.
  intros Hl Hp. unfold sorted_rows. apply (StronglySorted_unique_strong by_id).
  - intros [i x] [j y] Hx Hy Hij Hji. rewrite merge_sort_Permutation in Hx. rewrite Hp in Hy.
    apply elem_of_map_to_list in Hx, Hy. unfold by_id in *. cbn in *. replace j with i in * by lia. congruence.
  - apply (StronglySorted_merge_sort by_id).
  - done.
  - by rewrite merge_sort_Permutation, Hp.
Qed.

Lemma sorted_rows_insert {R} (t : gmap Z R) i r :
  (∀ j x, t !! j = Some x → j < i) → sorted_rows (<[i:=r]> t) = sorted_rows t ++ [(i, r)].
Proof.
  intros Hi. assert (t !! i = None) as Hn.
  { destruct (t !! i) as [x|] eqn:E; [| done]. specialize (Hi i x E). lia. }
  apply sorted_rows_unique.
  - apply StronglySorted_app_2; [| apply (StronglySorted_merge_sort by_id) | by repeat constructor].
    intros [j x] y Hx ->%list_elem_of_singleton. apply elem_of_sorted_rows in Hx. unfold by_id; cbn.
    specialize (Hi j x Hx). lia.
  - rewrite map_to_list_insert by done. unfold sorted_rows. rewrite merge_sort_Permutation.
    symmetry. apply Permutation_cons_append.
Qed.

Lemma sorted_rows_filter {R} (P : Z * R → Prop) `{∀ x, Decision (P x)} (t : gmap Z R) :
  sorted_rows (filter P t) = filter P (sorted_rows t).
Proof.
  apply sorted_rows_unique.
  - pose proof (StronglySorted_merge_sort by_id (map_to_list t)) as Hs. fold (sorted_rows t) in Hs.
    induction Hs as [|x l Hs IH Hx]; [constructor |]. rewrite filter_cons. case_decide; [| done].
    constructor; [done |]. rewrite Forall_forall in *. intros y [_ Hy]%list_elem_of_filter. auto.
  - unfold sorted_rows. rewrite merge_sort_Permutation. apply NoDup_Permutation.
    + apply NoDup_filter, NoDup_map_to_list.
    + apply NoDup_map_to_list.
    + intros [i r]. rewrite list_elem_of_filter, !elem_of_map_to_list, map_lookup_filter_Some. tauto.
Qed.
