(* ===== verification/AuditLog.v ===== *)
(** * The audit log: [src/internal/db/audit_chain.go], [store.go], [edgectx]

    Every tool call leaves a row that is chained to the previous row of its user
    by SHA-256; a user can have the chain recomputed. *)

From S2P Require Import Prelude GoString Sha256 Regexp Redact Rows Tables.

(** ** How a call arrived: [src/internal/edgectx/edgectx.go] *)
Record Context := MkContext {
  RequestID : string;
  Route : string;
  MCPMethod : string;
  MCPName : string;
  ProtocolVersion : string;
}.
#[global] Instance Context_eq_dec : EqDecision Context.
Proof. solve_decision. Defined.
Definition no_context : Context := MkContext "" "" "" "" "".

Definition RoutePortal : string := "portal".
Definition RouteDirect : string := "direct".
Definition maxValue : Z := 200.

Definition sanitize (v : string) : string :=
  if bool_decide (v = "") then ""
  else if maxValue <? Z.of_nat (String.length v) then ""
  else if existsb (λ r, (r <? 32) || (126 <? r)) (runes v) then ""
  else v.

(** The headers of the request are a function from their name. *)
Definition FromRequest (header : string → string) : Context :=
  MkContext (sanitize (header "Cf-Ray"))
    (if bool_decide (header "Cf-Worker" = "") then RouteDirect else RoutePortal)
    (sanitize (header "Mcp-Method")) (sanitize (header "Mcp-Name"))
    (sanitize (header "MCP-Protocol-Version")).

(** ** The hash of a row *)

(** [auditEdge] has the fields of [Context]. *)
Abbreviation auditEdge := Context (only parsing).
Definition edge_empty (e : auditEdge) : bool := bool_decide (e = no_context).
Definition auditEdgeMarker : Z := 1.

Definition writeBE64 (v : Z) : list Z := be_bytes 8 (v mod 2 ^ 64).
Definition writeLenPrefixed (p : string) : list Z :=
  be_bytes 4 (Z.of_nat (String.length p) mod 2 ^ 32) ++ bytes p.

(** What is written into the hash.  [UnixNano] of an instant is its distance
    from the epoch as an [int64], and converted to [uint64]. *)
Definition hash_input (prev : string) (userID : Z) (tool peer status errCol : string)
    (callPath : option string) (createdAt : time) (edge : auditEdge) : list Z :=
  bytes prev ++ writeBE64 userID ++ writeLenPrefixed tool ++ writeLenPrefixed peer
  ++ writeLenPrefixed status ++ writeLenPrefixed errCol ++ writeBE64 createdAt
  ++ match callPath with Some p => writeLenPrefixed p | None => [] end
  ++ (if edge_empty edge then [] else
      auditEdgeMarker :: writeLenPrefixed (RequestID edge) ++ writeLenPrefixed (Route edge)
      ++ writeLenPrefixed (MCPMethod edge) ++ writeLenPrefixed (MCPName edge)
      ++ writeLenPrefixed (ProtocolVersion edge)).

Definition hashAuditEntry (prev : string) (userID : Z) (tool peer status errCol : string)
    (callPath : option string) (createdAt : time) (edge : auditEdge) : string :=
  of_bytes (digest (hash_input prev userID tool peer status errCol callPath createdAt edge)).

(** ** The table [audit_logs] *)
Record audit_row := AuditRow {
  a_UserID : option Z;
  a_Tool : string;
  a_Peer : option string;
  a_Status : string;
  a_Error : option string;
  a_CreatedAt : time;
  a_PrevHash : option string;
  a_EntryHash : option string;
  a_CallPath : option string;
  a_RequestID : option string;
  a_Route : option string;
  a_MCPMethod : option string;
  a_MCPName : option string;
  a_ProtocolVersion : option string;
  a_Reason : option string;
}.

(** The users a row may refer to, the rows by id, and the next id of the
    sequence. *)
Record audit_db := AuditDB {
  a_users : gset Z;
  a_rows : gmap Z audit_row;
  a_next : Z;
}.

Record ToolCall := MkToolCall {
  tc_UserID : Z;
  tc_Tool : string;
  tc_PeerRedacted : string;
  tc_Status : string;
  tc_ErrMsg : string;
  tc_CallPath : string;
  tc_Reason : string;
}.

Definition nullable (s : string) : option string := if bool_decide (s = "") then None else Some s.
(** [sql.NullString.String] *)
Abbreviation text c := (default "" c) (only parsing).

Definition of_user (u : Z) (r : audit_row) : bool := bool_decide (a_UserID r = Some u).
Definition rows_of (u : Z) (d : audit_db) : list (Z * audit_row) :=
  filter (λ x, of_user u x.2 = true) (sorted_rows (a_rows d)).

Definition genesis : string := of_bytes (replicate 32 0).

Definition previousAuditHash (u : Z) (d : audit_db) : string :=
  match last (omap (λ x, a_EntryHash x.2) (rows_of u d)) with
  | None => genesis
  | Some h => if (String.length h =? 0)%nat then genesis else h
  end.

Section log.
(** What the column [created_at] gives back for an instant written to it: a
    [TIMESTAMPTZ] of Postgres has microseconds, the text SQLite stores has
    nanoseconds. *)
Variable keep : time → time.

(** The row a call writes. *)
Definition logged_row (c : ToolCall) (ec : Context) (now : time) (prev : string) : audit_row :=
  let errMsg := ScrubText (tc_ErrMsg c) in
  let entry := hashAuditEntry prev (tc_UserID c) (tc_Tool c) (tc_PeerRedacted c) (tc_Status c) errMsg
                 (Some (tc_CallPath c)) now ec in
  AuditRow (Some (tc_UserID c)) (tc_Tool c) (nullable (tc_PeerRedacted c)) (tc_Status c) (nullable errMsg)
    (keep now) (Some prev) (Some entry) (Some (tc_CallPath c)) (nullable (RequestID ec)) (nullable (Route ec))
    (nullable (MCPMethod ec)) (nullable (MCPName ec)) (nullable (ProtocolVersion ec)) (nullable (tc_Reason c)).

(** A call between its statements.  The transaction begins without an isolation
    level and the [SELECT] takes no lock: on Postgres it sees what is committed
    when it runs, and the [INSERT] of another call may lie between it and the
    own one. *)
Inductive log_call :=
| Begun (c : ToolCall) (ec : Context) (now : time)                       (** [BEGIN] was answered *)
| Chained (c : ToolCall) (ec : Context) (now : time) (prev : string)     (** the [SELECT] was *)
| Written (id : Z) (row : audit_row).                                    (** the [INSERT] was *)

(** The next statement: the call behind it, [None] at its end, and the committed
    rows.  The sequence gives an id for good; a user that does not exist is
    refused by the foreign key, and a failure is logged and forgotten. *)
Definition LogToolCall (x : log_call) (d : audit_db) : option log_call * audit_db :=
  match x with
  | Begun c ec now => (Some (Chained c ec now (previousAuditHash (tc_UserID c) d)), d)
  | Chained c ec now prev =>
    (if bool_decide (tc_UserID c ∈ a_users d) then Some (Written (a_next d) (logged_row c ec now prev)) else None,
     AuditDB (a_users d) (a_rows d) (a_next d + 1))
  | Written id row => (None, AuditDB (a_users d) (<[id := row]> (a_rows d)) (a_next d))
  end.
End log.

(** ** Retention *)
Definition SweepAuditLog (retention : duration) (now : time) (d : audit_db) : audit_db * Z :=
  if retention <=? 0 then (d, 0) else
  let cutoff := now - retention in
  let kept := filter (λ x : Z * audit_row, cutoff ≤ a_CreatedAt x.2) (a_rows d) in
  (AuditDB (a_users d) kept (a_next d), Z.of_nat (size (a_rows d)) - Z.of_nat (size kept)).

(** ** Verification *)
Record AuditChainVerification := Verification {
  v_OK : bool;
  v_Verified : Z;
  v_FirstBadID : Z;
  v_Reason : string;
}.
Definition ReasonPrev : string := "prev_hash does not chain to the previous entry's entry_hash".
Definition ReasonEntry : string :=
  "entry_hash does not match recomputed canonical hash — row may have been tampered with".

Definition row_edge (r : audit_row) : auditEdge :=
  MkContext (text (a_RequestID r)) (text (a_Route r)) (text (a_MCPMethod r)) (text (a_MCPName r))
    (text (a_ProtocolVersion r)).
Definition row_hash (u : Z) (prev : string) (r : audit_row) : string :=
  hashAuditEntry prev u (a_Tool r) (text (a_Peer r)) (a_Status r) (text (a_Error r)) (a_CallPath r)
    (a_CreatedAt r) (row_edge r).

Fixpoint verify_rows (u : Z) (rows : list (Z * audit_row)) (lastEntry : option string) (verified : Z)
    : AuditChainVerification :=
  match rows with
  | [] => Verification true verified 0 ""
  | (id, r) :: rows =>
    match a_EntryHash r, a_PrevHash r with
    | Some entryHash, Some prevHash =>
      if negb (String.eqb prevHash (default genesis lastEntry)) then Verification false verified id ReasonPrev
      else if negb (String.eqb (row_hash u prevHash r) entryHash) then Verification false verified id ReasonEntry
      else verify_rows u rows (Some entryHash) (verified + 1)
    | _, _ => verify_rows u rows None verified
    end
  end.

Definition VerifyAuditChain (u : Z) (d : audit_db) : AuditChainVerification := verify_rows u (rows_of u d) None 0.

(** ** Reading *)
Record AuditEntry := MkAuditEntry {
  ae_Ts : time;
  ae_ToolName : string;
  ae_PeerRedacted : string;
  ae_Status : string;
  ae_ErrorRedacted : string;
  ae_CallPath : string;
  ae_Edge : Context;
}.

Definition entry_of (r : audit_row) : AuditEntry :=
  MkAuditEntry (a_CreatedAt r) (a_Tool r) (text (a_Peer r)) (a_Status r) (ScrubText (text (a_Error r)))
    (text (a_CallPath r)) (row_edge r).

Definition ListAuditFor (u limit : Z) (before : time) (d : audit_db) : list AuditEntry :=
  let limit := if limit <=? 0 then 50 else limit in
  let limit := if 500 <? limit then 500 else limit in
  let rows := filter (λ x : Z * audit_row, IsZero before || (a_CreatedAt x.2 <? before) = true) (rows_of u d) in
  map (λ x, entry_of x.2) (take (Z.to_nat limit) (rev rows)).
