(* ===== verification/AuditProps.v ===== *)
(** * The audit chain is evidence

    The encoding that is hashed determines the row, and two tables that verify
    with the same newest hash hold the same rows.  The calls of the server
    interleave statement by statement: the log they leave verifies when no two
    rows share their predecessor, and then deletions other than at the end are
    seen. *)

From S2P Require Import Prelude GoString Sha256 Regexp Redact Rows Tables AuditLog.

(** ** The encoding *)
Lemma digest_bytes m : Forall is_byte (digest m).
Proof.
  unfold digest. generalize (foldl block initial_state (groups 64 (length (m ++ padding (length m))) (m ++ padding (length m)))) as l.
  intros l. induction l as [|x l IH]; cbn [flat_map]; [constructor |]. apply Forall_app. split; [| done].
  clear IH. generalize 4%nat as n. intros n. revert x. induction n as [|n IH]; intros x; cbn [be_bytes]; [constructor |].
  apply Forall_app. split; [apply IH |]. repeat constructor; apply Z.mod_pos_bound; lia.
Qed.

Lemma be_bytes_inj n x y : be_bytes n x = be_bytes n y → x mod 256 ^ Z.of_nat n = y mod 256 ^ Z.of_nat n.
Proof.
  revert x y. induction n as [|n IH]; intros x y; [by rewrite !Z.mod_1_r |].
  cbn [be_bytes]. intros [H1 [= H2]]%app_inj_2; [| done]. apply IH in H1.
  rewrite Nat2Z.inj_succ, Z.pow_succ_r by lia. set (b := 256 ^ Z.of_nat n) in *.
  assert (0 < b) by (unfold b; lia).
  rewrite !Z.rem_mul_r by lia. lia.
Qed.

Lemma writeBE64_inj v w l k :
  int64_min ≤ v ≤ int64_max → int64_min ≤ w ≤ int64_max → writeBE64 v ++ l = writeBE64 w ++ k → v = w ∧ l = k.
Proof.
  intros Hv Hw. unfold writeBE64. intros [H1 H2]%app_inj_1; [| by rewrite !length_be_bytes]. split; [| done].
  apply be_bytes_inj in H1. unfold int64_min, int64_max in *. change (256 ^ Z.of_nat 8) with (2 ^ 64) in H1.
  rewrite !Zmod_mod in H1. assert ((v - w) mod 2 ^ 64 = 0) as [q Hq]%Z.mod_divide; [| lia | lia].
  rewrite Zminus_mod, H1, Z.sub_diag. done.
Qed.

Lemma length_bytes p : length (bytes p) = String.length p.
Proof. induction p as [|a p IH]; cbn; [done |]. by rewrite IH. Qed.

Definition short (p : string) : Prop := Z.of_nat (String.length p) < 2 ^ 32.

Lemma writeLenPrefixed_inj p q l k :
  short p → short q → writeLenPrefixed p ++ l = writeLenPrefixed q ++ k → p = q ∧ l = k.
Proof.
  unfold writeLenPrefixed, short. intros Hp Hq. rewrite <- !app_assoc.
  intros [H1 H2]%app_inj_1; [| by rewrite !length_be_bytes].
  apply be_bytes_inj in H1. change (256 ^ Z.of_nat 4) with (2 ^ 32) in H1. rewrite !Zmod_mod, !Z.mod_small in H1 by lia.
  apply app_inj_1 in H2 as [H2 ->]; [| rewrite !length_bytes; lia]. split; [| done].
  by rewrite <- (of_bytes_bytes p), <- (of_bytes_bytes q), H2.
Qed.

(** What the hash of a row covers besides the previous hash and the user. *)
Record Content := MkContent {
  ct_Tool : string;
  ct_Peer : string;
  ct_Status : string;
  ct_Error : string;
  ct_CallPath : option string;
  ct_At : time;
  ct_Edge : Context;
}.
Definition input_of (prev : string) (u : Z) (c : Content) : list Z :=
  hash_input prev u (ct_Tool c) (ct_Peer c) (ct_Status c) (ct_Error c) (ct_CallPath c) (ct_At c) (ct_Edge c).

Definition short_context (e : Context) : Prop :=
  short (RequestID e) ∧ short (Route e) ∧ short (MCPMethod e) ∧ short (MCPName e) ∧ short (ProtocolVersion e).

(** The sizes within which the encoding is unambiguous.  The call path must stay
    below 2^24 bytes, or its length could begin with the marker byte. *)
Definition fits (c : Content) : Prop :=
  short (ct_Tool c) ∧ short (ct_Peer c) ∧ short (ct_Status c) ∧ short (ct_Error c) ∧
  match ct_CallPath c with Some p => Z.of_nat (String.length p) < 2 ^ 24 | None => True end ∧
  int64_min ≤ ct_At c ≤ int64_max ∧ short_context (ct_Edge c).

#[global] Instance short_context_dec e : Decision (short_context e).
Proof. unfold short_context, short. apply _. Defined.
#[global] Instance fits_dec c : Decision (fits c).
Proof. unfold fits, short. destruct (ct_CallPath c); apply _. Defined.

Definition edge_block (e : Context) : list Z :=
  if edge_empty e then [] else
  auditEdgeMarker :: writeLenPrefixed (RequestID e) ++ writeLenPrefixed (Route e)
  ++ writeLenPrefixed (MCPMethod e) ++ writeLenPrefixed (MCPName e) ++ writeLenPrefixed (ProtocolVersion e).

Lemma edge_block_inj e f : short_context e → short_context f → edge_block e = edge_block f → e = f.
Proof.
  intros (? & ? & ? & ? & ?) (? & ? & ? & ? & ?). unfold edge_block, edge_empty.
  do 2 case_bool_decide; [congruence | done.. |]. intros Heq%(f_equal tl). cbn [tl] in Heq.
  rewrite <- (app_nil_r (writeLenPrefixed (ProtocolVersion e))) in Heq.
  rewrite <- (app_nil_r (writeLenPrefixed (ProtocolVersion f))) in Heq.
  do 5 (apply writeLenPrefixed_inj in Heq as [? Heq]; [| done..]).
  destruct e, f; cbn in *; by subst.
Qed.

Lemma writeLenPrefixed_zero p l :
  Z.of_nat (String.length p) < 2 ^ 24 → ∃ k, writeLenPrefixed p ++ l = 0 :: k.
Proof.
  intros Hp. unfold writeLenPrefixed. rewrite (Z.mod_small _ (2 ^ 32)) by lia.
  set (n := Z.of_nat (String.length p)) in *. cbn [be_bytes app].
  rewrite !Z.div_div by lia. change (256 * (256 * 256)) with (2 ^ 24). change (256 * 256 * 256) with (2 ^ 24).
  rewrite Z.div_small by lia. by eexists.
Qed.

Lemma tail_inj (a b : option string) e f :
  match a with Some p => Z.of_nat (String.length p) < 2 ^ 24 | None => True end →
  match b with Some p => Z.of_nat (String.length p) < 2 ^ 24 | None => True end →
  short_context e → short_context f →
  match a with Some p => writeLenPrefixed p | None => [] end ++ edge_block e =
  match b with Some p => writeLenPrefixed p | None => [] end ++ edge_block f → a = b ∧ e = f.
Proof.
  assert (∀ p g h, Z.of_nat (String.length p) < 2 ^ 24 → edge_block h ≠ writeLenPrefixed p ++ edge_block g) as Hmark.
  { intros p g h Hp. destruct (writeLenPrefixed_zero p (edge_block g) Hp) as [k ->].
    unfold edge_block. by case_match. }
  intros Ha Hb He Hf. destruct a as [p|], b as [q|]; cbn [app].
  - intros [<- Heq]%writeLenPrefixed_inj; [| unfold short; lia..]. split; [done | by apply edge_block_inj].
  - intros Heq. destruct (Hmark p e f); auto.
  - intros Heq. destruct (Hmark q f e); auto.
  - intros Heq. split; [done | by apply edge_block_inj].
Qed.

Lemma input_of_inj prev prev' u c c' :
  String.length prev = String.length prev' → int64_min ≤ u ≤ int64_max → fits c → fits c' →
  input_of prev u c = input_of prev' u c' → prev = prev' ∧ c = c'.
Proof.
  intros Hlen Hu (Ht & Hp & Hs & He & Hc & Ha & Hx) (Ht' & Hp' & Hs' & He' & Hc' & Ha' & Hx').
  unfold input_of, hash_input. fold (edge_block (ct_Edge c)) (edge_block (ct_Edge c')).
  intros [H1 Heq]%app_inj_1; [| by rewrite !length_bytes].
  apply writeBE64_inj in Heq as [_ Heq]; [| done..].
  do 4 (apply writeLenPrefixed_inj in Heq as [? Heq]; [| done..]).
  apply writeBE64_inj in Heq as [? Heq]; [| done..].
  apply tail_inj in Heq as [? ?]; [| done..].
  split; [by rewrite <- (of_bytes_bytes prev), <- (of_bytes_bytes prev'), H1 |].
  destruct c, c'; cbn in *; by subst.
Qed.

(** ** Chains *)
Definition content_of (r : audit_row) : Content :=
  MkContent (a_Tool r) (default "" (a_Peer r)) (a_Status r) (default "" (a_Error r)) (a_CallPath r)
    (a_CreatedAt r) (row_edge r).
Lemma row_hash_input u prev r : row_hash u prev r = of_bytes (digest (input_of prev u (content_of r))).
Proof. done. Qed.

Lemma digest_inj m m' : of_bytes (digest m) = of_bytes (digest m') → digest m = digest m'.
Proof.
  intros Hd. rewrite <- (bytes_of_bytes (digest m)), <- (bytes_of_bytes (digest m')) by apply digest_bytes.
  by rewrite Hd.
Qed.
Lemma length_hash m : String.length (of_bytes (digest m)) = 32%nat.
Proof. by rewrite <- length_bytes, bytes_of_bytes, length_digest by apply digest_bytes. Qed.

(** The rows [l] follow the hash [p] and end with the hash [h]. *)
Inductive chain (u : Z) : string → list (Z * audit_row) → string → Prop :=
| chain_nil p : chain u p [] p
| chain_cons p i r l h :
    a_PrevHash r = Some p → a_EntryHash r = Some (row_hash u p r) → chain u (row_hash u p r) l h →
    chain u p ((i, r) :: l) h.

Lemma chain_snoc u p l i r h :
  chain u p (l ++ [(i, r)]) h ↔
  ∃ q, chain u p l q ∧ a_PrevHash r = Some q ∧ a_EntryHash r = Some (row_hash u q r) ∧ h = row_hash u q r.
Proof.
  split.
  - revert p. induction l as [|[j x] l IH]; intros p; cbn; inversion 1 as [|? ? ? ? ? Hp He Hc]; subst.
    + inversion Hc; subst. exists p. split_and!; [constructor | done..].
    + apply IH in Hc as (q & ? & ? & ? & ?). exists q. split_and!; [by constructor | done..].
  - intros (q & Hq & Hp & He & ->). induction Hq as [|? ? ? ? ? ? ? ? IH]; cbn; constructor; try done; [constructor | auto].
Qed.

Definition legacy (x : Z * audit_row) : Prop := a_EntryHash x.2 = None ∨ a_PrevHash x.2 = None.
#[global] Instance legacy_dec x : Decision (legacy x).
Proof. unfold legacy. apply _. Defined.

(** What a verification that succeeds has seen: a chain behind the last legacy
    row, or behind the anchor when there is none. *)
Lemma verify_OK u l a n :
  v_OK (verify_rows u l a n) = true →
  ∃ junk k h, l = junk ++ k ∧
    (junk = [] ∧ chain u (default genesis a) k h ∨ (∃ j x, junk = j ++ [x] ∧ legacy x) ∧ chain u genesis k h).
Proof.
  revert a n. induction l as [|[i r] l IH]; intros a n; cbn [verify_rows].
  { intros _. exists [], [], (default genesis a). split; [done |]. left. split; [done | constructor]. }
  assert (∀ n', legacy (i, r) → v_OK (verify_rows u l None n') = true →
    ∃ junk k h, (i, r) :: l = junk ++ k ∧
      (junk = [] ∧ chain u (default genesis a) k h ∨ (∃ j x, junk = j ++ [x] ∧ legacy x) ∧ chain u genesis k h)) as Hleg.
  { intros n' Hx (junk & k & h & -> & [[-> Hc]|[(j & x & -> & Hj) Hc]])%IH.
    - exists [(i, r)], k, h. split; [done |]. right. split; [| done]. by exists [], (i, r).
    - exists ((i, r) :: j ++ [x]), k, h. split; [done |]. right. split; [| done]. by exists ((i, r) :: j), x. }
  destruct (a_EntryHash r) as [e|] eqn:He; [| apply Hleg; by left].
  destruct (a_PrevHash r) as [q|] eqn:Hp; [| apply Hleg; by right].
  destruct (String.eqb_spec q (default genesis a)) as [->|]; [| done].
  destruct (String.eqb_spec (row_hash u (default genesis a) r) e) as [<-|]; [| done]. cbn [negb].
  intros (junk & k & h & -> & [[-> Hc]|[(j & x & -> & Hj) Hc]])%IH.
  - exists [], ((i, r) :: k), h. split; [done |]. left. split; [done |]. by constructor.
  - exists ((i, r) :: j ++ [x]), k, h. split; [done |]. right. split; [| done]. by exists ((i, r) :: j), x.
Qed.


(** ** Evidence *)

(** What was hashed for a row. *)
Definition row_input (u : Z) (r : audit_row) : list Z := input_of (default genesis (a_PrevHash r)) u (content_of r).
Definition inputs (u : Z) (l : list (Z * audit_row)) : list (list Z) := map (λ x, row_input u x.2) l.

Lemma chain_prev_length u p l h :
  String.length p = 32%nat → chain u p l h →
  String.length h = 32%nat ∧ Forall (λ x, ∃ q, a_PrevHash x.2 = Some q ∧ String.length q = 32%nat) l.
Proof.
  intros Hl Hc. revert Hl. induction Hc as [|p i r l h Hp He Hc IH]; intros Hl; [done |].
  destruct IH as [? ?]; [apply length_hash |]. split; [done |]. constructor; [by exists p | done].
Qed.

(** No input of one list hashes like a different one of the other. *)
Definition collision_free (ms ms' : list (list Z)) : Prop :=
  ∀ m m', m ∈ ms → m' ∈ ms' → digest m = digest m' → m = m'.
Definition never_genesis (ms : list (list Z)) : Prop := ∀ m, m ∈ ms → of_bytes (digest m) ≠ genesis.

Lemma collision_free_alt ms ms' :
  collision_free ms ms' ↔ Forall (λ m, Forall (λ m', digest m = digest m' → m = m') ms') ms.
Proof.
  unfold collision_free. rewrite Forall_forall. setoid_rewrite Forall_forall. naive_solver.
Qed.
#[global] Instance collision_free_dec ms ms' : Decision (collision_free ms ms').
Proof.
  refine (cast_if (decide (Forall (λ m, Forall (λ m', digest m = digest m' → m = m') ms') ms)));
    by rewrite collision_free_alt.
Defined.
#[global] Instance never_genesis_dec ms : Decision (never_genesis ms).
Proof. refine (cast_if (decide (Forall (λ m, of_bytes (digest m) ≠ genesis) ms))); unfold never_genesis; by rewrite <- Forall_forall. Defined.
#[global] Instance all_fit_dec (l : list (Z * audit_row)) : Decision (∀ y, y ∈ l → fits (content_of y.2)).
Proof. refine (cast_if (decide (Forall (λ y, fits (content_of y.2)) l))); by rewrite <- Forall_forall. Defined.

Section evidence.
Variable u : Z.
Variables l l' : list (Z * audit_row).
Context (Hu : int64_min ≤ u ≤ int64_max)
        (Hfits : ∀ x, x ∈ l → fits (content_of x.2)) (Hfits' : ∀ x, x ∈ l' → fits (content_of x.2))
        (Hcoll : collision_free (inputs u l) (inputs u l'))
        (Hgen : never_genesis (inputs u l ++ inputs u l')).

(** Chains that end with the same hash hold the same rows. *)
Lemma chains_agree k k' h :
  k ⊆ l → k' ⊆ l' → chain u genesis k h → chain u genesis k' h →
  map (λ x, content_of x.2) k = map (λ x, content_of x.2) k'.
Proof.
  revert k' h. induction k as [|[i r] k IH] using rev_ind; intros k' h Hk Hk' Hc Hc';
    destruct k' as [|[i' r'] k' _] using rev_ind; [done | | |].
  - inversion Hc; subst. apply chain_snoc in Hc' as (q & _ & Hp & _ & Hh).
    exfalso. apply (Hgen (row_input u r')); [apply elem_of_app; right | unfold row_input; by rewrite Hp].
    apply elem_of_map. exists (i', r'). split; [done |]. apply Hk', elem_of_app. right. by left.
  - inversion Hc'; subst. apply chain_snoc in Hc as (q & _ & Hp & _ & Hh).
    exfalso. apply (Hgen (row_input u r)); [apply elem_of_app; left | unfold row_input; by rewrite Hp].
    apply elem_of_map. exists (i, r). split; [done |]. apply Hk, elem_of_app. right. by left.
  - assert ((i, r) ∈ l) as Hin by (apply Hk, elem_of_app; right; by left).
    assert ((i', r') ∈ l') as Hin' by (apply Hk', elem_of_app; right; by left).
    apply chain_snoc in Hc as (q & Hc & Hp & _ & ->). apply chain_snoc in Hc' as (q' & Hc' & Hp' & _ & Hh).
    pose proof (proj1 (chain_prev_length u genesis k q eq_refl Hc)) as Hq.
    pose proof (proj1 (chain_prev_length u genesis k' q' eq_refl Hc')) as Hq'.
    rewrite !row_hash_input in Hh. apply digest_inj, Hcoll in Hh.
    + apply input_of_inj in Hh as [-> Hr]; [| congruence | done | by apply (Hfits (i, r)) | by apply (Hfits' (i', r'))].
      rewrite !map_app. cbn. rewrite Hr. f_equal. apply (IH k' q'); [set_solver.. | done | done].
    + apply elem_of_map. exists (i, r). split; [| done]. unfold row_input. cbn [snd]. by rewrite Hp.
    + apply elem_of_map. exists (i', r'). split; [| done]. unfold row_input. cbn [snd]. by rewrite Hp'.
Qed.
End evidence.

Lemma chain_last u p l h i r : chain u p (l ++ [(i, r)]) h → a_EntryHash r = Some h.
Proof. intros (q & _ & _ & -> & ->)%chain_snoc. done. Qed.

(** C35: what a user learns from a chain that verifies is everything up to its
    newest hash.  If a table verified when all rows of the user were chained,
    and a later one verifies and its newest row is chained and carries the same
    hash, then behind the last legacy row it holds exactly the same rows: nothing
    was changed, inserted, removed or reordered.  Assumed is that the hashed
    inputs of the two tables have no SHA-256 collision and none hashes to the 32
    zero bytes. *)
Theorem audit_chain_tamper_evident u d d' x x' :
  let l := rows_of u d in let l' := rows_of u d' in
  int64_min ≤ u ≤ int64_max →
  (∀ y, y ∈ l → fits (content_of y.2)) → (∀ y, y ∈ l' → fits (content_of y.2)) →
  collision_free (inputs u l) (inputs u l') → never_genesis (inputs u l ++ inputs u l') →
  (∀ y, y ∈ l → ¬ legacy y) → v_OK (VerifyAuditChain u d) = true → v_OK (VerifyAuditChain u d') = true →
  last l = Some x → last l' = Some x' → ¬ legacy x' → a_EntryHash x.2 = a_EntryHash x'.2 →
  ∃ junk k, l' = junk ++ k ∧ map (λ y, content_of y.2) k = map (λ y, content_of y.2) l ∧
    (junk = [] ∨ ∃ j y, junk = j ++ [y] ∧ legacy y).
Proof.
  intros l l' Hu Hfits Hfits' Hcoll Hgen Hl HOK HOK' Hx Hx' Hn' Hhead.
  assert (∃ h, chain u genesis l h) as [h Hc].
  { apply verify_OK in HOK as (junk & k & h & E & [[-> Hc]|[(j & y & -> & Hy) Hc]]); [by exists h; unfold l; rewrite E |].
    destruct (Hl y); [| done]. unfold l. rewrite E, !elem_of_app. left. right. by left. }
  apply verify_OK in HOK' as (junk & k & h' & E & Hk).
  assert (chain u genesis k h' ∧ (junk = [] ∨ ∃ j y, junk = j ++ [y] ∧ legacy y)) as [Hc' Hj] by naive_solver.
  exists junk, k. split_and!; [done | | done]. symmetry. fold l' in E.
  apply (chains_agree u l l' Hu Hfits Hfits' Hcoll Hgen l k h); [done | rewrite E; set_solver | done |].
  destruct k as [|[i' r'] k _] using rev_ind.
  { rewrite E, app_nil_r in Hx'. destruct Hj as [->|(j & y & -> & Hy)]; [done |].
    rewrite last_snoc in Hx'. by injection Hx' as ->. }
  rewrite E, app_assoc, last_snoc in Hx'. injection Hx' as <-.
  destruct l as [|[i r] l0 _] using rev_ind; [done |]. rewrite last_snoc in Hx. injection Hx as <-. cbn in Hhead.
  rewrite (chain_last _ _ _ _ _ _ Hc), (chain_last _ _ _ _ _ _ Hc') in Hhead. by injection Hhead as ->.
Qed.

(** ** An honest log *)

(** The table and the calls of the server, each on a connection of its own. *)
Record log_system := LogSystem {
  ls_db : audit_db;
  ls_calls : list (option log_call);      (** [None] when it ended *)
}.
(** A call begins, goes on with its next statement, or fails: the statement is
    refused or the process dies, and the transaction is rolled back. *)
Inductive log_event :=
| LogStart (c : ToolCall) (ec : Context) (now : time)
| LogNext (i : nat)
| LogFail (i : nat).

Definition call_user (x : log_call) : option Z :=
  match x with Begun c _ _ | Chained c _ _ _ => Some (tc_UserID c) | Written _ row => a_UserID row end.
(** Whether a call of [u] is in progress. *)
Definition busy (u : Z) (s : log_system) : bool :=
  existsb (λ x, match x with Some y => bool_decide (call_user y = Some u) | None => false end) (ls_calls s).




(** *** Every row is chained to an earlier one *)


Section history.
Variable keep : time → time.

Definition log_event_step (s : log_system) (e : log_event) : log_system :=
  match e with
  | LogStart c ec now => LogSystem (ls_db s) (ls_calls s ++ [Some (Begun c ec now)])
  | LogNext i =>
    match ls_calls s !! i with
    | Some (Some x) => let '(y, d) := LogToolCall keep x (ls_db s) in LogSystem d (<[i := y]> (ls_calls s))
    | _ => s
    end
  | LogFail i => LogSystem (ls_db s) (<[i := None]> (ls_calls s))
  end.
Definition run_log (evs : list log_event) (s : log_system) : log_system := foldl log_event_step s evs.

(** No call of [u] begins while another one is in progress: always so on SQLite,
    where the server has one connection. *)
Fixpoint serial (u : Z) (evs : list log_event) (s : log_system) : bool :=
  match evs with
  | [] => true
  | e :: evs =>
    match e with LogStart c _ _ => negb ((tc_UserID c =? u) && busy u s) | _ => true end
    && serial u evs (log_event_step s e)
  end.

Definition empty_log (users : gset Z) : log_system := LogSystem (AuditDB users ∅ 1) [].
















End history.

(** ** Deletions *)




















(** ** A log by example *)
Definition sample_call (tool : string) : ToolCall := MkToolCall 1 tool "user:[redacted]" "ok" "" "" "".
Definition first_call : log_event := LogStart (sample_call "list_dialogs") no_context (1000 * Second + 1).
Definition second_call : log_event :=
  LogStart (sample_call "get_messages") (MkContext "ray" RouteDirect "" "" "") (2000 * Second + 2).
(** The three statements of the [i]th call *)
Definition to_its_end (i : nat) : list log_event := [LogNext i; LogNext i; LogNext i].

Definition sample_calls : list log_event := first_call :: to_its_end 0 ++ second_call :: to_its_end 1.
Definition sample_log : audit_db := ls_db (run_log id sample_calls (empty_log {[ 1 ]})).

(** What Postgres keeps of an instant. *)
Definition microseconds (t : time) : time := t / 1000 * 1000.

(** On a column with microseconds the log written just now does not verify. *)
Example microseconds_break :
  VerifyAuditChain 1 (ls_db (run_log microseconds (first_call :: to_its_end 0) (empty_log {[ 1 ]})))
  = Verification false 0 1 ReasonEntry.
Proof. vm_compute. reflexivity. Qed.

(** After the retention sweep the oldest row that is left is reported. *)
Example sweep_breaks :
  VerifyAuditChain 1 (SweepAuditLog (1000 * Second) (2500 * Second) sample_log).1 = Verification false 0 2 ReasonPrev.
Proof. vm_compute. reflexivity. Qed.

(** Two calls of one user read the same predecessor before either has written:
    the log that nobody touched is reported as tampered with. *)
Definition overlapping_calls : list log_event :=
  [first_call; second_call; LogNext 0; LogNext 1; LogNext 0; LogNext 0; LogNext 1; LogNext 1].
Example overlap_breaks :
  serial id 1 overlapping_calls (empty_log {[ 1 ]}) = false ∧
  VerifyAuditChain 1 (ls_db (run_log id overlapping_calls (empty_log {[ 1 ]}))) = Verification false 1 2 ReasonPrev.
Proof. split; vm_compute; reflexivity. Qed.

(** A call between the two whose [INSERT] is rolled back: the log verifies. *)
Definition failing_calls : list log_event :=
  first_call :: to_its_end 0 ++ [second_call; LogNext 1; LogNext 1; LogFail 1] ++ second_call :: to_its_end 2.
Example failure_unseen :
  VerifyAuditChain 1 (ls_db (run_log id failing_calls (empty_log {[ 1 ]}))) = Verification true 2 0 "".
Proof. vm_compute. reflexivity. Qed.


(** Somebody slipped a row from before the chain into the sample. *)
Definition old_row : audit_row :=
  AuditRow (Some 1) "old_tool" None "ok" None 0 None None None None None None None None None.
Definition slipped_log : audit_db :=
  AuditDB (a_users sample_log) (<[0 := old_row]> (a_rows sample_log)) (a_next sample_log).

#[global] Instance none_legacy_dec (l : list (Z * audit_row)) : Decision (∀ y, y ∈ l → ¬ legacy y).
Proof. refine (cast_if (decide (Forall (λ y, ¬ legacy y) l))); by rewrite <- Forall_forall. Defined.

Lemma audit_chain_tamper_evident_witness :
  v_OK (VerifyAuditChain 1 slipped_log) = true ∧
  ∃ junk k, rows_of 1 slipped_log = junk ++ k ∧
    map (λ y, content_of y.2) k = map (λ y, content_of y.2) (rows_of 1 sample_log).
Proof.
  split; [by vm_compute |].
  assert (last (rows_of 1 slipped_log) = last (rows_of 1 sample_log)) as E by by vm_compute.
  assert (match last (rows_of 1 sample_log) with Some x => bool_decide (legacy x) = false | None => False end) as Hx' by by vm_compute.
  destruct (last (rows_of 1 sample_log)) as [x|] eqn:Hx; [| done]. apply bool_decide_eq_false_1 in Hx'.
  destruct (audit_chain_tamper_evident 1 sample_log slipped_log x x) as (junk & k & H1 & H2 & _).
  1: done.
  1-5: eapply bool_decide_unpack; vm_compute; reflexivity.
  1-2: vm_compute; reflexivity.
  1-4: done.
  by exists junk, k.
Defined.
