(* ===== verification/Outbox.v ===== *)
(** * The event outbox: [src/internal/db/event_outbox.go]

    Reference-only envelopes written in the transaction that decides a job's
    fate, and the lease of the relay that publishes them.  The envelope builder
    is injected into the store, here as in the code. *)

From S2P Require Import Prelude GoString Rows Tables.

Section outbox.
Context `{Sealer}.
Local Open Scope op_scope.

(** The builder returns event id, stream and envelope, [Ok None] when the event
    kind is not published, or an error. *)
Record outbox_config := OutboxConfig {
  operatorRouting : bool;
  outbox : option (IncomingEvent → time → string → result unit (option (string * string * string)));
}.

Definition RoutePolicyDeny : string := "policy_deny".
Definition RoutePolicyRequireApproval : string := "policy_require_approval".
Definition RouteWorkerFailure : string := "worker_failure".
Definition RouteWorkerUnclaimed : string := "worker_unclaimed".

Variable cfg : outbox_config.

(** The result says whether a row was written; the unique event id makes the
    first reason win. *)
Definition insertOutboxReasonTx (ev : IncomingEvent) (at_ : time) (reason : string) : op bool :=
  match outbox cfg with
  | None => op_ret false
  | Some build =>
    match build ev at_ reason with
    | Err _ => op_err ErrDB
    | Ok None => op_ret false
    | Ok (Some (event_id, stream, envelope)) =>
      let* rows := op_get d_outbox in
      if bool_decide (rows_where (λ o, String.eqb (o_EventID o) event_id) rows = []) then
        let* id := fresh_id in
        do* op_modify (λ d, d <|d_outbox := <[id := OutboxRow id event_id (ev_UserID ev) stream
              envelope 0 "" at_ None]> (d_outbox d)|>) in
        op_ret true
      else op_ret false
    end
  end.

Definition insertOutboxTx (ev : IncomingEvent) (at_ : time) : op bool := insertOutboxReasonTx ev at_ "".

Definition insertRoutedOutboxTx (now : time) (userID : Z) (eventID reason : string) : op bool :=
  if negb (operatorRouting cfg) then op_ret false else
  match outbox cfg with
  | None => op_ret false
  | Some _ =>
    let* events := op_get d_events in
    match rows_where (λ e, String.eqb (e_EventID e) eventID && (e_UserID e =? userID)) events with
    | [] => op_ret false
    | e :: _ =>
      insertOutboxReasonTx
        (MkIncomingEvent 0 eventID userID (e_Kind e) (e_ChatTGID e) (e_SenderTGID e) (e_MessageID e)
           "" "" time_zero) now reason
    end
  end.

Definition of_turn (head : Z) (j : job_row) : bool :=
  (j_ID j =? head) || bool_decide (j_CoalescedInto j = Some head).

Fixpoint route_all (now : time) (reason : string) (srcs : list job_row) (wrote : bool) : op bool :=
  match srcs with
  | [] => op_ret wrote
  | j :: srcs =>
    let* w := insertRoutedOutboxTx now (j_UserID j) (j_EventID j) reason in
    route_all now reason srcs (wrote || w)
  end.

Definition routeJobEventTx (now : time) (jobID : Z) (reason : string) : op bool :=
  if negb (operatorRouting cfg) || bool_decide (outbox cfg = None) then op_ret false else
  let* jobs := op_get d_jobs in
  route_all now reason (rows_where (of_turn jobID) jobs) false.

(** ** The relay's lease *)
Definition AcquireOutboxLease (holder : string) (now : time) (ttl : duration) : op bool :=
  if bool_decide (holder = "") || (ttl <=? 0) then op_err ErrArgument else
  let* lease := op_get d_lease in
  let take := do* op_modify (λ d, d <|d_lease := Some (holder, now + ttl)|>) in op_ret true in
  match lease with
  | None => take
  | Some (h, expires) => if String.eqb h holder || (expires <? now) then take else op_ret false
  end.

Definition ReleaseOutboxLease (holder : string) : op unit :=
  op_modify (λ d, match d_lease d with
                  | Some (h, _) => if String.eqb h holder then d <|d_lease := None|> else d
                  | None => d
                  end).

(** ** Publication *)
Definition unpublished (o : outbox_row) : bool := bool_decide (o_PublishedAt o = None).

Definition PendingOutbox (limit : Z) : op (list outbox_row) :=
  if limit <=? 0 then op_err ErrArgument else
  op_get (λ d, take (Z.to_nat limit) (rows_where unpublished (d_outbox d))).

Definition MarkOutboxPublished (id : Z) (at_ : time) : op unit :=
  op_modify (λ d, match update_row (λ _, true) (λ o, o <|o_PublishedAt := Some at_|>
                        <|o_Attempts := o_Attempts o + 1|> <|o_LastError := ""|>) id (d_outbox d) with
                  | Some t => d <|d_outbox := t|>
                  | None => d
                  end).

Definition MarkOutboxFailed (id : Z) (reason : string) : op unit :=
  let reason := if 500 <? Z.of_nat (String.length reason)
                then ToValidUTF8 (str_prefix 500 reason) else reason in
  op_modify (λ d, match update_row unpublished (λ o, o <|o_Attempts := o_Attempts o + 1|>
                        <|o_LastError := reason|>) id (d_outbox d) with
                  | Some t => d <|d_outbox := t|>
                  | None => d
                  end).

Definition published_before (before : time) (o : outbox_row) : bool :=
  match o_PublishedAt o with Some t => t <? before | None => false end.
Definition PurgePublishedOutbox (before : time) : op Z :=
  let* n := op_get (λ d, count_where (published_before before) (d_outbox d)) in
  do* op_modify (λ d, d <|d_outbox :=
        filter (λ kv, published_before before kv.2 = false) (d_outbox d)|>) in
  op_ret n.

Definition OutboxBacklog : op Z := op_get (λ d, count_where unpublished (d_outbox d)).
End outbox.

(** ** Theorems *)
Section theorems.
Context `{Sealer}.

(** The relay lease excludes: after one replica acquires it, no other
    replica acquires it until the lease expires, and the holder renews it at
    any time. *)
Theorem lease_exclusive holder now ttl d d' :
  AcquireOutboxLease holder now ttl d = Ok (true, d') →
  (∀ other now' ttl', other ≠ holder → other ≠ "" → 0 < ttl' → now' ≤ now + ttl →
     AcquireOutboxLease other now' ttl' d' = Ok (false, d')) ∧
  (∀ now' ttl', 0 < ttl' → ∃ d'', AcquireOutboxLease holder now' ttl' d' = Ok (true, d'') ∧
     d_lease d'' = Some (holder, now' + ttl')).
Proof.
  unfold AcquireOutboxLease, op_bind, op_get, op_modify, op_ret, op_err. intros Ha.
  assert (holder ≠ "" ∧ d_lease d' = Some (holder, now + ttl)) as [Hh Hl].
  { revert Ha. split_ifs; [done |]. destruct (d_lease d) as [[h e]|].
    - case_match; [| done]. intros [= <-]. cbn. tauto.
    - intros [= <-]. cbn. tauto. }
  split.
  - intros other now' ttl' Hne Hoe Httl Hnow. rewrite bool_decide_eq_false_2 by done.
    replace (ttl' <=? 0) with false by lia. cbn [orb]. rewrite Hl.
    replace (String.eqb holder other) with false by (symmetry; by apply String.eqb_neq).
    by replace (now + ttl <? now') with false by lia.
  - intros now' ttl' Httl. rewrite bool_decide_eq_false_2 by done.
    replace (ttl' <=? 0) with false by lia. cbn [orb]. rewrite Hl, String.eqb_refl. cbn.
    by eexists.
Qed.

(** The first reason an event is routed for wins: once a row with the
    event's id is in the outbox, routing the same event again writes nothing. *)
Theorem route_first_reason_wins cfg now now' userID eventID reason reason' d d' x d'' :
  (∀ build ev t r x, outbox cfg = Some build → build ev t r = Ok (Some x) → x.1.1 = ev_EventID ev) →
  insertRoutedOutboxTx cfg now userID eventID reason d = Ok (true, d') →
  insertRoutedOutboxTx cfg now' userID eventID reason' d' = Ok (x, d'') → x = false ∧ d'' = d'.
Proof.
  intros Hid. unfold insertRoutedOutboxTx. destruct (negb _); [done |].
  destruct (outbox cfg) as [build|] eqn:Hb; [| done]. unfold op_bind, op_get.
  destruct (rows_where _ (d_events d)) as [|e l] eqn:He; [done |].
  unfold insertOutboxReasonTx. rewrite Hb.
  destruct (build _ now reason) as [[[[eid stream] env]|]|] eqn:Hx; [| done | done].
  pose proof (Hid _ _ _ _ _ eq_refl Hx) as Heid.
  cbn in Heid. subst eid.
  unfold op_bind, op_get, op_modify, op_ret, fresh_id. case_bool_decide; [| done].
  intros [= <-]. cbn [d_events]. rewrite He.
  destruct (build _ now' reason') as [[[[eid' stream'] env']|]|] eqn:Hx'; [| by intros [= <- <-] | done].
  pose proof (Hid _ _ _ _ _ eq_refl Hx') as Heid'. cbn in Heid'. subst eid'.
  rewrite bool_decide_eq_false_2; [by intros [= <- <-] |]. cbn [d_outbox]. intros Hnil.
  eapply not_elem_of_nil. rewrite <- Hnil. apply elem_of_rows_where. split.
  2:{ exists (d_next d + 1). apply lookup_insert_eq. }
  cbn. apply String.eqb_refl.
Qed.
End theorems.

(** ** Witnesses *)
Module Witnesses.
#[local] Existing Instance pair_sealer.

Lemma lease_exclusive_witness :
  ∃ d', AcquireOutboxLease "a" 0 Minute empty_db = Ok (true, d') ∧
        AcquireOutboxLease "b" Second Minute d' = Ok (false, d').
Proof.
  eexists. split; [vm_compute; reflexivity |].
  apply (lease_exclusive "a" 0 Minute empty_db); [vm_compute; reflexivity | done | done | done |].
  vm_compute. discriminate.
Defined.

Definition build (ev : IncomingEvent) (_ : time) (r : string)
  : result unit (option (string * string * string)) := Ok (Some (ev_EventID ev, "stream", r)).
Definition one_event : DB :=
  empty_db <|d_events := {[5 := EventRow 5 "evt:v1:1:2:3" 1 EventKindPrivateMessage 2 2 3 None "{}" 0]}|>.
Lemma route_first_reason_wins_witness :
  ∃ d' x d'', insertRoutedOutboxTx (OutboxConfig true (Some build)) 1 1 "evt:v1:1:2:3" RoutePolicyDeny
                one_event = Ok (true, d') ∧
    insertRoutedOutboxTx (OutboxConfig true (Some build)) 2 1 "evt:v1:1:2:3" RouteWorkerFailure d'
      = Ok (x, d'') ∧ x = false.
Proof.
  destruct (answer_then (insertRoutedOutboxTx (OutboxConfig true (Some build)) 1 1 "evt:v1:1:2:3" RoutePolicyDeny)
    (answer (insertRoutedOutboxTx (OutboxConfig true (Some build)) 2 1 "evt:v1:1:2:3" RouteWorkerFailure))
    one_event true (Some false) ltac:(vm_compute; reflexivity)) as (d' & H1 & (d'' & H2)%answer_Some).
  exists d', false, d''. split; [exact H1 | split; [exact H2 |]].
  eapply (route_first_reason_wins (OutboxConfig true (Some build)) 1 2 1 "evt:v1:1:2:3"
    RoutePolicyDeny RouteWorkerFailure one_event); [| exact H1 | exact H2].
  intros b ev t r x [= <-] [= <-]. reflexivity.
Defined.
End Witnesses.
