(* ===== verification/Actions.v ===== *)
(** * The agent action store: [src/internal/db/agent_actions.go],
    [agent_delivery.go], [agent_source_supersession.go]

    Every statement that moves an action through its lifecycle, as an operation
    on the tables.  [now] is the clock reading of the call. *)

From S2P Require Import Prelude GoString Rows Tables Outbox.

Section actions.
Context `{Sealer}.
Local Open Scope op_scope.

(** An action as the callers see it: the sealed columns opened. *)
Record AgentAction := MkAgentAction {
  aa_ID : Z;
  aa_ApprovalCode : string;
  aa_JobID : Z;               (** 0: not tied to a job *)
  aa_Attempt : Z;
  aa_ConversationID : Z;      (** 0: not tied to a conversation *)
  aa_UserID : Z;
  aa_ActionType : string;
  aa_Intent : string;
  aa_Payload : string;
  aa_PolicyDecision : PolicyDecision;
  aa_PolicyReasons : string;
  aa_Status : ActionStatus;
  aa_ExecutedTGMessageID : Z;
  aa_SendRandomID : Z;        (** 0: not yet allocated *)
  aa_SendBody : string;
  aa_SendAttempts : Z;
  aa_CreatedAt : time;
  aa_UpdatedAt : time;
  aa_InstallRevision : Z;
}.

(** ** Sealed columns *)
Definition approvalCodeBlindIndexPurpose : string := "agent-approval-code".

Definition approvalCodeHash (code : string) (userID : Z) : op (option string) :=
  if bool_decide (code = "") then op_ret None else
  let* h := op_lift (BlindIndexForUser approvalCodeBlindIndexPurpose code userID) ErrCrypt in
  op_ret (Some h).

(** [SealForUser] of a text, [NULL] for the empty one. *)
Definition seal_opt (s : string) (userID : Z) : op (option sealed) :=
  if bool_decide (s = "") then op_ret None else
  let* b := op_lift (SealForUser s userID) ErrCrypt in op_ret (Some b).

Definition protectApprovalCode (code : string) (userID : Z) : op (option string * option sealed) :=
  if bool_decide (code = "") then op_ret (None, None) else
  let* hash := approvalCodeHash code userID in
  let* encrypted := seal_opt code userID in
  op_ret (hash, encrypted).

Definition open_opt (b : option sealed) (userID : Z) : option string :=
  match b with None => Some "" | Some b => OpenForUser b userID end.

Definition nullable_id (n : Z) : option Z := if n =? 0 then None else Some n.

(** The scan of a row; [None] when a sealed column does not open. *)
Definition open_action (r : action_row) : option AgentAction :=
  code ← open_opt (a_CodeEncrypted r) (a_UserID r);
  payload ← open_opt (a_Payload r) (a_UserID r);
  body ← open_opt (a_SendBody r) (a_UserID r);
  Some (MkAgentAction (a_ID r) code (default 0 (a_JobID r)) 0 (default 0 (a_ConversationID r))
    (a_UserID r) (a_ActionType r) (a_Intent r) payload (a_PolicyDecision r) (a_PolicyReasons r)
    (a_Status r) (default 0 (a_ExecutedTGMessageID r)) (default 0 (a_SendRandomID r)) body
    (a_SendAttempts r) (a_CreatedAt r) (a_UpdatedAt r) (a_InstallRevision r)).

(** ** Reads *)
Definition GetConversation (userID id : Z) : op Conversation :=
  let* cs := op_get d_conversations in
  match cs !! id with
  | Some c => if c_UserID c =? userID then op_ret c else op_err ErrConversationNotFound
  | None => op_err ErrConversationNotFound
  end.

Definition GetConversationByPeer (userID peer : Z) : op Conversation :=
  let* cs := op_get d_conversations in
  match rows_where (λ c, (c_UserID c =? userID) && (c_PeerTGID c =? peer)) cs with
  | c :: _ => op_ret c
  | [] => op_err ErrConversationNotFound
  end.

Definition GetAgentProfile (userID : Z) : op AgentProfile :=
  let* ps := op_get d_profiles in op_lift (ps !! userID) ErrAgentProfileNotFound.

Definition getAgentAction (where_ : action_row → bool) : op AgentAction :=
  let* rows := op_get d_actions in
  match rows_where where_ rows with
  | r :: _ => op_lift (open_action r) ErrCrypt
  | [] => op_err ErrAgentActionNotFound
  end.

Definition GetAgentAction (userID id : Z) : op AgentAction :=
  getAgentAction (λ r, (a_ID r =? id) && (a_UserID r =? userID)).

Definition GetAgentActionByCode (userID : Z) (code : string) : op AgentAction :=
  if bool_decide (code = "") then op_err ErrAgentActionNotFound else
  let* hash := approvalCodeHash code userID in
  getAgentAction (λ r, (a_UserID r =? userID) && bool_decide (a_CodeHash r = hash)
                       && negb (bool_decide (a_CodeHash r = None))).

(** ** The lifecycle *)
Definition isTerminalActionStatus (s : ActionStatus) : bool :=
  match s with
  | ActionExecuted | ActionRejected | ActionExpired | ActionDenied | ActionDeliveryUnknown => true
  | _ => false
  end.

Definition allowedActionTransitions (from to : ActionStatus) : bool :=
  match from, to with
  | ActionProposed, (ActionPendingApproval | ActionDenied | ActionApproved) => true
  | ActionPendingApproval, (ActionApproved | ActionRejected | ActionDenied) => true
  | ActionApproved, (ActionExecuting | ActionDenied) => true
  | ActionExecuting, ActionDenied => true
  | _, _ => false
  end.

Definition release_code (r : action_row) : action_row :=
  r <|a_CodeHash := None|> <|a_CodeEncrypted := None|>.

(** The row [id] of [userID] in status [from], when it is there. *)
Definition in_status (userID : Z) (from : ActionStatus) (r : action_row) : bool :=
  (a_UserID r =? userID) && bool_decide (a_Status r = from).

(** One compare-and-set [UPDATE agent_actions]; the result says whether a row
    was affected. *)
Definition cas_action (p : action_row → bool) (f : action_row → action_row) (id : Z) : op bool :=
  λ d, match update_row p f id (d_actions d) with
       | Some t => Ok (true, d <|d_actions := t|>)
       | None => Ok (false, d)
       end.

Definition UpdateAgentActionStatus (now : time) (userID id : Z) (from to : ActionStatus) : op bool :=
  if negb (allowedActionTransitions from to) then op_err ErrInvalidActionTransition else
  cas_action (in_status userID from)
    (λ r, let r := r <|a_Status := to|> <|a_UpdatedAt := now|> in
          if isTerminalActionStatus to then release_code r else r) id.

Definition deny_row (now : time) (reason : string) (r : action_row) : action_row :=
  release_code r <|a_Status := ActionDenied|> <|a_PolicyReasons := reason|> <|a_UpdatedAt := now|>.

Definition DenyAgentAction (now : time) (userID id : Z) (from : ActionStatus) (reason : string)
  : op bool :=
  if negb (allowedActionTransitions from ActionDenied) then op_err ErrInvalidActionTransition else
  cas_action (in_status userID from) (deny_row now reason) id.

(** ** Supersession of the source messages *)
Definition later_change (src e : event_row) : bool :=
  (e_UserID e =? e_UserID src) && (e_ChatTGID e =? e_ChatTGID src)
  && (e_MessageID e =? e_MessageID src) && (e_ID src <? e_ID e)
  && (String.eqb (e_Kind e) EventKindMessageEdit || String.eqb (e_Kind e) EventKindMessageDelete).

(** The kinds of the changes recorded after any of [srcs]. *)
Definition change_kinds (events : gmap Z event_row) (srcs : list event_row) : list string :=
  flat_map (λ src, map e_Kind (rows_where (later_change src) events)) srcs.

(** A delete outranks an edit. *)
Definition strongest_change (kinds : list string) : string :=
  if bool_decide (EventKindMessageDelete ∈ kinds) then SourceDeleted
  else if bool_decide (kinds = []) then "" else SourceEdited.

Definition turn_jobs (userID jobID : Z) (d : DB) : list job_row :=
  rows_where (λ j, (j_UserID j =? userID) && of_turn jobID j) (d_jobs d).
Definition events_of (userID : Z) (ids : list string) (d : DB) : list event_row :=
  rows_where (λ e, (e_UserID e =? userID) && bool_decide (e_EventID e ∈ ids)) (d_events d).

Definition turnContextSuperseded (userID jobID : Z) (d : DB) : string :=
  match d_jobs d !! jobID with
  | Some j =>
    if j_UserID j =? userID then
      strongest_change (change_kinds (d_events d)
        (events_of userID (default [] (j_TurnContext j)) d))
    else ""
  | None => ""
  end.

Definition jobSourceSuperseded (userID jobID : Z) (d : DB) : string :=
  if jobID =? 0 then "" else
  let kind := strongest_change (change_kinds (d_events d)
    (events_of userID (map j_EventID (turn_jobs userID jobID d)) d)) in
  if bool_decide (kind = SourceDeleted) then SourceDeleted else
  let ctx := turnContextSuperseded userID jobID d in
  if negb (bool_decide (ctx = "")) then ctx else kind.

(** ** Sending *)

(** The sends of a conversation the rate limit counts. *)
Definition counted_message (conv : Z) (since : time) (m : message_row) : bool :=
  (m_ConversationID m =? conv) && String.eqb (m_Direction m) DirectionAgentOutgoing
  && (since <? m_CreatedAt m).
Definition reserved_status (s : ActionStatus) : bool :=
  match s with ActionExecuting | ActionDenied | ActionDeliveryUnknown => true | _ => false end.
Definition counted_action (conv : Z) (since : time) (r : action_row) : bool :=
  bool_decide (a_ConversationID r = Some conv) && reserved_status (a_Status r)
  && negb (bool_decide (a_SendRandomID r = None)) && (since <? a_UpdatedAt r).
Definition recent_sends (conv : Z) (since : time) (d : DB) : Z :=
  count_where (counted_message conv since) (d_messages d)
  + count_where (counted_action conv since) (d_actions d).

Definition set_conversation (f : Conversation → Conversation) (userID id : Z) : op unit :=
  op_modify (λ d, match update_row (λ c, c_UserID c =? userID) f id (d_conversations d) with
                  | Some t => d <|d_conversations := t|>
                  | None => d
                  end).

Definition reserve_row (now : time) (randomID : Z) (body : option sealed) (r : action_row) : action_row :=
  r <|a_Status := ActionExecuting|> <|a_SendRandomID := Some randomID|> <|a_SendBody := body|>
    <|a_UpdatedAt := now|>.

Definition ReserveAgentActionSend (now : time) (action : AgentAction) (randomID : Z)
    (finalBody : string) (maxAutonomousTurns maxMsgsPerMinute : Z) (rateWindowStart : time)
    (enforceBudget : bool) : op bool :=
  if randomID =? 0 then op_err ErrArgument else
  if (aa_UserID action <=? 0) || (aa_ID action <=? 0) || (aa_ConversationID action <=? 0)
  then op_err ErrArgument else
  let* sendBody := seal_opt finalBody (aa_UserID action) in
  let* conv := GetConversation (aa_UserID action) (aa_ConversationID action) in
  if enforceBudget && (0 <? maxAutonomousTurns) && (maxAutonomousTurns <=? c_AutonomousTurns conv)
  then op_err ErrAgentSendBudgetExhausted else
  let* recent := op_get (recent_sends (aa_ConversationID action) rateWindowStart) in
  if enforceBudget && (0 <? maxMsgsPerMinute) && (maxMsgsPerMinute <=? recent)
  then op_err ErrAgentSendBudgetExhausted else
  let* kind := op_get (jobSourceSuperseded (aa_UserID action) (aa_JobID action)) in
  if negb (bool_decide (kind = "")) then op_err (ErrSourceSupersededKind kind) else
  let* ok := cas_action
    (λ r, in_status (aa_UserID action) ActionApproved r
          && bool_decide (a_ConversationID r = Some (aa_ConversationID action)))
    (reserve_row now randomID sendBody) (aa_ID action) in
  if negb ok then op_ret false else
  do* set_conversation (λ c, c <|c_AutonomousTurns := c_AutonomousTurns c + 1|>
      <|c_UpdatedAt := now|>) (aa_UserID action) (aa_ConversationID action) in
  op_ret true.

(** A reservation without a budget, a body or a window. *)
Definition BeginExecutingAgentAction (now : time) (userID id randomID : Z) : op bool :=
  let* action := GetAgentAction userID id in
  ReserveAgentActionSend now action randomID "" 0 0 time_zero false.

Definition insert_message (conv : Z) (direction : string) (tg : option Z) (body : option sealed)
    (now : time) : op Z :=
  let* id := fresh_id in
  do* op_modify (λ d, d <|d_messages :=
        <[id := MessageRow id conv direction tg None body now]> (d_messages d)|>) in
  op_ret id.

(** The id noted on a row that is still in [from]. *)
Definition noted_id (userID actionID : Z) (from : ActionStatus) (d : DB) : option Z :=
  match d_actions d !! actionID with
  | Some r => if in_status userID from r
              then match a_ExecutedTGMessageID r with Some 0 => None | i => i end
              else None
  | None => None
  end.

Definition executed_row (now : time) (msgID : option Z) (r : action_row) : action_row :=
  let r := release_code r <|a_Status := ActionExecuted|> <|a_ExecutedTGMessageID := msgID|>
             <|a_UpdatedAt := now|> in
  match msgID with Some _ => r <|a_SendBody := None|> | None => r end.

Definition recordAgentActionSent (now : time) (from : ActionStatus) (userID actionID conversationID
    tgMessageID : Z) (sentText : string) : op bool :=
  do* GetConversation userID conversationID in
  let* noted := op_get (noted_id userID actionID from) in
  let msgID := match nullable_id tgMessageID with Some i => Some i | None => noted end in
  let* decision := op_get (λ d, a_PolicyDecision <$> d_actions d !! actionID) in
  let* ok := cas_action (in_status userID from) (executed_row now msgID) actionID in
  if negb ok then op_ret false else
  do* set_conversation (λ c, c <|c_LastAgentReplyAt := now|> <|c_UpdatedAt := now|>)
        userID conversationID in
  do* (if bool_decide (decision = Some PolicyRequireApproval)
       then set_conversation (λ c, if c_OwnerEngagedAt c <? now then c <|c_OwnerEngagedAt := now|>
                                   else c) userID conversationID
       else op_ret tt) in
  let* body := seal_opt sentText userID in
  do* insert_message conversationID DirectionAgentOutgoing msgID body now in
  op_ret true.

Definition RecordAgentActionSent (now : time) (userID actionID conversationID tgMessageID : Z)
    (sentText : string) : op bool :=
  recordAgentActionSent now ActionExecuting userID actionID conversationID tgMessageID sentText.

Definition SetAgentActionExecuted (now : time) (userID id tgMessageID : Z) : op bool :=
  cas_action (in_status userID ActionExecuting)
    (λ r, release_code r <|a_Status := ActionExecuted|>
            <|a_ExecutedTGMessageID := Some tgMessageID|> <|a_UpdatedAt := now|>) id.

(** ** Attempts *)
Definition note_attempt (f : action_row → action_row) (userID id : Z) : op (Z * bool) :=
  λ d, match update_row (in_status userID ActionExecuting) f id (d_actions d) with
       | Some t => Ok ((match t !! id with Some r => a_SendAttempts r | None => 0 end, true),
                       d <|d_actions := t|>)
       | None => Ok ((0, false), d)
       end.

Definition NoteAgentActionSendAttempt (userID id : Z) : op (Z * bool) :=
  note_attempt (λ r, r <|a_SendAttempts := a_SendAttempts r + 1|>) userID id.

Definition UnnoteAgentActionSendAttempt (userID id : Z) (notBefore : option time) : op (Z * bool) :=
  note_attempt (λ r, r <|a_SendAttempts := if 0 <? a_SendAttempts r then a_SendAttempts r - 1 else 0|>
                       <|a_RetryNotBefore := notBefore|>) userID id.

Definition insert_notification (userID : Z) (kind : string) (action : option Z)
    (body : option sealed) (now : time) : op unit :=
  let* id := fresh_id in
  op_modify (λ d, d <|d_notifications :=
    <[id := NotificationRow id userID kind action body NotificationPending now None None None None]>
      (d_notifications d)|>).

Definition MarkAgentActionDeliveryUnknown (now : time) (userID id : Z) (reason alertBody : string)
  : op bool :=
  let* body := seal_opt alertBody userID in
  let* ok := cas_action (λ r, in_status userID ActionExecuting r
                              && bool_decide (a_ExecutedTGMessageID r = None))
    (λ r, release_code r <|a_Status := ActionDeliveryUnknown|> <|a_PolicyReasons := reason|>
            <|a_UpdatedAt := now|>) id in
  if negb ok then op_ret false else
  do* (match body with
       | Some _ => insert_notification userID NotificationDeliveryUnknown None body now
       | None => op_ret tt
       end) in
  op_ret true.

(** ** The echo of a send *)
Definition unconfirmed_send (userID conv : Z) (since : time) (r : action_row) : bool :=
  (a_UserID r =? userID) && bool_decide (a_ConversationID r = Some conv)
  && (bool_decide (a_Status r = ActionExecuting) || (since <=? a_UpdatedAt r))
  && negb (bool_decide (a_SendRandomID r = None)) && negb (bool_decide (a_SendBody r = None))
  && bool_decide (a_ExecutedTGMessageID r = None)
  && (((bool_decide (a_Status r = ActionExecuting) || bool_decide (a_Status r = ActionDeliveryUnknown))
       && (0 <? a_SendAttempts r))
      || bool_decide (a_Status r = ActionExecuted)).

(** The first candidate whose body, trimmed, is the text; a body that does not
    open is skipped. *)
Fixpoint first_body_match (want : string) (userID : Z) (rs : list action_row)
  : option (action_row * string) :=
  match rs with
  | [] => None
  | r :: rs =>
    match open_opt (a_SendBody r) userID with
    | Some body => if String.eqb (TrimSpace body) want then Some (r, body)
                   else first_body_match want userID rs
    | None => first_body_match want userID rs
    end
  end.

Definition no_message_id (r : action_row) : bool := bool_decide (a_ExecutedTGMessageID r = None).

Definition MatchUnconfirmedAgentSend (now : time) (userID peerTGID messageID : Z) (text : string)
    (since : time) : op bool :=
  let want := TrimSpace text in
  if (userID <=? 0) || (messageID <=? 0) || bool_decide (want = "") then op_ret false else
  let* convs := op_get (λ d, rows_where (λ c, (c_UserID c =? userID) && (c_PeerTGID c =? peerTGID))
                               (d_conversations d)) in
  match convs with
  | [] => op_ret false
  | conv :: _ =>
    let* rows := op_get (λ d, rows_where (unconfirmed_send userID (c_ID conv) since) (d_actions d)) in
    match first_body_match want userID rows with
    | None => op_ret false
    | Some (r, body) =>
      match a_Status r with
      | ActionExecuting =>
        do* cas_action (λ r, in_status userID ActionExecuting r && no_message_id r)
              (λ r, r <|a_ExecutedTGMessageID := Some messageID|>) (a_ID r) in
        op_ret true
      | ActionDeliveryUnknown =>
        do* recordAgentActionSent now ActionDeliveryUnknown userID (a_ID r) (c_ID conv) messageID body in
        op_ret true
      | ActionExecuted =>
        do* cas_action (λ r, in_status userID ActionExecuted r && no_message_id r)
              (λ r, r <|a_ExecutedTGMessageID := Some messageID|> <|a_SendBody := None|>) (a_ID r) in
        op_ret true
      | _ => op_ret true
      end
    end
  end.

(** ** Sweeps *)

(** A bulk [UPDATE agent_actions]; the result is the number of rows. *)
Definition update_actions (p : action_row → bool) (f : action_row → action_row) : op Z := λ d,
  Ok (count_where p (d_actions d), d <|d_actions := update_where p f (d_actions d)|>).

Definition stale_pending (cutoff : time) (r : action_row) : bool :=
  bool_decide (a_Status r = ActionPendingApproval) && (a_UpdatedAt r <? cutoff).
Definition expire_row (now : time) (r : action_row) : action_row :=
  release_code r <|a_Status := ActionExpired|> <|a_UpdatedAt := now|>.

Definition ExpireStaleAgentActions (now : time) (ttl : duration) : op Z :=
  if ttl <=? 0 then op_ret 0 else update_actions (stale_pending (now - ttl)) (expire_row now).

Definition ExpireAgentActionIfStale (now : time) (userID id : Z) (ttl : duration) : op bool :=
  if ttl <=? 0 then op_ret false else
  cas_action (λ r, (a_UserID r =? userID) && stale_pending (now - ttl) r) (expire_row now) id.

Definition waiting_status (s : ActionStatus) : bool :=
  match s with ActionProposed | ActionPendingApproval | ActionApproved => true | _ => false end.

Definition DenyPendingActionsForConversation (now : time) (userID conversationID : Z)
    (reason : string) : op Z :=
  update_actions (λ r, (a_UserID r =? userID) && bool_decide (a_ConversationID r = Some conversationID)
                       && waiting_status (a_Status r)) (deny_row now reason).

(** Without a profile the comparison with its revision is never true. *)
Definition from_earlier_install (userID : Z) (d : DB) (r : action_row) : bool :=
  (a_UserID r =? userID)
  && match a_Status r with ActionProposed | ActionApproved => true | _ => false end
  && match d_profiles d !! userID with
     | Some p => a_InstallRevision r <? p_InstallRevision p
     | None => false
     end.
Definition DenyActionsFromEarlierInstalls (now : time) (userID : Z) (reason : string) : op Z := λ d,
  update_actions (from_earlier_install userID d) (deny_row now reason) d.

(** [jobHeadExpr] *)
Definition job_head (j : job_row) : Z :=
  match j_CoalescedInto j with Some h => if h =? 0 then j_ID j else h | None => j_ID j end.
(** The heads of the jobs whose event passes [p]. *)
Definition heads_of (p : event_row → bool) (q : job_row → bool) (d : DB) : list Z :=
  map job_head (rows_where (λ j, q j && bool_decide (j_EventID j ∈ map e_EventID
    (rows_where (λ e, p e && (e_UserID e =? j_UserID j)) (d_events d)))) (d_jobs d)).
Definition for_jobs (heads : list Z) (r : action_row) : bool :=
  match a_JobID r with Some j => bool_decide (j ∈ heads) | None => false end.

Definition DenyPendingActionsForSourceMessage (now : time) (userID conversationID sourceMessageID : Z)
    (reason : string) : op Z :=
  let* heads := op_get (heads_of (λ e, e_MessageID e =? sourceMessageID)
    (λ j, (j_UserID j =? userID) && bool_decide (j_ConversationID j = Some conversationID))) in
  update_actions (λ r, (a_UserID r =? userID) && bool_decide (a_ConversationID r = Some conversationID)
                       && waiting_status (a_Status r) && for_jobs heads r) (deny_row now reason).

Definition stuck_executing (now cutoff : time) (r : action_row) : bool :=
  bool_decide (a_Status r = ActionExecuting) && (a_UpdatedAt r <? cutoff)
  && match a_RetryNotBefore r with None => true | Some t => t <=? now end.

(** Rows whose sealed columns do not open are skipped. *)
Definition ListStuckExecutingActions (now : time) (grace : duration) : op (list AgentAction) :=
  op_get (λ d, omap open_action (rows_where (stuck_executing now (now - grace)) (d_actions d))).

Definition by_updated (x y : action_row) : Prop := a_UpdatedAt x ≤ a_UpdatedAt y.
#[local] Instance by_updated_dec : RelDecision by_updated :=
  λ x y, decide (a_UpdatedAt x ≤ a_UpdatedAt y).
(** This query does not read [send_attempts]. *)
Definition ListActionsByStatus (status : ActionStatus) (limit : Z) : op (list AgentAction) :=
  let limit := if limit <=? 0 then 50 else limit in
  op_get (λ d, omap (λ r, open_action (r <|a_SendAttempts := 0|>))
    (take (Z.to_nat limit) (merge_sort by_updated
      (rows_where (λ r, bool_decide (a_Status r = status)) (d_actions d))))).

(** ** Deleted source messages *)
Definition deleteEventID (selfTGID chatTGID messageID : Z) : string :=
  "evt:v1:" +:+ FormatInt selfTGID +:+ ":" +:+ FormatInt chatTGID +:+ ":"
  +:+ FormatInt messageID +:+ ":d".

Record MessageDeleteResult := MkMessageDeleteResult {
  md_Recorded : Z;
  md_DeniedActions : Z;
  md_IgnoredJobs : Z;
  md_Pending : Z;
}.

Definition message_event (userID chat msg : Z) (e : event_row) : bool :=
  (e_UserID e =? userID) && (e_ChatTGID e =? chat) && (e_MessageID e =? msg).
Definition message_kind (e : event_row) : bool :=
  String.eqb (e_Kind e) EventKindPrivateMessage || String.eqb (e_Kind e) EventKindMessageEdit.

Definition recordMessageDeleteInChat (now : time) (userID selfTGID chatTGID messageID : Z)
  : op MessageDeleteResult :=
  let eventID := deleteEventID selfTGID chatTGID messageID in
  let* existing := op_get (λ d, rows_where (λ e, String.eqb (e_EventID e) eventID) (d_events d)) in
  match existing with
  | _ :: _ => op_ret (MkMessageDeleteResult 0 0 0 0)
  | [] =>
    let* id := fresh_id in
    do* op_modify (λ d, d <|d_events := <[id := EventRow id eventID userID EventKindMessageDelete
          chatTGID chatTGID messageID None "{}" now]> (d_events d)|>) in
    let* heads := op_get (heads_of (λ e, (e_ChatTGID e =? chatTGID) && (e_MessageID e =? messageID))
                            (λ j, j_UserID j =? userID)) in
    let* denied := update_actions (λ r, (a_UserID r =? userID) && waiting_status (a_Status r)
                                        && for_jobs heads r) (deny_row now ReasonSourceDeleted) in
    let* ids := op_get (λ d, map e_EventID (rows_where (λ e, message_event userID chatTGID messageID e
                                                             && message_kind e) (d_events d))) in
    let waiting j := (j_UserID j =? userID) && bool_decide (j_Status j = JobPending)
                     && bool_decide (j_EventID j ∈ ids) in
    let* ignored := op_get (λ d, count_where waiting (d_jobs d)) in
    do* op_modify (λ d, d <|d_jobs := update_where waiting
          (λ j, j <|j_Status := JobIgnored|> <|j_LastError := Some ReasonSourceDeleted|>
                  <|j_UpdatedAt := now|>) (d_jobs d)|>) in
    op_ret (MkMessageDeleteResult 1 denied ignored 0)
  end.

(** ** Inserting *)
Variable cfg : outbox_config.

Definition job_claimed (userID job attempt : Z) (j : job_row) : bool :=
  (j_UserID j =? userID) && bool_decide (j_Status j = JobProcessing) && (j_Attempts j =? attempt).

(** The unique index on approval codes. *)
Definition code_taken (userID : Z) (hash : option string) (d : DB) : bool :=
  match hash with
  | None => false
  | Some h => negb (bool_decide (rows_where (λ r, (a_UserID r =? userID)
                && bool_decide (a_CodeHash r = Some h)) (d_actions d) = []))
  end.

Definition same_job_type (job : Z) (ty : string) (r : action_row) : bool :=
  bool_decide (a_JobID r = Some job) && String.eqb (a_ActionType r) ty.

Definition insert_action (now : time) (a : AgentAction) (hash : option string)
    (code payload : option sealed) (job : option Z) (revision : Z) : op Z :=
  let* taken := op_get (code_taken (aa_UserID a) hash) in
  if taken then op_err ErrDB else
  let* id := fresh_id in
  do* op_modify (λ d, d <|d_actions := <[id := ActionRow id hash code job
        (nullable_id (aa_ConversationID a)) (aa_UserID a) (aa_ActionType a) (aa_Intent a) payload
        (aa_PolicyDecision a) (aa_PolicyReasons a) (aa_Status a) None None None 0 None now now
        revision]> (d_actions d)|>) in
  op_ret id.

Definition route_reason (a : AgentAction) : option string :=
  if bool_decide (aa_ActionType a = ActionTypeReply) then
    match aa_Status a with
    | ActionDenied => Some RoutePolicyDeny
    | ActionPendingApproval => Some RoutePolicyRequireApproval
    | _ => None
    end
  else None.

Definition profile_revision (userID : Z) (d : DB) : Z :=
  match d_profiles d !! userID with Some p => p_InstallRevision p | None => 1 end.

Definition insert_job_action (now : time) (a : AgentAction) (hash : option string)
    (code payload : option sealed) : op Z :=
  let* job := op_get (λ d, d_jobs d !! aa_JobID a) in
  let* existing := op_get (λ d, rows_where (same_job_type (aa_JobID a) (aa_ActionType a)) (d_actions d)) in
  let claimed := match job with
                 | Some j => if job_claimed (aa_UserID a) (aa_JobID a) (aa_Attempt a) j then Some j else None
                 | None => None
                 end in
  match claimed, existing with
  | Some j, [] =>
    let* id := insert_action now a hash code payload (Some (aa_JobID a)) (j_InstallRevision j) in
    do* match route_reason a with
        | Some reason => do* routeJobEventTx cfg now (aa_JobID a) reason in op_ret tt
        | None => op_ret tt
        end in
    op_ret id
  | _, _ =>
    match filter (λ r, (a_UserID r =? aa_UserID a) = true) existing with
    | r :: _ => op_ret (a_ID r)
    | [] => op_err ErrAgentJobNotFound
    end
  end.

Definition InsertAgentAction (now : time) (a : AgentAction) : op Z :=
  if (aa_UserID a <=? 0) || bool_decide (aa_ActionType a = "") then op_err ErrArgument else
  let* codes := protectApprovalCode (aa_ApprovalCode a) (aa_UserID a) in
  do* (if aa_ConversationID a =? 0 then op_ret tt else
       do* GetConversation (aa_UserID a) (aa_ConversationID a) in op_ret tt) in
  let* payload := seal_opt (aa_Payload a) (aa_UserID a) in
  if aa_JobID a =? 0 then
    let* revision := op_get (profile_revision (aa_UserID a)) in
    insert_action now a codes.1 codes.2 payload None revision
  else insert_job_action now a codes.1 codes.2 payload.

Definition InsertStandaloneApprovalWithNotification (now : time) (a : AgentAction)
    (notificationBody : string) : op Z :=
  if negb (aa_JobID a =? 0) || (aa_UserID a <=? 0) || (aa_ConversationID a <=? 0)
     || bool_decide (aa_ActionType a = "")
     || negb (bool_decide (aa_Status a = ActionPendingApproval))
     || bool_decide (aa_ApprovalCode a = "")
  then op_err ErrArgument else
  do* GetConversation (aa_UserID a) (aa_ConversationID a) in
  let* payload := op_lift (SealForUser (aa_Payload a) (aa_UserID a)) ErrCrypt in
  let* body := op_lift (SealForUser notificationBody (aa_UserID a)) ErrCrypt in
  let* codes := protectApprovalCode (aa_ApprovalCode a) (aa_UserID a) in
  let* revision := op_get (profile_revision (aa_UserID a)) in
  let* id := insert_action now a codes.1 codes.2 (Some payload) None revision in
  do* insert_notification (aa_UserID a) NotificationApproval (Some id) (Some body) now in
  op_ret id.

(** ** Questions about past actions *)
Definition JobSourceSuperseded (userID jobID : Z) : op string := op_get (jobSourceSuperseded userID jobID).

(** [ORDER BY updated_at DESC, id DESC LIMIT 1] *)
Definition later_updated (x y : action_row) : Prop :=
  a_UpdatedAt y < a_UpdatedAt x ∨ (a_UpdatedAt x = a_UpdatedAt y ∧ a_ID y ≤ a_ID x).
#[local] Instance later_updated_dec : RelDecision later_updated.
Proof. intros x y. unfold later_updated. apply _. Defined.
Definition LastWithdrawnDraft (userID conversationID : Z) : op (option (string * time)) :=
  op_get (λ d, (λ r, (a_PolicyReasons r, a_UpdatedAt r)) <$> head (merge_sort later_updated
    (rows_where (λ r, (a_UserID r =? userID) && bool_decide (a_ConversationID r = Some conversationID)
       && bool_decide (a_Status r = ActionDenied)
       && (String.eqb (a_PolicyReasons r) ReasonSourceEdited
           || String.eqb (a_PolicyReasons r) ReasonSourceDeleted)) (d_actions d)))).

Definition HasExecutedOwnerSummarySince (userID conversationID : Z) (intent : string) (since : time)
  : op bool :=
  if userID <=? 0 then op_err ErrArgument else
  op_get (λ d, negb (bool_decide (rows_where (λ r, (a_UserID r =? userID)
    && String.eqb (a_ActionType r) ActionTypeOwnerSummary && String.eqb (a_Intent r) intent
    && (since <=? a_CreatedAt r)
    && (if conversationID =? 0 then bool_decide (a_ConversationID r = None)
        else bool_decide (a_ConversationID r = Some conversationID))
    && bool_decide (a_Status r = ActionExecuted)) (d_actions d) = []))).

(** ** Recent sends *)
Definition ListRecentAgentOutgoingTimestampsExcludingAction (userID conversationID : Z) (since : time)
    (excludeActionID : Z) : op (list time) :=
  do* GetConversation userID conversationID in
  op_get (λ d, merge_sort Z.le
    (map m_CreatedAt (rows_where (counted_message conversationID since) (d_messages d))
     ++ map a_UpdatedAt (rows_where (λ r, counted_action conversationID since r
          && ((excludeActionID =? 0) || negb (a_ID r =? excludeActionID))) (d_actions d)))).
Definition ListRecentAgentOutgoingTimestamps (userID conversationID : Z) (since : time) : op (list time) :=
  ListRecentAgentOutgoingTimestampsExcludingAction userID conversationID since 0.

Definition SetConversationState (now : time) (userID id : Z) (state : string) : op unit := λ d,
  match update_row (λ c, c_UserID c =? userID) (λ c, c <|c_State := state|> <|c_UpdatedAt := now|>)
          id (d_conversations d) with
  | Some t => Ok (tt, d <|d_conversations := t|>)
  | None => Err ErrConversationNotFound
  end.
Definition IncrementAutonomousTurns (now : time) (userID id : Z) : op unit := λ d,
  match update_row (λ c, c_UserID c =? userID)
          (λ c, c <|c_AutonomousTurns := c_AutonomousTurns c + 1|> <|c_LastAgentReplyAt := now|>
                  <|c_UpdatedAt := now|>) id (d_conversations d) with
  | Some t => Ok (tt, d <|d_conversations := t|>)
  | None => Err ErrConversationNotFound
  end.
Definition ResetAutonomousTurns (now : time) (userID id : Z) : op unit := λ d,
  match update_row (λ c, c_UserID c =? userID)
          (λ c, c <|c_AutonomousTurns := 0|> <|c_UpdatedAt := now|>) id (d_conversations d) with
  | Some t => Ok (tt, d <|d_conversations := t|>)
  | None => Err ErrConversationNotFound
  end.
End actions.
