(* ===== verification/Turn.v ===== *)
(** * Incoming events and the turn a job answers:
    [src/internal/db/agent_events.go], [agent_turn_context.go]

    A job answers the message it was created for, the messages coalesced into
    it and, for an edit, the rest of the unanswered turn the edited message
    belonged to.  [buildTurnContext] computes that set at claim time. *)

From S2P Require Import Prelude GoString Rows Tables Outbox Actions.

Section turn.
Context `{Sealer}.
Local Open Scope op_scope.

(** ** Events *)
(** The unique index on event ids makes a redelivered event a no-op; the result
    is the id and whether the event is new. *)
Definition InsertIncomingEvent (now : time) (ev : IncomingEvent) : op (Z * bool) :=
  if bool_decide (ev_EventID ev = "") || (ev_UserID ev <=? 0) || bool_decide (ev_Kind ev = "")
  then op_err ErrArgument else
  let* body := seal_opt (ev_Body ev) (ev_UserID ev) in
  let meta := if bool_decide (ev_Meta ev = "") then "{}" else ev_Meta ev in
  let* events := op_get d_events in
  match rows_where (λ e, String.eqb (e_EventID e) (ev_EventID ev)) events with
  | _ :: _ => op_ret (0, false)
  | [] =>
    let* id := fresh_id in
    do* op_modify (λ d, d <|d_events := <[id := EventRow id (ev_EventID ev) (ev_UserID ev)
          (ev_Kind ev) (ev_ChatTGID ev) (ev_SenderTGID ev) (ev_MessageID ev) body meta now]>
          (d_events d)|>) in
    op_ret (id, true)
  end.

Definition event_is (userID : Z) (eventID : string) (e : event_row) : bool :=
  (e_UserID e =? userID) && String.eqb (e_EventID e) eventID.

(** [loadEventRef]: the event of the user with that id. *)
Definition loadEventRef (userID : Z) (eventID : string) (d : DB) : option event_row :=
  head (rows_where (event_is userID eventID) (d_events d)).

Definition GetIncomingEvent (userID : Z) (eventID : string) : op IncomingEvent :=
  let* e := op_get (loadEventRef userID eventID) in
  match e with
  | None => op_err ErrIncomingEventNotFound
  | Some e =>
    let* body := op_lift (open_opt (e_Body e) (e_UserID e)) ErrCrypt in
    op_ret (MkIncomingEvent (e_ID e) (e_EventID e) (e_UserID e) (e_Kind e) (e_ChatTGID e)
      (e_SenderTGID e) (e_MessageID e) body (e_Meta e) (e_CreatedAt e))
  end.

(** ** The sources of a job *)

(** [fillSourceEvents]: the job's own event, then those of the jobs coalesced
    into it. *)
Definition member_of (j : job_row) (m : job_row) : bool :=
  bool_decide (j_CoalescedInto m = Some (j_ID j)) && (j_UserID m =? j_UserID j).
Definition fillSourceEvents (j : job_row) (d : DB) : list string :=
  j_EventID j ::
  (if default 0 (j_CoalescedInto j) =? 0 then map j_EventID (rows_where (member_of j) (d_jobs d))
   else []).

Definition loadTurnContext (userID jobID : Z) (d : DB) : option (list string) :=
  match d_jobs d !! jobID with
  | Some j => if j_UserID j =? userID then j_TurnContext j else None
  | None => None
  end.

(** The job and its source event ids. *)
Definition GetAgentJob (userID id : Z) : op (job_row * list string) :=
  let* jobs := op_get d_jobs in
  match jobs !! id with
  | Some j =>
    if j_UserID j =? userID then
      op_get (λ d, (j, default (fillSourceEvents j d) (loadTurnContext userID id d)))
    else op_err ErrAgentJobNotFound
  | None => op_err ErrAgentJobNotFound
  end.

Fixpoint inbound_parts (userID : Z) (ids : list string) : op (list string) :=
  match ids with
  | [] => op_ret []
  | id :: ids =>
    let* ev := GetIncomingEvent userID id in
    let* rest := inbound_parts userID ids in
    op_ret (if (String.eqb (ev_Kind ev) EventKindPrivateMessage || String.eqb (ev_Kind ev) EventKindMessageEdit)
               && negb (bool_decide (ev_Body ev = ""))
            then ev_Body ev :: rest else rest)
  end.

Definition newline_string : string := String (Ascii.ascii_of_nat 10) "".
Definition TurnInboundText (userID jobID : Z) : op string :=
  if jobID =? 0 then op_ret "" else
  let* job := GetAgentJob userID jobID in
  let* parts := inbound_parts userID job.2 in
  op_ret (Join parts newline_string).

(** ** The context of an edit *)
Definition message_key (e : event_row) : Z * Z := (e_ChatTGID e, e_MessageID e).
Definition is_edit (e : event_row) : bool := String.eqb (e_Kind e) EventKindMessageEdit.

Definition originalMessage (userID chat msg : Z) (d : DB) : option event_row :=
  head (rows_where (λ e, (e_UserID e =? userID) && (e_ChatTGID e =? chat) && (e_MessageID e =? msg)
                         && String.eqb (e_Kind e) EventKindPrivateMessage) (d_events d)).

(** The event id of the newest version of [src], [None] when it was deleted. *)
Definition latestVersion (userID : Z) (src : event_row) (d : DB) : option string :=
  let changes := rows_where (λ e, (e_UserID e =? userID) && (e_ChatTGID e =? e_ChatTGID src)
      && (e_MessageID e =? e_MessageID src) && (e_ID src <? e_ID e)
      && (is_edit e || String.eqb (e_Kind e) EventKindMessageDelete)) (d_events d) in
  if existsb (λ e, String.eqb (e_Kind e) EventKindMessageDelete) changes then None
  else Some (from_option e_EventID (e_EventID src) (last changes)).

Definition sent_reply (userID job : Z) (r : action_row) : bool :=
  (a_UserID r =? userID) && bool_decide (a_JobID r = Some job)
  && String.eqb (a_ActionType r) ActionTypeReply
  && match a_Status r with ActionExecuting | ActionExecuted | ActionDeliveryUnknown => true | _ => false end.
Definition reply_sent (userID job : Z) (d : DB) : bool :=
  negb (bool_decide (rows_where (sent_reply userID job) (d_actions d) = [])).

Definition answeredThroughContext (userID convID head : Z) (turnSources : list event_row) (d : DB)
  : bool :=
  if convID =? 0 then false else
  let later := rows_where (λ j, (j_UserID j =? userID) && bool_decide (j_ConversationID j = Some convID)
                 && (head <? j_ID j) && negb (bool_decide (j_TurnContext j = None))
                 && reply_sent userID (j_ID j) d) (d_jobs d) in
  existsb (λ j, existsb (λ id, match loadEventRef userID id d with
                               | Some r => bool_decide (message_key r ∈ map message_key turnSources)
                               | None => false
                               end) (default [] (j_TurnContext j))) later.

Definition unsentTurnSources (userID : Z) (original : event_row) (d : DB) : list event_row :=
  match rows_where (λ j, (j_UserID j =? userID) && String.eqb (j_EventID j) (e_EventID original)) (d_jobs d) with
  | [] => []
  | j :: _ =>
    let head := job_head j in
    if reply_sent userID head d then [] else
    let out := events_of userID (map j_EventID (turn_jobs userID head d)) d in
    if answeredThroughContext userID (default 0 (j_ConversationID j)) head out d then [] else out
  end.

(** An event of the context with the id of its message's original event. *)
Definition item : Type := string * Z.

(** The first loop: the job's own events, the messages they belong to and the
    edits among them. *)
Fixpoint own_items (userID : Z) (own : list string) (d : DB)
  : list item * list (Z * Z) * list event_row :=
  match own with
  | [] => ([], [], [])
  | id :: own =>
    let '(items, have, edits) := own_items userID own d in
    match loadEventRef userID id d with
    | None => ((id, 0) :: items, have, edits)
    | Some r =>
      if is_edit r then
        let order := from_option e_ID (e_ID r) (originalMessage userID (e_ChatTGID r) (e_MessageID r) d) in
        ((id, order) :: items, message_key r :: have, r :: edits)
      else ((id, e_ID r) :: items, message_key r :: have, edits)
    end
  end.

(** The inner loop: the sources of one unsent turn that the job does not have
    yet, at their latest versions. *)
Fixpoint add_sources (userID : Z) (srcs : list event_row) (have : list (Z * Z)) (d : DB)
  : list item * list (Z * Z) :=
  match srcs with
  | [] => ([], have)
  | src :: srcs =>
    if bool_decide (message_key src ∈ have) then add_sources userID srcs have d else
    let '(items, have') := add_sources userID srcs (message_key src :: have) d in
    match latestVersion userID src d with
    | None => (items, have')
    | Some version => ((version, e_ID src) :: items, have')
    end
  end.

Fixpoint add_edits (userID : Z) (edits : list event_row) (have : list (Z * Z)) (d : DB) : list item :=
  match edits with
  | [] => []
  | e :: edits =>
    match originalMessage userID (e_ChatTGID e) (e_MessageID e) d with
    | None => add_edits userID edits have d
    | Some orig =>
      let '(items, have') := add_sources userID (unsentTurnSources userID orig d) have d in
      items ++ add_edits userID edits have' d
    end
  end.

Definition by_order (x y : item) : Prop := x.2 ≤ y.2.
#[local] Instance by_order_dec : RelDecision by_order := λ x y, decide (x.2 ≤ y.2).

Definition buildTurnContext (userID : Z) (own : list string) (d : DB) : option (list string) :=
  let '(items, have, edits) := own_items userID own d in
  match add_edits userID edits have d with
  | [] => None
  | added => Some (map fst (merge_sort by_order (items ++ added)))
  end.

(** The job's source event ids after the claim. *)
Definition storeTurnContext (j : job_row) (own : list string) : op (list string) :=
  let* full := op_get (buildTurnContext (j_UserID j) own) in
  do* op_modify (λ d, match update_row (λ r, j_UserID r =? j_UserID j)
                            (λ r, r <|j_TurnContext := full|>) (j_ID j) (d_jobs d) with
                      | Some t => d <|d_jobs := t|>
                      | None => d
                      end) in
  op_ret (default own full).
End turn.
