(* ===== verification/Jobs.v ===== *)
(** * The job queue: [src/internal/db/agent_jobs.go], [event_outbox.go]

    At-least-once delivery of incoming events to the agent: enqueue, claim,
    complete, retry, release and the sweeps.  Claims are those of a store without
    turn coalescing and without a managed budget; the usage ledger is another
    component, and its rows are left out. *)

From S2P Require Import Prelude GoString Rows Tables Outbox Actions Turn.

(** ** The retry schedule *)

(** [for i := 1; i < attempts; i++ { d *= 2; if d >= 30m { return 30m } }],
    [n] rounds to go. *)
Fixpoint backoff_loop (n : nat) (d : duration) : duration :=
  match n with
  | O => d
  | S n => let d := d * 2 in
           if 30 * Minute <=? d then 30 * Minute else backoff_loop n d
  end.
Definition AgentJobBackoff (attempts : Z) : duration :=
  let attempts := if attempts <? 1 then 1 else attempts in
  backoff_loop (Z.to_nat (attempts - 1)) (30 * Second).

Section jobs.
Context `{Sealer}.
Local Open Scope op_scope.

(** ** Enqueue *)
Definition job_exists (eventID : string) (d : DB) : bool :=
  negb (bool_decide (rows_where (λ j, String.eqb (j_EventID j) eventID) (d_jobs d) = [])).

Definition insert_job (now : time) (eventID : string) (userID conv : Z) (bytes : option Z) : op Z :=
  let* id := fresh_id in
  do* op_modify (λ d, d <|d_jobs := <[id := JobRow id eventID userID (nullable_id conv) JobPending 0 5
        now None None None None None now now None None 1 None None bytes]> (d_jobs d)|>) in
  op_ret id.

Definition body_bytes (ev : IncomingEvent) : Z := Z.of_nat (String.length (ev_Body ev)).

Definition own_conversation (userID conv : Z) : op unit :=
  if conv =? 0 then op_ret tt else do* GetConversation userID conv in op_ret tt.

Definition EnqueueAgentJob (now : time) (eventID : string) (userID conv : Z) : op (Z * bool) :=
  if bool_decide (eventID = "") || (userID <=? 0) then op_err ErrArgument else
  do* own_conversation userID conv in
  let* event := op_get (loadEventRef userID eventID) in
  match event with
  | None => op_err ErrIncomingEventNotFound
  | Some _ =>
    let* exists_ := op_get (job_exists eventID) in
    if exists_ : bool then op_ret (0, false) else
    let* id := insert_job now eventID userID conv None in op_ret (id, true)
  end.

(** The event and its job in one transaction. *)
Definition InsertEventAndEnqueueJob (now : time) (ev : IncomingEvent) (conv : Z) : op (Z * bool) :=
  if bool_decide (ev_EventID ev = "") || (ev_UserID ev <=? 0) || bool_decide (ev_Kind ev = "")
  then op_err ErrArgument else
  do* own_conversation (ev_UserID ev) conv in
  let* inserted := InsertIncomingEvent now ev in
  if negb inserted.2 then op_ret (0, false) else
  let* exists_ := op_get (job_exists (ev_EventID ev)) in
  if exists_ : bool then op_ret (0, false) else
  let* id := insert_job now (ev_EventID ev) (ev_UserID ev) conv (Some (body_bytes ev)) in op_ret (id, true).

(** ** Claim *)
Definition account_runtime (userID : Z) (d : DB) : string :=
  match d_profiles d !! userID with Some p => p_Runtime p | None => RuntimeOwn end.
Definition account_revision (userID : Z) (d : DB) : Z :=
  match d_profiles d !! userID with Some p => p_InstallRevision p | None => 1 end.

(** An earlier job of the conversation is pending, or one is in flight. *)
Definition blocks (j p : job_row) : bool :=
  negb (bool_decide (j_ConversationID p = None))
  && bool_decide (j_ConversationID p = j_ConversationID j)
  && (bool_decide (j_Status p = JobProcessing)
      || (bool_decide (j_Status p = JobPending) && (j_ID p <? j_ID j))).
Definition blocked (j : job_row) (d : DB) : bool :=
  negb (bool_decide (rows_where (blocks j) (d_jobs d) = [])).

Definition is_due (now : time) (userID : Z) (runtime : string) (d : DB) (j : job_row) : bool :=
  bool_decide (j_Status j = JobPending) && (j_NextRunAt j <=? now) && (j_UserID j =? userID)
  && String.eqb (account_runtime (j_UserID j) d) runtime && negb (blocked j d).

(** [ORDER BY next_run_at, id] *)
Definition job_before (x y : job_row) : Prop :=
  j_NextRunAt x < j_NextRunAt y ∨ (j_NextRunAt x = j_NextRunAt y ∧ j_ID x ≤ j_ID y).
#[local] Instance job_before_dec : RelDecision job_before.
Proof. intros x y. unfold job_before. apply _. Defined.

Definition due_ids (now : time) (userID : Z) (runtime : string) (limit : Z) (d : DB) : list Z :=
  map j_ID (take (Z.to_nat limit)
    (merge_sort job_before (rows_where (is_due now userID runtime d) (d_jobs d)))).

Definition claim_row (now : time) (replicaID runtime : string) (d : DB) (j : job_row) : job_row :=
  j <|j_Status := JobProcessing|> <|j_Attempts := j_Attempts j + 1|>
    <|j_ClaimedBy := Some replicaID|> <|j_ClaimedAt := Some now|> <|j_UpdatedAt := now|>
    <|j_InstallRevision := account_revision (j_UserID j) d|> <|j_Runtime := Some runtime|>.

(** The attempt row and the turn context of a claimed job. *)
Definition open_attempt (now : time) (j : job_row) : op (job_row * list string) :=
  let* id := fresh_id in
  do* op_modify (λ d, d <|d_attempts := <[id := AttemptRow id (j_ID j) (j_Attempts j) now None None None]>
        (d_attempts d)|>) in
  let* sources := storeTurnContext j [j_EventID j] in
  op_ret (j, sources).

Fixpoint open_attempts (now : time) (jobs : list job_row) : op (list (job_row * list string)) :=
  match jobs with
  | [] => op_ret []
  | j :: jobs =>
    let* x := open_attempt now j in
    let* l := open_attempts now jobs in
    op_ret (x :: l)
  end.

(** [reserveInflight]: what the account may still claim. *)
Definition reserveInflight (userID limit maxInflight : Z) (d : DB) : Z :=
  let inflight := count_where (λ j, (j_UserID j =? userID) && bool_decide (j_Status j = JobProcessing))
                    (d_jobs d) in
  let room := maxInflight - inflight in
  if room <=? 0 then 0 else Z.min limit room.

Definition claimAgentJobs (now : time) (replicaID : string) (userID : Z) (runtime : string)
    (limit maxInflight : Z) : op (list (job_row * list string)) :=
  if userID <=? 0 then op_err ErrArgument else
  if negb (String.eqb runtime RuntimeOwn) && negb (String.eqb runtime RuntimeManaged)
  then op_err ErrArgument else
  let limit := if limit <=? 0 then 1 else limit in
  let* limit := (if 0 <? maxInflight then op_get (reserveInflight userID limit maxInflight)
                 else op_ret limit) in
  if limit =? 0 then op_ret [] else
  let* due := op_get (due_ids now userID runtime limit) in
  let picked j := bool_decide (j_Status j = JobPending) && bool_decide (j_ID j ∈ due) in
  do* op_modify (λ d, d <|d_jobs := update_where picked (claim_row now replicaID runtime d) (d_jobs d)|>) in
  let* jobs := op_get (λ d, merge_sort job_before
    (rows_where (λ j, bool_decide (j_ID j ∈ due)) (d_jobs d))) in
  open_attempts now jobs.

Definition ClaimAgentJobs (now : time) (replicaID : string) (userID : Z) (runtime : string) (limit : Z)
  : op (list (job_row * list string)) := claimAgentJobs now replicaID userID runtime limit 0.
Definition ClaimManagedAgentJobs (now : time) (replicaID : string) (userID limit maxInflight : Z)
  : op (list (job_row * list string)) :=
  if maxInflight <? 1 then op_err ErrArgument
  else claimAgentJobs now replicaID userID RuntimeManaged limit maxInflight.

(** ** Ending an attempt *)
Variable cfg : outbox_config.

(** [completeRuntimeFence] *)
Definition runtime_current (d : DB) (j : job_row) : bool :=
  match j_Runtime j with
  | None => true
  | Some r => String.eqb r (account_runtime (j_UserID j) d)
  end.

Definition claimed_as (attempt : Z) (j : job_row) : bool :=
  bool_decide (j_Status j = JobProcessing) && (j_Attempts j =? attempt).

(** One compare-and-set [UPDATE agent_jobs]; no affected row is an error. *)
Definition cas_job (p : DB → job_row → bool) (f : job_row → job_row) (id : Z) : op unit := λ d,
  match update_row (p d) f id (d_jobs d) with
  | Some t => Ok (tt, d <|d_jobs := t|>)
  | None => Err ErrAgentJobNotFound
  end.

Definition nullable_text (s : string) : option string := if bool_decide (s = "") then None else Some s.

Definition is_open (job : Z) (t : attempt_row) : bool :=
  (t_JobID t =? job) && bool_decide (t_FinishedAt t = None).
Definition finish_row (now : time) (status : JobStatus) (err : option string) (t : attempt_row)
  : attempt_row := t <|t_FinishedAt := Some now|> <|t_Status := Some status|> <|t_Error := err|>.

(** The newest open attempt of the job. *)
Definition finishOpenAttempt (now : time) (job : Z) (status : JobStatus) (note : string) : op unit :=
  op_modify (λ d, match last (rows_where (is_open job) (d_attempts d)) with
    | None => d
    | Some t => d <|d_attempts := update_where (λ t', t_ID t' =? t_ID t)
                      (finish_row now status (nullable_text note)) (d_attempts d)|>
    end).

Definition route_if (b : bool) (now : time) (job : Z) (reason : string) : op unit :=
  if b then do* routeJobEventTx cfg now job reason in op_ret tt else op_ret tt.

Definition closing (s : JobStatus) : bool :=
  match s with JobCompleted | JobFailed | JobIgnored => true | _ => false end.
Definition end_row (now : time) (status : JobStatus) (note : string) (j : job_row) : job_row :=
  j <|j_Status := status|> <|j_LastError := nullable_text note|> <|j_UpdatedAt := now|>.

Definition CompleteAgentJob (now : time) (jobID attempt : Z) (status : JobStatus) (note : string)
  : op unit :=
  if negb (closing status) then op_err ErrInvalidStatus else
  do* cas_job (λ d j, claimed_as attempt j && runtime_current d j) (end_row now status note) jobID in
  do* finishOpenAttempt now jobID status note in
  route_if (bool_decide (status = JobFailed)) now jobID RouteWorkerFailure.

Definition CompleteAgentJobWithResult (now : time) (userID jobID attempt : Z) (status : JobStatus)
    (note : string) (resultActionID resultLeadID : Z) : op unit :=
  if userID <=? 0 then op_err ErrArgument else
  if negb (closing status) then op_err ErrInvalidStatus else
  if (resultActionID <? 0) || (resultLeadID <? 0) then op_err ErrAgentJobResultInvalid else
  if bool_decide (status = JobCompleted) && (resultActionID <=? 0) && (resultLeadID <=? 0)
  then op_err ErrAgentJobResultRequired else
  if negb (bool_decide (status = JobCompleted)) && (negb (resultActionID =? 0) || negb (resultLeadID =? 0))
  then op_err ErrAgentJobResultInvalid else
  let* action_ok := op_get (λ d, (resultActionID <=? 0) ||
    negb (bool_decide (rows_where (λ a, (a_ID a =? resultActionID) && bool_decide (a_JobID a = Some jobID)
                                        && (a_UserID a =? userID)) (d_actions d) = []))) in
  do* op_require action_ok ErrAgentJobResultInvalid in
  let* lead_ok := op_get (λ d, (resultLeadID <=? 0) ||
    (bool_decide ((resultLeadID, jobID, userID) ∈ d_lead_results d)
     && bool_decide (d_leads d !! resultLeadID = Some userID))) in
  do* op_require lead_ok ErrAgentJobResultInvalid in
  do* cas_job (λ d j, (j_UserID j =? userID) && claimed_as attempt j && runtime_current d j)
    (λ j, end_row now status note j <|j_ResultActionID := nullable_id resultActionID|>
            <|j_ResultLeadID := nullable_id resultLeadID|>) jobID in
  do* finishOpenAttempt now jobID status note in
  route_if (bool_decide (status = JobFailed)) now jobID RouteWorkerFailure.

Definition RetryAgentJob (now : time) (jobID attempt : Z) (errMsg : string) : op JobStatus :=
  let* jobs := op_get d_jobs in
  match jobs !! jobID with
  | None => op_err ErrAgentJobNotFound
  | Some j =>
    if negb (claimed_as attempt j) then op_err ErrAgentJobNotFound else
    let dead := j_MaxAttempts j <=? j_Attempts j in
    let status := if dead then JobDeadLetter else JobPending in
    let nextRun := if dead then now else now + AgentJobBackoff (j_Attempts j) in
    do* cas_job (λ _, claimed_as attempt)
      (λ j, end_row now status errMsg j <|j_NextRunAt := nextRun|>) jobID in
    do* finishOpenAttempt now jobID JobFailed errMsg in
    do* route_if dead now jobID RouteWorkerFailure in
    op_ret status
  end.

Definition releaseUnissuedDelay : duration := Second.

Definition ReleaseUnissuedClaim (now : time) (jobID attempt : Z) (replicaID : string) : op unit :=
  do* cas_job (λ _ j, claimed_as attempt j && bool_decide (j_ClaimedBy j = Some replicaID))
    (λ j, end_row now JobPending "job token mint failed" j <|j_Attempts := j_Attempts j - 1|>
            <|j_ClaimedBy := None|> <|j_ClaimedAt := None|> <|j_NextRunAt := now + releaseUnissuedDelay|>)
    jobID in
  op_modify (λ d, d <|d_attempts :=
    filter (λ kv, is_open jobID kv.2 && (t_Attempt kv.2 =? attempt) = false) (d_attempts d)|>).

(** ** Sweeps *)

(** [UPDATE agent_jobs ... RETURNING id] *)
Definition requeueTransition (p : DB → job_row → bool) (f : job_row → job_row) : op (list Z) := λ d,
  Ok (map j_ID (rows_where (p d) (d_jobs d)), d <|d_jobs := update_where (p d) f (d_jobs d)|>).

Definition stale (cutoff : time) (j : job_row) : bool :=
  bool_decide (j_Status j = JobProcessing)
  && match j_ClaimedAt j with Some t => t <? cutoff | None => false end.

Definition closeAttempts (now : time) (ids : list Z) (reason : string) : op unit :=
  op_modify (λ d, d <|d_attempts := update_where
    (λ t, bool_decide (t_JobID t ∈ ids) && bool_decide (t_FinishedAt t = None))
    (finish_row now JobFailed (Some reason)) (d_attempts d)|>).

Fixpoint route_jobs (now : time) (ids : list Z) (reason : string) : op unit :=
  match ids with
  | [] => op_ret tt
  | id :: ids => do* routeJobEventTx cfg now id reason in route_jobs now ids reason
  end.

Definition RequeueStaleAgentJobs (now : time) (visibility : duration) : op (Z * Z) :=
  if visibility <=? 0 then op_ret (0, 0) else
  let cutoff := now - visibility in
  let* fencedIDs := requeueTransition (λ d j, stale cutoff j && negb (runtime_current d j))
    (λ j, end_row now JobPending "runtime switched, requeued for the new runtime" j
            <|j_NextRunAt := now|>
            <|j_MaxAttempts := if j_MaxAttempts j <=? j_Attempts j then j_Attempts j + 1
                               else j_MaxAttempts j|>) in
  let* deadIDs := requeueTransition (λ _ j, stale cutoff j && (j_MaxAttempts j <=? j_Attempts j))
    (end_row now JobDeadLetter "visibility timeout, attempts exhausted") in
  let* requeuedIDs := requeueTransition (λ _ j, stale cutoff j)
    (λ j, end_row now JobPending "visibility timeout, requeued" j <|j_NextRunAt := now|>) in
  do* closeAttempts now (deadIDs ++ requeuedIDs) "visibility timeout" in
  do* closeAttempts now fencedIDs "runtime switched" in
  do* route_jobs now deadIDs RouteWorkerFailure in
  op_ret (Z.of_nat (length requeuedIDs + length fencedIDs), Z.of_nat (length deadIDs)).

Definition budget_paused (now : time) (userID : Z) (d : DB) : bool :=
  match d_profiles d !! userID with
  | Some p => negb (IsZero (p_BudgetPausedUntil p)) && (now <? p_BudgetPausedUntil p)
  | None => false
  end.
Definition unclaimed (now : time) (after : duration) (d : DB) (j : job_row) : bool :=
  bool_decide (j_Status j = JobPending) && (j_Attempts j =? 0) && (j_CreatedAt j <? now - after)
  && negb (blocked j d) && negb (budget_paused now (j_UserID j) d).

Definition RouteUnclaimedAgentJobs (now : time) (after : duration) : op Z :=
  if negb (operatorRouting cfg) || bool_decide (outbox cfg = None) || (after <=? 0) then op_ret 0 else
  let* ids := requeueTransition (unclaimed now after)
    (end_row now JobRouted "unclaimed past threshold, routed to operator") in
  do* route_jobs now ids RouteWorkerUnclaimed in
  op_ret (Z.of_nat (length ids)).

(** ** The rest *)
Definition AgentJobOwner (jobID : Z) : op (option Z) :=
  op_get (λ d, j_UserID <$> d_jobs d !! jobID).

Definition purgeAgentJobs (userID : Z) : op unit :=
  op_modify (λ d,
    let ids := map j_ID (rows_where (λ j, j_UserID j =? userID) (d_jobs d)) in
    d <|d_attempts := filter (λ kv, bool_decide (t_JobID kv.2 ∈ ids) = false) (d_attempts d)|>
      <|d_jobs := filter (λ kv, (j_UserID kv.2 =? userID) = false) (d_jobs d)|>).

Definition CountAgentJobs (status : JobStatus) : op Z :=
  op_get (λ d, count_where (λ j, bool_decide (j_Status j = status)) (d_jobs d)).
End jobs.
