(* ===== verification/Ingest.v ===== *)
(** * Ingestion: [src/internal/db/agent_ingest_atomic.go]

    A message enters in one transaction with its job; a delete that arrived
    before its message is kept until the message comes ([RecordMessageDelete] of
    [agent_source_supersession.go]); the retention sweep ([agent_events.go]) clears
    content and keeps the rows that deduplicate. *)

From S2P Require Import Prelude GoString Rows Tables Outbox Actions Turn Jobs.

Section ingest.
Context `{Sealer}.
Local Open Scope op_scope.
Variable cfg : outbox_config.

(** ** Deletes *)
Definition pendingDeleteTTL : duration := 7 * 24 * Hour.

Definition SweepExpiredPendingDeletes (now : time) : op unit :=
  op_modify (λ d, d <|d_pending_deletes :=
    filter (λ kv, (kv.2.2 <? now - pendingDeleteTTL) = false) (d_pending_deletes d)|>).

(** [SELECT DISTINCT chat_tg_id]; the query states no order. *)
Definition message_chats (userID messageID : Z) (d : DB) : list Z :=
  remove_dups (map e_ChatTGID (rows_where (λ e, (e_UserID e =? userID) && (e_MessageID e =? messageID)
                                                && message_kind e) (d_events d))).

Fixpoint delete_in_chats (now : time) (userID selfTGID messageID : Z) (chats : list Z)
    (out : MessageDeleteResult) : op MessageDeleteResult :=
  match chats with
  | [] => op_ret out
  | chat :: chats =>
    let* res := recordMessageDeleteInChat now userID selfTGID chat messageID in
    delete_in_chats now userID selfTGID messageID chats
      (MkMessageDeleteResult (md_Recorded out + md_Recorded res)
         (md_DeniedActions out + md_DeniedActions res) (md_IgnoredJobs out + md_IgnoredJobs res)
         (md_Pending out))
  end.

Definition RecordMessageDelete (now : time) (userID selfTGID messageID : Z) : op MessageDeleteResult :=
  if (userID <=? 0) || (messageID <=? 0) then op_err ErrArgument else
  let* chats := op_get (message_chats userID messageID) in
  match chats with
  | [] =>
    do* op_modify (λ d, match d_pending_deletes d !! (userID, messageID) with
      | Some _ => d
      | None => d <|d_pending_deletes := <[(userID, messageID) := (selfTGID, now)]> (d_pending_deletes d)|>
      end) in
    op_ret (MkMessageDeleteResult 0 0 0 1)
  | _ => delete_in_chats now userID selfTGID messageID chats (MkMessageDeleteResult 0 0 0 0)
  end.

(** ** Messages *)

(** [UPDATE agent_jobs SET status = ignored ... WHERE id = $id AND status = pending AND p] *)
Definition ignore_job (now : time) (reason : string) (p : DB → bool) (jobID : Z) : op unit :=
  if jobID =? 0 then op_ret tt else
  op_modify (λ d, match update_row (λ j, bool_decide (j_Status j = JobPending) && p d)
                          (λ j, j <|j_Status := JobIgnored|> <|j_LastError := Some reason|>
                                  <|j_UpdatedAt := now|>) jobID (d_jobs d) with
                  | Some t => d <|d_jobs := t|>
                  | None => d
                  end).

Definition ReasonConversationNotActive : string := "conversation not active: agent not invoked".

Definition conversation_inactive (userID conversationID : Z) (d : DB) : bool :=
  match d_conversations d !! conversationID with
  | Some c => (c_UserID c =? userID) && negb (String.eqb (c_State c) ConversationActive)
  | None => false
  end.
Definition ignoreInactiveConversationJobTx (now : time) (userID conversationID jobID : Z) : op unit :=
  ignore_job now ReasonConversationNotActive (conversation_inactive userID conversationID) jobID.

(** The kept delete of a message, unless it is too old. *)
Definition live_delete (now : time) (userID messageID : Z) (d : DB) : option Z :=
  match d_pending_deletes d !! (userID, messageID) with
  | Some (self, created) => if now - pendingDeleteTTL <=? created then Some self else None
  | None => None
  end.

Definition record_pending_delete (now : time) (ev : IncomingEvent) (self : Z) : op unit :=
  do* op_modify (λ d, d <|d_pending_deletes := delete (ev_UserID ev, ev_MessageID ev) (d_pending_deletes d)|>) in
  let eventID := deleteEventID self (ev_ChatTGID ev) (ev_MessageID ev) in
  let* taken := op_get (λ d, rows_where (λ e, String.eqb (e_EventID e) eventID) (d_events d)) in
  match taken with
  | _ :: _ => op_ret tt
  | [] =>
    let* id := fresh_id in
    op_modify (λ d, d <|d_events := <[id := EventRow id eventID (ev_UserID ev) EventKindMessageDelete
      (ev_ChatTGID ev) (ev_ChatTGID ev) (ev_MessageID ev) None "{}" now]> (d_events d)|>)
  end.

Definition message_deleted (ev : IncomingEvent) (d : DB) : bool :=
  negb (bool_decide (rows_where (λ e, message_event (ev_UserID ev) (ev_ChatTGID ev) (ev_MessageID ev) e
                                      && String.eqb (e_Kind e) EventKindMessageDelete) (d_events d) = [])).

Definition applyPendingDeleteTx (now : time) (ev : IncomingEvent) (jobID : Z) : op unit :=
  if negb (String.eqb (ev_Kind ev) EventKindPrivateMessage || String.eqb (ev_Kind ev) EventKindMessageEdit)
  then op_ret tt else
  let* self := op_get (live_delete now (ev_UserID ev) (ev_MessageID ev)) in
  do* (match self with Some self => record_pending_delete now ev self | None => op_ret tt end) in
  ignore_job now ReasonSourceDeleted (message_deleted ev) jobID.

Definition touch_conversation (now : time) (userID conversationID : Z) : op unit := λ d,
  match update_row (λ c, c_UserID c =? userID) (λ c, c <|c_LastIncomingAt := now|> <|c_UpdatedAt := now|>)
          conversationID (d_conversations d) with
  | Some t => Ok (tt, d <|d_conversations := t|>)
  | None => Err ErrConversationNotFound
  end.

Definition InsertEventEnqueueJobAndTouch (now : time) (ev : IncomingEvent) (conversationID : Z)
  : op (Z * bool) :=
  if bool_decide (ev_EventID ev = "") || (ev_UserID ev <=? 0) || bool_decide (ev_Kind ev = "")
     || (conversationID <=? 0) then op_err ErrArgument else
  do* GetConversation (ev_UserID ev) conversationID in
  let* inserted := InsertIncomingEvent now ev in
  if negb inserted.2 then op_ret (0, false) else
  let* exists_ := op_get (job_exists (ev_EventID ev)) in
  let* jobID := (if exists_ : bool then op_ret 0
                 else insert_job now (ev_EventID ev) (ev_UserID ev) conversationID (Some (body_bytes ev))) in
  do* applyPendingDeleteTx now ev jobID in
  do* ignoreInactiveConversationJobTx now (ev_UserID ev) conversationID jobID in
  do* (if negb (operatorRouting cfg) || (jobID =? 0)
       then do* insertOutboxTx cfg ev now in op_ret tt else op_ret tt) in
  do* touch_conversation now (ev_UserID ev) conversationID in
  op_ret (jobID, true).

(** ** Retention *)

(** The pending jobs of the events whose bodies are about to go. *)
Definition expiring_job (cutoff : time) (d : DB) (j : job_row) : bool :=
  bool_decide (j_Status j = JobPending)
  && negb (bool_decide (rows_where (λ e, String.eqb (e_EventID e) (j_EventID j) && (e_CreatedAt e <? cutoff)
                                         && negb (bool_decide (e_Body e = None))) (d_events d) = [])).

Definition has_content (r : action_row) : bool :=
  negb (bool_decide (a_Payload r = None)) || negb (bool_decide (a_SendBody r = None))
  || negb (bool_decide (a_CodeHash r = None)) || negb (bool_decide (a_CodeEncrypted r = None)).

Definition expired_body (cutoff : time) (e : event_row) : bool :=
  (e_CreatedAt e <? cutoff) && negb (bool_decide (e_Body e = None)).

Definition count_and_update {R} (get : DB → gmap Z R) (set : gmap Z R → DB → DB) (p : R → bool)
    (f : R → R) : op Z :=
  let* n := op_get (λ d, count_where p (get d)) in
  do* op_modify (λ d, set (update_where p f (get d)) d) in
  op_ret n.

Definition clear_event (e : event_row) : event_row := e <|e_Body := None|>.
Definition clear_notification (n : notification_row) : notification_row := n <|n_Body := None|>.
Definition clear_action (r : action_row) : action_row :=
  release_code (r <|a_Payload := None|> <|a_SendBody := None|>).

Definition expire_job (now : time) (j : job_row) : job_row :=
  j <|j_Status := JobIgnored|> <|j_LastError := Some "payload expired by retention sweep"|>
    <|j_UpdatedAt := now|>.
Definition old_draft (cutoff : time) (r : action_row) : bool :=
  (a_CreatedAt r <? cutoff) && (a_UpdatedAt r <? cutoff) && waiting_status (a_Status r).
Definition old_content (cutoff : time) (r : action_row) : bool :=
  (a_CreatedAt r <? cutoff) && isTerminalActionStatus (a_Status r) && has_content r.
Definition old_notification (cutoff : time) (n : notification_row) : bool :=
  (n_CreatedAt n <? cutoff) && negb (bool_decide (n_Body n = None)).

Definition sweep_messages (cutoff : time) : op Z :=
  let* n := op_get (λ d, count_where (λ m, m_CreatedAt m <? cutoff) (d_messages d)) in
  do* op_modify (λ d, d <|d_messages := filter (λ kv, (m_CreatedAt kv.2 <? cutoff) = false) (d_messages d)|>) in
  op_ret n.

Definition SweepAgentMessageBodies (now : time) (retention : duration) : op Z :=
  if retention <=? 0 then op_ret 0 else
  let cutoff := now - retention in
  do* op_modify (λ d, d <|d_jobs := update_where (expiring_job cutoff d) (expire_job now) (d_jobs d)|>) in
  let* events := count_and_update d_events (λ t d, d <|d_events := t|>) (expired_body cutoff) clear_event in
  let* messages := sweep_messages cutoff in
  do* update_actions (old_draft cutoff) (deny_row now "content expired by retention sweep") in
  let* payloads := update_actions (old_content cutoff) clear_action in
  let* notes := count_and_update d_notifications (λ t d, d <|d_notifications := t|>)
                  (old_notification cutoff) clear_notification in
  op_ret (events + messages + payloads + notes).
End ingest.
