(* ===== verification/TurnClaim.v ===== *)
(** * Claiming coalesced turns: [src/internal/db/agent_turn_claim.go]

    With coalescing on, a claim runs the coalescer of [agent/turn] over the oldest
    pending job of a conversation and the jobs that wait behind it, and takes the
    job only when its turn is ready; the other jobs of the turn move to
    coalesced in the same transaction.  The budget of the managed runtime is left
    out, as in [Jobs]. *)

From S2P Require Import Prelude GoString Rows Sha256 Coalescer Tables Outbox Actions Turn Jobs.

Section turn_claim.
Context `{Sealer}.
Local Open Scope op_scope.
(** The order in which Go visits a map, which the language does not fix. *)
Variable map_order : gmap string Z → list string.

Definition claimCandidateScan : nat := 100.

Record claimCandidate := MkClaimCandidate {
  cc_id : Z;
  cc_eventID : string;
  cc_conversationID : option Z;
  cc_createdAt : time;
  cc_bytes : Z;
  cc_chatTGID : Z;
  cc_turnID : option string;
}.
Definition no_candidate : claimCandidate := MkClaimCandidate 0 "" None time_zero 0 0 None.

(** The row of [loadClaimCandidates]: the job joined with its event. *)
Definition candidate (d : DB) (j : job_row) : option claimCandidate :=
  (λ e, MkClaimCandidate (j_ID j) (j_EventID j) (j_ConversationID j) (j_CreatedAt j)
          (default 0 (j_BodyBytes j)) (e_ChatTGID e) (j_TurnID j))
    <$> loadEventRef (j_UserID j) (j_EventID j) d.

#[local] Existing Instance job_before_dec.
Definition claim_candidates (now : time) (userID : Z) (runtime : string) (d : DB) : list claimCandidate :=
  take claimCandidateScan
    (omap (candidate d) (merge_sort job_before (rows_where (is_due now userID runtime d) (d_jobs d)))).

(** The never-claimed pending jobs of the conversation that came later. *)
Definition is_follower (userID : Z) (c : claimCandidate) (j : job_row) : bool :=
  negb (bool_decide (cc_conversationID c = None)) && bool_decide (j_ConversationID j = cc_conversationID c)
  && (j_UserID j =? userID) && bool_decide (j_Status j = JobPending)
  && (j_Attempts j =? 0) && (cc_id c <? j_ID j).
Definition followers_of (userID : Z) (c : claimCandidate) (d : DB) : list claimCandidate :=
  omap (candidate d) (rows_where (is_follower userID c) (d_jobs d)).

(** When the last attempt of an earlier job that held [c] back finished. *)
Definition held_back (c : claimCandidate) (d : DB) (t : attempt_row) : option time :=
  match t_FinishedAt t, d_jobs d !! t_JobID t with
  | Some f, Some p =>
    if negb (bool_decide (cc_conversationID c = None)) && bool_decide (j_ConversationID p = cc_conversationID c)
       && (j_ID p <? cc_id c) && (cc_createdAt c <? f) then Some f else None
  | _, _ => None
  end.
Definition backlogUntil (c : claimCandidate) (d : DB) : option time :=
  match omap (held_back c d) (rows_where (λ _, true) (d_attempts d)) with
  | [] => None
  | f :: l => Some (foldl Z.max f l)
  end.

(** The latest arrival before [until]. *)
Definition backlog_at (until : time) (events : list claimCandidate) : time :=
  foldl (λ at_ e, if (cc_createdAt e <? until) && (at_ <? cc_createdAt e) then cc_createdAt e else at_)
    time_zero events.

Definition offer_time (blocked : option time) (events : list claimCandidate) (e : claimCandidate) : time :=
  match blocked with
  | Some until => if cc_createdAt e <? until then backlog_at until events else cc_createdAt e
  | None => cc_createdAt e
  end.
Definition turn_event (userID : Z) (blocked : option time) (events : list claimCandidate) (e : claimCandidate)
  : Event :=
  MkEvent (cc_eventID e) (SessionKey userID (cc_chatTGID e)) (offer_time blocked events e) (cc_bytes e).

Definition offer_all (evs : list Event) (co : Coalescer) : list Turn * Coalescer :=
  foldl (λ acc ev, let step := Offer ev acc.2 in (acc.1 ++ step.1, step.2)) ([], co) evs.

(** The turns closed by [now], in order. *)
Definition closed_turns (userID : Z) (blocked : option time) (events : list claimCandidate) (now : time)
    (co : Coalescer) : list Turn :=
  let offered := offer_all (map (turn_event userID blocked events) events) co in
  offered.1 ++ (Tick (map_order (co_open offered.2)) now offered.2).1.

Definition starts_with (eventID : string) (t : Turn) : bool :=
  match SourceEventIDs t with [] => false | first :: _ => String.eqb first eventID end.

Definition by_event (events : list claimCandidate) : gmap string claimCandidate :=
  foldl (λ m e, <[cc_eventID e := e]> m) ∅ events.

(** The turn of the head [c]: its id, and its other members, when it is ready. *)
Definition readyTurn (turnCfg : Config) (now : time) (userID : Z) (c : claimCandidate)
  : op (option (string * list claimCandidate)) :=
  let* followers := op_get (followers_of userID c) in
  let* co := op_lift (New turnCfg) ErrArgument in
  let events := c :: followers in
  let* blocked := op_get (backlogUntil c) in
  match find (starts_with (cc_eventID c)) (closed_turns userID blocked events now co) with
  | None => op_ret None
  | Some t =>
    op_ret (Some (TurnID t, map (λ id, default no_candidate (by_event events !! id)) (tail (SourceEventIDs t))))
  end.

Definition coalesced_row (now : time) (head : Z) (tid : string) (j : job_row) : job_row :=
  j <|j_Status := JobCoalesced|> <|j_CoalescedInto := Some head|> <|j_TurnID := Some tid|>
    <|j_UpdatedAt := now|>.
Definition is_pending (j : job_row) : bool := bool_decide (j_Status j = JobPending).

Fixpoint coalesce_members (now : time) (head : Z) (tid : string) (members : list claimCandidate) : op unit :=
  match members with
  | [] => op_ret tt
  | m :: members =>
    do* (λ d, match update_row is_pending (coalesced_row now head tid) (cc_id m) (d_jobs d) with
              | Some t => Ok (tt, d <|d_jobs := t|>)
              | None => Err ErrDB   (* member moved concurrently *)
              end) in
    coalesce_members now head tid members
  end.

Definition claim_head_row (now : time) (replicaID runtime tid : string) (d : DB) (j : job_row) : job_row :=
  claim_row now replicaID runtime d j <|j_TurnID := Some tid|>.

(** The head's update, its members, its attempt and its sources. *)
Definition claim_turn (now : time) (replicaID runtime : string) (c : claimCandidate) (tid : string)
    (members : list claimCandidate) : op (option (job_row * list string)) := λ d,
  match update_row is_pending (claim_head_row now replicaID runtime tid d) (cc_id c) (d_jobs d) with
  | None => Ok (None, d)
  | Some t =>
    (let* job := op_get (λ d, default (JobRow 0 "" 0 None JobPending 0 0 0 None None None None None 0 0
                                         None None 0 None None None) (d_jobs d !! cc_id c)) in
     do* coalesce_members now (cc_id c) tid members in
     let* id := fresh_id in
     do* op_modify (λ d, d <|d_attempts := <[id := AttemptRow id (j_ID job) (j_Attempts job) now None None None]>
           (d_attempts d)|>) in
     let* own := op_get (fillSourceEvents job) in
     let* sources := storeTurnContext job own in
     op_ret (Some (job, sources))) (d <|d_jobs := t|>)
  end.

(** The turn a head is claimed with: frozen when the head was claimed before. *)
Definition turn_of (turnCfg : Config) (now : time) (userID : Z) (c : claimCandidate)
  : op (option (string * list claimCandidate)) :=
  match cc_turnID c with
  | Some tid => if bool_decide (tid = "") then readyTurn turnCfg now userID c else op_ret (Some (tid, []))
  | None => readyTurn turnCfg now userID c
  end.

Fixpoint claim_heads (turnCfg : Config) (now : time) (replicaID : string) (userID : Z) (runtime : string)
    (limit : Z) (cands : list claimCandidate) : op (list (job_row * list string)) :=
  match cands with
  | [] => op_ret []
  | c :: cands =>
    if limit <=? 0 then op_ret [] else
    let* turn := turn_of turnCfg now userID c in
    match turn with
    | None => claim_heads turnCfg now replicaID userID runtime limit cands
    | Some (tid, members) =>
      let* claimed := claim_turn now replicaID runtime c tid members in
      match claimed with
      | None => claim_heads turnCfg now replicaID userID runtime limit cands
      | Some x =>
        let* rest := claim_heads turnCfg now replicaID userID runtime (limit - 1) cands in
        op_ret (x :: rest)
      end
    end
  end.

#[local] Instance claimed_before_dec : RelDecision (λ x y : job_row * list string, job_before x.1 y.1).
Proof. intros x y. apply _. Defined.

Definition claimCoalesced (turnCfg : Config) (now : time) (replicaID : string) (userID : Z) (runtime : string)
    (limit maxInflight : Z) : op (list (job_row * list string)) :=
  let* limit := (if 0 <? maxInflight then op_get (reserveInflight userID limit maxInflight)
                 else op_ret limit) in
  if limit =? 0 then op_ret [] else
  let* cands := op_get (claim_candidates now userID runtime) in
  let* jobs := claim_heads turnCfg now replicaID userID runtime limit cands in
  op_ret (merge_sort (λ x y, job_before x.1 y.1) jobs).

(** [WithTurnCoalescing]: a quiet window of zero leaves it off. *)
Definition WithTurnCoalescing (cfg : option Config) : option Config :=
  match cfg with Some c => if QuietMS c <=? 0 then None else Some c | None => None end.

(** [claimAgentJobs] of a store with the coalescing configuration [turnCfg]. *)
Definition claim_jobs (turnCfg : option Config) (now : time) (replicaID : string) (userID : Z)
    (runtime : string) (limit maxInflight : Z) : op (list (job_row * list string)) :=
  match turnCfg with
  | None => claimAgentJobs now replicaID userID runtime limit maxInflight
  | Some turnCfg =>
    if userID <=? 0 then op_err ErrArgument else
    if negb (String.eqb runtime RuntimeOwn) && negb (String.eqb runtime RuntimeManaged)
    then op_err ErrArgument else
    claimCoalesced turnCfg now replicaID userID runtime (if limit <=? 0 then 1 else limit) maxInflight
  end.
End turn_claim.
