(* ===== verification/ActionsProps.v ===== *)
(** * The action lifecycle

    The invariant of the action table and the order in which its rows may
    change, proved for every statement of [Actions] and so for every history
    of calls. *)

From S2P Require Import Prelude GoString Rows Tables Outbox Actions Turn Jobs Ingest.

Section props.
Context `{Sealer}.
Local Open Scope op_scope.

(** ** The documented lifecycle *)
Definition lifecycle (s s' : ActionStatus) : bool :=
  match s, s' with
  | ActionProposed, (ActionPendingApproval | ActionApproved | ActionDenied) => true
  | ActionPendingApproval, (ActionApproved | ActionRejected | ActionDenied | ActionExpired) => true
  | ActionApproved, (ActionExecuting | ActionDenied) => true
  | ActionExecuting, (ActionExecuted | ActionDenied | ActionDeliveryUnknown) => true
  | ActionDeliveryUnknown, ActionExecuted => true
  | _, _ => false
  end.
Definition reaches : relation ActionStatus := rtc (λ s s', lifecycle s s' = true).

Lemma waiting_backwards s s' : reaches s s' → waiting_status s' = true → waiting_status s = true.
Proof. induction 1 as [|s s2 s3 Hs _ IH]; [done |]. intros Hw%IH. by destruct s, s2. Qed.

(** ** Rows *)

(** What a row may become. *)
Record row_le (r r' : action_row) : Prop := {
  le_status : reaches (a_Status r) (a_Status r');
  le_id : a_ID r' = a_ID r;
  le_user : a_UserID r' = a_UserID r;
  le_job : a_JobID r' = a_JobID r;
  le_type : a_ActionType r' = a_ActionType r;
  le_conversation : a_ConversationID r' = a_ConversationID r;
  le_payload : a_Payload r' = a_Payload r ∨ a_Payload r' = None;
  le_decision : a_PolicyDecision r' = a_PolicyDecision r;
  le_revision : a_InstallRevision r' = a_InstallRevision r;
  le_code : a_CodeHash r' = a_CodeHash r ∨ a_CodeHash r' = None;
  le_send : waiting_status (a_Status r) = true ∨
    (a_SendRandomID r' = a_SendRandomID r ∧
     (a_SendBody r' = a_SendBody r ∨ a_SendBody r' = None));
}.

#[export] Instance row_le_preorder : PreOrder row_le.
Proof.
  split.
  - intros r. constructor; auto. apply rtc_refl.
  - intros x y z [] []. constructor; try congruence.
    + by etrans.
    + destruct le_payload0 as [?|?], le_payload1 as [?|?]; [left|right|right|right]; congruence.
    + destruct le_code0 as [?|?], le_code1 as [?|?]; [left|right|right|right]; congruence.
    + destruct le_send0 as [|[? Hb]]; [by left |].
      destruct le_send1 as [Hw|[? Hb']]; [left; by eapply waiting_backwards |].
      right. split; [congruence |].
      destruct Hb as [?|?], Hb' as [?|?]; [left|right|right|right]; congruence.
Qed.

(** What holds of every row. *)
Record row_inv (r : action_row) : Prop := {
  inv_waiting : waiting_status (a_Status r) = true → a_SendRandomID r = None;
  inv_executing : a_Status r = ActionExecuting → a_SendRandomID r ≠ None;
  inv_terminal : isTerminalActionStatus (a_Status r) = true → a_CodeHash r = None;
}.

Record db_inv (d : DB) : Prop := {
  inv_row id r : d_actions d !! id = Some r → a_ID r = id ∧ id ≤ d_next d ∧ row_inv r;
  inv_codes id id' r r' h : d_actions d !! id = Some r → d_actions d !! id' = Some r' →
    a_CodeHash r = Some h → a_CodeHash r' = Some h → a_UserID r = a_UserID r' → id = id';
  inv_jobs id id' r r' j : d_actions d !! id = Some r → d_actions d !! id' = Some r' →
    a_JobID r = Some j → a_JobID r' = Some j → a_ActionType r = a_ActionType r' → id = id';
}.

(** The table only grows, and its rows only move forward. *)
Definition db_le (d d' : DB) : Prop :=
  d_next d ≤ d_next d' ∧
  ∀ id r, d_actions d !! id = Some r → ∃ r', d_actions d' !! id = Some r' ∧ row_le r r'.

#[export] Instance db_le_preorder : PreOrder db_le.
Proof.
  split.
  - intros d. split; [done |]. intros id r Hr. exists r. by split.
  - intros x y z [Hn Hxy] [Hn' Hyz]. split; [lia |]. intros id r Hr.
    destruct (Hxy _ _ Hr) as (r1 & Hr1 & H1). destruct (Hyz _ _ Hr1) as (r2 & Hr2 & H2).
    exists r2. split; [done | by etrans].
Qed.

(** An operation that keeps the invariant and moves the table forward. *)
Definition safe {A} (m : op A) : Prop :=
  ∀ d x d', m d = Ok (x, d') → db_inv d → db_inv d' ∧ db_le d d'.

Lemma safe_ret {A} (a : A) : safe (op_ret a).
Proof. by intros d x d' [= <- <-]. Qed.
Lemma safe_err {A} e : safe (op_err e : op A).
Proof. done. Qed.
Lemma safe_get {A} (f : DB → A) : safe (op_get f).
Proof. by intros d x d' [= <- <-]. Qed.
Lemma safe_lift {A} (o : option A) e : safe (op_lift o e).
Proof. by destruct o; [apply safe_ret | apply safe_err]. Qed.
Lemma safe_bind {A B} (m : op A) (k : A → op B) :
  safe m → (∀ a, safe (k a)) → safe (op_bind m k).
Proof.
  intros Hm Hk d x d'. unfold op_bind. destruct (m d) as [[a d1]|] eqn:E; [| done].
  intros Hx Hi. destruct (Hm _ _ _ E Hi) as [Hi1 H1]. destruct (Hk _ _ _ _ Hx Hi1) as [Hi2 H2].
  split; [done | by etrans].
Qed.

(** A write to the other tables. *)
Lemma frame_safe d d' :
  d_actions d' = d_actions d → d_next d' = d_next d → db_inv d → db_inv d' ∧ db_le d d'.
Proof.
  intros Ha Hn [H1 H2 H3]. split.
  - constructor; rewrite Ha; [rewrite Hn |..]; eauto.
  - split; [by rewrite Hn |]. intros id r Hr. exists r. by rewrite Ha.
Qed.

Lemma safe_modify (f : DB → DB) :
  (∀ d, d_actions (f d) = d_actions d) → (∀ d, d_next (f d) = d_next d) → safe (op_modify f).
Proof. intros Ha Hn d x d' [= _ <-]. by apply frame_safe. Qed.

Lemma safe_fresh : safe fresh_id.
Proof.
  intros d x d' [= _ <-] [H1 H2 H3]. split.
  - constructor; cbn; eauto. intros id r Hr. destruct (H1 _ _ Hr) as (? & ? & ?).
    split_and!; [done | lia | done].
  - split; cbn; [lia |]. intros id r Hr. exists r. by split.
Qed.

(** Updates of rows that keep the invariant. *)
Definition good_update (p : action_row → bool) (f : action_row → action_row) : Prop :=
  ∀ r, p r = true → row_inv r → row_inv (f r) ∧ row_le r (f r).

Lemma safe_update_table p f d (t : gmap Z action_row) :
  good_update p f → db_inv d →
  (∀ id, t !! id = d_actions d !! id ∨
         ∃ r, d_actions d !! id = Some r ∧ p r = true ∧ t !! id = Some (f r)) →
  db_inv (d <|d_actions := t|>) ∧ db_le d (d <|d_actions := t|>).
Proof.
  intros Hf [H1 H2 H3] Ht.
  assert (Hback : ∀ id r', t !! id = Some r' → ∃ r, d_actions d !! id = Some r ∧
    row_inv r' ∧ row_le r r').
  { intros id r' Hr'. destruct (Ht id) as [He|(r & Hr & Hp & He)]; rewrite Hr' in He.
    - exists r'. split_and!; [done | by eapply H1 | done].
    - injection He as ->. exists r. split; [done |]. apply Hf; [done | by eapply H1]. }
  split; [constructor; cbn |].
  - intros id r' (r & Hr & Hi & Hle)%Hback. destruct (H1 _ _ Hr) as (<- & ? & _).
    split_and!; [by destruct Hle | done | done].
  - intros id id' r1 r2 h (s1 & Hs1 & _ & L1)%Hback (s2 & Hs2 & _ & L2)%Hback C1 C2 U.
    eapply (H2 id id' s1 s2 h); try done; destruct L1 as [], L2 as []; try congruence.
    + destruct le_code0; congruence.
    + destruct le_code1; congruence.
  - intros id id' r1 r2 j (s1 & Hs1 & _ & L1)%Hback (s2 & Hs2 & _ & L2)%Hback C1 C2 U.
    eapply (H3 id id' s1 s2 j); try done; destruct L1, L2; congruence.
  - split; [done |]. intros id r Hr. cbn. destruct (Ht id) as [He|(r' & Hr' & Hp & He)].
    + exists r. by rewrite He.
    + simplify_eq. exists (f r). split; [done |]. apply Hf; [done | by eapply H1].
Qed.

Lemma safe_cas p f id : good_update p f → safe (cas_action p f id).
Proof.
  intros Hf d x d' Hd Hi. unfold cas_action in Hd.
  destruct (update_row p f id (d_actions d)) as [t|] eqn:E; [| by injection Hd as _ <-].
  injection Hd as _ <-. apply update_row_Some in E as (r & Hr & Hp & ->).
  eapply safe_update_table; [done | done |]. intros id'.
  destruct (decide (id' = id)) as [->|]; [right; exists r; by rewrite lookup_insert_eq |].
  left. by rewrite lookup_insert_ne.
Qed.

Lemma safe_update_actions p f : good_update p f → safe (update_actions p f).
Proof.
  intros Hf d x d' [= _ <-] Hi. eapply safe_update_table; [done | done |]. intros id.
  rewrite lookup_update_where. destruct (d_actions d !! id) as [r|]; [| by left]. cbn.
  destruct (p r) eqn:Hp; [right; by exists r | by left].
Qed.

Lemma safe_note f userID id :
  good_update (in_status userID ActionExecuting) f → safe (note_attempt f userID id).
Proof.
  intros Hf d x d' Hd. apply (safe_cas _ _ id Hf d (match update_row
    (in_status userID ActionExecuting) f id (d_actions d) with Some _ => true | None => false end)).
  unfold note_attempt in Hd. unfold cas_action. destruct (update_row _ _ _ _); by simplify_eq.
Qed.

(** ** Every statement is safe *)
Lemma reaches_once s s' : lifecycle s s' = true → reaches s s'.
Proof. intros Hl. eapply rtc_l; [exact Hl | apply rtc_refl]. Qed.
Lemma reaches_refl s : reaches s s.
Proof. apply rtc_refl. Qed.

(** An update that changes neither status nor send. *)
Ltac good :=
  intros r; unfold in_status, stale_pending, no_message_id; intros Hp [];
  autorewrite with reflect in Hp; destruct_and?;
  split; constructor; cbn in *;
  try done; try (by left); try (by right); try (left; congruence);
  try apply reaches_refl; try (intros; intuition congruence).

Lemma good_release s now userID from :
  lifecycle from s = true → isTerminalActionStatus s = true →
  good_update (in_status userID from)
    (λ r, release_code (r <|a_Status := s|> <|a_UpdatedAt := now|>)).
Proof.
  intros Hl Ht. good; try (apply reaches_once; congruence); by destruct s.
Qed.

Lemma good_waiting_to s now userID from :
  lifecycle from s = true → waiting_status s = true → waiting_status from = true →
  good_update (in_status userID from) (λ r, r <|a_Status := s|> <|a_UpdatedAt := now|>).
Proof.
  intros Hl Hs Hf. good; try (apply reaches_once; congruence); try (left; congruence);
    try (intros _; apply inv_waiting0; congruence); by destruct s.
Qed.

Lemma good_deny (p : action_row → bool) now reason :
  (∀ r, p r = true → reaches (a_Status r) ActionDenied) → good_update p (deny_row now reason).
Proof.
  intros Hp' r Hp []. split; constructor; cbn; try done; try (by left); try (by right).
  - by apply Hp'.
  - right. by split; [| left].
Qed.

Lemma waiting_reaches_denied s : waiting_status s = true → reaches s ActionDenied.
Proof. intros. apply reaches_once. by destruct s. Qed.

Lemma UpdateAgentActionStatus_safe now userID id from to :
  to ≠ ActionExecuting → safe (UpdateAgentActionStatus now userID id from to).
Proof.
  intros Hto. unfold UpdateAgentActionStatus. destruct (allowedActionTransitions from to) eqn:E;
    cbn [negb]; [| apply safe_err].
  apply safe_cas. destruct from, to; try done;
    (apply good_release || apply good_waiting_to); done.
Qed.

Lemma DenyAgentAction_safe now userID id from reason :
  safe (DenyAgentAction now userID id from reason).
Proof.
  unfold DenyAgentAction. destruct (allowedActionTransitions from ActionDenied) eqn:E;
    cbn [negb]; [| apply safe_err].
  apply safe_cas, good_deny. unfold in_status. intros r Hp. autorewrite with reflect in Hp.
  destruct Hp as [_ ->]. apply reaches_once. by destruct from.
Qed.

Lemma good_reserve p now randomID body :
  (∀ r, p r = true → a_Status r = ActionApproved) → good_update p (reserve_row now randomID body).
Proof.
  intros Hp' r Hp []. pose proof (Hp' r Hp) as Hs.
  split; constructor; cbn; try done; try (by left); rewrite Hs.
  - by apply reaches_once.
  - by left.
Qed.

Lemma good_executed (p : action_row → bool) from now msgID :
  lifecycle from ActionExecuted = true → (∀ r, p r = true → a_Status r = from) →
  good_update p (executed_row now msgID).
Proof.
  intros Hl Hp' r Hp []. pose proof (Hp' r Hp) as Hs. unfold executed_row.
  destruct msgID; (split; constructor; cbn; try done; try (by left); try (by right);
    [rewrite Hs; by apply reaches_once | right; split; [done | by (left + right)]]).
Qed.

Lemma in_status_eq userID from r : in_status userID from r = true → a_Status r = from.
Proof. unfold in_status. autorewrite with reflect. tauto. Qed.

(** The monadic skeleton of an operation. *)
Lemma safe_if {A} (b : bool) (m n : op A) : safe m → safe n → safe (if b then m else n).
Proof. by destruct b. Qed.
End props.
#[export] Hint Resolve safe_ret safe_err safe_get safe_lift safe_fresh safe_if : safe.

(** A write of a table other than the actions. *)
Ltac safe_write :=
  apply safe_modify; intros d; repeat case_match; reflexivity.
Ltac safe_steps :=
  repeat match goal with
  | |- safe (op_bind _ _) => apply safe_bind; [| intros ?]
  | |- safe (if _ then _ else _) => apply safe_if
  | |- safe (op_modify _) => safe_write
  | |- safe (match ?x with _ => _ end) => destruct x
  | |- safe (let _ := _ in _) => cbv zeta
  end; auto with safe.

Section statements.
Context `{Sealer}.
Local Open Scope op_scope.

Lemma seal_opt_safe s u : safe (seal_opt s u).
Proof. unfold seal_opt. safe_steps. Qed.
Lemma GetConversation_safe u id : safe (GetConversation u id).
Proof. unfold GetConversation. safe_steps. Qed.
Lemma set_conversation_safe f u id : safe (set_conversation f u id).
Proof. unfold set_conversation. safe_steps. Qed.
Lemma insert_message_safe conv dir tg body now : safe (insert_message conv dir tg body now).
Proof. unfold insert_message. safe_steps. Qed.
Lemma insert_notification_safe u k a b now : safe (insert_notification u k a b now).
Proof. unfold insert_notification. safe_steps. Qed.
#[local] Hint Resolve seal_opt_safe GetConversation_safe set_conversation_safe
  insert_message_safe insert_notification_safe : safe.

Lemma ReserveAgentActionSend_safe now a rid body mt mm rws enf :
  safe (ReserveAgentActionSend now a rid body mt mm rws enf).
Proof.
  unfold ReserveAgentActionSend. safe_steps. apply safe_cas, good_reserve.
  intros r. rewrite andb_true_iff. intros [Hs _]. by eapply in_status_eq.
Qed.

Lemma recordAgentActionSent_safe now from u id conv tg text :
  lifecycle from ActionExecuted = true → safe (recordAgentActionSent now from u id conv tg text).
Proof.
  intros Hl. unfold recordAgentActionSent. safe_steps.
  apply safe_cas, (good_executed _ from); [done | apply in_status_eq].
Qed.

Lemma SetAgentActionExecuted_safe now u id tg : safe (SetAgentActionExecuted now u id tg).
Proof.
  apply safe_cas. intros r Hp%in_status_eq []. split; constructor; cbn; try done; try (by left); try (by right).
  - rewrite Hp. by apply reaches_once.
  - right. by split; [| left].
Qed.

Lemma good_note userID (f : action_row → action_row) :
  (∀ r, a_Status (f r) = a_Status r ∧ a_ID (f r) = a_ID r ∧ a_UserID (f r) = a_UserID r ∧
     a_JobID (f r) = a_JobID r ∧ a_ActionType (f r) = a_ActionType r ∧
     a_ConversationID (f r) = a_ConversationID r ∧ a_Payload (f r) = a_Payload r ∧
     a_PolicyDecision (f r) = a_PolicyDecision r ∧ a_InstallRevision (f r) = a_InstallRevision r ∧
     a_CodeHash (f r) = a_CodeHash r ∧ a_SendRandomID (f r) = a_SendRandomID r ∧
     a_SendBody (f r) = a_SendBody r) →
  good_update (in_status userID ActionExecuting) f.
Proof.
  intros Hf r _ []. destruct (Hf r) as (Es & ? & ? & ? & ? & ? & ? & ? & ? & Ec & Er & Eb).
  split; constructor; rewrite ?Es, ?Ec, ?Er, ?Eb; try done; try (by left).
  right. by split; [| left].
Qed.

Lemma NoteAgentActionSendAttempt_safe u id : safe (NoteAgentActionSendAttempt u id).
Proof. apply safe_note, good_note. intros r. by split_and!. Qed.
Lemma UnnoteAgentActionSendAttempt_safe u id nb : safe (UnnoteAgentActionSendAttempt u id nb).
Proof. apply safe_note, good_note. intros r. by split_and!. Qed.

Lemma good_unknown (p : action_row → bool) now reason :
  (∀ r, p r = true → a_Status r = ActionExecuting) →
  good_update p (λ r, release_code r <|a_Status := ActionDeliveryUnknown|>
    <|a_PolicyReasons := reason|> <|a_UpdatedAt := now|>).
Proof.
  intros Hp' r Hp []. split; constructor; cbn; try done; try (by left); try (by right).
  - rewrite (Hp' r Hp). by apply reaches_once.
  - right. by split; [| left].
Qed.

Lemma MarkAgentActionDeliveryUnknown_safe now u id reason alert :
  safe (MarkAgentActionDeliveryUnknown now u id reason alert).
Proof.
  unfold MarkAgentActionDeliveryUnknown. safe_steps. apply safe_cas, good_unknown.
  intros r. rewrite andb_true_iff. intros [Hs _]. by eapply in_status_eq.
Qed.

Lemma good_note_id (p : action_row → bool) msg : good_update p (λ r, r <|a_ExecutedTGMessageID := msg|>).
Proof.
  intros r _ []. split; constructor; cbn; try done; try (by left).
  right. by split; [| left].
Qed.
Lemma good_fill_id (p : action_row → bool) msg :
  good_update p (λ r, r <|a_ExecutedTGMessageID := msg|> <|a_SendBody := None|>).
Proof.
  intros r _ []. split; constructor; cbn; try done; try (by left).
  right. by split; [| right].
Qed.

Lemma MatchUnconfirmedAgentSend_safe now u peer msg text since :
  safe (MatchUnconfirmedAgentSend now u peer msg text since).
Proof.
  unfold MatchUnconfirmedAgentSend. safe_steps.
  - apply safe_cas, good_note_id.
  - apply safe_cas, good_fill_id.
  - by apply recordAgentActionSent_safe.
Qed.

Lemma stale_pending_reaches p cutoff r :
  p && stale_pending cutoff r = true → a_Status r = ActionPendingApproval.
Proof. unfold stale_pending. autorewrite with reflect. tauto. Qed.

Lemma good_expire (p : action_row → bool) now :
  (∀ r, p r = true → a_Status r = ActionPendingApproval) → good_update p (expire_row now).
Proof.
  intros Hp' r Hp []. pose proof (Hp' r Hp) as Hs. split; constructor; cbn; try done; try (by left); try (by right).
  - rewrite Hs. by apply reaches_once.
  - left. by rewrite Hs.
Qed.

Lemma ExpireStaleAgentActions_safe now ttl : safe (ExpireStaleAgentActions now ttl).
Proof.
  unfold ExpireStaleAgentActions. safe_steps. apply safe_update_actions, good_expire.
  intros r Hr. by apply (stale_pending_reaches true (now - ttl)).
Qed.
Lemma ExpireAgentActionIfStale_safe now u id ttl : safe (ExpireAgentActionIfStale now u id ttl).
Proof.
  unfold ExpireAgentActionIfStale. safe_steps. apply safe_cas, good_expire.
  intros r Hr. by eapply stale_pending_reaches.
Qed.

Lemma DenyPendingActionsForConversation_safe now u c reason :
  safe (DenyPendingActionsForConversation now u c reason).
Proof.
  apply safe_update_actions, good_deny. intros r Hr. apply waiting_reaches_denied.
  by apply andb_true_iff in Hr as [_ ?].
Qed.
Lemma DenyPendingActionsForSourceMessage_safe now u c m reason :
  safe (DenyPendingActionsForSourceMessage now u c m reason).
Proof.
  unfold DenyPendingActionsForSourceMessage. safe_steps. apply safe_update_actions, good_deny.
  intros r Hr. apply waiting_reaches_denied. autorewrite with reflect in Hr. tauto.
Qed.

Lemma recordMessageDeleteInChat_safe now u self chat msg :
  safe (recordMessageDeleteInChat now u self chat msg).
Proof.
  unfold recordMessageDeleteInChat. safe_steps. apply safe_update_actions, good_deny.
  intros r Hr. apply waiting_reaches_denied. autorewrite with reflect in Hr. tauto.
Qed.

Lemma GetAgentAction_safe u id : safe (GetAgentAction u id).
Proof. unfold GetAgentAction, getAgentAction. safe_steps. Qed.
#[local] Hint Resolve GetAgentAction_safe ReserveAgentActionSend_safe recordMessageDeleteInChat_safe : safe.

Lemma BeginExecutingAgentAction_safe now u id rid : safe (BeginExecutingAgentAction now u id rid).
Proof. unfold BeginExecutingAgentAction. safe_steps. Qed.

Lemma DenyActionsFromEarlierInstalls_safe now u reason :
  safe (DenyActionsFromEarlierInstalls now u reason).
Proof.
  intros d. eapply safe_update_actions, good_deny. intros r Hr. apply waiting_reaches_denied.
  unfold from_earlier_install in Hr. autorewrite with reflect in Hr. by destruct Hr as [[_ Hr] _], (a_Status r).
Qed.

(** ** Ingestion *)
Lemma delete_in_chats_safe now u self msg chats out : safe (delete_in_chats now u self msg chats out).
Proof. revert out. induction chats as [|c chats IH]; intros out; cbn [delete_in_chats]; safe_steps. Qed.
#[local] Hint Resolve delete_in_chats_safe : safe.
Lemma RecordMessageDelete_safe now u self msg : safe (RecordMessageDelete now u self msg).
Proof. unfold RecordMessageDelete. safe_steps. Qed.

Lemma ignore_job_safe now reason p job : safe (ignore_job now reason p job).
Proof. unfold ignore_job. safe_steps. Qed.
Lemma InsertIncomingEvent_safe now ev : safe (InsertIncomingEvent now ev).
Proof. unfold InsertIncomingEvent. safe_steps. Qed.
Lemma insertOutboxReasonTx_safe cfg ev at_ reason : safe (insertOutboxReasonTx cfg ev at_ reason).
Proof. unfold insertOutboxReasonTx. safe_steps. Qed.
#[local] Hint Resolve ignore_job_safe InsertIncomingEvent_safe insertOutboxReasonTx_safe : safe.
Lemma applyPendingDeleteTx_safe now ev job : safe (applyPendingDeleteTx now ev job).
Proof. unfold applyPendingDeleteTx, record_pending_delete. safe_steps. Qed.
Lemma touch_conversation_safe now u conv : safe (touch_conversation now u conv).
Proof.
  intros d x d' Hd. unfold touch_conversation in Hd. destruct (update_row _ _ _ _); [| done].
  injection Hd as _ <-. by apply frame_safe.
Qed.
#[local] Hint Resolve applyPendingDeleteTx_safe touch_conversation_safe : safe.
Lemma InsertEventEnqueueJobAndTouch_safe cfg now ev conv :
  safe (InsertEventEnqueueJobAndTouch cfg now ev conv).
Proof.
  unfold InsertEventEnqueueJobAndTouch, insertOutboxTx, ignoreInactiveConversationJobTx, insert_job.
  safe_steps.
Qed.

Lemma good_clear (p : action_row → bool) :
  (∀ r, p r = true → isTerminalActionStatus (a_Status r) = true) → good_update p clear_action.
Proof.
  intros Hp' r Hp []. pose proof (Hp' r Hp) as Ht. split; constructor; cbn; try done; try (by left); try (by right).
  right. by split; [| right].
Qed.

Lemma SweepAgentMessageBodies_safe now retention : safe (SweepAgentMessageBodies now retention).
Proof.
  unfold SweepAgentMessageBodies, count_and_update, sweep_messages. safe_steps.
  - apply safe_update_actions, good_deny. intros r Hr. apply waiting_reaches_denied.
    unfold old_draft in Hr. autorewrite with reflect in Hr. tauto.
  - apply safe_update_actions, good_clear. intros r Hr. unfold old_content in Hr.
    autorewrite with reflect in Hr. tauto.
Qed.

(** ** Inserting *)

(** The actions the callers insert: none is born executing, and only one that
    waits carries an approval code. *)
Definition insertable (a : AgentAction) : bool :=
  negb (bool_decide (aa_Status a = ActionExecuting))
  && (negb (isTerminalActionStatus (aa_Status a)) || bool_decide (aa_ApprovalCode a = "")).

Lemma code_taken_false u h d :
  code_taken u (Some h) d = false →
  ∀ id r, d_actions d !! id = Some r → a_UserID r = u → a_CodeHash r ≠ Some h.
Proof.
  unfold code_taken. autorewrite with reflect. intros Hnil id r Hr <- Hh.
  eapply not_elem_of_nil. rewrite <- Hnil. apply elem_of_rows_where. split; [| by exists id].
  rewrite Z.eqb_refl. cbn. by apply bool_decide_eq_true.
Qed.

Lemma insert_action_safe now a hash code payload job rev d x d' :
  insert_action now a hash code payload job rev d = Ok (x, d') → db_inv d →
  aa_Status a ≠ ActionExecuting → (isTerminalActionStatus (aa_Status a) = true → hash = None) →
  (∀ j id r, job = Some j → d_actions d !! id = Some r → a_JobID r = Some j →
     a_ActionType r ≠ aa_ActionType a) →
  db_inv d' ∧ db_le d d' ∧ x = d_next d + 1 ∧
  ∃ r, d_actions d' = <[x := r]> (d_actions d) ∧ a_JobID r = job ∧
       a_ActionType r = aa_ActionType a ∧ a_UserID r = aa_UserID a ∧ a_ID r = x.
Proof.
  unfold insert_action, op_bind, op_get, fresh_id, op_modify, op_ret, op_err.
  destruct (code_taken _ _ d) eqn:Hc; [done |]. intros [= <- <-] [H1 H2 H3] Hs Ht Hj.
  assert (Hnew : ∀ id r, d_actions d !! id = Some r → id ≠ d_next d + 1).
  { intros id r Hr ->. apply H1 in Hr as (_ & ? & _). lia. }
  split_and!; [| | done |].
  - constructor; cbn.
    + intros id r [[<- <-]|[Hne Hr]]%lookup_insert_Some.
      * cbn. split_and!; [done | done |]. constructor; cbn; [done | done | exact Ht].
      * destruct (H1 _ _ Hr) as (? & ? & ?). split_and!; [done | lia | done].
    + intros id id' r r' h [[<- <-]|[? Hr]]%lookup_insert_Some [[<- <-]|[? Hr']]%lookup_insert_Some;
        cbn; intros; try done; subst.
      * exfalso. eapply code_taken_false; [done | exact Hr' | done | done].
      * exfalso. eapply code_taken_false; [done | exact Hr | done | done].
      * by eapply (H2 id id' r r' h).
    + intros id id' r r' j [[<- <-]|[? Hr]]%lookup_insert_Some [[<- <-]|[? Hr']]%lookup_insert_Some;
        cbn; intros ? ? Ht'; try done; subst.
      * exfalso. by eapply (Hj j id' r').
      * exfalso. by eapply (Hj j id r).
      * by eapply (H3 id id' r r' j).
  - split; cbn; [lia |]. intros id r Hr. exists r. split; [| done].
    rewrite lookup_insert_ne; [done |]. intros He. by apply (Hnew id r).
  - eexists. split; [reflexivity | done].
Qed.

Lemma protectApprovalCode_None code u d x d' :
  protectApprovalCode code u d = Ok (x, d') → code = "" → x.1 = None.
Proof. unfold protectApprovalCode. intros Hp ->. by injection Hp as <- <-. Qed.

Lemma protectApprovalCode_safe code u : safe (protectApprovalCode code u).
Proof. unfold protectApprovalCode, approvalCodeHash. safe_steps. Qed.
#[local] Hint Resolve protectApprovalCode_safe : safe.

Lemma insertRoutedOutboxTx_safe cfg now u e reason : safe (insertRoutedOutboxTx cfg now u e reason).
Proof. unfold insertRoutedOutboxTx, insertOutboxReasonTx. safe_steps. Qed.
Lemma route_all_safe cfg now reason srcs w : safe (route_all cfg now reason srcs w).
Proof.
  revert w. induction srcs as [|j srcs IH]; intros w; cbn; [apply safe_ret |].
  apply safe_bind; [apply insertRoutedOutboxTx_safe | intros; apply IH].
Qed.
Lemma routeJobEventTx_safe cfg now job reason : safe (routeJobEventTx cfg now job reason).
Proof. unfold routeJobEventTx. safe_steps. apply route_all_safe. Qed.
#[local] Hint Resolve routeJobEventTx_safe : safe.

(** A bind whose first half is safe and whose second half is safe on the values
    and states it meets. *)
Lemma safe_at_bind {A B} (m : op A) (k : A → op B) d x d' :
  safe m → op_bind m k d = Ok (x, d') → db_inv d →
  (∀ a d1, m d = Ok (a, d1) → k a d1 = Ok (x, d') → db_inv d1 → db_inv d' ∧ db_le d1 d') →
  db_inv d' ∧ db_le d d'.
Proof.
  intros Hm. unfold op_bind. destruct (m d) as [[a d1]|] eqn:E; [| done].
  intros Hk Hi Hrest. destruct (Hm _ _ _ E Hi) as [Hi1 H1].
  destruct (Hrest a d1 eq_refl Hk Hi1). split; [done | by etrans].
Qed.

Lemma insert_job_action_safe cfg now a hash code payload d x d' :
  insert_job_action cfg now a hash code payload d = Ok (x, d') → db_inv d →
  aa_Status a ≠ ActionExecuting → (isTerminalActionStatus (aa_Status a) = true → hash = None) →
  db_inv d' ∧ db_le d d'.
Proof.
  intros Hd Hi Hs Ht. revert Hd. unfold insert_job_action, op_bind at 1, op_get at 1.
  unfold op_bind at 1, op_get at 1.
  set (claimed := match d_jobs d !! aa_JobID a with Some j => _ | None => None end).
  destruct claimed as [j|]; destruct (rows_where _ (d_actions d)) as [|r0 l] eqn:He;
    try (destruct (filter _ _); by intros [= <- <-]).
  unfold op_bind at 1.
  destruct (insert_action _ _ _ _ _ _ _ d) as [[id d1]|] eqn:E; [| done].
  eapply insert_action_safe in E as (Hi1 & H1 & _); [| done..|].
  - intros Hk. assert (safe (do* match route_reason a with
      | Some reason => do* routeJobEventTx cfg now (aa_JobID a) reason in op_ret tt
      | None => op_ret tt end in op_ret id)%op) as Hsafe by (safe_steps).
    destruct (Hsafe _ _ _ Hk Hi1). split; [done | by etrans].
  - intros j' id' r [= <-] Hr Hj Hty. eapply not_elem_of_nil. rewrite <- He.
    apply elem_of_rows_where. split; [| by exists id'].
    unfold same_job_type. autorewrite with reflect. done.
Qed.

Lemma InsertAgentAction_safe cfg now a d x d' :
  insertable a = true → InsertAgentAction cfg now a d = Ok (x, d') → db_inv d →
  db_inv d' ∧ db_le d d'.
Proof.
  unfold insertable. autorewrite with reflect. intros [Hs Hc] Hd Hi. revert Hd.
  unfold InsertAgentAction. case_match; [done |]. intros Hd.
  eapply safe_at_bind; [| exact Hd | done |]; [auto with safe |]. clear Hd.
  intros [hash code] d1 Hcode Hd Hi1.
  assert (isTerminalActionStatus (aa_Status a) = true → hash = None) as Ht.
  { intros Ht. destruct Hc as [?|Hc]; [congruence |].
    exact (protectApprovalCode_None _ _ _ _ _ Hcode Hc). }
  eapply safe_at_bind; [| exact Hd | done |]; [safe_steps |]. clear Hd.
  intros [] d2 _ Hd Hi2.
  eapply safe_at_bind; [| exact Hd | done |]; [auto with safe |]. clear Hd.
  intros payload d3 _ Hd Hi3. destruct (aa_JobID a =? 0).
  - unfold op_bind, op_get in Hd. eapply insert_action_safe in Hd as (? & ? & _); done.
  - by eapply insert_job_action_safe.
Qed.

#[local] Opaque insert_action.
Lemma InsertStandalone_safe now a body :
  safe (InsertStandaloneApprovalWithNotification now a body).
Proof.
  unfold InsertStandaloneApprovalWithNotification. destruct (_ || _) eqn:Hg; [apply safe_err |].
  autorewrite with reflect in Hg. destruct_and!.
  safe_steps. intros d x d' Hd Hi. eapply insert_action_safe in Hd as (? & ? & _); try done.
  - congruence.
  - intros Ht. by replace (aa_Status a) with ActionPendingApproval in Ht.
Qed.

(** ** Histories *)

(** A call of the store.  [CallOther] stands for any write to the other tables:
    profiles, conversations, jobs and events change freely between the calls. *)
Inductive store_call :=
| CallUpdateStatus (u id : Z) (from to : ActionStatus)
| CallDeny (u id : Z) (from : ActionStatus) (reason : string)
| CallReserve (a : AgentAction) (rid : Z) (body : string) (maxTurns maxPerMinute : Z)
    (window : time) (enforce : bool)
| CallRecordSent (u id conv tg : Z) (text : string)
| CallSetExecuted (u id tg : Z)
| CallNote (u id : Z)
| CallUnnote (u id : Z) (notBefore : option time)
| CallMarkUnknown (u id : Z) (reason alert : string)
| CallMatchEcho (u peer msg : Z) (text : string) (since : time)
| CallExpire (ttl : duration)
| CallExpireOne (u id : Z) (ttl : duration)
| CallDenyConversation (u conv : Z) (reason : string)
| CallDenySource (u conv msg : Z) (reason : string)
| CallBegin (u id rid : Z)
| CallDenyEarlierInstalls (u : Z) (reason : string)
| CallRecordDelete (u self msg : Z)
| CallIngest (ev : IncomingEvent) (conv : Z)
| CallSweep (retention : duration)
| CallInsert (a : AgentAction)
| CallInsertStandalone (a : AgentAction) (body : string)
| CallOther (f : DB → DB).

Definition call_ok (c : store_call) : Prop :=
  match c with
  | CallUpdateStatus _ _ _ to => to ≠ ActionExecuting   (** reserved to [CallReserve] *)
  | CallInsert a => insertable a = true
  | CallOther f => ∀ d, d_actions (f d) = d_actions d ∧ d_next (f d) = d_next d
  | _ => True
  end.

Variable cfg : outbox_config.

Definition exec_call (now : time) (c : store_call) (d : DB) : DB :=
  match c with
  | CallUpdateStatus u id from to => (run (UpdateAgentActionStatus now u id from to) d).2
  | CallDeny u id from reason => (run (DenyAgentAction now u id from reason) d).2
  | CallReserve a rid body mt mm w enf => (run (ReserveAgentActionSend now a rid body mt mm w enf) d).2
  | CallRecordSent u id conv tg text => (run (RecordAgentActionSent now u id conv tg text) d).2
  | CallSetExecuted u id tg => (run (SetAgentActionExecuted now u id tg) d).2
  | CallNote u id => (run (NoteAgentActionSendAttempt u id) d).2
  | CallUnnote u id nb => (run (UnnoteAgentActionSendAttempt u id nb) d).2
  | CallMarkUnknown u id reason alert => (run (MarkAgentActionDeliveryUnknown now u id reason alert) d).2
  | CallMatchEcho u peer msg text since => (run (MatchUnconfirmedAgentSend now u peer msg text since) d).2
  | CallExpire ttl => (run (ExpireStaleAgentActions now ttl) d).2
  | CallExpireOne u id ttl => (run (ExpireAgentActionIfStale now u id ttl) d).2
  | CallDenyConversation u conv reason => (run (DenyPendingActionsForConversation now u conv reason) d).2
  | CallDenySource u conv msg reason => (run (DenyPendingActionsForSourceMessage now u conv msg reason) d).2
  | CallBegin u id rid => (run (BeginExecutingAgentAction now u id rid) d).2
  | CallDenyEarlierInstalls u reason => (run (DenyActionsFromEarlierInstalls now u reason) d).2
  | CallRecordDelete u self msg => (run (RecordMessageDelete now u self msg) d).2
  | CallIngest ev conv => (run (InsertEventEnqueueJobAndTouch cfg now ev conv) d).2
  | CallSweep retention => (run (SweepAgentMessageBodies now retention) d).2
  | CallInsert a => (run (InsertAgentAction cfg now a) d).2
  | CallInsertStandalone a body => (run (InsertStandaloneApprovalWithNotification now a body) d).2
  | CallOther f => f d
  end.

Definition history : Type := list (time * store_call).
Definition history_ok (h : history) : Prop := Forall (λ tc, call_ok tc.2) h.
Definition play (h : history) (d : DB) : DB := foldl (λ d tc, exec_call tc.1 tc.2 d) d h.

Lemma run_safe {A} (m : op A) d : safe m → db_inv d → db_inv (run m d).2 ∧ db_le d (run m d).2.
Proof.
  intros Hm Hi. unfold run. destruct (m d) as [[x d']|] eqn:E; cbn; [by eapply Hm | by split].
Qed.

#[local] Hint Resolve UpdateAgentActionStatus_safe DenyAgentAction_safe
  ReserveAgentActionSend_safe recordAgentActionSent_safe SetAgentActionExecuted_safe
  NoteAgentActionSendAttempt_safe UnnoteAgentActionSendAttempt_safe
  MarkAgentActionDeliveryUnknown_safe MatchUnconfirmedAgentSend_safe
  ExpireStaleAgentActions_safe ExpireAgentActionIfStale_safe
  DenyPendingActionsForConversation_safe DenyPendingActionsForSourceMessage_safe
  recordMessageDeleteInChat_safe InsertStandalone_safe BeginExecutingAgentAction_safe
  DenyActionsFromEarlierInstalls_safe RecordMessageDelete_safe InsertEventEnqueueJobAndTouch_safe
  SweepAgentMessageBodies_safe : safe.

Lemma exec_call_safe now c d :
  call_ok c → db_inv d → db_inv (exec_call now c d) ∧ db_le d (exec_call now c d).
Proof.
  intros Hc Hi. destruct c; cbn [exec_call call_ok] in *;
    try (apply run_safe; [solve [auto with safe] | done]).
  - apply run_safe; [by apply recordAgentActionSent_safe | done].
  - unfold run. destruct (InsertAgentAction cfg now a d) as [[x d']|] eqn:E; cbn; [| by split].
    by eapply InsertAgentAction_safe.
  - destruct (Hc d). by apply frame_safe.
Qed.

Lemma play_safe h d : history_ok h → db_inv d → db_inv (play h d) ∧ db_le d (play h d).
Proof.
  intros Hh. revert d. induction Hh as [|[now c] h Hc _ IH]; intros d Hi; [by split |].
  destruct (exec_call_safe now c d Hc Hi) as [Hi1 H1]. destruct (IH _ Hi1). cbn.
  split; [done | by etrans].
Qed.

Lemma empty_db_inv : db_inv empty_db.
Proof. constructor; cbn; intros *; by rewrite lookup_empty. Qed.

(** C11: after any history of calls, an action that waits has no send id, one
    that executes has one, one that is settled has released its approval code,
    no two live actions of a user share a code, and no job has two actions of
    one type. *)
Theorem history_invariant h :
  history_ok h →
  let d := play h empty_db in
  (∀ id r, d_actions d !! id = Some r →
     (waiting_status (a_Status r) = true → a_SendRandomID r = None) ∧
     (a_Status r = ActionExecuting → a_SendRandomID r ≠ None) ∧
     (isTerminalActionStatus (a_Status r) = true → a_CodeHash r = None)) ∧
  (∀ id id' r r' c, d_actions d !! id = Some r → d_actions d !! id' = Some r' →
     a_CodeHash r = Some c → a_CodeHash r' = Some c → a_UserID r = a_UserID r' → id = id') ∧
  (∀ id id' r r' j, d_actions d !! id = Some r → d_actions d !! id' = Some r' →
     a_JobID r = Some j → a_JobID r' = Some j → a_ActionType r = a_ActionType r' → id = id').
Proof.
  intros Hh d. destruct (play_safe h _ Hh empty_db_inv) as [[H1 H2 H3] _].
  split_and!; [| exact H2 | exact H3].
  intros id r Hr. by destruct (H1 _ _ Hr) as (_ & _ & []).
Qed.

(** Once a send is reserved its identity is fixed: whatever calls follow,
    the action keeps its random id, and its payload and outbound body stay what
    they were until they are cleared; it never returns to a waiting status. *)
Theorem send_identity_fixed h d id r x :
  db_inv d → history_ok h →
  d_actions d !! id = Some r → a_SendRandomID r = Some x →
  ∃ r', d_actions (play h d) !! id = Some r' ∧ a_SendRandomID r' = Some x ∧
    (a_SendBody r' = a_SendBody r ∨ a_SendBody r' = None) ∧
    (a_Payload r' = a_Payload r ∨ a_Payload r' = None) ∧ a_ConversationID r' = a_ConversationID r ∧
    waiting_status (a_Status r') = false.
Proof.
  intros Hi Hh Hr Hx. destruct (play_safe h d Hh Hi) as [Hi' [_ Hle]].
  destruct (Hle _ _ Hr) as (r' & Hr' & L). exists r'. split; [done |].
  destruct (inv_row _ Hi _ _ Hr) as (_ & _ & [Hw _ _]).
  destruct (inv_row _ Hi' _ _ Hr') as (_ & _ & [Hw' _ _]).
  destruct L. destruct le_send0 as [Hwait|[Hid Hbody]]; [apply Hw in Hwait; congruence |].
  split_and!; try done; [congruence |].
  destruct (waiting_status (a_Status r')); [| done]. rewrite Hw' in Hid by done. congruence.
Qed.

Definition settled (s : ActionStatus) : bool :=
  match s with ActionExecuted | ActionRejected | ActionExpired | ActionDenied => true | _ => false end.

Lemma reaches_settled s s' : reaches s s' → settled s = true → s' = s.
Proof.
  intros Hr Hs. destruct Hr as [|s s2 s3 Hl _]; [done |].
  by destruct s, s2.
Qed.
Lemma reaches_unknown s' :
  reaches ActionDeliveryUnknown s' → s' = ActionDeliveryUnknown ∨ s' = ActionExecuted.
Proof.
  inversion 1 as [|? s2 ? Hs Hr]; subst; [by left |]. right.
  destruct s2; try done. by apply reaches_settled in Hr.
Qed.

(** A decided action stays decided: executed, rejected, expired and denied
    are final, and an unknown delivery can only turn out to be a delivery. *)
Theorem settled_is_final h d id r :
  db_inv d → history_ok h → d_actions d !! id = Some r →
  ∃ r', d_actions (play h d) !! id = Some r' ∧
    (settled (a_Status r) = true → a_Status r' = a_Status r) ∧
    (a_Status r = ActionDeliveryUnknown →
     a_Status r' = ActionDeliveryUnknown ∨ a_Status r' = ActionExecuted).
Proof.
  intros Hi Hh Hr. destruct (play_safe h d Hh Hi) as [_ [_ Hle]].
  destruct (Hle _ _ Hr) as (r' & Hr' & []). exists r'. split_and!; [done | |].
  - intros. by apply reaches_settled.
  - intros Hs. rewrite Hs in le_status0. by apply reaches_unknown.
Qed.
End statements.

#[export] Hint Resolve seal_opt_safe GetConversation_safe UpdateAgentActionStatus_safe
  DenyAgentAction_safe ReserveAgentActionSend_safe recordAgentActionSent_safe
  SetAgentActionExecuted_safe NoteAgentActionSendAttempt_safe UnnoteAgentActionSendAttempt_safe
  MarkAgentActionDeliveryUnknown_safe MatchUnconfirmedAgentSend_safe ExpireStaleAgentActions_safe
  ExpireAgentActionIfStale_safe DenyPendingActionsForConversation_safe
  DenyPendingActionsForSourceMessage_safe recordMessageDeleteInChat_safe InsertStandalone_safe : safe.

(** ** Witnesses *)
Module Witnesses.
#[local] Existing Instance pair_sealer.

(** One conversation with one message, whose job is being processed. *)
Definition setup (d : DB) : DB :=
  d <|d_conversations := {[100 := MkConversation 1 100 500 9 "bob" "Bob" ConversationActive 0 0
        time_zero time_zero PeerContactYes 0 0]}|>
    <|d_events := {[0 := EventRow 0 "evt:v1:1:500:7" 1 EventKindPrivateMessage 500 500 7 None "{}" 0]}|>
    <|d_jobs := {[101 := JobRow 101 "evt:v1:1:500:7" 1 (Some 100) JobProcessing 1 5 0 (Some "w")
        (Some 0) None None None 0 0 None None 1 None None None]}|>.

Definition action (id : Z) (status : ActionStatus) : AgentAction :=
  MkAgentAction id (if bool_decide (status = ActionPendingApproval) then "K7Q2" else "") 101 1 100 1
    ActionTypeReply "faq" "Thursday works" PolicyRequireApproval "" status 0 0 "" 0 0 0 1.

Definition cfg : outbox_config := OutboxConfig false None.
Definition arrival : history :=
  [(0, CallOther setup); (10, CallInsert (action 0 ActionPendingApproval))].
Definition reservation : history :=
  arrival ++ [(20, CallUpdateStatus 1 1 ActionPendingApproval ActionApproved);
              (30, CallReserve (action 1 ActionApproved) 77 "Thursday works" 6 2 0 false)].
Definition completion : history :=
  [(40, CallNote 1 1); (50, CallRecordSent 1 1 100 9000 "Thursday works")].

Lemma arrival_ok : history_ok arrival.
Proof. repeat constructor. Defined.
Lemma reservation_ok : history_ok reservation.
Proof. repeat constructor; discriminate. Defined.
Lemma completion_ok : history_ok completion.
Proof. repeat constructor. Defined.
Lemma reserved_inv : db_inv (play cfg reservation empty_db).
Proof. apply play_safe; [apply reservation_ok | apply empty_db_inv]. Defined.

Lemma history_invariant_witness :
  ∃ r, d_actions (play cfg reservation empty_db) !! 1 = Some r ∧
       a_Status r = ActionExecuting ∧ a_SendRandomID r ≠ None.
Proof.
  eexists. split; [vm_compute; reflexivity |]. split; [reflexivity |].
  apply (history_invariant cfg reservation reservation_ok) with (id := 1); vm_compute; reflexivity.
Defined.

Lemma send_identity_fixed_witness :
  ∃ r', d_actions (play cfg completion (play cfg reservation empty_db)) !! 1 = Some r' ∧
        a_SendRandomID r' = Some 77 ∧ a_Status r' = ActionExecuted.
Proof.
  edestruct (send_identity_fixed cfg completion (play cfg reservation empty_db) 1) as (r' & Hr' & Hx & _);
    [apply reserved_inv | apply completion_ok | vm_compute; reflexivity | reflexivity |].
  exists r'. split; [exact Hr' | split; [exact Hx |]].
  assert (a_Status <$> Some r' = Some ActionExecuted) as [= ->]; [| done].
  rewrite <- Hr'. vm_compute. reflexivity.
Defined.

Lemma settled_is_final_witness :
  let d := play cfg completion (play cfg reservation empty_db) in
  ∃ r', d_actions (play cfg [(60, CallDeny 1 1 ActionExecuting "late")] d) !! 1 = Some r' ∧
        a_Status r' = ActionExecuted.
Proof.
  edestruct (settled_is_final cfg [(60, CallDeny 1 1 ActionExecuting "late")]
    (play cfg completion (play cfg reservation empty_db)) 1) as (r' & Hr' & Hs & _).
  - apply play_safe; [apply completion_ok | apply reserved_inv].
  - repeat constructor.
  - vm_compute. reflexivity.
  - exists r'. split; [exact Hr' | by apply Hs].
Defined.
End Witnesses.
