(* ===== verification/ActionsFacts.v ===== *)
(** * What the action statements do

    The functional behaviour of the reservation, the completion, the insert and
    the delete of a source message. *)

From S2P Require Import Prelude GoString Rows Tables Outbox Actions ActionsProps.

(** ** Counting rows *)
Section counting.
Context {R : Type} (p : R → bool).

Lemma count_where_fresh (t : gmap Z R) i r :
  t !! i = None → count_where p (<[i := r]> t) = count_where p t + (if p r then 1 else 0).
Proof.
  intros Hi. unfold count_where.
  rewrite (fmap_Permutation snd _ _ (map_to_list_insert t i r Hi)), fmap_cons, filter_cons.
  cbn [snd]. case_decide as Hp; cbn [length].
  - rewrite Hp. lia.
  - destruct (p r); [done | lia].
Qed.

Lemma count_where_update (t : gmap Z R) i r r' :
  t !! i = Some r →
  count_where p (<[i := r']> t) =
  count_where p t - (if p r then 1 else 0) + (if p r' then 1 else 0).
Proof.
  intros Hi. rewrite <- (insert_delete_id t i r Hi) at 2.
  rewrite <- insert_delete_eq, !count_where_fresh by apply lookup_delete_eq. lia.
Qed.
End counting.

Section facts.
Context `{Sealer}.
Local Open Scope op_scope.

Lemma op_bind_Ok {A B} (m : op A) (k : A → op B) d x :
  op_bind m k d = Ok x ↔ ∃ a d1, m d = Ok (a, d1) ∧ k a d1 = Ok x.
Proof.
  unfold op_bind. destruct (m d) as [[a d1]|e]; split.
  - by exists a, d1.
  - by intros (? & ? & [= -> ->] & ?).
  - done.
  - by intros (? & ? & ? & _).
Qed.

Lemma op_get_Ok {A} (f : DB → A) d x d' : op_get f d = Ok (x, d') ↔ x = f d ∧ d' = d.
Proof. unfold op_get. split; [by intros [= <- <-] | by intros [-> ->]]. Qed.
Lemma op_ret_Ok {A} (a : A) d x d' : op_ret a d = Ok (x, d') ↔ x = a ∧ d' = d.
Proof. unfold op_ret. split; [by intros [= <- <-] | by intros [-> ->]]. Qed.

Lemma op_modify_Ok (f : DB → DB) d x d' : op_modify f d = Ok (x, d') ↔ x = tt ∧ d' = f d.
Proof. unfold op_modify. split; [by intros [= <- <-] | by intros [-> ->]]. Qed.

Lemma seal_opt_Ok s u d x d' :
  seal_opt s u d = Ok (x, d') → d' = d ∧ open_opt x u = Some s.
Proof.
  unfold seal_opt. case_bool_decide as Hs.
  - intros [-> ->]%op_ret_Ok. by rewrite Hs.
  - intros (b & d1 & Hb & [-> ->]%op_ret_Ok)%op_bind_Ok. unfold op_lift in Hb.
    destruct (SealForUser s u) as [b'|] eqn:E; [| done]. apply op_ret_Ok in Hb as [-> ->].
    split; [done |]. by eapply Open_Seal.
Qed.

Lemma GetConversation_Ok u id d c d' :
  GetConversation u id d = Ok (c, d') ↔ d' = d ∧ d_conversations d !! id = Some c ∧ c_UserID c = u.
Proof.
  unfold GetConversation. rewrite op_bind_Ok. split.
  - intros (cs & d1 & [-> ->]%op_get_Ok & Hc). destruct (d_conversations d !! id) as [c'|]; [| done].
    destruct (Z.eqb_spec (c_UserID c') u); [| done]. by apply op_ret_Ok in Hc as [-> ->].
  - intros (-> & Hc & Hu). exists (d_conversations d), d. rewrite op_get_Ok. split; [done |].
    rewrite Hc, Hu, Z.eqb_refl. by apply op_ret_Ok.
Qed.

Lemma cas_action_Ok p f id d x d' :
  cas_action p f id d = Ok (x, d') ↔
  (x = true ∧ ∃ r, d_actions d !! id = Some r ∧ p r = true ∧
     d' = d <|d_actions := <[id := f r]> (d_actions d)|>) ∨
  (x = false ∧ d' = d ∧ ∀ r, d_actions d !! id = Some r → p r = false).
Proof.
  unfold cas_action. destruct (update_row p f id (d_actions d)) as [t|] eqn:E.
  - apply update_row_Some in E as (r & Hr & Hp & ->). split.
    + intros [= <- <-]. left. split; [done |]. by exists r.
    + intros [(-> & r' & Hr' & _ & ->)|(_ & _ & Hf)]; [by simplify_eq |].
      specialize (Hf _ Hr). congruence.
  - assert (∀ r, d_actions d !! id = Some r → p r = false) as Hf.
    { intros r Hr. unfold update_row in E. rewrite Hr in E. by destruct (p r). }
    split.
    + intros [= <- <-]. by right.
    + intros [(-> & r & Hr & Hp & _)|(-> & -> & _)]; [| done]. apply Hf in Hr. congruence.
Qed.

(** ** The reservation *)
Lemma Reserve_true now a rid body mt mm window enf d d' :
  ReserveAgentActionSend now a rid body mt mm window enf d = Ok (true, d') →
  ∃ c r sb,
    d_conversations d !! aa_ConversationID a = Some c ∧ c_UserID c = aa_UserID a ∧
    d_actions d !! aa_ID a = Some r ∧ a_Status r = ActionApproved ∧ a_UserID r = aa_UserID a ∧
    a_ConversationID r = Some (aa_ConversationID a) ∧
    rid ≠ 0 ∧ open_opt sb (aa_UserID a) = Some body ∧
    (enf = true → 0 < mt → c_AutonomousTurns c < mt) ∧
    (enf = true → 0 < mm → recent_sends (aa_ConversationID a) window d < mm) ∧
    jobSourceSuperseded (aa_UserID a) (aa_JobID a) d = "" ∧
    d' = d <|d_actions := <[aa_ID a := reserve_row now rid sb r]> (d_actions d)|>
           <|d_conversations := <[aa_ConversationID a :=
               c <|c_AutonomousTurns := c_AutonomousTurns c + 1|> <|c_UpdatedAt := now|>]>
               (d_conversations d)|>.
Proof.
  unfold ReserveAgentActionSend. destruct (Z.eqb_spec rid 0); [done |].
  destruct (_ || _ || _); [done |].
  intros (sb & d1 & (-> & Hsb)%seal_opt_Ok & Hk)%op_bind_Ok.
  apply op_bind_Ok in Hk as (c & d1 & (-> & Hc & Hu)%GetConversation_Ok & Hk).
  destruct (enf && (0 <? mt) && (mt <=? c_AutonomousTurns c)) eqn:Ht; [done |].
  apply op_bind_Ok in Hk as (n0 & d1 & [-> ->]%op_get_Ok & Hk).
  destruct (enf && (0 <? mm) && _) eqn:Hm; [done |].
  apply op_bind_Ok in Hk as (k & d1 & [-> ->]%op_get_Ok & Hk).
  case_bool_decide as Hkind; [cbn [negb] in Hk | done].
  apply op_bind_Ok in Hk as (ok & d1 & Hcas%cas_action_Ok & Hk).
  destruct Hcas as [(-> & r & Hr & Hp & ->)|(-> & _)]; [| done]. cbn [negb] in Hk.
  apply op_bind_Ok in Hk as ([] & d2 & Hset & [_ ->]%op_ret_Ok).
  unfold set_conversation, op_modify in Hset. injection Hset as <-. cbn [d_conversations].
  unfold update_row. cbn. rewrite Hc, Hu, Z.eqb_refl.
  unfold in_status in Hp. autorewrite with reflect in *.
  exists c, r, sb. split_and!; try done; try tauto.
  - intros -> ?. destruct Ht as [[?|?]|?]; [done | lia | lia].
  - intros -> ?. destruct Hm as [[?|?]|?]; [done | lia | lia].
  - by rewrite <- Hu.
Qed.

(** C12: a reservation under an enforced budget charges exactly one turn and one
    place in the rate window, stays within both limits, and stores the random
    id and a body that opens to the exact final text. *)
Theorem reserve_within_budget now a rid body mt mm window d d' :
  db_inv d → window < now →
  ReserveAgentActionSend now a rid body mt mm window true d = Ok (true, d') →
  ∃ c c' r',
    d_conversations d !! aa_ConversationID a = Some c ∧
    d_conversations d' !! aa_ConversationID a = Some c' ∧
    c_AutonomousTurns c' = c_AutonomousTurns c + 1 ∧ (0 < mt → c_AutonomousTurns c' ≤ mt) ∧
    recent_sends (aa_ConversationID a) window d' = recent_sends (aa_ConversationID a) window d + 1 ∧
    (0 < mm → recent_sends (aa_ConversationID a) window d' ≤ mm) ∧
    d_actions d' !! aa_ID a = Some r' ∧ a_Status r' = ActionExecuting ∧
    a_SendRandomID r' = Some rid ∧ open_opt (a_SendBody r') (aa_UserID a) = Some body.
Proof.
  intros Hi Hw (c & r & sb & Hc & _ & Hr & Hs & _ & Hconv & _ & Hsb & Ht & Hm & _ & ->)%Reserve_true.
  assert (recent_sends (aa_ConversationID a) window
    (d <|d_actions := <[aa_ID a := reserve_row now rid sb r]> (d_actions d)|>) =
    recent_sends (aa_ConversationID a) window d + 1) as Hrec.
  { unfold recent_sends. cbn. rewrite (count_where_update _ _ _ r _ Hr).
    assert (counted_action (aa_ConversationID a) window r = false) as ->.
    { unfold counted_action. rewrite Hs. cbn. by rewrite !andb_false_r. }
    assert (counted_action (aa_ConversationID a) window (reserve_row now rid sb r) = true) as ->.
    { unfold counted_action. cbn. rewrite Hconv. autorewrite with reflect. by split_and!. }
    lia. }
  eexists _, _, _. split_and!; [exact Hc | apply lookup_insert_eq | done | | exact Hrec | |
    apply lookup_insert_eq | done | done | done].
  - cbn. intros Hmt. specialize (Ht eq_refl Hmt). lia.
  - intros Hmm. specialize (Hm eq_refl Hmm). unfold recent_sends in *. cbn in *. lia.
Qed.

(** ** The completion *)
Lemma record_true now from u id conv tg text d d' :
  recordAgentActionSent now from u id conv tg text d = Ok (true, d') →
  ∃ r r' c' m,
    d_actions d !! id = Some r ∧ a_Status r = from ∧ a_UserID r = u ∧
    d_actions d' !! id = Some r' ∧ a_Status r' = ActionExecuted ∧ a_UserID r' = u ∧
    d_conversations d' !! conv = Some c' ∧ c_LastAgentReplyAt c' = now ∧
    d_messages d' = <[d_next d + 1 := m]> (d_messages d) ∧
    m_ConversationID m = conv ∧ m_Direction m = DirectionAgentOutgoing ∧
    m_TGMessageID m = a_ExecutedTGMessageID r' ∧ open_opt (m_Body m) u = Some text.
Proof.
  unfold recordAgentActionSent.
  intros (c & d1 & (-> & Hc & Hu)%GetConversation_Ok & Hk)%op_bind_Ok.
  apply op_bind_Ok in Hk as (noted & d1 & [-> ->]%op_get_Ok & Hk).
  apply op_bind_Ok in Hk as (dec & d1 & [-> ->]%op_get_Ok & Hk).
  apply op_bind_Ok in Hk as (ok & d1 & Hcas%cas_action_Ok & Hk).
  destruct Hcas as [(-> & r & Hr & Hp & ->)|(-> & _)]; [| done]. cbn [negb] in Hk.
  unfold in_status in Hp. apply andb_true_iff in Hp as [Hru Hrs].
  apply Z.eqb_eq in Hru. apply bool_decide_eq_true in Hrs.
  apply op_bind_Ok in Hk as ([] & d2 & Hset & Hk).
  unfold set_conversation at 1, op_modify in Hset. injection Hset as <-.
  unfold update_row in Hk. cbn [d_conversations update] in Hk.
  rewrite Hc, Hu, Z.eqb_refl in Hk.
  apply op_bind_Ok in Hk as ([] & d3 & Hset & Hk).
  set (r1 := executed_row _ _ r) in *.
  assert (d_actions d3 = <[id := r1]> (d_actions d) ∧ d_messages d3 = d_messages d ∧
    d_next d3 = d_next d ∧ ∃ c', d_conversations d3 !! conv = Some c' ∧ c_LastAgentReplyAt c' = now)
    as (Ha & Hm & Hn & c' & Hc' & Hlast).
  { revert Hset. case_bool_decide; [| intros [_ ->]%op_ret_Ok].
    - intros [= <-]. unfold update_row. cbn [d_conversations update]. rewrite lookup_insert_eq.
      cbn [c_UserID]. rewrite Z.eqb_refl. split_and!; [done.. |].
      eexists. split; [apply lookup_insert_eq |]. by destruct (_ <? _).
    - split_and!; [done.. |]. eexists. by split; [apply lookup_insert_eq |]. }
  apply op_bind_Ok in Hk as (b & d4 & [-> Hb]%seal_opt_Ok & Hk).
  unfold insert_message in Hk. injection Hk as <-. cbn.
  eexists r, r1, c', _. rewrite Ha, Hm, Hn, Hc'.
  split_and!; try done; try apply lookup_insert_eq; subst r1; unfold executed_row;
    by destruct (nullable_id tg); try destruct (noted_id _ _ _ _).
Qed.

Lemma cas_miss p f id d r x d' :
  d_actions d !! id = Some r → p r = false → cas_action p f id d = Ok (x, d') →
  x = false ∧ d' = d.
Proof.
  intros Hr Hp [(_ & r' & Hr' & Hp' & _)|(-> & -> & _)]%cas_action_Ok; [| done].
  simplify_eq. congruence.
Qed.

Lemma in_status_miss u from r : a_Status r ≠ from → in_status u from r = false.
Proof. intros Hr. unfold in_status. by rewrite (bool_decide_eq_false_2 _ Hr), andb_false_r. Qed.

Lemma Deny_miss now u id from reason d r x d' :
  d_actions d !! id = Some r → settled (a_Status r) = true →
  DenyAgentAction now u id from reason d = Ok (x, d') → x = false ∧ d' = d.
Proof.
  intros Hr Hs. unfold DenyAgentAction. destruct (allowedActionTransitions from _) eqn:Ha; [| done].
  intros Hd. cbn in Hd. eapply cas_miss; [done | | done]. apply in_status_miss. intros He.
  rewrite He in Hs. by destruct from.
Qed.

Lemma Mark_miss now u id reason alert d r x d' :
  d_actions d !! id = Some r → settled (a_Status r) = true →
  MarkAgentActionDeliveryUnknown now u id reason alert d = Ok (x, d') → x = false ∧ d' = d.
Proof.
  intros Hr Hs (b & d1 & [-> _]%seal_opt_Ok & (ok & d2 & Hcas & Hk)%op_bind_Ok)%op_bind_Ok.
  eapply cas_miss in Hcas as [-> ->]; [by apply op_ret_Ok in Hk | done |].
  rewrite in_status_miss; [done |]. intros He. by rewrite He in Hs.
Qed.

Lemma Record_miss now u id conv tg text d r x d' :
  d_actions d !! id = Some r → settled (a_Status r) = true →
  RecordAgentActionSent now u id conv tg text d = Ok (x, d') → x = false ∧ d' = d.
Proof.
  intros Hr Hs (c & d1 & (-> & _)%GetConversation_Ok & Hk)%op_bind_Ok.
  apply op_bind_Ok in Hk as (? & d1 & [-> ->]%op_get_Ok & Hk).
  apply op_bind_Ok in Hk as (? & d1 & [-> ->]%op_get_Ok & Hk).
  apply op_bind_Ok in Hk as (ok & d1 & Hcas & Hk).
  eapply cas_miss in Hcas as [-> ->]; [by apply op_ret_Ok in Hk | done |].
  apply in_status_miss. intros He. by rewrite He in Hs.
Qed.

(** A completion happens once: it logs one outgoing message whose body
    opens to the sent text, under the Telegram id of the action, and after it,
    whatever calls follow, completing, denying or giving up on the same action
    is refused and changes nothing. *)
Theorem recorded_once cfg h now u id conv tg text d d1 :
  db_inv d → history_ok h →
  RecordAgentActionSent now u id conv tg text d = Ok (true, d1) →
  let d2 := play cfg h d1 in
  (∃ r' m, d_actions d1 !! id = Some r' ∧ a_Status r' = ActionExecuted ∧
     d_messages d1 = <[d_next d + 1 := m]> (d_messages d) ∧
     m_ConversationID m = conv ∧ m_Direction m = DirectionAgentOutgoing ∧
     m_TGMessageID m = a_ExecutedTGMessageID r' ∧ open_opt (m_Body m) u = Some text) ∧
  (∀ now' u' conv' tg' text' x d3,
     RecordAgentActionSent now' u' id conv' tg' text' d2 = Ok (x, d3) → x = false ∧ d3 = d2) ∧
  (∀ now' u' reason alert x d3,
     MarkAgentActionDeliveryUnknown now' u' id reason alert d2 = Ok (x, d3) → x = false ∧ d3 = d2) ∧
  (∀ now' u' from reason x d3,
     DenyAgentAction now' u' id from reason d2 = Ok (x, d3) → x = false ∧ d3 = d2).
Proof.
  intros Hi Hh Hd d2. destruct (recordAgentActionSent_safe now ActionExecuting u id conv tg text
    eq_refl _ _ _ Hd Hi) as [Hi1 _].
  apply record_true in Hd as (r & r' & c' & m & _ & _ & _ & Hr' & Hs' & _ & _ & _ & Hm & ? & ? & ? & ?).
  destruct (play_safe cfg h d1 Hh Hi1) as [_ [_ Hle]].
  destruct (Hle _ _ Hr') as (r2 & Hr2 & [Hreach]).
  assert (settled (a_Status r2) = true) as Hs2.
  { rewrite Hs' in Hreach. by rewrite (reaches_settled _ _ Hreach). }
  split_and!.
  - by exists r', m.
  - intros * Hk. by eapply Record_miss.
  - intros * Hk. by eapply Mark_miss.
  - intros * Hk. by eapply Deny_miss.
Qed.

(** ** Inserting for a job *)

(** The row of action [x] answers for the job and type of [a]. *)
Definition answers_for (a : AgentAction) (x : Z) (d : DB) : Prop :=
  ∃ r, d_actions d !! x = Some r ∧ a_ID r = x ∧ a_JobID r = Some (aa_JobID a) ∧
       a_ActionType r = aa_ActionType a ∧ a_UserID r = aa_UserID a.

Lemma answers_for_le a x d d' : db_le d d' → answers_for a x d → answers_for a x d'.
Proof.
  intros [_ Hle] (r & Hr & ? & ? & ? & ?). destruct (Hle _ _ Hr) as (r' & Hr' & []).
  exists r'. split_and!; congruence.
Qed.

Lemma existing_answers a d r l :
  db_inv d →
  filter (λ r, (a_UserID r =? aa_UserID a) = true)
    (rows_where (same_job_type (aa_JobID a) (aa_ActionType a)) (d_actions d)) = r :: l →
  answers_for a (a_ID r) d.
Proof.
  intros Hi Hf. assert (r ∈ r :: l) as Hin by left. rewrite <- Hf in Hin.
  apply list_elem_of_filter in Hin as [Hu%Z.eqb_eq [Hp (i & Hr)]%elem_of_rows_where].
  unfold same_job_type in Hp. autorewrite with reflect in Hp. destruct Hp.
  destruct (inv_row _ Hi _ _ Hr) as [<- _]. exists r. by split_and!.
Qed.

Lemma insert_job_answers cfg now a hash code payload d x d' :
  insert_job_action cfg now a hash code payload d = Ok (x, d') → db_inv d →
  aa_Status a ≠ ActionExecuting → (isTerminalActionStatus (aa_Status a) = true → hash = None) →
  answers_for a x d'.
Proof.
  intros Hd Hi Hs Ht. unfold insert_job_action in Hd.
  apply op_bind_Ok in Hd as (job & d1 & [-> ->]%op_get_Ok & Hd).
  apply op_bind_Ok in Hd as (ex & d1 & [-> ->]%op_get_Ok & Hd). revert Hd.
  set (claimed := match d_jobs d !! aa_JobID a with Some j => _ | None => None end).
  assert (∀ m : op Z, m = match filter (λ r, (a_UserID r =? aa_UserID a) = true)
      (rows_where (same_job_type (aa_JobID a) (aa_ActionType a)) (d_actions d)) with
    | r :: _ => op_ret (a_ID r) | [] => op_err ErrAgentJobNotFound end →
    m d = Ok (x, d') → answers_for a x d') as Hex.
  { intros m ->. destruct (filter _ _) as [|r l] eqn:Hf; [done |]. intros [-> ->]%op_ret_Ok.
    by eapply existing_answers. }
  destruct claimed as [j|]; [| by apply Hex].
  destruct (rows_where _ (d_actions d)) as [|r0 l] eqn:He; [| by apply Hex].
  clear Hex. intros (id & d1 & Hins & (u & d2 & Hroute & [-> ->]%op_ret_Ok)%op_bind_Ok)%op_bind_Ok.
  eapply insert_action_safe in Hins as (Hi1 & _ & -> & r & Ha & ? & ? & ? & ?); try done.
  - assert (answers_for a (d_next d + 1) d1) as Hans.
    { exists r. rewrite Ha, lookup_insert_eq. by split_and!. }
    eapply answers_for_le; [| exact Hans].
    destruct (route_reason a) as [reason|]; [| by apply op_ret_Ok in Hroute as [_ ->]].
    apply op_bind_Ok in Hroute as (w & d3 & Hroute & [_ ->]%op_ret_Ok).
    by eapply routeJobEventTx_safe.
  - intros j' i r [= <-] Hr Hj Hty. eapply not_elem_of_nil. rewrite <- He.
    apply elem_of_rows_where. split; [| by exists i].
    unfold same_job_type. autorewrite with reflect. done.
Qed.

Lemma InsertAgentAction_job cfg now a d x d' :
  InsertAgentAction cfg now a d = Ok (x, d') → aa_JobID a ≠ 0 → insertable a = true →
  ∃ hash code payload,
    insert_job_action cfg now a hash code payload d = Ok (x, d') ∧
    aa_Status a ≠ ActionExecuting ∧ (isTerminalActionStatus (aa_Status a) = true → hash = None).
Proof.
  unfold InsertAgentAction, insertable. intros Hd Hj Hins. autorewrite with reflect in Hins.
  destruct Hins as [Hs Hc]. destruct (_ || _); [done |].
  apply op_bind_Ok in Hd as ([hash code] & d1 & Hcode & Hd).
  assert (d1 = d) as ->.
  { revert Hcode. unfold protectApprovalCode, approvalCodeHash. case_bool_decide;
      [by intros [_ ->]%op_ret_Ok |].
    intros (h & d2 & Hh & (e & d3 & [-> _]%seal_opt_Ok & [_ ->]%op_ret_Ok)%op_bind_Ok)%op_bind_Ok.
    apply op_bind_Ok in Hh as (h' & d3 & Hl & [_ ->]%op_ret_Ok). unfold op_lift in Hl.
    destruct (BlindIndexForUser _ _ _); [by apply op_ret_Ok in Hl as [_ ->] | done]. }
  apply op_bind_Ok in Hd as (u & d1 & Hconv & Hd).
  assert (d1 = d) as ->.
  { revert Hconv. destruct (aa_ConversationID a =? 0); [by intros [_ ->]%op_ret_Ok |].
    by intros (c & d2 & [-> _]%GetConversation_Ok & [_ ->]%op_ret_Ok)%op_bind_Ok. }
  apply op_bind_Ok in Hd as (payload & d1 & [-> _]%seal_opt_Ok & Hd).
  destruct (Z.eqb_spec (aa_JobID a) 0); [done |].
  exists hash, code, payload. split_and!; [done | done |]. intros Ht.
  destruct Hc as [?|Hc]; [congruence |]. exact (protectApprovalCode_None _ _ _ _ _ Hcode Hc).
Qed.

(** Inserting an action for a job is idempotent: a worker that retries
    after any history, with any text or verdict for the same job and type, gets
    the id of the first action or an error, and writes nothing. *)
Theorem insert_idempotent cfg h now now' a a' d x d1 y d3 :
  db_inv d → history_ok h → insertable a = true → insertable a' = true → aa_JobID a ≠ 0 →
  aa_JobID a' = aa_JobID a → aa_ActionType a' = aa_ActionType a →
  InsertAgentAction cfg now a d = Ok (x, d1) →
  InsertAgentAction cfg now' a' (play cfg h d1) = Ok (y, d3) →
  y = x ∧ d3 = play cfg h d1.
Proof.
  intros Hi Hh Ha Ha' Hj Hj' Hty H1 H2.
  destruct (InsertAgentAction_safe _ _ _ _ _ _ Ha H1 Hi) as [Hi1 _].
  apply InsertAgentAction_job in H1 as (hash & code & payload & Hins & ? & ?); [| done..].
  apply insert_job_answers in Hins as Hans; [| done..].
  destruct (play_safe cfg h d1 Hh Hi1) as [Hi2 Hle2].
  eapply answers_for_le in Hans; [| exact Hle2]. destruct Hans as (r & Hr & Hid & Hrj & Hrt & _).
  apply InsertAgentAction_job in H2 as (hash' & code' & payload' & Hins2 & _); [| congruence | done].
  unfold insert_job_action in Hins2.
  apply op_bind_Ok in Hins2 as (job & d2 & [-> ->]%op_get_Ok & Hins2).
  apply op_bind_Ok in Hins2 as (ex & d2 & [-> ->]%op_get_Ok & Hins2).
  assert (rows_where (same_job_type (aa_JobID a') (aa_ActionType a')) (d_actions (play cfg h d1)) ≠ [])
    as He.
  { intros He. eapply not_elem_of_nil. rewrite <- He. apply elem_of_rows_where.
    split; [| by exists x]. unfold same_job_type. autorewrite with reflect. split; congruence. }
  assert (∃ r1 l1, filter (λ r, (a_UserID r =? aa_UserID a') = true)
      (rows_where (same_job_type (aa_JobID a') (aa_ActionType a')) (d_actions (play cfg h d1))) = r1 :: l1
      ∧ y = a_ID r1 ∧ d3 = play cfg h d1) as (r1 & l1 & Hf & -> & ->).
  { revert Hins2 He. set (rows := rows_where _ _). intros Hins2 He.
    destruct rows as [|r0 l]; [done |].
    destruct (filter _ (r0 :: l)) as [|r1 l1];
      (destruct (d_jobs _ !! _) as [?|]; [destruct (job_claimed _ _ _ _) |]);
      try done; apply op_ret_Ok in Hins2; by exists r1, l1. }
  destruct (existing_answers _ _ _ _ Hi2 Hf) as (r2 & Hr2 & _ & ? & ? & _).
  split; [| done]. apply (inv_jobs _ Hi2 _ _ r2 r (aa_JobID a)); congruence.
Qed.

(** ** Deleted source messages *)
Lemma of_turn_head j : of_turn (job_head j) j = true.
Proof.
  unfold of_turn, job_head. destruct (j_CoalescedInto j) as [h|]; [| by rewrite Z.eqb_refl].
  destruct (h =? 0); [by rewrite Z.eqb_refl |]. apply orb_true_iff. right.
  by apply bool_decide_eq_true.
Qed.

Lemma change_superseded u (events : gmap Z event_row) d ij j ie e id ev :
  d_events d = events →
  d_jobs d !! ij = Some j → j_UserID j = u → job_head j ≠ 0 →
  events !! ie = Some e → e_UserID e = u → e_EventID e = j_EventID j →
  events !! id = Some ev → e_Kind ev = EventKindMessageDelete → later_change e ev = true →
  jobSourceSuperseded u (job_head j) d = SourceDeleted.
Proof.
  intros <- Hj Hju Hh He Heu Hev Hd Hk Hl. unfold jobSourceSuperseded.
  destruct (Z.eqb_spec (job_head j) 0); [done |].
  set (kinds := change_kinds _ _).
  assert (EventKindMessageDelete ∈ kinds) as Hin.
  { apply list_elem_of_In, in_flat_map. exists e. rewrite <- !list_elem_of_In. split.
    - apply elem_of_rows_where. split; [| by exists ie]. rewrite Heu, Z.eqb_refl. cbn.
      apply bool_decide_eq_true, elem_of_map. exists j. split; [done |].
      apply elem_of_rows_where. split; [| by exists ij]. by rewrite Hju, Z.eqb_refl, of_turn_head.
    - apply elem_of_map. exists ev. split; [done |].
      apply elem_of_rows_where. split; [done | by exists id]. }
  assert (strongest_change kinds = SourceDeleted) as ->; [| done].
  unfold strongest_change. by rewrite bool_decide_eq_true_2.
Qed.

Lemma record_delete_effect now u self chat msg d res d1 :
  recordMessageDeleteInChat now u self chat msg d = Ok (res, d1) → md_Recorded res = 1 →
  let ev := EventRow (d_next d + 1) (deleteEventID self chat msg) u EventKindMessageDelete
              chat chat msg None "{}" now in
  d_events d1 = <[d_next d + 1 := ev]> (d_events d) ∧
  d_actions d1 = update_where (λ r, (a_UserID r =? u) && waiting_status (a_Status r) &&
      for_jobs (heads_of (λ e, (e_ChatTGID e =? chat) && (e_MessageID e =? msg))
        (λ j, j_UserID j =? u) (d <|d_next := d_next d + 1|> <|d_events := d_events d1|>)) r)
    (deny_row now ReasonSourceDeleted) (d_actions d).
Proof.
  unfold recordMessageDeleteInChat. intros (ex & d2 & [-> ->]%op_get_Ok & Hk)%op_bind_Ok Hres.
  destruct (rows_where _ (d_events d)); [| by apply op_ret_Ok in Hk as [-> _]].
  by injection Hk as _ <-.
Qed.

(** C13: deleting a source message stops its replies: every waiting action of the
    message's turn is denied at once, and as long as the recorded events stay,
    no reservation for that turn succeeds again. *)
Theorem delete_stops_replies now u self chat msg d res d1 ij j ie e :
  recordMessageDeleteInChat now u self chat msg d = Ok (res, d1) → md_Recorded res = 1 →
  d_jobs d !! ij = Some j → j_UserID j = u → j_EventID j = e_EventID e → job_head j ≠ 0 →
  d_events d !! ie = Some e → e_UserID e = u → e_ChatTGID e = chat → e_MessageID e = msg →
  e_ID e ≤ d_next d → ie ≤ d_next d →
  (∀ id r, d_actions d !! id = Some r → a_UserID r = u → a_JobID r = Some (job_head j) →
     waiting_status (a_Status r) = true →
     d_actions d1 !! id = Some (deny_row now ReasonSourceDeleted r)) ∧
  (∀ d2 now' a rid body mt mm window enf d3,
     d_events d1 ⊆ d_events d2 → d_jobs d2 !! ij = Some j →
     aa_UserID a = u → aa_JobID a = job_head j →
     ReserveAgentActionSend now' a rid body mt mm window enf d2 ≠ Ok (true, d3)).
Proof.
  intros Hrec Hres Hj Hju Hje Hh He Heu <- <- Hle Hlek.
  destruct (record_delete_effect _ _ _ _ _ _ _ _ Hrec Hres) as [Hev Hact].
  set (ev := EventRow _ _ _ _ _ _ _ _ _ _) in *.
  assert (d_events d1 !! ie = Some e) as He1.
  { rewrite Hev, lookup_insert_ne; [done | lia]. }
  split.
  - intros id r Hr Hu Hrj Hw. rewrite Hact, lookup_update_where, Hr. cbn.
    rewrite Hu, Z.eqb_refl, Hw. cbn. unfold for_jobs. rewrite Hrj, bool_decide_eq_true_2; [done |].
    unfold heads_of. apply elem_of_map. exists j. split; [done |].
    apply elem_of_rows_where. split; [| by exists ij].
    rewrite Hju, Z.eqb_refl. cbn [andb]. apply bool_decide_eq_true, elem_of_map.
    exists e. split; [done |]. apply elem_of_rows_where. split; [| by exists ie].
    rewrite Heu, !Z.eqb_refl. done.
  - intros * Hsub Hj2 Ha Haj Hok. apply Reserve_true in Hok
      as (_ & _ & _ & _ & _ & _ & _ & _ & _ & _ & _ & _ & _ & Hs & _).
    rewrite Ha, Haj in Hs. erewrite change_superseded in Hs; [done | reflexivity | done.. | | | | | |].
    + by eapply lookup_weaken.
    + done.
    + done.
    + eapply lookup_weaken; [| exact Hsub]. rewrite Hev. apply lookup_insert_eq.
    + done.
    + unfold later_change. subst ev. cbn. rewrite Heu, !Z.eqb_refl. cbn.
      apply andb_true_iff. split; [| done]. apply Z.ltb_lt. lia.
Qed.
End facts.

(** ** Witnesses *)
Module Witnesses.
Import ActionsProps.Witnesses.
#[local] Existing Instance pair_sealer.

Definition approval : history :=
  arrival ++ [(20, CallUpdateStatus 1 1 ActionPendingApproval ActionApproved)].
Lemma approved_inv : db_inv (play cfg approval empty_db).
Proof. apply play_safe; [repeat constructor; discriminate | apply empty_db_inv]. Defined.
Lemma arrived_inv : db_inv (play cfg arrival empty_db).
Proof. apply play_safe; [apply arrival_ok | apply empty_db_inv]. Defined.

Lemma reserve_within_budget_witness :
  ∃ d', ReserveAgentActionSend 30 (action 1 ActionApproved) 77 "Thursday works" 6 2 0 true
          (play cfg approval empty_db) = Ok (true, d') ∧
        recent_sends 100 0 d' ≤ 2.
Proof.
  assert (∃ d', ReserveAgentActionSend 30 (action 1 ActionApproved) 77 "Thursday works" 6 2 0 true
    (play cfg approval empty_db) = Ok (true, d')) as (d' & Hd).
  { eexists. vm_compute. reflexivity. }
  exists d'. split; [exact Hd |].
  destruct (reserve_within_budget 30 (action 1 ActionApproved) 77 "Thursday works" 6 2 0 _ d'
    approved_inv eq_refl Hd) as (c & c' & r' & _ & _ & _ & _ & _ & Hle & _). by apply Hle.
Defined.

Lemma recorded_once_witness :
  ∃ d1, RecordAgentActionSent 50 1 1 100 9000 "Thursday works" (play cfg reservation empty_db)
          = Ok (true, d1) ∧
        RecordAgentActionSent 60 1 1 100 9001 "Thursday works" d1 = Ok (false, d1).
Proof.
  destruct (answer_then (RecordAgentActionSent 50 1 1 100 9000 "Thursday works")
    (answer (RecordAgentActionSent 60 1 1 100 9001 "Thursday works")) (play cfg reservation empty_db) true
    (Some false) ltac:(vm_compute; reflexivity)) as (d1 & H1 & (d3 & H2)%answer_Some).
  exists d1. split; [exact H1 |].
  destruct (recorded_once cfg [] 50 1 1 100 9000 "Thursday works" _ d1 reserved_inv
    (Forall_nil_2 _) H1) as (_ & Hrec & _).
  destruct (Hrec 60 1 100 9001 "Thursday works" false d3 H2) as [_ ->]. exact H2.
Defined.

Lemma insert_idempotent_witness :
  InsertAgentAction cfg 99 (action 0 ActionProposed) (play cfg reservation (play cfg arrival empty_db))
    = Ok (1, play cfg reservation (play cfg arrival empty_db)).
Proof.
  assert (∃ y d3, InsertAgentAction cfg 99 (action 0 ActionProposed)
    (play cfg reservation (play cfg arrival empty_db)) = Ok (y, d3)) as (y & d3 & Hy)
    by (eexists _, _; vm_compute; reflexivity).
  rewrite Hy.
  assert (InsertAgentAction cfg 10 (action 0 ActionPendingApproval) (setup empty_db)
    = Ok (1, play cfg arrival empty_db)) as H1 by (vm_compute; reflexivity).
  assert (db_inv (setup empty_db)) as Hi by exact (proj1 (frame_safe empty_db (setup empty_db) eq_refl eq_refl empty_db_inv)).
  assert (aa_JobID (action 0 ActionPendingApproval) ≠ 0) as Hj by (vm_compute; discriminate).
  destruct (insert_idempotent cfg reservation 10 99 (action 0 ActionPendingApproval)
    (action 0 ActionProposed) (setup empty_db) 1 (play cfg arrival empty_db) y d3
    Hi reservation_ok eq_refl eq_refl Hj eq_refl eq_refl H1 Hy) as [-> ->].
  reflexivity.
Defined.

Lemma delete_stops_replies_witness :
  ∃ res d1, recordMessageDeleteInChat 40 1 1 500 7 (play cfg approval empty_db) = Ok (res, d1) ∧
    (∃ r, d_actions d1 !! 1 = Some (deny_row 40 ReasonSourceDeleted r)) ∧
    ∀ d3, ReserveAgentActionSend 50 (action 1 ActionApproved) 77 "Thursday works" 6 2 0 false d1
            ≠ Ok (true, d3).
Proof.
  set (d0 := play cfg approval empty_db).
  assert (∃ r j e, d_actions d0 !! 1 = Some r ∧ d_jobs d0 !! 101 = Some j ∧ d_events d0 !! 0 = Some e)
    as (r & j & e & Hr & Hj & He) by (eexists _, _, _; split_and!; vm_compute; reflexivity).
  assert (a_UserID r = 1 ∧ a_JobID r = Some (job_head j) ∧ waiting_status (a_Status r) = true ∧ j_UserID j = 1 ∧
    j_EventID j = e_EventID e ∧ job_head j = 101 ∧ e_UserID e = 1 ∧ e_ChatTGID e = 500 ∧ e_MessageID e = 7 ∧
    e_ID e = 0) as (Hru & Hrj & Hw & Hju & Hje & Hh & Heu & Hec & Hem & Hid).
  { vm_compute in Hr, Hj, He. injection Hr as <-. injection Hj as <-. injection He as <-.
    split_and!; reflexivity. }
  destruct (answer_then (recordMessageDeleteInChat 40 1 1 500 7) (λ d, d_jobs d !! 101) d0
    (MkMessageDeleteResult 1 1 0 0) (d_jobs d0 !! 101) ltac:(vm_compute; reflexivity)) as (d1 & Hd & Hj1).
  rewrite Hj in Hj1. set (res := MkMessageDeleteResult 1 1 0 0) in Hd. pose proof (eq_refl : md_Recorded res = 1) as Hres.
  exists res, d1. split; [exact Hd |].
  assert (job_head j ≠ 0) as Hh0 by (rewrite Hh; discriminate).
  assert (e_ID e ≤ d_next d0) as Hle
    by (rewrite Hid; vm_compute; discriminate).
  assert (0 ≤ d_next d0) as Hle0 by (vm_compute; discriminate).
  destruct (delete_stops_replies 40 1 1 500 7 _ res d1 101 j 0 e Hd Hres Hj Hju Hje Hh0 He Heu Hec
    Hem Hle Hle0) as [Hdeny Hblock].
  split; [exists r; exact (Hdeny 1 r Hr Hru Hrj Hw) |].
  intros d3. apply Hblock; [reflexivity | exact Hj1 | reflexivity | rewrite Hh; reflexivity].
Defined.
End Witnesses.
