(* ===== verification/JobsProps.v ===== *)
(** * The queue's invariant

    One job of a conversation in flight at a time, no job tried more often than
    allowed, and an attempt log that matches the claims: proved for every
    statement of [Jobs] and so for every history of calls. *)

From S2P Require Import Prelude GoString Rows Tables Outbox Actions ActionsFacts Turn Jobs.

(** ** The retry schedule *)
Lemma backoff_loop_spec n d :
  0 < d ≤ 30 * Minute → backoff_loop n d = Z.min (30 * Minute) (d * 2 ^ Z.of_nat n).
Proof.
  revert d. induction n as [|n IH]; intros d Hd; cbn [backoff_loop].
  - change (2 ^ Z.of_nat 0) with 1. lia.
  - rewrite Nat2Z.inj_succ, Z.pow_succ_r by lia. pose proof (Z.pow_pos_nonneg 2 (Z.of_nat n)).
    destruct (Z.leb_spec (30 * Minute) (d * 2)); [| rewrite IH by lia; f_equal; lia]. nia.
Qed.

Lemma AgentJobBackoff_eq n :
  AgentJobBackoff n = Z.min (30 * Minute) (30 * Second * 2 ^ (Z.max n 1 - 1)).
Proof.
  unfold AgentJobBackoff. rewrite backoff_loop_spec by (unfold Minute, Second, Millisecond; lia).
  do 2 f_equal. destruct (Z.ltb_spec n 1); f_equal; lia.
Qed.
Lemma AgentJobBackoff_range n : 30 * Second ≤ AgentJobBackoff n ≤ 30 * Minute.
Proof.
  rewrite AgentJobBackoff_eq. pose proof (Z.pow_pos_nonneg 2 (Z.max n 1 - 1)).
  unfold Minute, Second, Millisecond. lia.
Qed.

(** The retry delay is 30 seconds doubled per failed attempt and at most 30
    minutes, for every attempt count, and so far below the [int64] bound. *)
Theorem AgentJobBackoff_spec n :
  AgentJobBackoff n = Z.min (30 * Minute) (30 * Second * 2 ^ (Z.max n 1 - 1)) ∧
  30 * Second ≤ AgentJobBackoff n ≤ 30 * Minute ∧ 30 * Minute < int64_max.
Proof. split_and!; [apply AgentJobBackoff_eq | apply AgentJobBackoff_range.. | done]. Qed.

Section props.
Context `{Sealer}.
Local Open Scope op_scope.

(** ** The invariant *)

(** The counts of a job. *)
Record job_ok (j : job_row) : Prop := {
  jo_nonneg : 0 ≤ j_Attempts j;
  jo_pending : j_Status j = JobPending → j_Attempts j < j_MaxAttempts j;
  jo_processing : j_Status j = JobProcessing → 0 < j_Attempts j ≤ j_MaxAttempts j;
}.

(** Between the statements of one transaction: [late] jobs have left
    processing but their attempt may still be open, [new] ones have been claimed
    but have no attempt yet. *)
Record queue_at (late new : Z → Prop) (d : DB) : Prop := {
  qa_id i j : d_jobs d !! i = Some j → j_ID j = i ∧ i ≤ d_next d ∧ job_ok j;
  qa_attempt_id k t : d_attempts d !! k = Some t → t_ID t = k ∧ k ≤ d_next d;
  qa_exclusive i i' j j' c : d_jobs d !! i = Some j → d_jobs d !! i' = Some j' →
    j_Status j = JobProcessing → j_Status j' = JobProcessing →
    j_ConversationID j = Some c → j_ConversationID j' = Some c → i = i';
  qa_open k t : d_attempts d !! k = Some t → t_FinishedAt t = None →
    ¬ new (t_JobID t) ∧
    (late (t_JobID t) ∨ ∃ j, d_jobs d !! t_JobID t = Some j ∧ j_Status j = JobProcessing ∧
                              j_Attempts j = t_Attempt t);
  qa_open_unique k k' t t' : d_attempts d !! k = Some t → d_attempts d !! k' = Some t' →
    t_FinishedAt t = None → t_FinishedAt t' = None → t_JobID t = t_JobID t' → k = k';
  qa_claimed i j : d_jobs d !! i = Some j → j_Status j = JobProcessing →
    ¬ late i ∧ (new i ∨ ∃ k t, d_attempts d !! k = Some t ∧ t_FinishedAt t = None ∧ t_JobID t = i);
}.
Definition nobody (i : Z) : Prop := False.
Definition queue_inv : DB → Prop := queue_at nobody nobody.

Lemma queue_frame late new d d' :
  d_jobs d' = d_jobs d → d_attempts d' = d_attempts d → d_next d ≤ d_next d' →
  queue_at late new d → queue_at late new d'.
Proof.
  intros Hj Ha Hn []. constructor; rewrite ?Hj, ?Ha; eauto.
  - intros i j Hi. destruct (qa_id0 _ _ Hi) as (? & ? & ?). split_and!; [done | lia | done].
  - intros k t Hk. destruct (qa_attempt_id0 _ _ Hk). split; [done | lia].
Qed.

(** Jobs that leave processing, or change nothing the invariant reads. *)
Definition settles (j j' : job_row) : Prop :=
  j_ID j' = j_ID j ∧ j_ConversationID j' = j_ConversationID j ∧ job_ok j' ∧
  (j_Status j' ≠ JobProcessing ∨ j_Status j' = j_Status j ∧ j_Attempts j' = j_Attempts j).

Lemma queue_settle (late late' new : Z → Prop) d t :
  queue_at late new d →
  (∀ i, t !! i = d_jobs d !! i ∨
     ∃ j j', d_jobs d !! i = Some j ∧ t !! i = Some j' ∧ settles j j') →
  (∀ i, late i → late' i) →
  (∀ i j', t !! i = Some j' → j_Status j' = JobProcessing → ¬ late' i) →
  (∀ i j j', d_jobs d !! i = Some j → t !! i = Some j' → j_Status j = JobProcessing →
     j_Status j' ≠ JobProcessing → late' i) →
  queue_at late' new (d <|d_jobs := t|>).
Proof.
  intros [Hid Haid Hex Hop Hun Hcl] Ht Hlate Hstay Hleave.
  assert (Hback : ∀ i j', t !! i = Some j' → ∃ j, d_jobs d !! i = Some j ∧ j_ID j = i ∧ i ≤ d_next d ∧
    j_ID j' = i ∧ j_ConversationID j' = j_ConversationID j ∧ job_ok j' ∧
    (j_Status j' = JobProcessing → j_Status j = JobProcessing)).
  { intros i j' Hi. destruct (Ht i) as [He|(j & j2 & Hj & Hj2 & S1 & S2 & S3 & S4)].
    - rewrite Hi in He. symmetry in He. destruct (Hid _ _ He) as (? & ? & ?). exists j'. by split_and!.
    - simplify_eq. destruct (Hid _ _ Hj) as (? & ? & ?). exists j.
      split_and!; try done; [congruence |]. by destruct S4 as [?|[-> ?]]. }
  constructor; cbn.
  - intros i j' (j & _ & _ & ? & ? & _ & ? & _)%Hback. done.
  - done.
  - intros i i' j1 j2 c (k1 & Hk1 & _ & _ & _ & C1 & _ & P1)%Hback
      (k2 & Hk2 & _ & _ & _ & C2 & _ & P2)%Hback S1 S2 E1 E2.
    eapply (Hex i i' k1 k2 c); [done | done | by apply P1 | by apply P2 | congruence | congruence].
  - intros k a Hk Ha. destruct (Hop _ _ Hk Ha) as [Hn Hor]. split; [done |].
    destruct Hor as [?|(j & Hj & Hs & Hatt)]; [left; by apply Hlate |].
    destruct (Ht (t_JobID a)) as [He|(j1 & j' & Hj1 & Hj' & _ & _ & _ & Hst)].
    + right. exists j. by rewrite He.
    + simplify_eq. destruct Hst as [Hst|[Hs1 Ha1]]; [left; by eapply Hleave |].
      right. exists j'. split_and!; [done | congruence | congruence].
  - done.
  - intros i j' Hi Hs. split; [by eapply Hstay |].
    destruct (Hback _ _ Hi) as (j & Hj & _ & _ & _ & _ & _ & Hp). by apply (Hcl _ _ Hj), Hp.
Qed.

(** Attempts of late jobs are closed or removed. *)
Lemma queue_close (late late' new : Z → Prop) d t :
  queue_at late new d →
  (∀ k, t !! k = d_attempts d !! k ∨ ∃ a, d_attempts d !! k = Some a ∧ late (t_JobID a) ∧
     (t !! k = None ∨ ∃ a', t !! k = Some a' ∧ t_ID a' = t_ID a ∧ t_FinishedAt a' ≠ None)) →
  (∀ i, late' i → late i) →
  (∀ k a, t !! k = Some a → t_FinishedAt a = None → late (t_JobID a) → late' (t_JobID a)) →
  queue_at late' new (d <|d_attempts := t|>).
Proof.
  intros [Hid Haid Hex Hop Hun Hcl] Ht Hsub Hopen.
  assert (Hback : ∀ k a, t !! k = Some a → t_FinishedAt a = None → d_attempts d !! k = Some a).
  { intros k a Hk Ha. destruct (Ht k) as [<-|(b & Hb & _ & [?|(a' & ? & _ & ?)])]; [done | | ];
      congruence. }
  constructor; cbn; [done | | done | | |].
  - intros k a Hk. destruct (Ht k) as [He|(b & Hb & _ & [?|(a' & ? & Hi & _)])].
    + apply Haid. congruence.
    + congruence.
    + simplify_eq. rewrite Hi. by apply Haid.
  - intros k a Hk Ha. destruct (Hop _ _ (Hback _ _ Hk Ha) Ha) as [Hn [Hl|Hj]]; [| by split; [| right]].
    split; [done |]. left. by eapply Hopen.
  - intros k k' a a' Hk Hk' Ha Ha'. by apply (Hun k k' a a'); [apply Hback | apply Hback | |].
  - intros i j Hj Hs. destruct (Hcl _ _ Hj Hs) as [Hnl [?|(k & a & Hk & Ha & Hi)]].
    + split; [by intros ?%Hsub | by left].
    + split; [by intros ?%Hsub | right]. exists k, a. destruct (Ht k) as [->|(b & Hb & Hl & _)]; [done |].
      by simplify_eq.
Qed.

Lemma queue_ext (late late' new new' : Z → Prop) d :
  (∀ i, late i ↔ late' i) → (∀ i, new i ↔ new' i) → queue_at late new d → queue_at late' new' d.
Proof.
  intros Hl Hn []. constructor; try done.
  - intros k t Hk Ht. rewrite <- Hn, <- Hl. by eapply qa_open0.
  - intros i j Hj Hs. rewrite <- Hn, <- Hl. by eapply qa_claimed0.
Qed.

(** ** Postconditions *)
Definition ensures {A} (P : DB → Prop) (m : op A) (Q : A → DB → Prop) : Prop :=
  ∀ d x d', m d = Ok (x, d') → P d → Q x d'.

Lemma ensures_bind {A B} P (m : op A) R (k : A → op B) Q :
  ensures P m R → (∀ a, ensures (R a) (k a) Q) → ensures P (op_bind m k) Q.
Proof. intros Hm Hk d x d' (a & d1 & H1 & H2)%op_bind_Ok HP. by eapply Hk, Hm. Qed.
Lemma ensures_ret {A} (P : DB → Prop) (a : A) : ensures P (op_ret a) (λ x d, x = a ∧ P d).
Proof. by intros d x d' [-> ->]%op_ret_Ok HP. Qed.
Lemma ensures_get {A} (P : DB → Prop) (f : DB → A) : ensures P (op_get f) (λ x d, x = f d ∧ P d).
Proof. by intros d x d' [-> ->]%op_get_Ok HP. Qed.
Lemma ensures_err {A} P e (Q : A → DB → Prop) : ensures P (op_err e) Q.
Proof. done. Qed.
Lemma ensures_weaken {A} (P P' : DB → Prop) (m : op A) (Q Q' : A → DB → Prop) :
  ensures P m Q → (∀ d, P' d → P d) → (∀ x d, Q x d → Q' x d) → ensures P' m Q'.
Proof. intros Hm HP HQ d x d' Hd Hpre. by eapply HQ, Hm; [| apply HP]. Qed.

(** The operation keeps the invariant. *)
Definition keeps {A} (m : op A) : Prop := ensures queue_inv m (λ _, queue_inv).

Lemma keeps_bind {A B} (m : op A) (k : A → op B) :
  keeps m → (∀ a, keeps (k a)) → keeps (op_bind m k).
Proof. apply ensures_bind. Qed.

(** Operations that touch neither jobs nor attempts. *)
Definition neutral {A} (m : op A) : Prop := ∀ d x d', m d = Ok (x, d') →
  d_jobs d' = d_jobs d ∧ d_attempts d' = d_attempts d ∧ d_next d ≤ d_next d'.

Lemma neutral_bind {A B} (m : op A) (k : A → op B) :
  neutral m → (∀ a, neutral (k a)) → neutral (op_bind m k).
Proof.
  intros Hm Hk d x d' (a & d1 & H1 & H2)%op_bind_Ok.
  destruct (Hm _ _ _ H1) as (? & ? & ?), (Hk _ _ _ _ H2) as (? & ? & ?).
  split_and!; [congruence | congruence | lia].
Qed.
Lemma neutral_ret {A} (a : A) : neutral (op_ret a).
Proof. by intros d x d' [= <- <-]. Qed.
Lemma neutral_get {A} (f : DB → A) : neutral (op_get f).
Proof. by intros d x d' [= <- <-]. Qed.
Lemma neutral_err {A} e : neutral (op_err e : op A).
Proof. done. Qed.
Lemma neutral_fresh : neutral fresh_id.
Proof. intros d x d' [= <- <-]. cbn. split_and!; [done | done | lia]. Qed.
Lemma neutral_modify (f : DB → DB) :
  (∀ d, d_jobs (f d) = d_jobs d ∧ d_attempts (f d) = d_attempts d ∧ d_next d ≤ d_next (f d)) →
  neutral (op_modify f).
Proof. by intros Hf d x d' [= <- <-]. Qed.

Lemma neutral_queue {A} late new (m : op A) :
  neutral m → ensures (queue_at late new) m (λ _, queue_at late new).
Proof. intros Hm d x d' (? & ? & ?)%Hm. by apply queue_frame. Qed.
End props.

#[export] Hint Resolve neutral_ret neutral_get neutral_err neutral_fresh : neutral.
Ltac neutral_steps :=
  repeat match goal with
  | |- neutral (op_bind _ _) => apply neutral_bind; [| intros ?]
  | |- neutral (op_modify _) => apply neutral_modify; intros d; repeat case_match; done
  | |- neutral (if ?b then _ else _) => destruct b
  | |- neutral (match ?x with _ => _ end) => destruct x
  | |- neutral (let _ := _ in _) => cbv zeta
  end; auto with neutral.
