(* ===== verification/JobsQueue.v ===== *)
(** * Every queue statement keeps the invariant

    The invariant of [JobsProps] through enqueue, claim, the ends of an attempt
    and the sweeps; then the theorems on histories of calls and on stale
    workers. *)

From S2P Require Import Prelude GoString Rows Tables Outbox Actions ActionsFacts Turn Jobs Ingest JobsProps.

Section queue.
Context `{Sealer}.
Local Open Scope op_scope.

(** ** Routing and enqueueing *)
Lemma routeJobEventTx_neutral cfg now job reason : neutral (routeJobEventTx cfg now job reason).
Proof.
  assert (∀ u e r, neutral (insertRoutedOutboxTx cfg now u e r)) as Hins.
  { intros. unfold insertRoutedOutboxTx, insertOutboxReasonTx. neutral_steps. }
  assert (∀ srcs w, neutral (route_all cfg now reason srcs w)) as Hall.
  { induction srcs as [|j srcs IH]; intros w; cbn; [apply neutral_ret |].
    apply neutral_bind; [apply Hins | intros; apply IH]. }
  unfold routeJobEventTx. neutral_steps.
Qed.
#[local] Hint Resolve routeJobEventTx_neutral : neutral.
Lemma route_if_neutral cfg b now job reason : neutral (route_if cfg b now job reason).
Proof. unfold route_if. neutral_steps. Qed.
Lemma route_jobs_neutral cfg now ids reason : neutral (route_jobs cfg now ids reason).
Proof. induction ids as [|i ids IH]; cbn; neutral_steps. Qed.
Lemma GetConversation_neutral u c : neutral (GetConversation u c).
Proof. unfold GetConversation. neutral_steps. Qed.
#[local] Hint Resolve route_if_neutral route_jobs_neutral GetConversation_neutral : neutral.
Lemma own_conversation_neutral u c : neutral (own_conversation u c).
Proof. unfold own_conversation. neutral_steps. Qed.
Lemma InsertIncomingEvent_neutral now ev : neutral (InsertIncomingEvent now ev).
Proof. unfold InsertIncomingEvent, seal_opt, op_lift. neutral_steps. Qed.
#[local] Hint Resolve own_conversation_neutral InsertIncomingEvent_neutral : neutral.

Lemma queue_fresh late new d : queue_at late new d → queue_at late new (d <|d_next := d_next d + 1|>).
Proof. apply queue_frame; cbn; [done | done | lia]. Qed.

Lemma insert_job_keeps now e u c b : keeps (insert_job now e u c b).
Proof.
  intros d x d' Hd [Hid Haid Hex Hop Hun Hcl]. unfold insert_job in Hd. injection Hd as _ <-.
  assert (Hnew : ∀ j, d_jobs d !! (d_next d + 1) = Some j → False).
  { intros j Hj. destruct (Hid _ _ Hj) as (_ & ? & _). lia. }
  constructor; cbn.
  - intros i j [[<- <-]|[_ Hj]]%lookup_insert_Some; cbn.
    + split_and!; [done | done | by constructor].
    + destruct (Hid _ _ Hj) as (? & ? & ?). split_and!; [done | lia | done].
  - intros k t Hk. destruct (Haid _ _ Hk). split; [done | lia].
  - intros i i' j j' cv [[<- <-]|[_ Hj]]%lookup_insert_Some [[<- <-]|[_ Hj']]%lookup_insert_Some;
      cbn; intros; try done. by eapply Hex.
  - intros k t Hk Ht. destruct (Hop _ _ Hk Ht) as [? [[]|(j & Hj & ?)]]. split; [done | right].
    exists j. rewrite lookup_insert_ne; [done |]. intros He. apply (Hnew j). by rewrite He.
  - done.
  - intros i j [[<- <-]|[_ Hj]]%lookup_insert_Some; cbn; [done |]. by apply Hcl.
Qed.

Lemma neutral_keeps {A} (m : op A) : neutral m → keeps m.
Proof. apply neutral_queue. Qed.

Ltac keeps_steps :=
  repeat match goal with
  | |- keeps (op_bind _ _) => apply keeps_bind; [| intros ?]
  | |- keeps (if ?b then _ else _) => destruct b
  | |- keeps (match ?x with _ => _ end) => destruct x
  | |- keeps (let _ := _ in _) => cbv zeta
  | |- keeps _ => solve [apply neutral_keeps; auto with neutral]
  end.

Lemma EnqueueAgentJob_keeps now e u c : keeps (EnqueueAgentJob now e u c).
Proof. unfold EnqueueAgentJob. keeps_steps. apply insert_job_keeps. Qed.
Lemma InsertEventAndEnqueueJob_keeps now ev c : keeps (InsertEventAndEnqueueJob now ev c).
Proof. unfold InsertEventAndEnqueueJob. keeps_steps. apply insert_job_keeps. Qed.

(** ** Ending an attempt *)
Definition only (id : Z) (i : Z) : Prop := i = id.

(** The update an end of an attempt makes of a row. *)
Definition ends (f : job_row → job_row) (j : job_row) : Prop :=
  j_Status j = JobProcessing ∧ settles j (f j) ∧ j_Status (f j) ≠ JobProcessing.

Lemma cas_job_Ok p f id d x d' :
  cas_job p f id d = Ok (x, d') ↔
  ∃ j, d_jobs d !! id = Some j ∧ p d j = true ∧ d' = d <|d_jobs := <[id := f j]> (d_jobs d)|>.
Proof.
  unfold cas_job. destruct (update_row (p d) f id (d_jobs d)) as [t|] eqn:E.
  - apply update_row_Some in E as (j & Hj & Hp & ->). split.
    + intros [= _ <-]. by exists j.
    + intros (j' & Hj' & _ & ->). destruct x. by simplify_eq.
  - split; [done |]. intros (j & Hj & Hp & _). unfold update_row in E. by rewrite Hj, Hp in E.
Qed.

Lemma cas_job_queue p f id d x d' :
  cas_job p f id d = Ok (x, d') → queue_inv d →
  (∀ j, d_jobs d !! id = Some j → p d j = true → job_ok j → ends f j) →
  queue_at (only id) nobody d'.
Proof.
  intros (j & Hj & Hp & ->)%cas_job_Ok Hq Hf. destruct (qa_id _ _ _ Hq _ _ Hj) as (Hi & _ & Hok).
  destruct (Hf _ Hj Hp Hok) as (Hs & Hset & Hs'). eapply queue_settle; [exact Hq | | done | |].
  - intros i. destruct (decide (i = id)) as [->|]; [| left; by rewrite lookup_insert_ne].
    right. exists j, (f j). by rewrite lookup_insert_eq.
  - intros i j' Hj' Hpr ->. rewrite lookup_insert_eq in Hj'. by simplify_eq.
  - intros i j0 j' Hj0 Hj' H0 H1. destruct (decide (i = id)) as [->|]; [done |].
    rewrite lookup_insert_ne in Hj' by done. by simplify_eq.
Qed.

Lemma open_of_job late new id d t :
  queue_at late new d → last (rows_where (is_open id) (d_attempts d)) = Some t →
  d_attempts d !! t_ID t = Some t ∧ t_JobID t = id ∧ t_FinishedAt t = None.
Proof.
  intros Hq [l Hl]%last_Some.
  assert (t ∈ rows_where (is_open id) (d_attempts d)) as (Hp & k & Hk)%elem_of_rows_where
    by (rewrite Hl; set_solver).
  unfold is_open in Hp. autorewrite with reflect in Hp. destruct Hp.
  by destruct (qa_attempt_id _ _ _ Hq _ _ Hk) as [-> _].
Qed.

Lemma finish_queue now id status note :
  ensures (queue_at (only id) nobody) (finishOpenAttempt now id status note) (λ _, queue_inv).
Proof.
  intros d x d' Hd Hq. unfold finishOpenAttempt, op_modify in Hd.
  destruct (last (rows_where (is_open id) (d_attempts d))) as [t|] eqn:El; injection Hd as _ <-.
  - destruct (open_of_job _ _ _ _ _ Hq El) as (Ht & Hid & Hopen).
    eapply queue_close; [exact Hq | | done |].
    + intros k. rewrite lookup_update_where. destruct (d_attempts d !! k) as [a|] eqn:Ea; [| by left].
      cbn. destruct (Z.eqb_spec (t_ID a) (t_ID t)) as [He|]; [| by left]. right.
      destruct (qa_attempt_id _ _ _ Hq _ _ Ea) as [<- _]. rewrite He in Ea. simplify_eq.
      exists t. split_and!; [done | done | right]. eexists. by split.
    + intros k a Hk Ha Hi. exfalso. rewrite lookup_update_where in Hk.
      destruct (d_attempts d !! k) as [b|] eqn:Eb; [| done]. cbn in Hk. injection Hk as <-.
      destruct (qa_attempt_id _ _ _ Hq _ _ Eb) as [Hkb _].
      destruct (Z.eqb_spec (t_ID b) (t_ID t)) as [|Hne]; [done |]. apply Hne. rewrite Hkb.
      eapply (qa_open_unique _ _ _ Hq k (t_ID t) b t); [done | done | done | done |].
      unfold only in Hi. congruence.
  - apply last_None in El.
    destruct Hq as [? ? ? Hop ? Hcl]. constructor; try done.
    + intros k a Hk Ha. destruct (Hop _ _ Hk Ha) as [? [Hi|?]]; [| by split; [| right]]. exfalso.
      eapply not_elem_of_nil. rewrite <- El. apply elem_of_rows_where. split; [| by exists k].
      unfold is_open, only in *. rewrite Hi, Z.eqb_refl. cbn. by apply bool_decide_eq_true.
    + intros i j Hj Hs. destruct (Hcl _ _ Hj Hs) as [_ ?]. split; [by intros [] | done].
Qed.

(** The rest of an end: the attempt and the route. *)
Lemma rest_queue cfg now id status note b reason :
  ensures (queue_at (only id) nobody)
    (do* finishOpenAttempt now id status note in route_if cfg b now id reason) (λ _, queue_inv).
Proof.
  eapply ensures_bind; [apply finish_queue |]. intros ?. apply neutral_queue. neutral_steps.
Qed.

Lemma end_keeps {A} (m : op A) p f id :
  (∀ d j, p d j = true → job_ok j → ends f j) →
  ensures (queue_at (only id) nobody) m (λ _, queue_inv) →
  keeps (do* cas_job p f id in m).
Proof.
  intros Hf Hm. eapply ensures_bind; [| intros ?; exact Hm].
  intros d x d' Hd Hq. eapply cas_job_queue; [done | done |]. intros j _. apply Hf.
Qed.

Lemma claimed_as_spec attempt j :
  claimed_as attempt j = true ↔ j_Status j = JobProcessing ∧ j_Attempts j = attempt.
Proof. unfold claimed_as. by autorewrite with reflect. Qed.

Lemma closing_ends (f : job_row → job_row) status :
  closing status = true →
  (∀ j, j_Status (f j) = status ∧ j_ID (f j) = j_ID j ∧ j_Attempts (f j) = j_Attempts j ∧
        j_ConversationID (f j) = j_ConversationID j) →
  ∀ j, j_Status j = JobProcessing → job_ok j → ends f j.
Proof.
  intros Hc Hf j Hs [H1 _ _]. destruct (Hf j) as (Es & Ei & Ea & Ec).
  assert (j_Status (f j) ≠ JobProcessing) by (rewrite Es; by destruct status).
  split_and!; try done. split_and!; try done; [| by left].
  constructor; rewrite ?Es, ?Ea; try done; by destruct status.
Qed.

Lemma CompleteAgentJob_keeps cfg now id attempt status note :
  keeps (CompleteAgentJob cfg now id attempt status note).
Proof.
  unfold CompleteAgentJob. destruct (closing status) eqn:Hc; [| done].
  apply end_keeps; [| apply rest_queue]. intros d j [[? _]%claimed_as_spec _]%andb_true_iff.
  by apply (closing_ends _ status).
Qed.

Lemma op_require_neutral b e : neutral (op_require b e).
Proof. unfold op_require. neutral_steps. Qed.
#[local] Hint Resolve op_require_neutral : neutral.

Lemma CompleteAgentJobWithResult_keeps cfg now u id attempt status note action lead :
  keeps (CompleteAgentJobWithResult cfg now u id attempt status note action lead).
Proof.
  unfold CompleteAgentJobWithResult. destruct (u <=? 0); [done |].
  destruct (closing status) eqn:Hc; [| done]. cbn [negb].
  destruct (_ || _); [done |]. destruct (_ && _ && _); [done |]. destruct (negb _ && _); [done |].
  do 4 (apply keeps_bind; [keeps_steps | intros ?]). apply end_keeps; [| apply rest_queue].
  intros d j Hp. unfold claimed_as in Hp. autorewrite with reflect in Hp. destruct_and!.
  by apply (closing_ends _ status).
Qed.

Lemma RetryAgentJob_keeps cfg now id attempt msg : keeps (RetryAgentJob cfg now id attempt msg).
Proof.
  intros d x d' (jobs & d1 & [-> ->]%op_get_Ok & Hd)%op_bind_Ok Hq.
  destruct (d_jobs d !! id) as [j|] eqn:Hj; [| done]. destruct (negb _); [done |].
  apply op_bind_Ok in Hd as (a & d1 & Hcas & Hd).
  apply op_bind_Ok in Hd as (b & d2 & Hfin & (c & d3 & Hrt & [_ ->]%op_ret_Ok)%op_bind_Ok).
  assert (queue_at (only id) nobody d1) as Hq1.
  { eapply cas_job_queue; [done | done |]. intros j0 Hj0 [? _]%claimed_as_spec [? ? Hok].
    simplify_eq. destruct (Z.leb_spec (j_MaxAttempts j) (j_Attempts j));
      (split_and!; [done | | done]; split_and!; [done | done | constructor; cbn | left]; try done). }
  pose proof (finish_queue _ _ _ _ _ _ _ Hfin Hq1) as Hq2.
  refine (neutral_queue _ _ _ (route_if_neutral _ _ _ _ _) _ _ _ Hrt Hq2).
Qed.

Lemma ReleaseUnissuedClaim_keeps now id attempt replica :
  keeps (ReleaseUnissuedClaim now id attempt replica).
Proof.
  intros d x d' (a & d1 & Hcas & Hd)%op_bind_Ok Hq. unfold op_modify in Hd. injection Hd as _ <-.
  assert (queue_at (only id) nobody d1) as Hq1.
  { eapply cas_job_queue; [done | done |]. intros j Hj Hp [? ? Hok].
    apply andb_true_iff in Hp as [[Hs _]%claimed_as_spec _]. specialize (Hok Hs).
    split_and!; [done | | done]. split_and!; [done | done | | by left].
    constructor; cbn; [lia | lia | done]. }
  apply cas_job_Ok in Hcas as (j & Hj & Hp & ->).
  apply andb_true_iff in Hp as [[Hs Hatt]%claimed_as_spec _].
  eapply queue_close; [exact Hq1 | | by intros ? [] |]; cbn.
  - intros k. rewrite map_lookup_filter. destruct (d_attempts d !! k) as [t|] eqn:Ht; [| by left]. cbn.
    case_guard as Hg; [by left |]. right. exists t. split; [done |].
    apply not_false_iff_true in Hg. unfold is_open in Hg. autorewrite with reflect in Hg.
    destruct_and!. split; [done | by left].
  - intros k t [Ht Hf]%map_lookup_filter_Some Hopen Hi. unfold only in Hi. subst id.
    destruct (qa_open _ _ _ Hq _ _ Ht Hopen) as [_ [[]|(j' & Hj' & _ & Hja)]]. simplify_eq.
    unfold is_open in Hf. cbn in Hf. rewrite Hopen, Z.eqb_refl, Hja, Z.eqb_refl in Hf. done.
Qed.

(** ** Sweeps *)
Lemma elem_of_ids late new p d i :
  queue_at late new d →
  i ∈ map j_ID (rows_where p (d_jobs d)) ↔ ∃ j, d_jobs d !! i = Some j ∧ p j = true.
Proof.
  intros Hq. rewrite elem_of_map. setoid_rewrite elem_of_rows_where. split.
  - intros (j & -> & Hp & k & Hk). destruct (qa_id _ _ _ Hq _ _ Hk) as [-> _]. by exists j.
  - intros (j & Hj & Hp). exists j. destruct (qa_id _ _ _ Hq _ _ Hj) as [-> _].
    split_and!; [done | done | by exists i].
Qed.

Lemma transition_queue late p f d ids d' :
  requeueTransition p f d = Ok (ids, d') → queue_at late nobody d →
  (∀ i j, d_jobs d !! i = Some j → p d j = true → job_ok j → ends f j) →
  queue_at (λ i, late i ∨ i ∈ ids) nobody d' ∧ d_jobs d' = update_where (p d) f (d_jobs d).
Proof.
  unfold requeueTransition. intros [= <- <-] Hq Hf. split; [| done].
  eapply queue_settle; [exact Hq | | by left | |].
  - intros i. rewrite lookup_update_where. destruct (d_jobs d !! i) as [j|] eqn:Hj; [| by left]. cbn.
    destruct (p d j) eqn:Hp; [right | by left]. exists j, (f j).
    destruct (qa_id _ _ _ Hq _ _ Hj) as (_ & _ & Hok). by destruct (Hf _ _ Hj Hp Hok) as (_ & ? & _).
  - intros i j' Hj' Hs. rewrite lookup_update_where in Hj'.
    destruct (d_jobs d !! i) as [j|] eqn:Hj; [| done]. cbn in Hj'. injection Hj' as <-.
    destruct (qa_id _ _ _ Hq _ _ Hj) as (Hi & _ & Hok).
    destruct (p d j) eqn:Hp; [by destruct (Hf _ _ Hj Hp Hok) as (_ & _ & ?) |].
    rewrite (elem_of_ids _ _ _ _ _ Hq). intros [Hl|(j2 & ? & ?)]; [| simplify_eq; congruence].
    by destruct (qa_claimed _ _ _ Hq _ _ Hj Hs).
  - intros i j j' Hj Hj' Hs Hs'. right. rewrite (elem_of_ids _ _ _ _ _ Hq). exists j. split; [done |].
    rewrite lookup_update_where, Hj in Hj'. cbn in Hj'. injection Hj' as <-.
    by destruct (p d j).
Qed.

Definition idle (ids : list Z) (d : DB) : Prop :=
  ∀ i j, i ∈ ids → d_jobs d !! i = Some j → j_Status j ≠ JobProcessing.

Lemma close_queue late now ids reason d x d' :
  closeAttempts now ids reason d = Ok (x, d') → queue_at late nobody d → idle ids d →
  queue_at (λ i, late i ∧ i ∉ ids) nobody d' ∧ d_jobs d' = d_jobs d.
Proof.
  intros [= _ <-] Hq Hidle. split; [| done]. eapply queue_close; [exact Hq | | by intros ? [] |].
  - intros k. rewrite lookup_update_where. destruct (d_attempts d !! k) as [t|] eqn:Ht; [| by left]. cbn.
    destruct (bool_decide (t_JobID t ∈ ids) && _) eqn:Hp; [| by left]. right.
    autorewrite with reflect in Hp. destruct Hp as [Hin Hopen]. exists t. split; [done |].
    destruct (qa_open _ _ _ Hq _ _ Ht Hopen) as [_ [Hl|(j & Hj & Hs & _)]]; [| by eapply Hidle in Hs].
    split; [done | right]. eexists. by split.
  - intros k t Hk Hopen Hl. split; [done |]. rewrite lookup_update_where in Hk.
    destruct (d_attempts d !! k) as [t0|]; [| done]. cbn in Hk. injection Hk as <-.
    destruct (bool_decide (t_JobID t0 ∈ ids) && _) eqn:Hp; [done |].
    autorewrite with reflect in Hp. by destruct Hp.
Qed.

Lemma late_idle late new ids d : queue_at late new d → (∀ i, i ∈ ids → late i) → idle ids d.
Proof. intros Hq Hl i j Hi Hj Hs. by destruct (qa_claimed _ _ _ Hq _ _ Hj Hs) as [[] _]; apply Hl. Qed.

Lemma stale_processing cutoff j : stale cutoff j = true → j_Status j = JobProcessing.
Proof. unfold stale. autorewrite with reflect. tauto. Qed.

(** After the second update no stale job has exhausted its attempts. *)
Lemma stale_left cutoff now note jobs i j :
  update_where (λ j, stale cutoff j && (j_MaxAttempts j <=? j_Attempts j))
    (end_row now JobDeadLetter note) jobs !! i = Some j →
  stale cutoff j = true → j_Attempts j < j_MaxAttempts j.
Proof.
  rewrite lookup_update_where. destruct (jobs !! i) as [j0|]; [| done]. cbn. intros [= <-].
  destruct (stale cutoff j0 && _) eqn:Hp; [done |]. intros Hst. rewrite Hst in Hp. cbn in Hp. lia.
Qed.
 
Lemma pending_ends (f : job_row → job_row) j :
  j_Status j = JobProcessing → j_Status (f j) = JobPending → j_ID (f j) = j_ID j →
  j_ConversationID (f j) = j_ConversationID j → 0 ≤ j_Attempts (f j) < j_MaxAttempts (f j) →
  ends f j.
Proof.
  intros Hs Hp Hi Hc Ha. assert (j_Status (f j) ≠ JobProcessing) by congruence.
  split_and!; [done | | done]. split_and!; [done | done | | by left].
  constructor; [lia | lia | congruence].
Qed.

Lemma RequeueStaleAgentJobs_keeps cfg now visibility : keeps (RequeueStaleAgentJobs cfg now visibility).
Proof.
  unfold RequeueStaleAgentJobs. destruct (visibility <=? 0); [apply neutral_keeps; auto with neutral |].
  cbv zeta. set (cutoff := now - visibility). intros d x d' Hd Hq0.
  apply op_bind_Ok in Hd as (fenced & d1 & H1 & Hd). apply op_bind_Ok in Hd as (dead & d2 & H2 & Hd).
  apply op_bind_Ok in Hd as (requeued & d3 & H3 & Hd). apply op_bind_Ok in Hd as (? & d4 & H4 & Hd).
  apply op_bind_Ok in Hd as (? & d5 & H5 & Hd). apply op_bind_Ok in Hd as (? & d6 & H6 & [_ ->]%op_ret_Ok).
  apply transition_queue with (late := nobody) in H1 as [Hq1 _]; [| done |].
  2: { intros i j _ [Hs%stale_processing _]%andb_true_iff [? _ Hok]. specialize (Hok Hs).
       apply pending_ends; try done. cbn. destruct (Z.leb_spec (j_MaxAttempts j) (j_Attempts j)); lia. }
  eapply transition_queue in H2 as [Hq2 E2]; [| exact Hq1 |].
  2: { intros i j _ [Hs%stale_processing _]%andb_true_iff [? _ Hok]. specialize (Hok Hs).
       split_and!; [done | | done]. split_and!; [done | done | by constructor | by left]. }
  eapply transition_queue in H3 as [Hq3 _]; [| exact Hq2 |].
  2: { intros i j Hj Hst [? _ _]. rewrite E2 in Hj. pose proof (stale_processing _ _ Hst).
       apply pending_ends; try done. cbn. split; [done |]. by eapply stale_left. }
  pose proof (late_idle _ _ fenced _ Hq3) as Hidle.
  eapply close_queue in H4 as [Hq4 E4]; [| exact Hq3 |].
  2: { eapply late_idle; [exact Hq3 |]. intros i. rewrite elem_of_app. tauto. }
  eapply close_queue in H5 as [Hq5 _]; [| exact Hq4 |].
  2: { unfold idle. rewrite E4. apply Hidle. tauto. }
  apply (neutral_queue _ _ _ (route_jobs_neutral _ _ _ _) _ _ _ H6).
  eapply queue_ext; [| | exact Hq5]; [| done].
  intros i. cbn. rewrite elem_of_app. unfold nobody. tauto.
Qed.

(** Pending jobs that end without having been claimed. *)
Definition ends_unclaimed (j j' : job_row) : Prop :=
  j_Status j = JobPending ∧ j_ID j' = j_ID j ∧ j_ConversationID j' = j_ConversationID j ∧
  j_Attempts j' = j_Attempts j ∧ j_Status j' ≠ JobPending ∧ j_Status j' ≠ JobProcessing.

Lemma queue_end_unclaimed d t :
  queue_inv d →
  (∀ i, t !! i = d_jobs d !! i ∨
     ∃ j j', d_jobs d !! i = Some j ∧ t !! i = Some j' ∧ ends_unclaimed j j') →
  queue_inv (d <|d_jobs := t|>).
Proof.
  intros Hq Ht. eapply queue_settle; [exact Hq | | done | by intros ? ? ? ? [] |].
  - intros i. destruct (Ht i) as [?|(j & j' & Hj & Hj' & _ & ? & ? & Ha & ? & ?)]; [by left | right].
    exists j, j'. split_and!; [done | done |]. destruct (qa_id _ _ _ Hq _ _ Hj) as (_ & _ & [? _ _]).
    split_and!; [done | done | by constructor; rewrite ?Ha | by left].
  - intros i j0 j0' Hj0 Hj0' Hs Hs'. destruct (Ht i) as [He|(j & j' & Hj & Hj' & Hp & _)]; simplify_eq; congruence.
Qed.

Lemma end_unclaimed_keeps (p : DB → job_row → bool) (f : job_row → job_row) :
  (∀ d j, p d j = true → ends_unclaimed j (f j)) →
  keeps (op_modify (λ d, d <|d_jobs := update_where (p d) f (d_jobs d)|>)).
Proof.
  intros Hf d x d' [= _ <-] Hq. apply queue_end_unclaimed; [done |]. intros i.
  rewrite lookup_update_where. destruct (d_jobs d !! i) as [j|]; [| by left]. cbn.
  destruct (p d j) eqn:Hp; [right | by left]. exists j, (f j). split_and!; [done | done |]. by eapply Hf.
Qed.

Lemma RouteUnclaimedAgentJobs_keeps cfg now after : keeps (RouteUnclaimedAgentJobs cfg now after).
Proof.
  unfold RouteUnclaimedAgentJobs. destruct (_ || _ || _); [apply neutral_keeps; auto with neutral |].
  eapply ensures_bind with (R := λ _, queue_inv).
  - intros d ids d' [= _ <-] Hq. eapply (end_unclaimed_keeps (unclaimed now after)); [| done | exact Hq].
    intros d0 j Hu. unfold unclaimed in Hu. autorewrite with reflect in Hu. destruct_and!. by split_and!.
  - intros ids. apply neutral_queue. neutral_steps.
Qed.

(** ** Ingestion *)
Lemma update_actions_neutral p f : neutral (update_actions p f).
Proof. by intros d x d' [= <- <-]. Qed.
#[local] Hint Resolve update_actions_neutral : neutral.

Lemma recordMessageDeleteInChat_keeps now u self chat msg :
  keeps (recordMessageDeleteInChat now u self chat msg).
Proof.
  unfold recordMessageDeleteInChat. apply keeps_bind; [keeps_steps | intros l]. destruct l; [| keeps_steps].
  do 6 (apply keeps_bind; [apply neutral_keeps; solve [neutral_steps] | intros ?]).
  apply keeps_bind; [| intros ?; keeps_steps]. apply end_unclaimed_keeps.
  intros d j Hw. autorewrite with reflect in Hw. destruct_and!. by split_and!.
Qed.

Lemma delete_in_chats_keeps now u self msg chats out : keeps (delete_in_chats now u self msg chats out).
Proof.
  revert out. induction chats as [|c chats IH]; intros out; cbn [delete_in_chats]; [keeps_steps |].
  apply keeps_bind; [apply recordMessageDeleteInChat_keeps | intros ?; apply IH].
Qed.

Lemma RecordMessageDelete_keeps now u self msg : keeps (RecordMessageDelete now u self msg).
Proof.
  unfold RecordMessageDelete. destruct (_ || _); [done |]. apply keeps_bind; [keeps_steps | intros l].
  destruct l; [| apply delete_in_chats_keeps]. apply neutral_keeps. neutral_steps.
Qed.

Lemma ignore_job_keeps now reason p job : keeps (ignore_job now reason p job).
Proof.
  unfold ignore_job. destruct (job =? 0); [keeps_steps |]. intros d x d' Hd Hq.
  unfold op_modify in Hd. destruct (update_row _ _ job (d_jobs d)) as [t|] eqn:E; injection Hd as _ <-; [| done].
  apply update_row_Some in E as (j & Hj & Hp & ->). apply queue_end_unclaimed; [done |].
  intros i. destruct (decide (i = job)) as [->|]; [| left; by rewrite lookup_insert_ne].
  right. eexists j, _. split_and!; [done | apply lookup_insert_eq |].
  autorewrite with reflect in Hp. destruct Hp. by split_and!.
Qed.

Lemma touch_conversation_neutral now u c : neutral (touch_conversation now u c).
Proof. intros d x d' Hd. unfold touch_conversation in Hd. by destruct (update_row _ _ _ _); simplify_eq. Qed.
Lemma insertOutboxTx_neutral cfg ev at_ : neutral (insertOutboxTx cfg ev at_).
Proof. unfold insertOutboxTx, insertOutboxReasonTx. neutral_steps. Qed.
#[local] Hint Resolve touch_conversation_neutral insertOutboxTx_neutral : neutral.

Lemma applyPendingDeleteTx_keeps now ev job : keeps (applyPendingDeleteTx now ev job).
Proof.
  unfold applyPendingDeleteTx. destruct (negb _); [keeps_steps |]. apply keeps_bind; [keeps_steps | intros o].
  apply keeps_bind; [| intros ?; apply ignore_job_keeps]. apply neutral_keeps.
  unfold record_pending_delete. neutral_steps.
Qed.

Lemma InsertEventEnqueueJobAndTouch_keeps cfg now ev c :
  keeps (InsertEventEnqueueJobAndTouch cfg now ev c).
Proof.
  unfold InsertEventEnqueueJobAndTouch. destruct (_ || _); [done |].
  apply keeps_bind; [keeps_steps | intros ?]. apply keeps_bind; [keeps_steps | intros ins].
  destruct (negb _); [keeps_steps |]. apply keeps_bind; [keeps_steps | intros ex].
  apply keeps_bind; [destruct ex; [keeps_steps | apply insert_job_keeps] | intros job].
  apply keeps_bind; [apply applyPendingDeleteTx_keeps | intros ?].
  apply keeps_bind; [apply ignore_job_keeps | intros ?]. apply neutral_keeps. neutral_steps.
Qed.

Lemma SweepAgentMessageBodies_keeps now retention : keeps (SweepAgentMessageBodies now retention).
Proof.
  unfold SweepAgentMessageBodies. destruct (_ <=? _); [keeps_steps |]. cbv zeta.
  apply keeps_bind; [| intros ?; apply neutral_keeps; unfold count_and_update, sweep_messages; neutral_steps].
  apply end_unclaimed_keeps. intros d j Hp. unfold expiring_job in Hp. autorewrite with reflect in Hp.
  destruct Hp. by split_and!.
Qed.

Lemma purgeAgentJobs_keeps u : keeps (purgeAgentJobs u).
Proof.
  intros d x d' [= _ <-] Hq. pose proof (λ i, elem_of_ids _ _ (λ j, j_UserID j =? u) _ i Hq) as Hids.
  destruct Hq as [Hid Haid Hex Hop Hun Hcl].
  constructor; cbn.
  - intros i j [Hj _]%map_lookup_filter_Some. by apply Hid.
  - intros k t [Hk _]%map_lookup_filter_Some. by apply Haid.
  - intros i i' j j' c [Hj _]%map_lookup_filter_Some [Hj' _]%map_lookup_filter_Some. by eapply Hex.
  - intros k t [Hk Hf]%map_lookup_filter_Some Ht.
    destruct (Hop _ _ Hk Ht) as [? [[]|(j & Hj & Hs & Ha)]]. split; [done | right].
    exists j. split_and!; [| done | done]. apply map_lookup_filter_Some. split; [done |]. cbn in *.
    apply bool_decide_eq_false in Hf. apply Z.eqb_neq. intros Hu. apply Hf.
    apply Hids. exists j. by rewrite Hu, Z.eqb_refl.
  - intros k k' t t' [Hk _]%map_lookup_filter_Some [Hk' _]%map_lookup_filter_Some. by eapply Hun.
  - intros i j [Hj Hu]%map_lookup_filter_Some Hs.
    destruct (Hcl _ _ Hj Hs) as [? [[]|(k & t & Hk & Ht & Hi)]]. split; [done | right].
    exists k, t. split_and!; [| done | done]. apply map_lookup_filter_Some. split; [done |]. cbn in *.
    apply bool_decide_eq_false. rewrite Hi. rewrite Hids.
    intros (j' & ? & ?). simplify_eq. congruence.
Qed.

(** ** Claim *)
Lemma rows_where_keys {R} (key : R → Z) (p : R → bool) (t : gmap Z R) :
  (∀ i r, t !! i = Some r → key r = i) → NoDup (map key (rows_where p t)).
Proof.
  intros Hk. unfold rows_where. set (l := merge_sort by_id (map_to_list t)).
  assert (Hl : l ≡ₚ map_to_list t) by apply merge_sort_Permutation.
  assert (Hmap : map key l.*2 = l.*1).
  { assert (∀ x, x ∈ l → key x.2 = x.1) as Hin.
    { intros [i r] Hx. rewrite Hl in Hx. by apply elem_of_map_to_list, Hk in Hx. }
    clear Hl. induction l as [|[i r] l IH]; [done |]. cbn in *. f_equal; [by apply (Hin (i, r)); left |].
    apply IH. intros x Hx. apply Hin. by right. }
  apply (sublist_NoDup _ (key <$> l.*2)); [| apply (fmap_sublist key), sublist_filter].
  change (NoDup (map key l.*2)). rewrite Hmap, Hl. apply NoDup_fst_map_to_list.
Qed.

Lemma blocked_false j d :
  blocked j d = false → ∀ i p c, d_jobs d !! i = Some p →
  j_ConversationID j = Some c → j_ConversationID p = Some c →
  j_Status p ≠ JobProcessing ∧ (j_Status p = JobPending → j_ID j ≤ j_ID p).
Proof.
  unfold blocked. autorewrite with reflect. intros Hnil i p c Hp Hj Hc.
  assert (blocks j p = false) as Hb.
  { destruct (blocks j p) eqn:E; [| done]. exfalso. eapply not_elem_of_nil. rewrite <- Hnil.
    apply elem_of_rows_where. split; [done | by exists i]. }
  unfold blocks in Hb. rewrite Hj, Hc in Hb. autorewrite with reflect in Hb.
  destruct Hb as [[?|?]|[Hs Hb]]; [done | done |]. split; [done |]. intros Hpen.
  destruct Hb; [done | lia].
Qed.

Lemma elem_of_due now u runtime limit d i :
  (∀ k j, d_jobs d !! k = Some j → j_ID j = k) → i ∈ due_ids now u runtime limit d →
  ∃ j, d_jobs d !! i = Some j ∧ is_due now u runtime d j = true.
Proof.
  intros Hid (j & -> & Hj)%elem_of_map. exists j. apply elem_of_take in Hj as (n & Hj & _).
  apply list_elem_of_lookup_2 in Hj. rewrite merge_sort_Permutation in Hj.
  apply elem_of_rows_where in Hj as (Hp & k & Hk). by rewrite (Hid _ _ Hk).
Qed.

Lemma is_due_spec now u runtime d j :
  is_due now u runtime d j = true →
  j_Status j = JobPending ∧ j_NextRunAt j ≤ now ∧ j_UserID j = u ∧ blocked j d = false.
Proof. unfold is_due. autorewrite with reflect. naive_solver. Qed.

(** The claiming update: the picked jobs are processing and have no attempt yet. *)
Lemma claim_update_queue d (due : list Z) (f : job_row → job_row) :
  queue_inv d →
  (∀ i, i ∈ due → ∃ j, d_jobs d !! i = Some j ∧ j_Status j = JobPending ∧ blocked j d = false) →
  (∀ j, j_ID (f j) = j_ID j ∧ j_ConversationID (f j) = j_ConversationID j ∧
        j_Status (f j) = JobProcessing ∧ j_Attempts (f j) = j_Attempts j + 1 ∧
        j_MaxAttempts (f j) = j_MaxAttempts j) →
  queue_at nobody (λ i, i ∈ due) (d <|d_jobs := update_where
    (λ j, bool_decide (j_Status j = JobPending) && bool_decide (j_ID j ∈ due)) f (d_jobs d)|>).
Proof.
  intros [Hid Haid Hex Hop Hun Hcl] Hdue Hf. set (p := λ j, _ && _).
  assert (Hback : ∀ i j', update_where p f (d_jobs d) !! i = Some j' → ∃ j,
    (d_jobs d !! i = Some j) ∧
    (i ∈ due ∧ j' = f j ∧ j_Status j = JobPending ∧ blocked j d = false ∨ (i ∉ due) ∧ j' = j)).
  { intros i j'. rewrite lookup_update_where. destruct (d_jobs d !! i) as [j|] eqn:Hj; [| done].
    cbn. intros [= <-]. exists j. split; [done |]. destruct (Hid _ _ Hj) as [Hi _]. unfold p. rewrite Hi.
    destruct (decide (i ∈ due)) as [Hin|Hin].
    - destruct (Hdue _ Hin) as (j0 & ? & Hs & Hb). simplify_eq. left.
      rewrite !bool_decide_eq_true_2 by done. done.
    - right. rewrite (bool_decide_eq_false_2 (i ∈ due)), andb_false_r by done. done. }
  constructor; cbn.
  - intros i j' (j & Hj & Hc)%Hback. destruct (Hid _ _ Hj) as (Hi & Hn & [H1 H2 H3]).
    destruct Hc as [(_ & -> & Hs & _)|[_ ->]]; [| by split_and!].
    destruct (Hf j) as (E1 & _ & E3 & E4 & E5). specialize (H2 Hs). split_and!; [congruence | done |].
    constructor; rewrite ?E3, ?E4, ?E5; [lia | done | lia].
  - done.
  - intros i i' j1 j2 c (j & Hj & Hc)%Hback (j' & Hj' & Hc')%Hback S1 S2 C1 C2.
    destruct (Hid _ _ Hj) as [I1 _], (Hid _ _ Hj') as [I2 _].
    destruct (Hf j) as (_ & Ec & _), (Hf j') as (_ & Ec' & _).
    destruct Hc as [(_ & -> & Hs & Hb)|[_ ->]], Hc' as [(_ & -> & Hs' & Hb')|[_ ->]].
    + destruct (blocked_false _ _ Hb _ _ c Hj') as [_ L]; [congruence.. |].
      destruct (blocked_false _ _ Hb' _ _ c Hj) as [_ L']; [congruence.. |].
      specialize (L Hs'). specialize (L' Hs). lia.
    + by destruct (blocked_false _ _ Hb _ _ c Hj') as [? _]; [congruence.. |].
    + by destruct (blocked_false _ _ Hb' _ _ c Hj) as [? _]; [congruence.. |].
    + by eapply Hex.
  - intros k t Hk Ht. destruct (Hop _ _ Hk Ht) as [_ [[]|(j & Hj & Hs & Ha)]].
    assert (t_JobID t ∉ due) as Hn by (intros (j0 & ? & ? & _)%Hdue; simplify_eq; congruence).
    split; [exact Hn | right]. exists j. split_and!; [| done | done].
    rewrite lookup_update_where, Hj. cbn. unfold p. by rewrite Hs.
  - done.
  - intros i j' (j & Hj & Hc)%Hback Hs. split; [by intros [] |].
    destruct Hc as [(Hin & _)|[_ ->]]; [by left |]. by destruct (Hcl _ _ Hj Hs) as [_ [[]|?]]; right.
Qed.

(** The row of a claimed job, as the loop over the claimed jobs meets it. *)
Definition claimed_row (d : DB) (j : job_row) : Prop :=
  ∃ j', d_jobs d !! j_ID j = Some j' ∧ j_Status j' = JobProcessing ∧ j_Attempts j' = j_Attempts j.

Lemma insert_attempt_queue new d j now :
  queue_at nobody new d → claimed_row d j → new (j_ID j) →
  queue_at nobody (λ i, new i ∧ i ≠ j_ID j)
    (d <|d_next := d_next d + 1|>
       <|d_attempts := <[d_next d + 1 := AttemptRow (d_next d + 1) (j_ID j) (j_Attempts j) now None None None]>
          (d_attempts d)|>).
Proof.
  intros [Hid Haid Hex Hop Hun Hcl] (j' & Hj' & Hs & Ha) Hnew.
  assert (Hfresh : ∀ t, d_attempts d !! (d_next d + 1) = Some t → False).
  { intros t Ht. destruct (Haid _ _ Ht). lia. }
  constructor; cbn.
  - intros i j0 Hj0. destruct (Hid _ _ Hj0) as (? & ? & ?). split_and!; [done | lia | done].
  - intros k t [[<- <-]|[_ Hk]]%lookup_insert_Some; [done |]. destruct (Haid _ _ Hk). split; [done | lia].
  - done.
  - intros k t [[<- <-]|[_ Hk]]%lookup_insert_Some Ht; cbn.
    + split; [by intros [_ []] | right]. by exists j'.
    + destruct (Hop _ _ Hk Ht) as [Hn ?]. split; [by intros [? _] | done].
  - intros k k' t t' [[<- <-]|[_ Hk]]%lookup_insert_Some [[<- <-]|[_ Hk']]%lookup_insert_Some; cbn.
    + done.
    + intros _ Ht' He. destruct (Hop _ _ Hk' Ht') as [[] _]. by rewrite <- He.
    + intros Ht _ He. destruct (Hop _ _ Hk Ht) as [[] _]. by rewrite He.
    + by eapply Hun.
  - intros i j0 Hj0 Hs0. split; [by intros [] |].
    destruct (decide (i = j_ID j)) as [->|Hne].
    + right. eexists _, _. split; [apply lookup_insert_eq | done].
    + destruct (Hcl _ _ Hj0 Hs0) as [_ [?|(k & t & Hk & ? & ?)]]; [by left | right].
      exists k, t. rewrite lookup_insert_ne; [done |]. intros He. apply (Hfresh t). by rewrite He.
Qed.

Lemma storeTurnContext_queue new j own d x d' :
  storeTurnContext j own d = Ok (x, d') → queue_at nobody new d →
  queue_at nobody new d' ∧ ∀ j0, claimed_row d j0 → claimed_row d' j0.
Proof.
  intros (full & d1 & [-> ->]%op_get_Ok & (? & d2 & Hm & [_ ->]%op_ret_Ok)%op_bind_Ok)%op_bind_Ok Hq.
  unfold op_modify in Hm.
  destruct (update_row _ _ (j_ID j) (d_jobs d)) as [t|] eqn:E; injection Hm as _ <-; [| done].
  apply update_row_Some in E as (r & Hr & _ & ->). destruct (qa_id _ _ _ Hq _ _ Hr) as (_ & _ & Hok).
  split.
  - eapply queue_settle; [exact Hq | | done | by intros ? ? ? ? [] |].
    + intros i. destruct (decide (i = j_ID j)) as [->|]; [| left; by rewrite lookup_insert_ne].
      right. exists r. eexists. split_and!; [done | apply lookup_insert_eq |].
      split_and!; [done | done | by destruct Hok | by right].
    + intros i j0 j0' Hj0 [[<- <-]|[_ ?]]%lookup_insert_Some; cbn; intros; simplify_eq; done.
  - intros j0 (j' & Hj' & Hs & Ha). unfold claimed_row. cbn.
    destruct (decide (j_ID j0 = j_ID j)) as [He|].
    + rewrite He in Hj'. simplify_eq. eexists. by rewrite He, lookup_insert_eq.
    + exists j'. by rewrite lookup_insert_ne.
Qed.

Lemma open_attempts_queue now jobs : ∀ new d x d',
  open_attempts now jobs d = Ok (x, d') → queue_at nobody new d →
  NoDup (map j_ID jobs) → (∀ i, new i ↔ i ∈ map j_ID jobs) → Forall (claimed_row d) jobs →
  queue_inv d'.
Proof.
  induction jobs as [|j jobs IH]; intros new d x d' Hd Hq Hnd Hnew Hrows; cbn [open_attempts] in Hd.
  - apply op_ret_Ok in Hd as [_ ->]. eapply queue_ext; [done | | exact Hq].
    intros i. rewrite Hnew. cbn. unfold nobody. by rewrite elem_of_nil.
  - apply op_bind_Ok in Hd as (y & d1 & Hopen & (l & d2 & Hrest & [_ ->]%op_ret_Ok)%op_bind_Ok).
    cbn [map] in *. apply NoDup_cons in Hnd as [Hnotin Hnd]. apply Forall_cons in Hrows as [Hj Hrows].
    apply (insert_attempt_queue new d j now) in Hq; [| done | apply Hnew; left].
    unfold open_attempt in Hopen. apply op_bind_Ok in Hopen as (id & da & Hid & Hopen).
    injection Hid as <- <-. apply op_bind_Ok in Hopen as (u & db & Hm & Hopen). injection Hm as _ <-.
    apply op_bind_Ok in Hopen as (src & dc & Hst & [_ ->]%op_ret_Ok).
    eapply storeTurnContext_queue in Hst as [Hq1 Hkeep]; [| exact Hq].
    eapply (IH _ _ _ _ Hrest Hq1 Hnd).
    + intros i. rewrite Hnew, elem_of_cons. set_solver.
    + eapply Forall_impl; [exact Hrows |]. intros j0 Hj0. by apply Hkeep.
Qed.

Lemma claimAgentJobs_keeps now replica u runtime limit maxInflight :
  keeps (claimAgentJobs now replica u runtime limit maxInflight).
Proof.
  unfold claimAgentJobs. destruct (u <=? 0); [done |]. destruct (_ && _); [done |]. cbv zeta.
  apply keeps_bind; [keeps_steps | intros n]. destruct (n =? 0); [apply neutral_keeps; auto with neutral |].
  intros d x d' (due & d0 & [-> ->]%op_get_Ok & Hd)%op_bind_Ok Hq.
  apply op_bind_Ok in Hd as (? & d1 & Hm & Hd). unfold op_modify in Hm. injection Hm as _ <-.
  apply op_bind_Ok in Hd as (jobs & d2 & [-> ->]%op_get_Ok & Hd).
  set (due := due_ids now u runtime n d) in *. cbn [d_jobs update] in Hd.
  assert (Hdue : ∀ i, i ∈ due → ∃ j, d_jobs d !! i = Some j ∧ j_Status j = JobPending ∧ blocked j d = false).
  { intros i (j & Hj & (? & _ & _ & ?)%is_due_spec)%elem_of_due; [by exists j |].
    intros k j Hj. by destruct (qa_id _ _ _ Hq _ _ Hj). }
  apply (claim_update_queue d due (claim_row now replica runtime d)) in Hq as Hq1; [| done | done].
  set (jobs1 := update_where _ _ (d_jobs d)) in *.
  assert (Hkey : ∀ i j, jobs1 !! i = Some j → j_ID j = i) by
    (intros i j Hj; by destruct (qa_id _ _ _ Hq1 i j Hj)).
  set (l := merge_sort _ _) in Hd.
  assert (Hl : l ≡ₚ rows_where (λ j, bool_decide (j_ID j ∈ due)) jobs1) by apply merge_sort_Permutation.
  eapply open_attempts_queue; [exact Hd | exact Hq1 | | |].
  - rewrite Hl. by apply rows_where_keys.
  - intros i. change (i ∈ due ↔ i ∈ map j_ID l). rewrite Hl, elem_of_map.
    setoid_rewrite elem_of_rows_where. split.
    + intros Hin. destruct (Hdue _ Hin) as (j & Hj & _). destruct (qa_id _ _ _ Hq _ _ Hj) as [Hji _].
      assert (∃ j', jobs1 !! i = Some j' ∧ j_ID j' = i) as (j' & Hj' & Hid).
      { unfold jobs1. rewrite lookup_update_where, Hj. cbn. eexists. split; [done |]. by destruct (_ && _). }
      exists j'. rewrite Hid. split; [done |]. split; [by apply bool_decide_eq_true | by exists i].
    + intros (j & -> & Hin & _). by apply bool_decide_eq_true in Hin.
  - apply Forall_forall. intros j. rewrite Hl, elem_of_rows_where. intros [Hin (i & Hj)].
    apply bool_decide_eq_true in Hin. pose proof (Hkey _ _ Hj) as <-. exists j. split_and!; [done | | done].
    unfold jobs1 in Hj. rewrite lookup_update_where in Hj.
    destruct (Hdue _ Hin) as (j0 & Hj0 & Hs0 & _). rewrite Hj0 in Hj. cbn in Hj. injection Hj as <-.
    destruct (qa_id _ _ _ Hq _ _ Hj0) as [Hi0 _]. destruct (_ && _) eqn:Hp; [done |].
    rewrite !bool_decide_eq_true_2 in Hp by done. done.
Qed.
End queue.
