(* ===== verification/TurnClaimProps.v ===== *)
(** * Claiming coalesced turns, properties

    A coalescing claim keeps the invariant of the queue and accounts for every
    job: it leaves a job alone, claims it as the head of a turn, or folds it into
    the turn of an earlier job of its conversation that it claims. *)

From S2P Require Import Prelude GoString Rows Sha256 Coalescer CoalescerProps Tables Outbox Actions Turn Jobs TurnClaim ActionsFacts JobsProps JobsQueue.

Section claim.
Context `{Sealer}.
Variable map_order : gmap string Z → list string.

(** ** The turn of a head *)
Lemma offer_all_play evs : ∀ acc co,
  foldl (λ acc ev, let step := Offer ev acc.2 in (acc.1 ++ step.1, step.2)) (acc, co) evs
  = (acc ++ (co_play (map CallOffer evs) co).1, (co_play (map CallOffer evs) co).2).
Proof.
  induction evs as [|ev evs IH]; intros acc co; cbn; [by rewrite app_nil_r |].
  rewrite IH. by rewrite app_assoc.
Qed.

Lemma co_play_snoc calls call : ∀ co,
  co_play (calls ++ [call]) co =
  ((co_play calls co).1 ++ (co_exec call (co_play calls co).2).1, (co_exec call (co_play calls co).2).2).
Proof.
  induction calls as [|c calls IH]; intros co; cbn [co_play app].
  - cbn. by rewrite app_nil_r.
  - rewrite IH. cbn. by rewrite app_assoc.
Qed.

Lemma elem_of_offered k evs keys now : ∀ ev,
  ev ∈ offered k (map CallOffer evs ++ [CallTick keys now]) → ev ∈ evs.
Proof.
  induction evs as [|e evs IH]; intros ev; cbn; [by intros ?%elem_of_nil |]. unfold offered in *. cbn.
  case_bool_decide; [intros [->|?]%elem_of_cons; [left | right; by apply IH] | right; by apply IH].
Qed.

Lemma closed_turns_ids cfg userID blocked events now co t id :
  New cfg = Some co → t ∈ closed_turns map_order userID blocked events now co → id ∈ SourceEventIDs t →
  ∃ e, e ∈ events ∧ cc_eventID e = id.
Proof.
  intros Hnew Ht Hid. unfold closed_turns, offer_all in Ht. rewrite offer_all_play in Ht. cbn [fst snd] in Ht.
  set (evs := map _ events) in *. set (co1 := (co_play (map CallOffer evs) co).2) in *.
  assert (t ∈ (co_play (map CallOffer evs ++ [CallTick (map_order (co_open co1)) now]) co).1) as Ht'
    by by rewrite co_play_snoc.
  destruct (closed_from_offered _ _ _ _ Hnew Ht') as (e & l & [Hids _ _ _ _ _ _ _] & Hsub).
  rewrite Hids in Hid. apply elem_of_map in Hid as (ev & -> & Hev).
  eapply elem_of_sublist in Hev; [| exact Hsub]. apply elem_of_offered in Hev.
  apply elem_of_map in Hev as (x & -> & Hx). by exists x.
Qed.

Lemma by_event_Some events id e : by_event events !! id = Some e → e ∈ events.
Proof.
  unfold by_event. assert (∀ m : gmap string claimCandidate, (∀ e, m !! id = Some e → e ∈ events) →
    ∀ l, (∀ x, x ∈ l → x ∈ events) → foldl (λ m e, <[cc_eventID e := e]> m) m l !! id = Some e → e ∈ events) as Hf.
  { intros m Hm l. revert m Hm. induction l as [|x l IH]; intros m Hm Hl; cbn; [by apply Hm |].
    apply IH; [| intros y Hy; apply Hl; by right].
    intros e' [[_ <-]|[_ ?]]%lookup_insert_Some; [apply Hl; left | by apply Hm]. }
  apply Hf; [by intros ? | done].
Qed.
Lemma by_event_has events e : e ∈ events → is_Some (by_event events !! cc_eventID e).
Proof.
  intros He. unfold by_event. assert (∀ l (m : gmap string claimCandidate), (is_Some (m !! cc_eventID e) ∨ e ∈ l) →
    is_Some (foldl (λ m e, <[cc_eventID e := e]> m) m l !! cc_eventID e)) as Hf; [| apply Hf; by right].
  induction l as [|x l IH]; intros m [Hm|Hl]; cbn; [done | by apply elem_of_nil in Hl | |].
  - apply IH. left. destruct (decide (cc_eventID x = cc_eventID e)) as [->|]; [by rewrite lookup_insert_eq |].
    by rewrite lookup_insert_ne.
  - apply IH. apply elem_of_cons in Hl as [->|?]; [left; by rewrite lookup_insert_eq | by right].
Qed.

Lemma readyTurn_members cfg now u c d o d' :
  readyTurn map_order cfg now u c d = Ok (o, d') →
  d' = d ∧ match o with
           | Some (tid, members) => Forall (λ m, m = c ∨ m ∈ followers_of u c d) members
           | None => True
           end.
Proof.
  unfold readyTurn. intros (fs & d1 & [-> ->]%op_get_Ok & Hk)%op_bind_Ok.
  apply op_bind_Ok in Hk as (co & d1 & Hnew & Hk). unfold op_lift in Hnew.
  destruct (New cfg) as [co'|] eqn:Hco; [| done]. apply op_ret_Ok in Hnew as [-> ->].
  apply op_bind_Ok in Hk as (bl & d1 & [-> ->]%op_get_Ok & Hk).
  destruct (find _ _) as [t|] eqn:Hf; apply op_ret_Ok in Hk as [-> ->]; [| done]. split; [done |].
  apply find_some in Hf as [Ht _]. rewrite <- list_elem_of_In in Ht.
  apply Forall_forall. intros m (id & -> & Hid)%elem_of_map.
  assert (id ∈ SourceEventIDs t) as Hid' by (destruct (SourceEventIDs t); [done | by right]).
  destruct (closed_turns_ids _ _ _ _ _ _ _ _ Hco Ht Hid') as (e & He & <-).
  destruct (by_event_has _ _ He) as [m Hm]. rewrite Hm. cbn. apply by_event_Some in Hm.
  by apply elem_of_cons in Hm.
Qed.

(** ** One head *)
Lemma update_where_one (t : gmap Z job_row) p f id r :
  (∀ i j, t !! i = Some j → j_ID j = i) → t !! id = Some r → p r = true →
  update_where (λ j, p j && bool_decide (j_ID j ∈ [id])) f t = <[id := f r]> t.
Proof.
  intros Hid Hr Hp. apply map_eq. intros i. rewrite lookup_update_where. destruct (decide (i = id)) as [->|Hne].
  - rewrite Hr, lookup_insert_eq. cbn. by rewrite Hp, (Hid _ _ Hr), bool_decide_eq_true_2 by set_solver.
  - rewrite lookup_insert_ne by done. destruct (t !! i) as [j|] eqn:Hj; [| done]. cbn.
    rewrite (Hid _ _ Hj), bool_decide_eq_false_2, andb_false_r; [done | set_solver].
Qed.

(** The jobs a claim of the head [c] with [members] changes, all in one
    conversation. *)
Definition in_turn (c : claimCandidate) (members : list claimCandidate) (i : Z) : Prop :=
  i = cc_id c ∨ i ∈ map cc_id members.

Lemma coalesce_members_Ok now h tid members : ∀ d u d',
  coalesce_members now h tid members d = Ok (u, d') →
  d_attempts d' = d_attempts d ∧ d_next d' = d_next d ∧ d_profiles d' = d_profiles d ∧ d_events d' = d_events d ∧
  ∀ i, ((i ∉ map cc_id members) ∧ d_jobs d' !! i = d_jobs d !! i) ∨
    (i ∈ map cc_id members ∧ ∃ j, d_jobs d !! i = Some j ∧ j_Status j = JobPending ∧
       d_jobs d' !! i = Some (coalesced_row now h tid j)).
Proof.
  induction members as [|m members IH]; intros d u d'; cbn [coalesce_members].
  - intros [_ ->]%op_ret_Ok. split_and!; try done. intros i. left. split; [by intros ?%elem_of_nil | done].
  - intros (x & d1 & Hm & Hk)%op_bind_Ok. destruct (update_row _ _ _ _) as [t|] eqn:Hu; [| done].
    injection Hm as _ <-. apply update_row_Some in Hu as (r & Hr & Hp & ->). unfold is_pending in Hp.
    apply bool_decide_eq_true in Hp. destruct (IH _ _ _ Hk) as (? & ? & ? & ? & Hj). cbn in *.
    split_and!; [done.. |]. intros i. destruct (Hj i) as [[Hn He]|[Hi (j & Hj1 & Hs & He)]].
    + destruct (decide (i = cc_id m)) as [->|Hne].
      * right. split; [left |]. exists r. split_and!; [done | done |]. by rewrite He, lookup_insert_eq.
      * left. rewrite lookup_insert_ne in He by done. split; [| done]. intros [?|?]%elem_of_cons; done.
    + right. split; [by right |]. apply lookup_insert_Some in Hj1 as [[<- <-]|[? Hj1]]; [done |].
      by exists j.
Qed.

Lemma coalesce_members_queue now h tid members new d u d' :
  coalesce_members now h tid members d = Ok (u, d') → queue_at nobody new d → queue_at nobody new d'.
Proof.
  intros Hc Hq. destruct (coalesce_members_Ok _ _ _ _ _ _ _ Hc) as (Ha & Hn & _ & _ & Hj).
  apply (queue_frame _ _ (d <|d_jobs := d_jobs d'|>)); [done | by rewrite Ha | by rewrite Hn |].
  eapply queue_settle; [exact Hq | | done | by intros ? ? ? ? [] |].
  - intros i. destruct (Hj i) as [[_ He]|[_ (j & Hj1 & Hs & He)]]; [by left | right].
    exists j, (coalesced_row now h tid j). split_and!; [done | done |].
    destruct (qa_id _ _ _ Hq _ _ Hj1) as (_ & _ & [? _ _]). split_and!; [done | done | by constructor | by left].
  - intros i j j' Hji Hji' Hs Hs'. destruct (Hj i) as [[_ He]|[_ (j1 & Hj1 & Hp & _)]]; simplify_eq; congruence.
Qed.

Lemma storeTurnContext_rows j own d x d' :
  storeTurnContext j own d = Ok (x, d') → (∀ r, d_jobs d !! j_ID j = Some r → j_UserID r = j_UserID j) →
  d_profiles d' = d_profiles d ∧ d_events d' = d_events d ∧
  ∃ ctx, d_jobs d' = alter (λ r, r <|j_TurnContext := ctx|>) (j_ID j) (d_jobs d).
Proof.
  intros (full & d1 & [-> ->]%op_get_Ok & (? & d2 & [_ ->]%op_modify_Ok & [_ ->]%op_ret_Ok)%op_bind_Ok)%op_bind_Ok Hu.
  set (ctx := buildTurnContext _ _ _). unfold update_row. destruct (d_jobs d !! j_ID j) as [r|] eqn:Hr.
  - rewrite (Hu r eq_refl), Z.eqb_refl. cbn. split_and!; [done | done |]. exists ctx.
    apply map_eq. intros i. destruct (decide (i = j_ID j)) as [->|Hne].
    + by rewrite lookup_insert_eq, lookup_alter_eq, Hr.
    + by rewrite lookup_insert_ne, lookup_alter_ne.
  - split_and!; [done | done |]. exists ctx. symmetry. apply map_eq. intros i.
    destruct (decide (i = j_ID j)) as [->|Hne]; [by rewrite lookup_alter_eq, Hr | by rewrite lookup_alter_ne].
Qed.

(** What claiming the head does to the jobs. *)
Record claimed_turn (now : time) (replicaID runtime : string) (c : claimCandidate) (tid : string)
    (members : list claimCandidate) (d d' : DB) (x : job_row * list string) : Prop := {
  ct_head : ∃ j ctx, d_jobs d !! cc_id c = Some j ∧ j_Status j = JobPending ∧
    x.1 = claim_head_row now replicaID runtime tid d j ∧
    d_jobs d' !! cc_id c = Some (x.1 <|j_TurnContext := ctx|>);
  ct_members i : i ∈ map cc_id members → i ≠ cc_id c ∧ ∃ j, d_jobs d !! i = Some j ∧ j_Status j = JobPending ∧
    d_jobs d' !! i = Some (coalesced_row now (cc_id c) tid j);
  ct_others i : ¬ in_turn c members i → d_jobs d' !! i = d_jobs d !! i;
  ct_profiles : d_profiles d' = d_profiles d;
  ct_events : d_events d' = d_events d;
}.

Lemma claim_turn_Ok now replica runtime c tid members d o d' :
  claim_turn now replica runtime c tid members d = Ok (o, d') →
  queue_inv d → (∃ j, d_jobs d !! cc_id c = Some j ∧ blocked j d = false) →
  match o with
  | None => d' = d
  | Some x => queue_inv d' ∧ claimed_turn now replica runtime c tid members d d' x
  end.
Proof.
  intros Hcl Hq (j & Hj & Hb). unfold claim_turn in Hcl. destruct (update_row _ _ _ _) as [t|] eqn:Hu; [| by injection Hcl as <- <-].
  apply update_row_Some in Hu as (r & Hr & Hp & ->). rewrite Hj in Hr. injection Hr as <-. unfold is_pending in Hp. apply bool_decide_eq_true in Hp.
  set (j1 := claim_head_row now replica runtime tid d j) in *. set (d1 := d <|d_jobs := _|>) in *.
  assert (∀ i j, d_jobs d !! i = Some j → j_ID j = i) as Hid by (intros i j0 Hj0; by destruct (qa_id _ _ _ Hq _ _ Hj0)).
  assert (queue_at nobody (λ i, i ∈ [cc_id c]) d1) as Hq1.
  { unfold d1, j1. rewrite <- (update_where_one (d_jobs d) is_pending (claim_head_row now replica runtime tid d) (cc_id c) j Hid Hj)
      by by apply bool_decide_eq_true.
    apply (claim_update_queue d [cc_id c]); [done | | done].
    intros i ->%list_elem_of_singleton. by exists j. }
  apply op_bind_Ok in Hcl as (job & d2 & [Hjob ->]%op_get_Ok & Hcl).
  assert (job = j1) as -> by (rewrite Hjob; unfold d1; cbn [d_jobs update]; by rewrite lookup_insert_eq).
  clear Hjob.
  apply op_bind_Ok in Hcl as (u1 & d2 & Hm & Hcl). pose proof (coalesce_members_queue _ _ _ _ _ _ _ _ Hm Hq1) as Hq2.
  destruct (coalesce_members_Ok _ _ _ _ _ _ _ Hm) as (_ & _ & Hprof & Hevs & Hrows).
  apply op_bind_Ok in Hcl as (id & d3 & Hfresh & Hcl). injection Hfresh as <- <-.
  apply op_bind_Ok in Hcl as (u2 & d4 & [_ ->]%op_modify_Ok & Hcl).
  apply op_bind_Ok in Hcl as (own & d4 & [-> ->]%op_get_Ok & Hcl).
  apply op_bind_Ok in Hcl as (src & d5 & Hst & [-> ->]%op_ret_Ok).
  assert (j_ID j1 = cc_id c) as Hj1 by by apply Hid in Hj.
  assert (Hhead : d_jobs d2 !! cc_id c = Some j1 ∧ cc_id c ∉ map cc_id members).
  { destruct (Hrows (cc_id c)) as [[Hn He]|[_ (j0 & Hj0 & Hs0 & _)]]; unfold d1 in *; cbn in *;
      rewrite lookup_insert_eq in *; [done | by simplify_eq]. }
  destruct Hhead as [Hhead Hnin].
  apply (insert_attempt_queue _ _ j1 now) in Hq2; [| exists j1; by rewrite Hj1 | by rewrite Hj1; set_solver].
  pose proof (storeTurnContext_queue _ _ _ _ _ _ Hst Hq2) as [Hq3 _].
  split; [eapply queue_ext; [done | | exact Hq3]; intros i; rewrite Hj1; cbn; unfold nobody; set_solver |].
  apply storeTurnContext_rows in Hst as (Hp5 & He5 & ctx & Hj5); [| intros r Hr; rewrite Hj1 in Hr; change (d_jobs d2 !! cc_id c = Some r) in Hr;
      rewrite Hhead in Hr; by injection Hr as <-].
  cbn [d_profiles d_events d_jobs update] in Hp5, He5, Hj5. rewrite Hj1 in Hj5. constructor.
  - exists j, ctx. split_and!; [done | done | done |]. by rewrite Hj5, lookup_alter_eq, Hhead.
  - intros i Hi. destruct (Hrows i) as [[Hn _]|[_ (j0 & Hj0 & Hs0 & He0)]]; [done |].
    assert (i ≠ cc_id c) as Hne by (by intros ->). split; [done |]. unfold d1 in Hj0. cbn in Hj0.
    rewrite lookup_insert_ne in Hj0 by done. exists j0. by rewrite Hj5, lookup_alter_ne.
  - intros i Hi. assert (i ≠ cc_id c ∧ i ∉ map cc_id members) as [Hne Hni] by (split; intros ?; apply Hi; [by left | by right]).
    rewrite Hj5, lookup_alter_ne by done. destruct (Hrows i) as [[_ ->]|[? _]]; [| done].
    unfold d1. cbn. by rewrite lookup_insert_ne.
  - by rewrite Hp5, Hprof.
  - by rewrite He5, Hevs.
Qed.

(** ** The heads of a claim *)
Section heads.
Variables (cfg : Config) (now : time) (replica : string) (u : Z) (runtime : string).

Definition ready_head (d : DB) (c : claimCandidate) : Prop :=
  ∃ j, d_jobs d !! cc_id c = Some j ∧ is_due now u runtime d j = true ∧
    j_ConversationID j = cc_conversationID c ∧ j_TurnID j = cc_turnID c.

Lemma follower_row d c m :
  queue_inv d → m ∈ followers_of u c d → ∃ j, d_jobs d !! cc_id m = Some j ∧ is_follower u c j = true.
Proof.
  intros Hq Hm. unfold followers_of in Hm. apply list_elem_of_omap in Hm as (j & [Hp [i Hi]]%elem_of_rows_where & Hc).
  unfold candidate in Hc. apply fmap_Some in Hc as (e & _ & ->). cbn.
  destruct (qa_id _ _ _ Hq _ _ Hi) as [-> _]. by exists j.
Qed.

Lemma follower_spec c j : is_follower u c j = true →
  ∃ cv, cc_conversationID c = Some cv ∧ j_ConversationID j = Some cv ∧ j_Status j = JobPending ∧
    j_Attempts j = 0 ∧ cc_id c < j_ID j.
Proof.
  unfold is_follower. autorewrite with reflect. intros [[[[[Hn Hc] _] Hs] Ha] Hl].
  destruct (cc_conversationID c) as [cv|]; [| done]. by exists cv.
Qed.

Lemma turn_of_members c d o d' :
  turn_of map_order cfg now u c d = Ok (o, d') →
  d' = d ∧ match o with
           | Some (tid, members) => Forall (λ m, m = c ∨ m ∈ followers_of u c d) members ∧
               ∀ t, cc_turnID c = Some t → t ≠ "" → tid = t ∧ members = []
           | None => True
           end.
Proof.
  unfold turn_of. destruct (cc_turnID c) as [t|] eqn:Ht.
  - case_bool_decide as Hte.
    + intros [-> Hm]%readyTurn_members. split; [done |]. destruct o as [[tid ms]|]; [| done].
      split; [done |]. intros ? [= <-]. done.
    + intros [-> ->]%op_ret_Ok. split; [done |]. split; [constructor |]. by intros ? [= <-].
  - intros [-> Hm]%readyTurn_members. split; [done |]. by destruct o as [[tid ms]|].
Qed.

(** A job of the turn other than its head is a never-claimed follower. *)
Lemma in_turn_follower c tid members d d' x i :
  queue_inv d → Forall (λ m, m = c ∨ m ∈ followers_of u c d) members →
  claimed_turn now replica runtime c tid members d d' x → in_turn c members i → i ≠ cc_id c →
  ∃ j, d_jobs d !! i = Some j ∧ is_follower u c j = true ∧ d_jobs d' !! i = Some (coalesced_row now (cc_id c) tid j).
Proof.
  intros Hq Hall Hct [?|Hi] Hne; [done |]. destruct (ct_members _ _ _ _ _ _ _ _ _ Hct i Hi) as (_ & j & Hj & _ & Hj').
  exists j. split_and!; [done | | done]. apply elem_of_map in Hi as (m & -> & Hm).
  rewrite Forall_forall in Hall. destruct (Hall m Hm) as [->|Hf]; [done |].
  destruct (follower_row _ _ _ Hq Hf) as (j0 & Hj0 & ?). by simplify_eq.
Qed.

Lemma ready_head_other c c2 tid members d d' x :
  queue_inv d → ready_head d c → ready_head d c2 → cc_id c2 ≠ cc_id c →
  Forall (λ m, m = c ∨ m ∈ followers_of u c d) members →
  claimed_turn now replica runtime c tid members d d' x → ready_head d' c2.
Proof.
  intros Hq (j1 & Hj1 & Hd1 & Hc1 & _) (j2 & Hj2 & Hd2 & Hc2 & Ht2) Hne Hall Hct.
  apply is_due_spec in Hd1 as Hs1. destruct Hs1 as (Hs1 & _ & _ & Hb1).
  apply is_due_spec in Hd2 as Hs2. destruct Hs2 as (Hs2 & _ & _ & Hb2).
  destruct (qa_id _ _ _ Hq _ _ Hj1) as [Hi1 _], (qa_id _ _ _ Hq _ _ Hj2) as [Hi2 _].
  assert (∀ cv, j_ConversationID j1 = Some cv → j_ConversationID j2 = Some cv → False) as Hconv.
  { intros cv E1 E2. destruct (blocked_false _ _ Hb1 _ _ cv Hj2 E1 E2) as [_ L1].
    destruct (blocked_false _ _ Hb2 _ _ cv Hj1 E2 E1) as [_ L2]. specialize (L1 Hs2). specialize (L2 Hs1). lia. }
  assert (¬ in_turn c members (cc_id c2)) as Hout.
  { intros Hin. destruct (in_turn_follower _ _ _ _ _ _ _ Hq Hall Hct Hin Hne) as (j & Hj & Hf & _). simplify_eq.
    destruct (follower_spec _ _ Hf) as (cv & Ecv & Ej & _). eapply Hconv; [| exact Ej]. by rewrite Hc1. }
  exists j2. rewrite (ct_others _ _ _ _ _ _ _ _ _ Hct) by done. split_and!; try done.
  unfold is_due, account_runtime in *. rewrite (ct_profiles _ _ _ _ _ _ _ _ _ Hct).
  apply andb_true_iff in Hd2 as [-> _]. cbn. apply negb_true_iff, negb_false_iff, bool_decide_eq_true.
  apply rows_where_nil. intros i p Hp. destruct (blocks j2 p) eqn:Hbl; [exfalso | done].
  unfold blocks in Hbl. apply andb_true_iff in Hbl as [[Hn Hcv]%andb_true_iff Hst].
  apply negb_true_iff, bool_decide_eq_false in Hn. apply bool_decide_eq_true in Hcv.
  destruct (j_ConversationID p) as [cv|] eqn:Hpc; [| done]. symmetry in Hcv.
  destruct (decide (i = cc_id c)) as [->|Hic].
  - destruct (ct_head _ _ _ _ _ _ _ _ _ Hct) as (j0 & ctx & Hj0 & _ & Hx & Hp'). simplify_eq.
    rewrite Hx in Hpc. by apply (Hconv cv).
  - destruct (decide (i ∈ map cc_id members)) as [Him|Him].
    + destruct (in_turn_follower c tid members d d' x i Hq Hall Hct (or_intror Him) Hic) as (j & _ & _ & Hj').
      by simplify_eq.
    + rewrite (ct_others _ _ _ _ _ _ _ _ _ Hct) in Hp by (intros [?|?]; done).
      destruct (blocked_false _ _ Hb2 _ _ cv Hp Hcv Hpc) as [Hnp L].
      apply orb_true_iff in Hst as [Hst|[Hst Hlt]%andb_true_iff].
      * by apply bool_decide_eq_true in Hst.
      * apply bool_decide_eq_true in Hst. apply Z.ltb_lt in Hlt. specialize (L Hst). lia.
Qed.

(** What a claim that returned [l] made of the job [j] at [i]. *)
Inductive outcome (l : list (job_row * list string)) (i : Z) (j j' : job_row) : Prop :=
| left_alone : j' = j → outcome l i j j'
| taken_as_head tid : j_Status j = JobPending → i ∈ map (λ x, j_ID x.1) l →
    j_Status j' = JobProcessing → j_Attempts j' = j_Attempts j + 1 → j_ClaimedBy j' = Some replica →
    j_TurnID j' = Some tid → (∀ t, j_TurnID j = Some t → t ≠ "" → tid = t) → outcome l i j j'
| folded x tid cv : x ∈ l → j_Status j = JobPending → j_Attempts j = 0 → j_ID x.1 < i →
    j_ConversationID j = Some cv → j_ConversationID x.1 = Some cv → j_TurnID x.1 = Some tid →
    j' = coalesced_row now (j_ID x.1) tid j → outcome l i j j'.

Lemma outcome_mono l l' i j j' : l ⊆ l' → outcome l i j j' → outcome l' i j j'.
Proof.
  intros Hl [?|tid ? Hi ? ? ? ? ?|x tid cv Hx ? ? ? ? ? ? ?]; [by apply left_alone | |].
  - eapply taken_as_head; try done. apply elem_of_map in Hi as (x & -> & Hx). apply elem_of_map. eauto.
  - eapply folded; eauto.
Qed.

Lemma claim_heads_ok cands : ∀ limit d l d',
  claim_heads map_order cfg now replica u runtime limit cands d = Ok (l, d') →
  queue_inv d → NoDup (map cc_id cands) → Forall (ready_head d) cands →
  queue_inv d' ∧ Z.of_nat (length l) ≤ Z.max 0 limit ∧
  (∀ x, x ∈ l → ∃ c, c ∈ cands ∧ j_ID x.1 = cc_id c) ∧
  ∀ i j, d_jobs d !! i = Some j → ∃ j', d_jobs d' !! i = Some j' ∧ outcome l i j j'.
Proof.
  induction cands as [|c cands IH]; intros limit d l d' Hcl Hq Hnd Hall; cbn [claim_heads] in Hcl.
  { apply op_ret_Ok in Hcl as [-> ->]. split_and!; [done | cbn; lia | by intros ? ?%elem_of_nil |].
    intros i j Hj. exists j. split; [done | by apply left_alone]. }
  assert (Hskip : ∀ d l d', claim_heads map_order cfg now replica u runtime limit cands d = Ok (l, d') →
    queue_inv d → Forall (ready_head d) cands →
    queue_inv d' ∧ Z.of_nat (length l) ≤ Z.max 0 limit ∧
    (∀ x, x ∈ l → ∃ c0, c0 ∈ c :: cands ∧ j_ID x.1 = cc_id c0) ∧
    ∀ i j, d_jobs d !! i = Some j → ∃ j', d_jobs d' !! i = Some j' ∧ outcome l i j j').
  { intros d0 l0 d0' H0 Hq0 Hall0. cbn in Hnd. apply NoDup_cons in Hnd as [_ Hnd].
    destruct (IH _ _ _ _ H0 Hq0 Hnd Hall0) as (? & ? & Hx & ?). split_and!; [done | done | | done].
    intros x Hin. destruct (Hx x Hin) as (c0 & ? & ?). exists c0. split; [by right | done]. }
  apply Forall_cons in Hall as [Hc Hall]. destruct (Z.leb_spec limit 0).
  { apply op_ret_Ok in Hcl as [-> ->]. split_and!; [done | cbn; lia | by intros ? ?%elem_of_nil |].
    intros i j Hj. exists j. split; [done | by apply left_alone]. }
  apply op_bind_Ok in Hcl as (o & d1 & [-> Ho]%turn_of_members & Hcl).
  destruct o as [[tid members]|]; [destruct Ho as [Hmem Hfrozen] | by apply (Hskip d)].
  apply op_bind_Ok in Hcl as (claimed & d1 & Hct & Hcl).
  destruct Hc as (jc & Hjc & Hdue & Hcv & Htid). apply is_due_spec in Hdue as Hs. destruct Hs as (Hs & _ & _ & Hb).
  apply claim_turn_Ok in Hct; [| done | by exists jc].
  destruct claimed as [x|]; [| subst d1; by apply (Hskip d)]. destruct Hct as [Hq1 Hct].
  apply op_bind_Ok in Hcl as (rest & d2 & Hrest & [-> ->]%op_ret_Ok).
  cbn in Hnd. apply NoDup_cons in Hnd as [Hcn Hnd].
  assert (Hall1 : Forall (ready_head d1) cands).
  { apply Forall_forall. intros c2 Hc2. rewrite Forall_forall in Hall.
    eapply ready_head_other; [exact Hq | by exists jc | by apply Hall | | exact Hmem | exact Hct].
    intros He. apply Hcn. rewrite <- He. apply elem_of_map. by exists c2. }
  destruct (IH _ _ _ _ Hrest Hq1 Hnd Hall1) as (Hq2 & Hlen & Hx & Hrows).
  destruct (ct_head _ _ _ _ _ _ _ _ _ Hct) as (j0 & ctx & Hj0 & _ & Hx1 & Hj0').
  rewrite Hjc in Hj0. injection Hj0 as <-. destruct (qa_id _ _ _ Hq _ _ Hjc) as [Hjid _].
  assert (j_ID x.1 = cc_id c) as Hxid by by rewrite Hx1.
  split; [done |]. split; [cbn; lia |]. split.
  { intros y [->|Hy]%elem_of_cons; [exists c; split; [left | done] |].
    destruct (Hx y Hy) as (c0 & ? & ?). exists c0. split; [by right | done]. }
  intros i j Hj.
  assert (Hkeep : ∀ j1, d_jobs d1 !! i = Some j1 → j_Status j1 ≠ JobPending →
    ∃ j', d_jobs d2 !! i = Some j' ∧ j' = j1).
  { intros j1 Hj1 Hns. destruct (Hrows i j1 Hj1) as (j' & Hj' & Hout). exists j'. split; [done |].
    by destruct Hout. }
  destruct (decide (i = cc_id c)) as [->|Hne]; [| destruct (decide (i ∈ map cc_id members)) as [Hin|Hnin]].
  - rewrite Hjc in Hj. injection Hj as <-. destruct (Hkeep _ Hj0') as (j' & Hj' & ->); [by rewrite Hx1 |].
    eexists. split; [exact Hj' |]. eapply (taken_as_head _ _ _ _ tid); rewrite ?Hx1; try done.
    + apply elem_of_map. exists x. split; [by rewrite Hxid | left].
    + intros t Ht Hte. rewrite Htid in Ht. by apply (Hfrozen t).
  - destruct (in_turn_follower _ _ _ _ _ _ i Hq Hmem Hct (or_intror Hin) Hne) as (jm & Hjm & Hf & Hjm').
    rewrite Hjm in Hj. injection Hj as <-. destruct (follower_spec _ _ Hf) as (cv & Ecv & Ej & Hps & Hat & Hlt).
    destruct (qa_id _ _ _ Hq _ _ Hjm) as [Hjmid _].
    destruct (Hkeep _ Hjm') as (j' & Hj' & ->); [done |]. eexists. split; [exact Hj' |].
    eapply (folded _ _ _ _ x tid cv); rewrite ?Hxid; try done; [left | lia | | by rewrite Hx1].
    rewrite Hx1. cbn. by rewrite Hcv.
  - assert (d_jobs d1 !! i = Some j) as Hj1.
    { rewrite (ct_others _ _ _ _ _ _ _ _ _ Hct); [done |]. by intros [?|?]. }
    destruct (Hrows i j Hj1) as (j' & Hj' & Hout). exists j'. split; [done |].
    eapply outcome_mono; [| exact Hout]. intros y Hy. by right.
Qed.

Lemma omap_ids d (l : list job_row) : map cc_id (omap (candidate d) l) `sublist_of` map j_ID l.
Proof.
  induction l as [|j l IH]; cbn; [done |]. unfold candidate at 1.
  destruct (loadEventRef _ _ d) as [e|]; cbn; by constructor.
Qed.

Lemma candidates_ready d :
  queue_inv d →
  NoDup (map cc_id (claim_candidates now u runtime d)) ∧ Forall (ready_head d) (claim_candidates now u runtime d).
Proof.
  intros Hq. unfold claim_candidates. set (l := merge_sort _ _).
  assert (Hl : l ≡ₚ rows_where (is_due now u runtime d) (d_jobs d)) by apply merge_sort_Permutation.
  assert (Hkey : ∀ i j, d_jobs d !! i = Some j → j_ID j = i) by (intros i j Hj; by destruct (qa_id _ _ _ Hq i j Hj)).
  split.
  - apply (sublist_NoDup _ (map j_ID l)).
    + rewrite Hl. by apply rows_where_keys.
    + etransitivity; [apply (fmap_sublist cc_id), sublist_take | apply omap_ids].
  - apply Forall_take, Forall_forall. intros c (j & Hj & Hc)%list_elem_of_omap.
    rewrite Hl in Hj. apply elem_of_rows_where in Hj as [Hd [i Hi]]. pose proof (Hkey _ _ Hi) as <-.
    unfold candidate in Hc. apply fmap_Some in Hc as (e & _ & ->). exists j. by split_and!.
Qed.

Lemma claimCoalesced_ok limit maxInflight d l d' :
  claimCoalesced map_order cfg now replica u runtime limit maxInflight d = Ok (l, d') → queue_inv d →
  queue_inv d' ∧ (0 ≤ limit → Z.of_nat (length l) ≤ limit) ∧
  (∀ x, x ∈ l → ∃ j, d_jobs d !! j_ID x.1 = Some j ∧ is_due now u runtime d j = true) ∧
  ∀ i j, d_jobs d !! i = Some j → ∃ j', d_jobs d' !! i = Some j' ∧ outcome l i j j'.
Proof.
  unfold claimCoalesced. intros (n & d1 & Hn & Hk)%op_bind_Ok Hq.
  assert (d1 = d ∧ (0 ≤ limit → 0 ≤ n ≤ limit)) as [-> Hle].
  { destruct (0 <? maxInflight).
    - apply op_get_Ok in Hn as [-> ->]. split; [done |]. intros. unfold reserveInflight.
      destruct (Z.leb_spec (maxInflight - count_where (λ j, (j_UserID j =? u) && bool_decide (j_Status j = JobProcessing))
        (d_jobs d)) 0); lia.
    - apply op_ret_Ok in Hn as [-> ->]. split; [done | lia]. }
  destruct (n =? 0).
  { apply op_ret_Ok in Hk as [-> ->]. split_and!; [done | cbn; lia | by intros ? ?%elem_of_nil |].
    intros i j Hj. exists j. split; [done | by apply left_alone]. }
  apply op_bind_Ok in Hk as (cs & d1 & [-> ->]%op_get_Ok & Hk).
  apply op_bind_Ok in Hk as (l0 & d1 & Hcl & [-> ->]%op_ret_Ok).
  destruct (candidates_ready d Hq) as [Hnd Hall].
  destruct (claim_heads_ok _ _ _ _ _ Hcl Hq Hnd Hall) as (Hq' & Hlen & Hx & Hrows).
  set (sorted := merge_sort _ l0). assert (Hp : sorted ≡ₚ l0) by apply merge_sort_Permutation.
  split; [done |]. split; [intros; rewrite Hp; lia |]. split.
  - intros x Hin. rewrite Hp in Hin. destruct (Hx x Hin) as (c & Hc & ->). rewrite Forall_forall in Hall.
    destruct (Hall c Hc) as (j & Hj & Hd & _). by exists j.
  - intros i j Hj. destruct (Hrows i j Hj) as (j' & Hj' & Hout). exists j'. split; [done |].
    eapply outcome_mono; [| exact Hout]. intros y Hy. by rewrite Hp.
Qed.
End heads.

Lemma claim_jobs_keeps turnCfg now replica u runtime limit maxInflight :
  keeps (claim_jobs map_order turnCfg now replica u runtime limit maxInflight).
Proof.
  unfold claim_jobs. destruct turnCfg as [cfg|]; [| apply claimAgentJobs_keeps].
  destruct (u <=? 0); [done |]. destruct (_ && _); [done |].
  intros d l d' Hcl Hq. by apply (claimCoalesced_ok _ _ _ _ _ _ _ _ _ _ Hcl Hq).
Qed.

(** C19: a coalescing claim returns at most [limit] jobs, each of which was due and
    the oldest open job of its conversation, and accounts for every job of the
    queue: it is left alone, or claimed as the head of a turn (keeping the turn it
    had if it was claimed before), or, if it was never claimed, folded into an
    earlier job of the same conversation that this claim returns. *)
Theorem coalesced_claim cfg now replica u runtime limit maxInflight d l d' :
  claim_jobs map_order (Some cfg) now replica u runtime limit maxInflight d = Ok (l, d') → queue_inv d →
  Z.of_nat (length l) ≤ Z.max 1 limit ∧
  (∀ x, x ∈ l → ∃ j, d_jobs d !! j_ID x.1 = Some j ∧ is_due now u runtime d j = true) ∧
  ∀ i j, d_jobs d !! i = Some j → ∃ j', d_jobs d' !! i = Some j' ∧ outcome now replica l i j j'.
Proof.
  unfold claim_jobs. destruct (u <=? 0); [done |]. destruct (_ && _); [done |]. intros Hcl Hq.
  destruct (claimCoalesced_ok _ _ _ _ _ _ _ _ _ _ Hcl Hq) as (_ & Hlen & Hx & Hrows).
  split_and!; [| done | done]. destruct (Z.leb_spec limit 0); lia.
Qed.
End claim.
