(* ===== verification/JobsTheorems.v ===== *)
(** * What the queue guarantees

    Histories of queue calls and the theorems about them: the invariant after any
    history, the fence against stale workers, the success of a current worker,
    the retry decision and the in-flight cap. *)

From S2P Require Import Prelude GoString Rows Sha256 Coalescer Tables Outbox Actions ActionsFacts Turn Jobs Ingest TurnClaim JobsProps JobsQueue TurnClaimProps.

Section theorems.
Context `{Sealer}.
Local Open Scope op_scope.

(** ** Histories *)

(** [QueueOther] stands for writes to the tables the queue does not own:
    profiles, conversations, messages, actions and the outbox. *)
Inductive queue_call :=
| QueueEnqueue (eventID : string) (u conv : Z)
| QueueEvent (ev : IncomingEvent) (conv : Z)
| QueueClaim (replica : string) (u : Z) (runtime : string) (limit : Z)
| QueueClaimManaged (replica : string) (u limit maxInflight : Z)
| QueueClaimTurns (order : gmap string Z → list string) (turnCfg : option Config) (replica : string)
    (u : Z) (runtime : string) (limit maxInflight : Z)
| QueueComplete (id attempt : Z) (status : JobStatus) (note : string)
| QueueCompleteResult (u id attempt : Z) (status : JobStatus) (note : string) (action lead : Z)
| QueueRetry (id attempt : Z) (msg : string)
| QueueRelease (id attempt : Z) (replica : string)
| QueueRequeueStale (visibility : duration)
| QueueRouteUnclaimed (after : duration)
| QueueIngest (ev : IncomingEvent) (conv : Z)
| QueueDelete (u self msg : Z)
| QueueSweep (retention : duration)
| QueuePurge (u : Z)
| QueueOther (f : DB → DB).

Definition queue_call_ok (c : queue_call) : Prop :=
  match c with
  | QueueOther f => ∀ d, d_jobs (f d) = d_jobs d ∧ d_attempts (f d) = d_attempts d ∧ d_next d ≤ d_next (f d)
  | _ => True
  end.

Variable cfg : outbox_config.

Definition exec_queue (now : time) (c : queue_call) (d : DB) : DB :=
  match c with
  | QueueEnqueue e u conv => (run (EnqueueAgentJob now e u conv) d).2
  | QueueEvent ev conv => (run (InsertEventAndEnqueueJob now ev conv) d).2
  | QueueClaim r u rt limit => (run (ClaimAgentJobs now r u rt limit) d).2
  | QueueClaimManaged r u limit mx => (run (ClaimManagedAgentJobs now r u limit mx) d).2
  | QueueClaimTurns order tc r u rt limit mx => (run (claim_jobs order tc now r u rt limit mx) d).2
  | QueueComplete id a s note => (run (CompleteAgentJob cfg now id a s note) d).2
  | QueueCompleteResult u id a s note action lead =>
      (run (CompleteAgentJobWithResult cfg now u id a s note action lead) d).2
  | QueueRetry id a msg => (run (RetryAgentJob cfg now id a msg) d).2
  | QueueRelease id a r => (run (ReleaseUnissuedClaim now id a r) d).2
  | QueueRequeueStale v => (run (RequeueStaleAgentJobs cfg now v) d).2
  | QueueRouteUnclaimed a => (run (RouteUnclaimedAgentJobs cfg now a) d).2
  | QueueIngest ev conv => (run (InsertEventEnqueueJobAndTouch cfg now ev conv) d).2
  | QueueDelete u self msg => (run (RecordMessageDelete now u self msg) d).2
  | QueueSweep retention => (run (SweepAgentMessageBodies now retention) d).2
  | QueuePurge u => (run (purgeAgentJobs u) d).2
  | QueueOther f => f d
  end.

Definition queue_history := list (time * queue_call).
Definition queue_play (h : queue_history) (d : DB) : DB :=
  fold_left (λ d nc, exec_queue nc.1 nc.2 d) h d.

Lemma run_keeps {A} (m : op A) d : keeps m → queue_inv d → queue_inv (run m d).2.
Proof. intros Hm Hq. unfold run. destruct (m d) as [[a d']|] eqn:E; [by eapply Hm | done]. Qed.

Lemma exec_queue_inv now c d : queue_call_ok c → queue_inv d → queue_inv (exec_queue now c d).
Proof.
  intros Hc Hq. destruct c; cbn [exec_queue queue_call_ok] in *; try apply run_keeps; try done.
  - apply EnqueueAgentJob_keeps.
  - apply InsertEventAndEnqueueJob_keeps.
  - apply claimAgentJobs_keeps.
  - unfold ClaimManagedAgentJobs. destruct (_ <? _); [done | apply claimAgentJobs_keeps].
  - apply claim_jobs_keeps.
  - apply CompleteAgentJob_keeps.
  - apply CompleteAgentJobWithResult_keeps.
  - apply RetryAgentJob_keeps.
  - apply ReleaseUnissuedClaim_keeps.
  - apply RequeueStaleAgentJobs_keeps.
  - apply RouteUnclaimedAgentJobs_keeps.
  - apply InsertEventEnqueueJobAndTouch_keeps.
  - apply RecordMessageDelete_keeps.
  - apply SweepAgentMessageBodies_keeps.
  - apply purgeAgentJobs_keeps.
  - destruct (Hc d) as (? & ? & ?). by eapply queue_frame.
Qed.

Lemma queue_play_inv h d :
  Forall (λ nc, queue_call_ok nc.2) h → queue_inv d → queue_inv (queue_play h d).
Proof.
  revert d. induction h as [|[now c] h IH]; intros d; cbn; [done |].
  intros [Hc Hh]%Forall_cons Hq. by apply IH, exec_queue_inv.
Qed.

Lemma empty_queue_inv : queue_inv empty_db.
Proof. constructor; cbn; intros *; by rewrite lookup_empty. Qed.

(** C15: after any history of calls at most one job of a conversation is in
    flight, a pending job has attempts left, a job in flight is within its
    attempts, and a job is in flight exactly when it has an open attempt, which
    is then its only one and carries its attempt number. *)
Theorem queue_sound h :
  Forall (λ nc, queue_call_ok nc.2) h →
  let d := queue_play h empty_db in
  (∀ i i' j j' c, d_jobs d !! i = Some j → d_jobs d !! i' = Some j' →
     j_Status j = JobProcessing → j_Status j' = JobProcessing →
     j_ConversationID j = Some c → j_ConversationID j' = Some c → i = i') ∧
  (∀ i j, d_jobs d !! i = Some j →
     (j_Status j = JobPending → 0 ≤ j_Attempts j < j_MaxAttempts j) ∧
     (j_Status j = JobProcessing → 0 < j_Attempts j ≤ j_MaxAttempts j ∧
        ∃ k t, d_attempts d !! k = Some t ∧ t_FinishedAt t = None ∧ t_JobID t = i)) ∧
  (∀ k t, d_attempts d !! k = Some t → t_FinishedAt t = None →
     (∃ j, d_jobs d !! t_JobID t = Some j ∧ j_Status j = JobProcessing ∧ j_Attempts j = t_Attempt t) ∧
     ∀ k' t', d_attempts d !! k' = Some t' → t_FinishedAt t' = None → t_JobID t' = t_JobID t → k' = k).
Proof.
  intros Hh d. assert (queue_inv d) as Hq by by apply queue_play_inv, empty_queue_inv.
  clearbody d. destruct Hq as [Hid Haid Hex Hop Hun Hcl].
  split_and!; [done | |].
  - intros i j Hj. destruct (Hid _ _ Hj) as (_ & _ & [H0 H1 H2]). split; [by auto |]. intros Hs.
    split; [by auto |]. by destruct (Hcl _ _ Hj Hs) as [_ [[]|?]].
  - intros k t Hk Ht. split; [by destruct (Hop _ _ Hk Ht) as [_ [[]|?]] |].
    intros k' t' Hk' Ht' He. by eapply Hun.
Qed.

(** ** Workers *)
Lemma cas_job_miss p f id d :
  (∀ j, d_jobs d !! id = Some j → p d j = false) → cas_job p f id d = Err ErrAgentJobNotFound.
Proof.
  intros Hp. unfold cas_job, update_row. destruct (d_jobs d !! id) as [j|]; [| done]. by rewrite Hp.
Qed.

Lemma op_require_Ok b e d x d' : op_require b e d = Ok (x, d') ↔ b = true ∧ x = tt ∧ d' = d.
Proof.
  unfold op_require. destruct b; [rewrite op_ret_Ok; tauto |].
  split; [done | by intros (? & _)].
Qed.

(** A completion with a result passed its guards and met its claim. *)
Lemma CompleteWithResult_cas now u id attempt status note action lead d d' :
  CompleteAgentJobWithResult cfg now u id attempt status note action lead d = Ok (tt, d') →
  ∃ j, d_jobs d !! id = Some j ∧ j_UserID j = u ∧ claimed_as attempt j = true ∧
    runtime_current d j = true ∧ closing status = true ∧
    (status = JobCompleted → 0 < action ∨ 0 < lead) ∧
    (status ≠ JobCompleted → action = 0 ∧ lead = 0) ∧
    (0 < action → ∃ r, r ∈ rows_where (λ a, (a_ID a =? action) && bool_decide (a_JobID a = Some id)
                        && (a_UserID a =? u)) (d_actions d)) ∧
    (0 < lead → (lead, id, u) ∈ d_lead_results d ∧ d_leads d !! lead = Some u).
Proof.
  unfold CompleteAgentJobWithResult. destruct (u <=? 0); [done |].
  destruct (closing status) eqn:Hc; [cbn [negb] | done].
  destruct ((action <? 0) || _) eqn:G1; [done |].
  destruct (bool_decide (status = JobCompleted) && _ && _) eqn:G2; [done |].
  destruct (negb _ && _) eqn:G3; [done |].
  intros (b1 & d1 & [-> ->]%op_get_Ok & Hd)%op_bind_Ok.
  apply op_bind_Ok in Hd as (? & d1 & (B1 & _ & ->)%op_require_Ok & Hd).
  apply op_bind_Ok in Hd as (? & d1 & [-> ->]%op_get_Ok & Hd).
  apply op_bind_Ok in Hd as (? & d1 & (B2 & _ & ->)%op_require_Ok & Hd).
  apply op_bind_Ok in Hd as (? & d1 & (j & Hj & Hp & _)%cas_job_Ok & _).
  autorewrite with reflect in *. destruct Hp as [[? ?] ?]. exists j. split_and!; try done.
  - intros Hs. destruct G2 as [[?|?]|?]; [done | lia | lia].
  - intros Hs. destruct G3 as [?|[? ?]]; [congruence | done].
  - intros Ha. destruct B1 as [?|B1]; [lia |].
    destruct (rows_where _ (d_actions d)) as [|r l] eqn:Er; [done |]. exists r. left.
  - intros Hl. destruct B2 as [?|B2]; [lia | done].
Qed.

(** C16: a worker whose attempt is over cannot touch the job: when the job is not
    in flight or is in flight under another attempt, completing it, completing
    it with a result, retrying it and releasing its claim are all refused. *)
Theorem stale_worker_fenced now id attempt d :
  (∀ j, d_jobs d !! id = Some j → j_Status j ≠ JobProcessing ∨ j_Attempts j ≠ attempt) →
  (∀ status note, closing status = true →
     CompleteAgentJob cfg now id attempt status note d = Err ErrAgentJobNotFound) ∧
  (∀ u status note action lead,
     is_ok (CompleteAgentJobWithResult cfg now u id attempt status note action lead d) = false) ∧
  (∀ msg, RetryAgentJob cfg now id attempt msg d = Err ErrAgentJobNotFound) ∧
  (∀ replica, ReleaseUnissuedClaim now id attempt replica d = Err ErrAgentJobNotFound).
Proof.
  intros Hstale. assert (Hmiss : ∀ j, d_jobs d !! id = Some j → claimed_as attempt j = false).
  { intros j Hj. apply not_true_is_false. intros [? ?]%claimed_as_spec. by destruct (Hstale _ Hj). }
  split_and!.
  - intros status note Hc. unfold CompleteAgentJob. rewrite Hc. cbn [negb]. unfold op_bind at 1.
    rewrite cas_job_miss; [done |]. intros j Hj. by rewrite (Hmiss _ Hj).
  - intros u status note action lead.
    destruct (CompleteAgentJobWithResult _ _ _ _ _ _ _ _ _ d) as [[[] d']|] eqn:E; [exfalso | done].
    apply CompleteWithResult_cas in E as (j & Hj & _ & Hc & _). rewrite (Hmiss _ Hj) in Hc. done.
  - intros msg. unfold RetryAgentJob, op_bind at 1, op_get at 1.
    destruct (d_jobs d !! id) as [j|] eqn:Hj; [| done]. by rewrite (Hmiss _ eq_refl).
  - intros replica. unfold ReleaseUnissuedClaim, op_bind. rewrite cas_job_miss; [done |].
    intros j Hj. by rewrite (Hmiss _ Hj).
Qed.

Lemma finish_jobs now id status note d x d' :
  finishOpenAttempt now id status note d = Ok (x, d') → d_jobs d' = d_jobs d.
Proof. unfold finishOpenAttempt, op_modify. intros [= _ <-]. by destruct (last _). Qed.

(** The end of an attempt leaves the job as its compare-and-set made it. *)
Lemma end_job p f now id status note b reason d x d' :
  (do* cas_job p f id in do* finishOpenAttempt now id status note in
   route_if cfg b now id reason)%op d = Ok (x, d') →
  ∃ j, d_jobs d !! id = Some j ∧ p d j = true ∧ d_jobs d' = <[id := f j]> (d_jobs d).
Proof.
  intros (? & d1 & (j & Hj & Hp & ->)%cas_job_Ok & Hd)%op_bind_Ok. exists j. split_and!; [done | done |].
  apply op_bind_Ok in Hd as (? & d2 & Hfin%finish_jobs & Hr).
  destruct (route_if_neutral _ _ _ _ _ _ _ _ Hr) as [-> _]. by rewrite Hfin.
Qed.

(** A job ends with a result of its own or with none: a completion is
    accepted only from the current attempt of the account's job under the
    account's current runtime, a completed job names an action of this very job
    and account or a lead of the account recorded for this job, any other end
    names neither, and exactly the accepted ids are stored. *)
Theorem result_belongs_to_job now u id attempt status note action lead d d' :
  CompleteAgentJobWithResult cfg now u id attempt status note action lead d = Ok (tt, d') →
  (∃ j j', d_jobs d !! id = Some j ∧ j_UserID j = u ∧ j_Status j = JobProcessing ∧
     j_Attempts j = attempt ∧ (∀ r, j_Runtime j = Some r → r = account_runtime u d) ∧
     d_jobs d' !! id = Some j' ∧ j_Status j' = status ∧
     j_ResultActionID j' = nullable_id action ∧ j_ResultLeadID j' = nullable_id lead) ∧
  (status = JobCompleted → 0 < action ∨ 0 < lead) ∧
  (status ≠ JobCompleted → action = 0 ∧ lead = 0) ∧
  (0 < action → ∃ i r, d_actions d !! i = Some r ∧ a_ID r = action ∧ a_JobID r = Some id ∧ a_UserID r = u) ∧
  (0 < lead → (lead, id, u) ∈ d_lead_results d ∧ d_leads d !! lead = Some u).
Proof.
  intros Hd. pose proof Hd as (j & Hj & Hu & [Hs Ha]%claimed_as_spec & Hr & Hc & H1 & H2 & H3 & H4)%CompleteWithResult_cas.
  split_and!; try done.
  - revert Hd. unfold CompleteAgentJobWithResult. destruct (u <=? 0); [done |]. rewrite Hc. cbn [negb].
    destruct (_ || _); [done |]. destruct (bool_decide _ && _ && _); [done |]. destruct (negb _ && _); [done |].
    intros (? & d1 & [_ ->]%op_get_Ok & Hd)%op_bind_Ok.
    apply op_bind_Ok in Hd as (? & d1 & (_ & _ & ->)%op_require_Ok & Hd).
    apply op_bind_Ok in Hd as (? & d1 & [_ ->]%op_get_Ok & Hd).
    apply op_bind_Ok in Hd as (? & d1 & (_ & _ & ->)%op_require_Ok & (j0 & Hj0 & _ & ->)%end_job).
    simplify_eq. eexists _, _. split_and!; try done; [| apply lookup_insert_eq | done..].
    unfold runtime_current in Hr. intros r Hrt. rewrite Hrt in Hr. by apply String.eqb_eq in Hr.
  - intros Hact. destruct (H3 Hact) as (r & (Hp & i & Hi)%elem_of_rows_where). exists i, r.
    autorewrite with reflect in Hp. tauto.
Qed.

(** ** Progress *)
Definition total {A} (m : op A) : Prop := ∀ d, ∃ a d', m d = Ok (a, d').
Lemma total_bind {A B} (m : op A) (k : A → op B) : total m → (∀ a, total (k a)) → total (op_bind m k).
Proof. intros Hm Hk d. destruct (Hm d) as (a & d1 & E). unfold op_bind. rewrite E. apply Hk. Qed.

(** The configured builder, if there is one, accepts the events it is given. *)
Definition builder_accepts : Prop :=
  ∀ build ev t r, outbox cfg = Some build → is_ok (build ev t r) = true.

Lemma routeJobEventTx_total now id reason : builder_accepts → total (routeJobEventTx cfg now id reason).
Proof.
  intros Hok.
  assert (∀ ev t r, total (insertOutboxReasonTx cfg ev t r)) as Hins.
  { intros ev t r d. unfold insertOutboxReasonTx. destruct (outbox cfg) as [build|] eqn:E; [| by eexists _, _].
    pose proof (Hok build ev t r E) as Hb.
    destruct (build ev t r) as [[[[eid stream] env]|]|]; [| by eexists _, _ | done].
    unfold op_bind, op_get. destruct (bool_decide _); by eexists _, _. }
  assert (∀ u e r, total (insertRoutedOutboxTx cfg now u e r)) as Hrt.
  { intros u e r d. unfold insertRoutedOutboxTx. destruct (negb _); [by eexists _, _ |].
    destruct (outbox cfg) eqn:E; [| by eexists _, _]. unfold op_bind at 1, op_get at 1.
    destruct (rows_where _ (d_events d)); [by eexists _, _ |]. apply Hins. }
  assert (∀ srcs w, total (route_all cfg now reason srcs w)) as Hall.
  { induction srcs as [|j srcs IH]; intros w; cbn; [by intros d; eexists _, _ |].
    apply total_bind; [apply Hrt | intros; apply IH]. }
  unfold routeJobEventTx. destruct (_ || _); [by intros d; eexists _, _ |].
  apply total_bind; [by intros d; eexists _, _ | intros; apply Hall].
Qed.

Lemma rest_total now id status note b reason :
  (b = true → builder_accepts) →
  total (do* finishOpenAttempt now id status note in route_if cfg b now id reason).
Proof.
  intros Hok. apply total_bind; [by intros d; eexists _, _ |]. intros ?. unfold route_if. destruct b.
  - apply total_bind; [by apply routeJobEventTx_total, Hok | by intros ? d; eexists _, _].
  - by intros d; eexists _, _.
Qed.

(** The worker that holds the claim can end it: completing a job under its
    current attempt and the account's current runtime succeeds, sets the status
    and leaves the job no open attempt, so that the conversation is free again;
    a failure also has to be routed, which needs a builder that accepts it. *)
Theorem current_worker_completes now id attempt status note d j :
  queue_inv d → closing status = true → (status = JobFailed → builder_accepts) →
  d_jobs d !! id = Some j → j_Status j = JobProcessing → j_Attempts j = attempt →
  runtime_current d j = true →
  ∃ d' j', CompleteAgentJob cfg now id attempt status note d = Ok (tt, d') ∧
    d_jobs d' !! id = Some j' ∧ j_Status j' = status ∧
    (∀ k t, d_attempts d' !! k = Some t → t_JobID t = id → t_FinishedAt t ≠ None) ∧
    (∀ c i j0, j_ConversationID j = Some c → d_jobs d' !! i = Some j0 →
       j_ConversationID j0 = Some c → j_Status j0 ≠ JobProcessing).
Proof.
  intros Hq Hc Hok Hj Hs Ha Hr.
  assert (∃ d', CompleteAgentJob cfg now id attempt status note d = Ok (tt, d')) as (d' & Hd).
  { unfold CompleteAgentJob. rewrite Hc. cbn [negb]. unfold op_bind at 1.
    unfold cas_job, update_row. rewrite Hj, Hr, (proj2 (claimed_as_spec attempt j)) by done. cbn [andb].
    destruct (rest_total now id status note (bool_decide (status = JobFailed)) RouteWorkerFailure
      (λ Hb, Hok (proj1 (bool_decide_eq_true _) Hb)) (d <|d_jobs := <[id := end_row now status note j]> (d_jobs d)|>)) as ([] & d' & E).
    by exists d'. }
  pose proof (CompleteAgentJob_keeps cfg now id attempt status note _ _ _ Hd Hq) as Hq'.
  pose proof Hd as Hd2. unfold CompleteAgentJob in Hd2. rewrite Hc in Hd2. cbn [negb] in Hd2.
  apply end_job in Hd2 as (j1 & Hj1 & _ & Ejobs). simplify_eq.
  assert (j_Status (end_row now status note j) ≠ JobProcessing) as Hend by (by destruct status).
  exists d', (end_row now status note j). split_and!; [done | by rewrite Ejobs, lookup_insert_eq | done | |].
  - intros k t Hk Ht Hopen. destruct (qa_open _ _ _ Hq' _ _ Hk Hopen) as [_ [[]|(j2 & Hj2 & Hs2 & _)]].
    rewrite Ht, Ejobs, lookup_insert_eq in Hj2. by simplify_eq.
  - intros c i j0 Hjc Hj0 Hc0 Hs0. rewrite Ejobs in Hj0.
    apply lookup_insert_Some in Hj0 as [[<- <-]|[Hne Hj0]]; [done |].
    apply Hne. by eapply (qa_exclusive _ _ _ Hq id i j j0 c).
Qed.

(** A failed attempt is retried after the backoff while the job has attempts
    left, and otherwise ends the job as a dead letter; the worker's message is
    kept, and a retry never runs before its delay. *)
Theorem retry_or_dead_letter now id attempt msg d s d' :
  queue_inv d → RetryAgentJob cfg now id attempt msg d = Ok (s, d') →
  ∃ j j', d_jobs d !! id = Some j ∧ d_jobs d' !! id = Some j' ∧ j_Status j' = s ∧
    j_Attempts j' = attempt ∧ j_LastError j' = nullable_text msg ∧
    (attempt < j_MaxAttempts j → s = JobPending ∧ j_NextRunAt j' = now + AgentJobBackoff attempt ∧
       now + 30 * Second ≤ j_NextRunAt j' ∧ ∀ u rt d'' t, t < j_NextRunAt j' → is_due t u rt d'' j' = false) ∧
    (j_MaxAttempts j ≤ attempt → s = JobDeadLetter) ∧
    (∀ k t, d_attempts d' !! k = Some t → t_JobID t = id → t_FinishedAt t ≠ None).
Proof.
  intros Hq Hd. pose proof (RetryAgentJob_keeps _ _ _ _ _ _ _ _ Hd Hq) as Hq'.
  apply op_bind_Ok in Hd as (jobs & d1 & [-> ->]%op_get_Ok & Hd).
  destruct (d_jobs d !! id) as [j|] eqn:Hj; [| done].
  destruct (claimed_as attempt j) eqn:Hcl; [cbn [negb] in Hd | done].
  apply claimed_as_spec in Hcl as [Hs Ha].
  apply op_bind_Ok in Hd as (a & d1 & (j0 & Hj0 & _ & ->)%cas_job_Ok & Hd). simplify_eq.
  apply op_bind_Ok in Hd as (b & d2 & Hfin%finish_jobs & (c & d3 & Hrt & [-> ->]%op_ret_Ok)%op_bind_Ok).
  destruct (route_if_neutral _ _ _ _ _ _ _ _ Hrt) as (Ejobs & _ & _). rewrite Hfin in Ejobs.
  cbn [d_jobs update] in Ejobs. eexists j, _. split; [done |].
  split; [rewrite Ejobs; apply lookup_insert_eq |]. split_and!; try done.
  - intros Hlt. cbn. rewrite (proj2 (Z.leb_gt _ _) Hlt). pose proof (AgentJobBackoff_range (j_Attempts j)).
    split_and!; [done | done | lia |]. intros u rt d'' t Ht. unfold is_due. cbn.
    by rewrite (proj2 (Z.leb_gt _ _) Ht).
  - intros Hge. by rewrite (proj2 (Z.leb_le _ _) Hge).
  - intros k t Hk Ht Hopen. destruct (qa_open _ _ _ Hq' _ _ Hk Hopen) as [_ [[]|(j2 & Hj2 & Hs2 & _)]].
    rewrite Ht, Ejobs, lookup_insert_eq in Hj2. simplify_eq. cbn in Hs2. by destruct (_ <=? _).
Qed.

(** ** The in-flight cap *)
Definition inflight (u : Z) (d : DB) : Z :=
  count_where (λ j, (j_UserID j =? u) && bool_decide (j_Status j = JobProcessing)) (d_jobs d).

Lemma count_where_perm {R} (p : R → bool) (t : gmap Z R) l :
  map_to_list t ≡ₚ l → count_where p t = Z.of_nat (length (filter (λ r, p r = true) l.*2)).
Proof. intros Hl. unfold count_where. by rewrite Hl. Qed.

Lemma length_rows_where {R} (p : R → bool) (t : gmap Z R) :
  Z.of_nat (length (rows_where p t)) = count_where p t.
Proof.
  unfold rows_where. symmetry. apply count_where_perm. symmetry. apply merge_sort_Permutation.
Qed.

Lemma count_where_update_where {R} (q p : R → bool) f (t : gmap Z R) :
  count_where q (update_where p f t) ≤ count_where q t + count_where p t.
Proof.
  unfold update_where, count_where. rewrite map_to_list_fmap. induction (map_to_list t) as [|[i r] l IH]; [done |].
  rewrite !fmap_cons, !filter_cons. cbn [prod_map fst snd].
  destruct (p r) eqn:Hp; repeat case_decide; cbn [length]; try lia; congruence.
Qed.

Lemma NoDup_incl_length {A} (l k : list A) : NoDup l → (∀ x, x ∈ l → x ∈ k) → (length l ≤ length k)%nat.
Proof. intros Hnd Hin. apply submseteq_length. by apply NoDup_submseteq. Qed.

Lemma open_attempt_inflight now j d x d' u :
  open_attempt now j d = Ok (x, d') → inflight u d' = inflight u d.
Proof.
  intros (id & da & Hid & Hd)%op_bind_Ok. injection Hid as <- <-.
  apply op_bind_Ok in Hd as (? & db & Hm & Hd). injection Hm as _ <-.
  apply op_bind_Ok in Hd as (src & dc & Hst & [_ ->]%op_ret_Ok).
  apply op_bind_Ok in Hst as (full & dd & [-> ->]%op_get_Ok & (? & de & Hm & [_ ->]%op_ret_Ok)%op_bind_Ok).
  unfold op_modify in Hm.
  destruct (update_row _ _ _ _) as [t|] eqn:E; injection Hm as _ <-; [| done].
  apply update_row_Some in E as (r & Hr & _ & ->). cbn in Hr. unfold inflight. cbn.
  rewrite (count_where_update _ _ _ _ _ Hr). cbn. lia.
Qed.

Lemma open_attempts_inflight now jobs : ∀ d x d' u,
  open_attempts now jobs d = Ok (x, d') → inflight u d' = inflight u d.
Proof.
  induction jobs as [|j jobs IH]; intros d x d' u Hd; cbn [open_attempts] in Hd.
  - by apply op_ret_Ok in Hd as [_ ->].
  - apply op_bind_Ok in Hd as (y & d1 & Hopen & (l & d2 & Hrest & [_ ->]%op_ret_Ok)%op_bind_Ok).
    rewrite (IH _ _ _ _ Hrest). by eapply open_attempt_inflight.
Qed.

Lemma length_due now u rt limit d : 0 ≤ limit → Z.of_nat (length (due_ids now u rt limit d)) ≤ limit.
Proof. intros. unfold due_ids. rewrite length_map, length_take. lia. Qed.

(** The in-flight cap of the managed worker: a claim never leaves the account
    with more than [maxInflight] jobs in flight unless it already had them, and
    then it claims nothing. *)
Theorem inflight_capped now replica u limit maxInflight d l d' :
  queue_inv d → ClaimManagedAgentJobs now replica u limit maxInflight d = Ok (l, d') →
  inflight u d' ≤ Z.max maxInflight (inflight u d) ∧
  (maxInflight ≤ inflight u d → l = [] ∧ d' = d).
Proof.
  intros Hq. unfold ClaimManagedAgentJobs. destruct (Z.ltb_spec maxInflight 1); [done |].
  unfold claimAgentJobs. destruct (u <=? 0); [done |]. destruct (_ && _); [done |]. cbv zeta.
  rewrite (proj2 (Z.ltb_lt 0 maxInflight)) by lia. set (want := if limit <=? 0 then 1 else limit).
  intros (n & d1 & [En ->]%op_get_Ok & Hd)%op_bind_Ok.
  assert (0 < want) by (unfold want; destruct (Z.leb_spec limit 0); lia).
  assert (n = Z.min want (Z.max 0 (maxInflight - inflight u d))) as Hn.
  { rewrite En. unfold reserveInflight. fold (inflight u d). destruct (Z.leb_spec (maxInflight - inflight u d) 0); lia. }
  clear En. destruct (Z.eqb_spec n 0).
  { apply op_ret_Ok in Hd as [-> ->]. split; [lia | done]. }
  apply op_bind_Ok in Hd as (due & d1 & [-> ->]%op_get_Ok & Hd).
  apply op_bind_Ok in Hd as (? & d1 & Hm & Hd). injection Hm as _ <-.
  apply op_bind_Ok in Hd as (jobs & d2 & [_ ->]%op_get_Ok & Hd).
  rewrite (open_attempts_inflight _ _ _ _ _ _ Hd). split; [| lia].
  set (due := due_ids _ _ _ _ _). pose proof (length_due now u RuntimeManaged n d ltac:(lia)) as Hlen.
  fold due in Hlen. unfold inflight at 1. cbn.
  etrans; [apply count_where_update_where |]. fold (inflight u d).
  rewrite <- (length_rows_where (λ j, _ && bool_decide (j_ID j ∈ due))), <- (length_map j_ID).
  set (ids := map j_ID _). assert (length ids ≤ length due)%nat; [| lia].
  apply NoDup_incl_length.
  - apply rows_where_keys. intros i j Hj. by destruct (qa_id _ _ _ Hq _ _ Hj).
  - intros i (j & -> & (Hp & _)%elem_of_rows_where)%elem_of_map.
    apply andb_true_iff in Hp as [_ Hp]. by apply bool_decide_eq_true in Hp.
Qed.
End theorems.

(** ** Witnesses *)
Module Witnesses.
#[local] Existing Instance pair_sealer.
Definition cfg : outbox_config := OutboxConfig false None.

(** Two messages of one conversation, the first claimed. *)
Definition event (id : string) (msg : Z) : IncomingEvent :=
  MkIncomingEvent 0 id 1 EventKindPrivateMessage 500 500 msg "hi" "{}" 0.
Definition setup (d : DB) : DB :=
  d <|d_conversations := {[100 := MkConversation 1 100 500 9 "bob" "Bob" ConversationActive 0 0
        time_zero time_zero PeerContactYes 0 0]}|>.
Definition arrivals : queue_history :=
  [(0, QueueOther setup); (1, QueueEvent (event "a" 7) 100); (2, QueueEvent (event "b" 8) 100);
   (3, QueueClaim "w" 1 RuntimeOwn 5)].
Definition queue : DB := queue_play cfg arrivals empty_db.
Lemma arrivals_ok : Forall (λ nc, queue_call_ok nc.2) arrivals.
Proof. repeat constructor; apply Z.le_refl. Defined.
Lemma queue_ok : queue_inv queue.
Proof. apply queue_play_inv; [apply arrivals_ok | apply empty_queue_inv]. Defined.

(** Only the first message of the conversation is in flight. *)
Lemma queue_sound_witness :
  (j_Status <$> d_jobs queue !! 2 = Some JobProcessing ∧ j_Status <$> d_jobs queue !! 4 = Some JobPending) ∧
  ∀ i j, d_jobs queue !! i = Some j → j_Status j = JobProcessing → j_ConversationID j = Some 100 → i = 2.
Proof.
  split; [split; vm_compute; reflexivity |]. intros i j Hj Hs Hc.
  destruct (d_jobs queue !! 2) as [j2|] eqn:H2; [| vm_compute in H2; discriminate].
  eapply (proj1 (queue_sound cfg arrivals arrivals_ok) i 2 j j2 100); try done;
    vm_compute in H2; injection H2 as <-; reflexivity.
Defined.

(** Two messages 400 ms apart are claimed as one turn once the quiet window of
    one second has passed. *)
Definition turns : Config := MkConfig 1000 5000 10 1000.
Definition burst : queue_history :=
  [(0, QueueOther setup); (1, QueueEvent (event "a" 7) 100);
   (400 * Millisecond, QueueEvent (event "b" 8) 100)].
Definition keys_of (m : gmap string Z) : list string := (map_to_list m).*1.
Definition claim : op (list (job_row * list string)) :=
  claim_jobs keys_of (Some turns) (1500 * Millisecond) "w" 1 RuntimeOwn 5 0.
Definition waiting : DB := queue_play cfg burst empty_db.
Definition claim_summary : op (list (Z * list string)) :=
  (let* l := claim in op_ret (map (λ x, (j_ID x.1, x.2)) l))%op.
Lemma coalesced_claim_witness :
  ∃ l d', claim waiting = Ok (l, d') ∧ map (λ x, (j_ID x.1, x.2)) l = [(2, ["a"; "b"])] ∧
    ∃ j', d_jobs d' !! 4 = Some j' ∧ j_Status j' = JobCoalesced ∧ Z.of_nat (length l) ≤ 5.
Proof.
  assert (answer (op_bind claim_summary (λ a, op_get (λ d', (a, j_Status <$> d_jobs d' !! 4)))) waiting
    = Some ([(2, ["a"; "b"])], Some JobCoalesced)) as Hx by (vm_compute; reflexivity).
  apply answer_then in Hx as (d' & (l & d1 & Hl & [Hm ->]%op_ret_Ok)%op_bind_Ok & Hs).
  exists l, d1. split; [exact Hl |]. split; [exact (eq_sym Hm) |].
  assert (queue_inv waiting) as Hq by (apply queue_play_inv; [repeat constructor; apply Z.le_refl | apply empty_queue_inv]).
  destruct (d_jobs waiting !! 4) as [j4|] eqn:H4; [| vm_compute in H4; discriminate].
  destruct (coalesced_claim keys_of turns (1500 * Millisecond) "w" 1 RuntimeOwn 5 0 waiting l d1 Hl Hq)
    as (Hlen & _ & Hrows).
  destruct (Hrows 4 j4 H4) as (j' & Hj' & _). exists j'. split; [exact Hj' |].
  rewrite Hj' in Hs. injection Hs as Hs. split; [exact Hs | exact Hlen].
Defined.

Lemma stale_worker_fenced_witness :
  RetryAgentJob cfg 9 2 7 "late" queue = Err ErrAgentJobNotFound.
Proof.
  apply (stale_worker_fenced cfg 9 2 7 queue). intros j Hj. right. vm_compute in Hj.
  injection Hj as <-. discriminate.
Defined.

Lemma current_worker_completes_witness :
  ∃ d' j', CompleteAgentJob cfg 9 2 1 JobIgnored "" queue = Ok (tt, d') ∧
    d_jobs d' !! 2 = Some j' ∧ j_Status j' = JobIgnored.
Proof.
  destruct (d_jobs queue !! 2) as [j|] eqn:Hj; [| vm_compute in Hj; discriminate].
  assert (j_Status j = JobProcessing ∧ j_Attempts j = 1 ∧ runtime_current queue j = true) as (Hs & Ha & Hr).
  { vm_compute in Hj. injection Hj as <-. split; [reflexivity | split; vm_compute; reflexivity]. }
  destruct (current_worker_completes cfg 9 2 1 JobIgnored "" queue j queue_ok eq_refl ltac:(discriminate) Hj Hs Ha Hr)
    as (d' & j' & Hd & Hj' & Hst & _).
  exists d', j'. split; [exact Hd | split; [exact Hj' | exact Hst]].
Defined.

Lemma retry_or_dead_letter_witness :
  ∃ s d', RetryAgentJob cfg 9 2 1 "boom" queue = Ok (s, d') ∧ s = JobPending.
Proof.
  destruct (RetryAgentJob cfg 9 2 1 "boom" queue) as [[s d']|e] eqn:Hd; [| vm_compute in Hd; discriminate].
  exists s, d'. split; [reflexivity |].
  destruct (retry_or_dead_letter cfg 9 2 1 "boom" queue s d' queue_ok Hd)
    as (j & j' & Hj & _ & _ & _ & _ & Hlt & _).
  apply Hlt. vm_compute in Hj. injection Hj as <-. reflexivity.
Defined.

(** Under the managed runtime a cap of one refuses a second claim. *)
Definition managed (d : DB) : DB :=
  d <|d_profiles := {[1 := (default_profile 1 0) <|p_Runtime := RuntimeManaged|>]}|>.
Definition busy : DB :=
  queue_play cfg [(0, QueueOther managed); (1, QueueEvent (event "a" 7) 0); (2, QueueEvent (event "b" 8) 0);
                  (3, QueueClaimManaged "w" 1 5 1)] empty_db.
Lemma busy_ok : queue_inv busy.
Proof. apply queue_play_inv; [repeat constructor; apply Z.le_refl | apply empty_queue_inv]. Defined.

Lemma inflight_capped_witness :
  inflight 1 busy = 1 ∧ ∃ l d', ClaimManagedAgentJobs 9 "w" 1 5 1 busy = Ok (l, d') ∧ l = [] ∧ d' = busy.
Proof.
  split; [vm_compute; reflexivity |].
  destruct (ClaimManagedAgentJobs 9 "w" 1 5 1 busy) as [[l d']|e] eqn:Hd; [| vm_compute in Hd; discriminate].
  exists l, d'. split; [reflexivity |].
  apply (inflight_capped 9 "w" 1 5 1 busy l d' busy_ok Hd). vm_compute. discriminate.
Defined.

(** The claimed job produced action 50. *)
Definition answered : DB :=
  queue <|d_actions := {[50 := ActionRow 50 None None (Some 2) (Some 100) 1 ActionTypeReply "faq" None
    PolicyAllow "" ActionExecuted None (Some 7) None 1 None 4 4 1]}|>.
Lemma result_belongs_to_job_witness :
  ∃ d', CompleteAgentJobWithResult cfg 9 1 2 1 JobCompleted "" 50 0 answered = Ok (tt, d') ∧
    j_ResultActionID <$> d_jobs d' !! 2 = Some (Some 50).
Proof.
  destruct (CompleteAgentJobWithResult cfg 9 1 2 1 JobCompleted "" 50 0 answered) as [[[] d']|e] eqn:Hd;
    [| vm_compute in Hd; discriminate].
  exists d'. split; [reflexivity |].
  destruct (result_belongs_to_job cfg 9 1 2 1 JobCompleted "" 50 0 answered d' Hd)
    as ((j & j' & _ & _ & _ & _ & _ & Hj' & _ & Hr & _) & _).
  rewrite Hj'. cbn. rewrite Hr. reflexivity.
Defined.
End Witnesses.
