(* ===== verification/IngestProps.v ===== *)
(** * Ingestion and retention, properties

    A delete that arrives before its message wins, a message into a conversation
    the agent does not serve starts no work, and the retention sweep clears
    content without forgetting which events it has seen. *)

From S2P Require Import Prelude GoString Rows Tables Outbox Actions Turn Jobs Ingest ActionsProps ActionsFacts JobsProps JobsQueue JobsTheorems.

Section ingest_props.
Context `{Sealer}.

(** ** One message *)

(** What an accepted message writes before its deletes and its conversation are
    looked at: the sealed event and a pending job. *)
Record arrived (now : time) (ev : IncomingEvent) (conv : Z) (d d' : DB) (e : event_row) (j : job_row) : Prop := {
  ar_event : e_ID e = d_next d + 1 ∧ e_EventID e = ev_EventID ev ∧ e_UserID e = ev_UserID ev
    ∧ e_Kind e = ev_Kind ev ∧ e_ChatTGID e = ev_ChatTGID ev ∧ e_MessageID e = ev_MessageID ev;
  ar_new : rows_where (λ e, String.eqb (e_EventID e) (ev_EventID ev)) (d_events d) = [];
  ar_job : j_EventID j = ev_EventID ev ∧ j_UserID j = ev_UserID ev ∧ j_ID j = d_next d + 2
    ∧ j_Status j = JobPending ∧ j_CoalescedInto j = None;
  ar_events : d_events d' = <[d_next d + 1 := e]> (d_events d);
  ar_jobs : d_jobs d' = <[d_next d + 2 := j]> (d_jobs d);
  ar_next : d_next d' = d_next d + 2;
  ar_rest : d_pending_deletes d' = d_pending_deletes d ∧ d_conversations d' = d_conversations d;
}.

Lemma insert_event_Ok now ev d r d' :
  InsertIncomingEvent now ev d = Ok (r, d') → r.2 = true →
  ∃ e, e_ID e = d_next d + 1 ∧ e_EventID e = ev_EventID ev ∧ e_UserID e = ev_UserID ev
    ∧ e_Kind e = ev_Kind ev ∧ e_ChatTGID e = ev_ChatTGID ev ∧ e_MessageID e = ev_MessageID ev
    ∧ rows_where (λ e, String.eqb (e_EventID e) (ev_EventID ev)) (d_events d) = []
    ∧ d' = d <|d_next := d_next d + 1|> <|d_events := <[d_next d + 1 := e]> (d_events d)|>.
Proof.
  unfold InsertIncomingEvent. destruct (_ || _ || _); [done |].
  intros (b & d1 & [-> Hb]%seal_opt_Ok & (es & d2 & [-> ->]%op_get_Ok & Hk)%op_bind_Ok)%op_bind_Ok Hr.
  destruct (rows_where _ (d_events d)) eqn:Hnew; [| by apply op_ret_Ok in Hk as [-> _]].
  injection Hk as _ <-. eexists. split_and!; [.. | done]; done.
Qed.

Lemma outbox_frame cfg ev at_ d b d' :
  insertOutboxTx cfg ev at_ d = Ok (b, d') →
  d_events d' = d_events d ∧ d_jobs d' = d_jobs d ∧ d_pending_deletes d' = d_pending_deletes d.
Proof.
  unfold insertOutboxTx, insertOutboxReasonTx. destruct (outbox cfg) as [build|]; [| by intros [_ ->]%op_ret_Ok].
  destruct (build _ _ _) as [[[[? ?] ?]|]|]; [| by intros [_ ->]%op_ret_Ok | done].
  intros (rows & d1 & [-> ->]%op_get_Ok & Hk)%op_bind_Ok.
  case_bool_decide; [| by apply op_ret_Ok in Hk as [_ ->]]. by injection Hk as _ <-.
Qed.

Lemma touch_frame now u conv d x d' :
  touch_conversation now u conv d = Ok (x, d') →
  d_events d' = d_events d ∧ d_jobs d' = d_jobs d ∧ d_pending_deletes d' = d_pending_deletes d.
Proof. unfold touch_conversation. destruct (update_row _ _ _ _); [| done]. by intros [= _ <-]. Qed.

Lemma ingest_steps cfg now ev conv d job d' :
  InsertEventEnqueueJobAndTouch cfg now ev conv d = Ok ((job, true), d') → job ≠ 0 →
  ∃ e j d1 d2 d3 u1 u2,
    arrived now ev conv d d1 e j ∧ job = d_next d + 2 ∧
    applyPendingDeleteTx now ev job d1 = Ok (u1, d2) ∧
    ignoreInactiveConversationJobTx now (ev_UserID ev) conv job d2 = Ok (u2, d3) ∧
    d_events d' = d_events d3 ∧ d_jobs d' = d_jobs d3 ∧ d_pending_deletes d' = d_pending_deletes d3.
Proof.
  unfold InsertEventEnqueueJobAndTouch. destruct (_ || _ || _ || _); [done |].
  intros (c & d1 & [-> _]%GetConversation_Ok & Hk)%op_bind_Ok Hjob.
  apply op_bind_Ok in Hk as (r & d1 & Hins & Hk).
  destruct r as [eid new]. cbn [snd negb] in Hk. destruct new; [| by apply op_ret_Ok in Hk as [[= <-] _]].
  apply insert_event_Ok in Hins as (e & Hid & Hev & Hu & Hkd & Hch & Hm & Hnew & ->); [| done].
  apply op_bind_Ok in Hk as (ex & d1 & [-> ->]%op_get_Ok & Hk).
  apply op_bind_Ok in Hk as (i & d1 & Hj & Hk).
  apply op_bind_Ok in Hk as (u1 & d2 & Ha & Hk). apply op_bind_Ok in Hk as (u2 & d3 & Hi & Hk).
  apply op_bind_Ok in Hk as (u3 & d4 & Ho & Hk). apply op_bind_Ok in Hk as (u4 & d5 & Ht & [[= <-] ->]%op_ret_Ok).
  destruct (job_exists _ _); [by apply op_ret_Ok in Hj as [-> _] |].
  injection Hj as Hj1 Hj2. cbn in Hj1, Hj2.
  assert (job = d_next d + 2) as Hjn by lia.
  exists e, (JobRow (d_next d + 2) (ev_EventID ev) (ev_UserID ev) (nullable_id conv) JobPending 0 5
    now None None None None None now now None None 1 None None (Some (body_bytes ev))), d1, d2, d3, u1, u2.
  split; [| split; [exact Hjn | split; [exact Ha | split; [exact Hi |]]]].
  - subst d1. split; cbn; [done | done | done | done | | lia | done].
    by replace (d_next d + 1 + 1) with (d_next d + 2) by lia.
  - apply touch_frame in Ht as (-> & -> & ->). destruct (negb _ || _).
    + apply op_bind_Ok in Ho as (w & d6 & Ho & [_ ->]%op_ret_Ok). by apply outbox_frame in Ho.
    + by apply op_ret_Ok in Ho as [_ ->].
Qed.

Definition ignored (now : time) (reason : string) (j : job_row) : job_row :=
  j <|j_Status := JobIgnored|> <|j_LastError := Some reason|> <|j_UpdatedAt := now|>.

Lemma ignore_job_Ok now reason p job d u d' j :
  ignore_job now reason p job d = Ok (u, d') → job ≠ 0 → d_jobs d !! job = Some j →
  d_events d' = d_events d ∧ d_pending_deletes d' = d_pending_deletes d ∧ d_conversations d' = d_conversations d ∧
  d_jobs d' !! job = Some (if bool_decide (j_Status j = JobPending) && p d then ignored now reason j else j).
Proof.
  unfold ignore_job. destruct (Z.eqb_spec job 0); [done |]. intros [_ ->]%op_modify_Ok _ Hj.
  unfold update_row. rewrite Hj. destruct (_ && _); [| done]. cbn. by rewrite lookup_insert_eq.
Qed.

Lemma ignore_job_events now reason p job d u d' :
  ignore_job now reason p job d = Ok (u, d') → d_events d' = d_events d.
Proof.
  unfold ignore_job. destruct (job =? 0); [by intros [_ ->]%op_ret_Ok |]. intros [_ ->]%op_modify_Ok.
  by destruct (update_row _ _ _ _).
Qed.

(** ** A delete before its message *)
Lemma delete_in_chats_pending now u self msg chats : ∀ out d res d',
  delete_in_chats now u self msg chats out d = Ok (res, d') → md_Pending res = md_Pending out.
Proof.
  induction chats as [|chat chats IH]; intros out d res d'; cbn [delete_in_chats].
  - by intros [-> ->]%op_ret_Ok.
  - intros (r & d1 & _ & Hk)%op_bind_Ok. by apply IH in Hk.
Qed.

Lemma delete_kept now u self msg d res d' :
  RecordMessageDelete now u self msg d = Ok (res, d') → md_Pending res = 1 →
  d_pending_deletes d !! (u, msg) = None → d_pending_deletes d' !! (u, msg) = Some (self, now).
Proof.
  unfold RecordMessageDelete. destruct (_ || _); [done |].
  intros (chats & d1 & [-> ->]%op_get_Ok & Hk)%op_bind_Ok Hp Hn.
  destruct (message_chats u msg d) as [|c l]; [| apply delete_in_chats_pending in Hk; cbn in Hk; lia].
  apply op_bind_Ok in Hk as (x & d1 & [_ ->]%op_modify_Ok & [_ ->]%op_ret_Ok).
  rewrite Hn. cbn. by rewrite lookup_insert_eq.
Qed.

Lemma pending_delete_applied now ev job d u d' self t j e :
  applyPendingDeleteTx now ev job d = Ok (u, d') →
  ev_Kind ev = EventKindPrivateMessage ∨ ev_Kind ev = EventKindMessageEdit →
  d_pending_deletes d !! (ev_UserID ev, ev_MessageID ev) = Some (self, t) → now - pendingDeleteTTL ≤ t →
  rows_where (λ e, String.eqb (e_EventID e) (deleteEventID self (ev_ChatTGID ev) (ev_MessageID ev))) (d_events d) = [] →
  job ≠ 0 → d_jobs d !! job = Some j → j_Status j = JobPending →
  e = EventRow (d_next d + 1) (deleteEventID self (ev_ChatTGID ev) (ev_MessageID ev)) (ev_UserID ev)
        EventKindMessageDelete (ev_ChatTGID ev) (ev_ChatTGID ev) (ev_MessageID ev) None "{}" now →
  d_events d' = <[d_next d + 1 := e]> (d_events d) ∧
  d_jobs d' !! job = Some (ignored now ReasonSourceDeleted j) ∧
  d_pending_deletes d' = delete (ev_UserID ev, ev_MessageID ev) (d_pending_deletes d).
Proof.
  unfold applyPendingDeleteTx. intros Ha Hk Hp Ht Hfresh Hjob Hj Hs He.
  replace (negb _) with false in Ha
    by (symmetry; apply negb_false_iff, orb_true_iff; destruct Hk; [left | right]; by apply String.eqb_eq).
  apply op_bind_Ok in Ha as (o & d1 & [-> ->]%op_get_Ok & Ha).
  unfold live_delete in Ha. rewrite Hp in Ha. rewrite (proj2 (Z.leb_le _ _) Ht) in Ha.
  apply op_bind_Ok in Ha as (v & d2 & Hr & Hi).
  unfold record_pending_delete in Hr. apply op_bind_Ok in Hr as ([] & d1 & [_ ->]%op_modify_Ok & Hr).
  apply op_bind_Ok in Hr as (taken & d1 & [-> ->]%op_get_Ok & Hr). cbn [d_events update] in Hr.
  rewrite Hfresh in Hr. injection Hr as _ <-. cbn in Hi.
  eapply ignore_job_Ok in Hi as (Hev & Hpd & _ & Hjd); [| done | exact Hj]. cbn in Hev, Hpd.
  rewrite <- He in *. split_and!; [done | | done].
  rewrite Hjd, Hs. cbn.
  match goal with |- context [message_deleted ?x ?y] => assert (message_deleted x y = true) as -> end; [| done].
  unfold message_deleted. cbn. apply negb_true_iff, bool_decide_eq_false. intros Hnil.
  rewrite rows_where_nil in Hnil. specialize (Hnil (d_next d + 1) e (lookup_insert_eq _ _ _)).
  rewrite He in Hnil. unfold message_event in Hnil. cbn in Hnil. by rewrite !Z.eqb_refl in Hnil.
Qed.

(** C14: a delete that arrives before its message wins: it is kept, and when the
    message comes within the time to live its job is ignored in the same
    transaction, the kept delete is consumed and recorded, and no later
    reservation for that job succeeds. *)
Theorem late_delete_wins cfg now0 now ev conv self d0 res d1 d job d' :
  RecordMessageDelete now0 (ev_UserID ev) self (ev_MessageID ev) d0 = Ok (res, d1) → md_Pending res = 1 →
  d_pending_deletes d0 !! (ev_UserID ev, ev_MessageID ev) = None →
  d_pending_deletes d !! (ev_UserID ev, ev_MessageID ev) =
    d_pending_deletes d1 !! (ev_UserID ev, ev_MessageID ev) →
  now - pendingDeleteTTL ≤ now0 → 0 ≤ d_next d →
  ev_Kind ev = EventKindPrivateMessage ∨ ev_Kind ev = EventKindMessageEdit →
  let eventID := deleteEventID self (ev_ChatTGID ev) (ev_MessageID ev) in
  ev_EventID ev ≠ eventID → rows_where (λ e, String.eqb (e_EventID e) eventID) (d_events d) = [] →
  InsertEventEnqueueJobAndTouch cfg now ev conv d = Ok ((job, true), d') → job ≠ 0 →
  (∃ j, d_jobs d' !! job = Some (ignored now ReasonSourceDeleted j) ∧ j_EventID j = ev_EventID ev) ∧
  d_pending_deletes d' !! (ev_UserID ev, ev_MessageID ev) = None ∧
  (∃ i e, d_events d' !! i = Some e ∧ e_EventID e = eventID ∧ e_Kind e = EventKindMessageDelete) ∧
  ∀ d2 now' a rid body mt mm window enf d3,
    d_events d' ⊆ d_events d2 → d_jobs d2 !! job = d_jobs d' !! job →
    aa_UserID a = ev_UserID ev → aa_JobID a = job →
    ReserveAgentActionSend now' a rid body mt mm window enf d2 ≠ Ok (true, d3).
Proof.
  intros Hdel Hpend Hnone Hkept Httl Hnext Hkind eventID Hne Hfresh Hins Hjob.
  rewrite (delete_kept _ _ _ _ _ _ _ Hdel Hpend Hnone) in Hkept.
  apply ingest_steps in Hins as (e & j & d4 & d2 & d3 & u1 & u2 & Har & Hjn & Ha & Hi & Hev' & Hj' & Hp'); [| done].
  destruct Har as [(Hid & Hee & Heu & _ & Hec & Hem) _ (Hje & Hju & Hjid & Hjs & Hjc) Hev Hj Hn [Hp _]].
  rewrite <- Hjn in *.
  eapply pending_delete_applied in Ha as (Hev2 & Hj2 & Hp2); [| done | by rewrite Hp | done | | done | | done | done].
  2:{ apply rows_where_nil. intros i r. rewrite Hev, lookup_insert_Some. intros [[<- <-] | [_ Hr]].
      - rewrite Hee. by apply String.eqb_neq.
      - by apply (proj1 (rows_where_nil _ _) Hfresh i). }
  2:{ rewrite Hj. apply lookup_insert_eq. }
  eapply ignore_job_Ok in Hi as (Hev3 & Hp3 & _ & Hj3); [| done | exact Hj2]. cbn in Hj3.
  rewrite Hj', Hj3, Hp', Hp3, Hp2, Hev', Hev3, Hev2, Hev, Hn.
  split; [by exists j |]. split; [apply lookup_delete_eq |].
  split; [eexists _, _; split; [apply lookup_insert_eq | done] |].
  intros d6 now' a rid body mt mm window enf d7 Hsub Hjd Hau Haj Hok. apply Reserve_true in Hok
    as (_ & _ & _ & _ & _ & _ & _ & _ & _ & _ & _ & _ & _ & Hs & _).
  rewrite Hau, Haj in Hs.
  assert (job_head (ignored now ReasonSourceDeleted j) = job) as Hhead by (unfold job_head; cbn; by rewrite Hjc).
  rewrite <- Hhead in Hs. erewrite (change_superseded (ev_UserID ev) _ d6 job _ (d_next d + 1) e) in Hs; [done | reflexivity | ..].
  - exact Hjd.
  - done.
  - by rewrite Hhead.
  - eapply lookup_weaken; [| exact Hsub]. rewrite lookup_insert_ne by lia. apply lookup_insert_eq.
  - done.
  - by rewrite Hee.
  - eapply lookup_weaken; [| exact Hsub]. apply lookup_insert_eq.
  - done.
  - unfold later_change. cbn. rewrite Heu, Hec, Hem, !Z.eqb_refl, Hid. cbn. rewrite andb_true_r.
    apply Z.ltb_lt. lia.
Qed.

(** ** A conversation the agent does not serve *)
Lemma pending_delete_frame now ev job d u d' j :
  applyPendingDeleteTx now ev job d = Ok (u, d') → job ≠ 0 → d_jobs d !! job = Some j →
  d_conversations d' = d_conversations d ∧
  (∀ i, i ≤ d_next d → d_events d' !! i = d_events d !! i) ∧
  (d_jobs d' !! job = Some j ∨ d_jobs d' !! job = Some (ignored now ReasonSourceDeleted j)).
Proof.
  unfold applyPendingDeleteTx. intros Ha Hjob Hj.
  destruct (negb _); [apply op_ret_Ok in Ha as [_ ->]; by split_and!; [..| left] |].
  apply op_bind_Ok in Ha as (o & d1 & [-> ->]%op_get_Ok & Ha). apply op_bind_Ok in Ha as (v & d2 & Hr & Hi).
  assert (d_conversations d2 = d_conversations d ∧ d_jobs d2 = d_jobs d ∧
    ∀ i, i ≤ d_next d → d_events d2 !! i = d_events d !! i) as (Hc & Hj2 & Hev).
  { destruct (live_delete _ _ _ _); [| by apply op_ret_Ok in Hr as [_ ->]].
    unfold record_pending_delete in Hr. apply op_bind_Ok in Hr as ([] & d1 & [_ ->]%op_modify_Ok & Hr).
    apply op_bind_Ok in Hr as (taken & d1 & [-> ->]%op_get_Ok & Hr).
    destruct (rows_where _ _); [injection Hr as _ <- | by apply op_ret_Ok in Hr as [_ ->]].
    split_and!; [done..|]. intros i Hi'. cbn. rewrite lookup_insert_ne; [done | lia]. }
  eapply ignore_job_Ok in Hi as (Hev' & _ & Hc' & Hjd); [| done | by rewrite Hj2].
  split; [congruence |]. split; [intros i Hi'; rewrite Hev'; by apply Hev |]. rewrite Hjd. destruct (_ && _); auto.
Qed.

(** A message into a paused, taken over or closed conversation is stored, but its job
    is ignored in the same transaction, so no claim of any worker returns it. *)
Theorem inactive_conversation_ignored cfg now ev conv c d job d' :
  InsertEventEnqueueJobAndTouch cfg now ev conv d = Ok ((job, true), d') → job ≠ 0 →
  d_conversations d !! conv = Some c → c_State c ≠ ConversationActive →
  (∃ e, d_events d' !! (d_next d + 1) = Some e ∧ e_EventID e = ev_EventID ev) ∧
  (∃ j, d_jobs d' !! job = Some j ∧ j_Status j = JobIgnored ∧
     (j_LastError j = Some ReasonConversationNotActive ∨ j_LastError j = Some ReasonSourceDeleted)) ∧
  ∀ d2 now' u runtime limit, queue_inv d2 → d_jobs d2 !! job = d_jobs d' !! job →
    job ∉ due_ids now' u runtime limit d2.
Proof.
  intros Hins Hjob Hc Hst.
  assert (c_UserID c = ev_UserID ev) as Hcu.
  { unfold InsertEventEnqueueJobAndTouch in Hins. destruct (_ || _ || _ || _); [done |].
    apply op_bind_Ok in Hins as (c' & d1 & (-> & Hc' & Hu)%GetConversation_Ok & _). congruence. }
  apply ingest_steps in Hins as (e & j & d4 & d2 & d3 & u1 & u2 & Har & Hjn & Ha & Hi & Hev' & Hj' & Hp'); [| done].
  destruct Har as [(_ & Hee & _) _ (_ & _ & _ & Hjs & _) Hev Hj Hn [_ Hcv]]. rewrite <- Hjn in *.
  assert (d_jobs d4 !! job = Some j) as Hj4 by (rewrite Hj; apply lookup_insert_eq).
  pose proof (pending_delete_frame _ _ _ _ _ _ _ Ha Hjob Hj4) as (Hc2 & Hev2 & Hj2).
  assert (conversation_inactive (ev_UserID ev) conv d2 = true) as Hin.
  { unfold conversation_inactive. rewrite Hc2, Hcv, Hc, Hcu, Z.eqb_refl. by apply negb_true_iff, String.eqb_neq. }
  assert (∃ j', d_jobs d' !! job = Some j' ∧ j_Status j' = JobIgnored ∧
    (j_LastError j' = Some ReasonConversationNotActive ∨ j_LastError j' = Some ReasonSourceDeleted)) as Hign.
  { rewrite Hj'. unfold ignoreInactiveConversationJobTx in Hi.
    destruct Hj2 as [Hj2|Hj2]; eapply ignore_job_Ok in Hi as (_ & _ & _ & ->); try done;
      cbn; rewrite ?Hjs, ?Hin; eexists; split_and!; eauto. }
  split; [| split; [exact Hign |]].
  - exists e. split; [| done]. rewrite Hev', (ignore_job_events _ _ _ _ _ _ _ Hi), Hev2, Hev; [| lia].
    apply lookup_insert_eq.
  - intros d6 now' u runtime limit Hq Hsame Hdue.
    apply elem_of_due in Hdue as (j6 & Hj6 & (Hs6 & _)%is_due_spec); [| intros k jk Hk; by apply (qa_id _ _ _ Hq k jk)].
    destruct Hign as (j' & Hj'' & ? & _). rewrite Hsame in Hj6. congruence.
Qed.

(** ** Retention *)
Definition swept (now cutoff : time) (d : DB) : DB :=
  let drafts := update_where (old_draft cutoff) (deny_row now "content expired by retention sweep") (d_actions d) in
  d <|d_jobs := update_where (expiring_job cutoff d) (expire_job now) (d_jobs d)|>
    <|d_events := update_where (expired_body cutoff) clear_event (d_events d)|>
    <|d_messages := filter (λ kv, (m_CreatedAt kv.2 <? cutoff) = false) (d_messages d)|>
    <|d_actions := update_where (old_content cutoff) clear_action drafts|>
    <|d_notifications := update_where (old_notification cutoff) clear_notification (d_notifications d)|>.

Lemma sweep_swept now retention d :
  0 < retention → ∃ n, SweepAgentMessageBodies now retention d = Ok (n, swept now (now - retention) d).
Proof.
  intros Hr. unfold SweepAgentMessageBodies. destruct (Z.leb_spec retention 0); [lia |].
  eexists. unfold count_and_update, sweep_messages, update_actions, op_bind, op_modify, op_get, op_ret. reflexivity.
Qed.

Lemma update_where_Some {R} (p : R → bool) (f : R → R) (t : gmap Z R) i r' :
  update_where p f t !! i = Some r' → ∃ r, r' = (if p r then f r else r) ∧ t !! i = Some r.
Proof. rewrite lookup_update_where. intros (r & Hr & ->)%fmap_Some. by exists r. Qed.

Lemma has_content_false r :
  has_content r = false → a_Payload r = None ∧ a_SendBody r = None ∧ a_CodeHash r = None ∧ a_CodeEncrypted r = None.
Proof. unfold has_content. autorewrite with reflect. tauto. Qed.

(** The retention sweep always succeeds.  Nothing older than the cutoff keeps
    content afterwards: not an event, a message, a notification or an action that
    is settled or was still waiting and untouched; an action being sent keeps its
    row.  No pending job is left whose event lost its body, and every event id is
    still known, so a redelivered event is still a no-op. *)
Theorem sweep_retention now retention d :
  0 < retention →
  let cutoff := now - retention in
  ∃ n d', SweepAgentMessageBodies now retention d = Ok (n, d') ∧
    (∀ i e, d_events d' !! i = Some e → e_CreatedAt e < cutoff → e_Body e = None) ∧
    (∀ i m, d_messages d' !! i = Some m → cutoff ≤ m_CreatedAt m ∧ d_messages d !! i = Some m) ∧
    (∀ i x, d_notifications d' !! i = Some x → n_CreatedAt x < cutoff → n_Body x = None) ∧
    (∀ i r, d_actions d' !! i = Some r → a_CreatedAt r < cutoff →
       isTerminalActionStatus (a_Status r) = true →
       a_Payload r = None ∧ a_SendBody r = None ∧ a_CodeHash r = None ∧ a_CodeEncrypted r = None) ∧
    (∀ i r, d_actions d' !! i = Some r → waiting_status (a_Status r) = true →
       cutoff ≤ a_CreatedAt r ∨ cutoff ≤ a_UpdatedAt r) ∧
    (∀ i r, d_actions d !! i = Some r → a_Status r = ActionExecuting → d_actions d' !! i = Some r) ∧
    (∀ i j k e, d_jobs d' !! i = Some j → j_Status j = JobPending → d_events d !! k = Some e →
       e_EventID e = j_EventID j → e_CreatedAt e < cutoff → e_Body e = None) ∧
    (∀ i e now' ev r d'', d_events d !! i = Some e → e_EventID e = ev_EventID ev →
       InsertIncomingEvent now' ev d' = Ok (r, d'') → r = (0, false) ∧ d'' = d').
Proof.
  intros Hr cutoff. destruct (sweep_swept now retention d Hr) as [n Hn]. fold cutoff in Hn.
  exists n, (swept now cutoff d). split; [done |]. clear n Hn. unfold swept. cbn.
  split_and!.
  - intros i e (e0 & -> & _)%update_where_Some. unfold expired_body. case_match eqn:Hp; [done |].
    intros Hlt. autorewrite with reflect in Hp. by destruct Hp as [?|Hp]; [lia |].
  - intros i m [? Hm]%map_lookup_filter_Some. cbn in Hm. by apply Z.ltb_ge in Hm.
  - intros i x (x0 & -> & _)%update_where_Some. unfold old_notification. case_match eqn:Hp; [done |].
    intros Hlt. autorewrite with reflect in Hp. by destruct Hp as [?|Hp]; [lia |].
  - intros i r (r0 & -> & _)%update_where_Some. unfold old_content. case_match eqn:Hp; [done |].
    intros Hlt Ht. apply Z.ltb_lt in Hlt. rewrite Hlt, Ht in Hp. by apply has_content_false.
  - intros i r (r0 & -> & (r1 & -> & _)%update_where_Some)%update_where_Some. set (r2 := if old_draft _ _ then _ else _).
    unfold old_content. case_match eqn:Hp; [| clear Hp].
    { intros Hw. apply andb_true_iff in Hp as [[_ Hp]%andb_true_iff _].
      change (waiting_status (a_Status r2) = true) in Hw. clearbody r2. by destruct (a_Status r2). }
    subst r2. unfold old_draft. case_match eqn:Hp; [done |]. intros Hw. rewrite Hw, andb_true_r in Hp.
    autorewrite with reflect in Hp. tauto.
  - intros i r Hi Hs. rewrite !lookup_update_where, Hi. cbn. unfold old_draft, old_content.
    by rewrite Hs, andb_false_r, Hs, andb_false_r.
  - intros i j k e (j0 & -> & _)%update_where_Some. case_match eqn:Hp; [done |]. intros Hs Hk He Hlt.
    unfold expiring_job in Hp. rewrite (bool_decide_eq_true_2 _ Hs) in Hp. cbn in Hp.
    apply negb_false_iff, bool_decide_eq_true in Hp. rewrite rows_where_nil in Hp. specialize (Hp _ _ Hk).
    rewrite He, String.eqb_refl in Hp. cbn in Hp. apply Z.ltb_lt in Hlt. rewrite Hlt in Hp. cbn in Hp.
    apply negb_false_iff, bool_decide_eq_true in Hp. done.
  - intros i e now' ev r d'' Hi He Hins. unfold InsertIncomingEvent in Hins. destruct (_ || _ || _); [done |].
    apply op_bind_Ok in Hins as (b & d1 & [-> _]%seal_opt_Ok & Hk).
    apply op_bind_Ok in Hk as (es & d1 & [-> ->]%op_get_Ok & Hk). cbn [d_events] in Hk.
    destruct (rows_where _ _) eqn:Hn; [| by apply op_ret_Ok in Hk as [-> ->]].
    rewrite rows_where_nil in Hn. specialize (Hn i (if expired_body cutoff e then clear_event e else e)).
    rewrite lookup_update_where, Hi in Hn. specialize (Hn eq_refl).
    rewrite <- He in Hn. by destruct (expired_body _ _); rewrite String.eqb_refl in Hn.
Qed.
End ingest_props.

(** ** Witnesses *)
Module Witnesses.
#[local] Existing Instance pair_sealer.
Definition cfg : outbox_config := OutboxConfig false None.

Definition open_conversation (state : string) (d : DB) : DB :=
  d <|d_conversations := {[100 := MkConversation 1 100 500 9 "bob" "Bob" state 0 0
        time_zero time_zero PeerContactYes 0 0]}|>.
Definition message : IncomingEvent :=
  MkIncomingEvent 0 "evt:v1:1:500:7" 1 EventKindPrivateMessage 500 500 7 "hi" "{}" 0.
Definition before : DB := open_conversation ConversationActive empty_db.
Definition deleted : DB := (run (RecordMessageDelete 10 1 1 7) before).2.

(** The delete of message 7 arrives ten seconds before the message. *)
Lemma late_delete_wins_witness :
  ∃ d', InsertEventEnqueueJobAndTouch cfg 20 message 100 deleted = Ok ((2, true), d') ∧
    j_Status <$> d_jobs d' !! 2 = Some JobIgnored ∧
    ∀ now' a rid body mt mm window enf d3, aa_UserID a = 1 → aa_JobID a = 2 →
      ReserveAgentActionSend now' a rid body mt mm window enf d' ≠ Ok (true, d3).
Proof.
  assert (∃ res, RecordMessageDelete 10 1 1 7 before = Ok (res, deleted) ∧ md_Pending res = 1)
    as (res & Hr & Hp) by (eexists; split; vm_compute; reflexivity).
  destruct (answer_Some (InsertEventEnqueueJobAndTouch cfg 20 message 100) deleted (2, true)
    ltac:(vm_compute; reflexivity)) as [d' Hd].
  exists d'. split; [exact Hd |].
  destruct (late_delete_wins cfg 10 20 message 100 1 before res deleted deleted 2 d' Hr Hp)
    as ((j & Hj & _) & _ & _ & Hres);
    [vm_compute; reflexivity | reflexivity | vm_compute; discriminate | vm_compute; discriminate | left; reflexivity
    | discriminate | vm_compute; reflexivity | exact Hd | discriminate |].
  split; [rewrite Hj; reflexivity |].
  intros now' a rid body mt mm window enf d3 Ha Haj. by apply (Hres d').
Defined.

Lemma inactive_conversation_ignored_witness :
  ∃ d', InsertEventEnqueueJobAndTouch cfg 20 message 100 (open_conversation ConversationPaused empty_db)
          = Ok ((2, true), d') ∧ j_Status <$> d_jobs d' !! 2 = Some JobIgnored.
Proof.
  destruct (answer_Some (InsertEventEnqueueJobAndTouch cfg 20 message 100)
    (open_conversation ConversationPaused empty_db) (2, true) ltac:(vm_compute; reflexivity)) as [d' Hd].
  exists d'. split; [exact Hd |].
  destruct (inactive_conversation_ignored cfg 20 message 100
    (MkConversation 1 100 500 9 "bob" "Bob" ConversationPaused 0 0 time_zero time_zero PeerContactYes 0 0)
    (open_conversation ConversationPaused empty_db) 2 d' Hd) as (_ & (j & Hj & Hs & _) & _);
    [discriminate | vm_compute; reflexivity | discriminate |].
  rewrite Hj. cbn. by rewrite Hs.
Defined.

(** The body of a message older than a day goes; its id stays. *)
Definition received : DB := (run (InsertEventEnqueueJobAndTouch cfg 20 message 100) before).2.
Lemma sweep_retention_witness :
  ∃ n d', SweepAgentMessageBodies (20 + 25 * Hour) (24 * Hour) received = Ok (n, d') ∧
    ∀ i e, d_events d' !! i = Some e → e_CreatedAt e < 20 + Hour → e_Body e = None.
Proof.
  destruct (sweep_retention (20 + 25 * Hour) (24 * Hour) received ltac:(vm_compute; reflexivity))
    as (n & d' & Hd & He & _).
  exists n, d'. split; [exact Hd |]. intros i e Hi Hlt. eapply He; [exact Hi |].
  change (20 + 25 * Hour - 24 * Hour) with (20 + Hour). exact Hlt.
Defined.
End Witnesses.
