(* ===== verification/Program.v ===== *)
(** * Programs over calls and queries

    A method that talks to the world is a program over two families of
    requests: calls to the store, one transaction each, which may fail, and
    queries to the other collaborators, whose answers are arbitrary.  Whatever
    may happen between two of them is visible to the theorems.  [Effects] and
    [OAuth] give the families of the executor and of the token endpoint. *)

From S2P Require Import Prelude.

Section program.
Context {E : Type} {C Q : Type → Type}.

Inductive prog (R : Type) : Type :=
| Ret (r : R)
| Call {A} (c : C A) (k : result E A → prog R)
| Query {A} (q : Q A) (k : A → prog R)
| Exit.       (** [os.Exit] *)
#[global] Arguments Ret {R} r.
#[global] Arguments Call {R A} c k.
#[global] Arguments Query {R A} q k.
#[global] Arguments Exit {R}.

Fixpoint bind {R S} (p : prog R) (f : R → prog S) : prog S :=
  match p with
  | Ret r => f r
  | Call c k => Call c (λ x, bind (k x) f)
  | Query q k => Query q (λ x, bind (k x) f)
  | Exit => Exit
  end.

Definition ask {A} (q : Q A) : prog A := Query q Ret.
Definition invoke {A} (c : C A) : prog (result E A) := Call c Ret.

(** A call whose error is returned as [f] of it. *)
Definition try {A F} (c : C A) (f : E → F) : prog (result F A) :=
  Call c (λ r, Ret (map_err f r)).
Definition fail {F A} (e : F) : prog (result F A) := Ret (Err e).
Definition ok {F A} (a : A) : prog (result F A) := Ret (Ok a).

(** [if err != nil { return err }] *)
Definition bind_ok {F A B} (p : prog (result F A)) (f : A → prog (result F B)) : prog (result F B) :=
  bind p (λ r, match r with Ok a => f a | Err e => Ret (Err e) end).

Definition forget {R} (p : prog R) : prog unit := bind p (λ _, Ret tt).
End program.
Arguments prog E C Q R : clear implicits.

Declare Scope prog_scope.
Delimit Scope prog_scope with prog.
Notation "'let*' x ':=' c 'in' k" := (bind c (λ x, k))
  (at level 10, x pattern, c at level 100, k at level 200) : prog_scope.
Notation "'let?' x ':=' c 'in' k" := (bind_ok c (λ x, k))
  (at level 10, x pattern, c at level 100, k at level 200) : prog_scope.

(** ** What a program has seen *)
Section outcomes.
Context {E : Type} {C Q : Type → Type}.

Inductive obs :=
| OCall {A} (c : C A) (r : result E A)
| OQuery {A} (q : Q A) (a : A).

(** [outcomes Φ tr p]: on every path of [p] the result satisfies [Φ] of all the
    program saw, latest first. *)
Fixpoint outcomes {R} (Φ : list obs → R → Prop) (tr : list obs) (p : prog E C Q R) : Prop :=
  match p with
  | Ret r => Φ tr r
  | Exit => True
  | Call c k => ∀ x, outcomes Φ (OCall c x :: tr) (k x)
  | Query q k => ∀ x, outcomes Φ (OQuery q x :: tr) (k x)
  end.

Lemma outcomes_bind {R S} Φ tr (p : prog E C Q R) (f : R → prog E C Q S) :
  outcomes (λ tr r, outcomes Φ tr (f r)) tr p → outcomes Φ tr (bind p f).
Proof. revert tr. induction p; intros tr; cbn; auto. Qed.

Lemma outcomes_mono {R} (Φ Ψ : list obs → R → Prop) tr (p : prog E C Q R) :
  (∀ l r, Φ (l ++ tr) r → Ψ (l ++ tr) r) → outcomes Φ tr p → outcomes Ψ tr p.
Proof.
  revert tr. induction p as [r|A c k IH|A q k IH|]; intros tr HΦ; cbn; auto.
  - apply (HΦ []).
  - intros Hk x. apply IH; [| done]. intros l r. specialize (HΦ (l ++ [OCall c x]) r).
    by rewrite <- (assoc_L (++)) in HΦ.
  - intros Hk x. apply IH; [| done]. intros l r. specialize (HΦ (l ++ [OQuery q x]) r).
    by rewrite <- (assoc_L (++)) in HΦ.
Qed.

(** A program of which only the result matters. *)
Lemma outcomes_any {R} (Φ : list obs → R → Prop) tr (p : prog E C Q R) :
  (∀ l r, Φ (l ++ tr) r) → outcomes Φ tr p.
Proof.
  intros HΦ. apply outcomes_mono with (Φ := λ _ _, True); [auto |]. clear HΦ.
  revert tr. induction p; intros tr; cbn; auto.
Qed.
End outcomes.
Arguments obs E C Q : clear implicits.

(** ** A program on its own

    A store answers a call with what its tables say, at a time of its own
    choosing; [m_answer] says what a query may be answered. *)
Class Machine (E : Type) (C Q : Type → Type) (T D : Type) := {
  m_op {A} : T → C A → D → result E (A * D);
  m_answer {A} : Q A → A → Prop;
}.

Section alone.
Context `{Machine E C Q T D}.

(** [alone p d Φ]: run on [d] with nothing in between, [p] ends with a result
    and a state that satisfy [Φ]; no call fails but for the store's answer. *)
Fixpoint alone {R} (p : prog E C Q R) (d : D) (Φ : R → D → Prop) : Prop :=
  match p with
  | Ret r => Φ r d
  | Exit => True
  | Call c k =>
    ∀ t, match m_op t c d with
         | Ok (a, d') => alone (k (Ok a)) d' Φ
         | Err e => alone (k (Err e)) d Φ
         end
  | Query q k => ∀ x, m_answer q x → alone (k x) d Φ
  end.

Lemma alone_bind {R S} (p : prog E C Q R) (f : R → prog E C Q S) d Φ :
  alone p d (λ r d', alone (f r) d' Φ) → alone (bind p f) d Φ.
Proof.
  revert d. induction p as [r|A c k IH|A q k IH|]; intros d; cbn; [done | | auto | done].
  intros Hk t. specialize (Hk t). destruct (m_op t c d) as [[a d']|e]; by apply IH.
Qed.

Lemma alone_mono {R} (p : prog E C Q R) d (Φ Ψ : R → D → Prop) :
  (∀ r d', Φ r d' → Ψ r d') → alone p d Φ → alone p d Ψ.
Proof.
  intros HΦ. revert d. induction p as [r|A c k IH|A q k IH|]; intros d; cbn; [auto | | auto | done].
  intros Hk t. specialize (Hk t). destruct (m_op t c d) as [[a d']|e]; by apply IH.
Qed.
End alone.

(** ** Protocols

    What a store promises the programs that call it, over a world that only
    grows: a call may be made where [p_pre] holds, and its answer then satisfies
    [p_post] in the world after it; an answer of a collaborator satisfies
    [p_ans]. *)
Class Protocol (E : Type) (C Q : Type → Type) (W : Type) := {
  p_le : relation W;
  p_pre {A} : W → C A → Prop;
  p_post {A} : W → C A → result E A → Prop;
  p_ans {A} : W → Q A → A → Prop;
  p_preorder :: PreOrder p_le;
  p_pre_mono {A} w w' (c : C A) : p_le w w' → p_pre w c → p_pre w' c;
}.

Section safe.
Context `{Protocol E C Q W}.

(** [safe w p Φ]: started in [w], [p] keeps to the protocol, and its result
    satisfies [Φ] of the world it ends in. *)
Fixpoint safe {R} (w : W) (p : prog E C Q R) (Φ : W → R → Prop) : Prop :=
  match p with
  | Ret r => Φ w r
  | Exit => True
  | Call c k => p_pre w c ∧ ∀ w' x, p_le w w' → p_post w' c x → safe w' (k x) Φ
  | Query q k => ∀ w' x, p_le w w' → p_ans w' q x → safe w' (k x) Φ
  end.

Lemma safe_seq {R S} w (p : prog E C Q R) (f : R → prog E C Q S) Φ :
  safe w p (λ w r, safe w (f r) Φ) → safe w (bind p f) Φ.
Proof.
  revert w. induction p as [r|A c k IH|A q k IH|]; intros w; cbn; [done | | | done].
  - intros [Hc Hk]. split; [done |]. intros. apply IH; auto.
  - intros Hk w' x Hw Ha. apply IH; auto.
Qed.

Lemma safe_mono {R} w w' (p : prog E C Q R) (Φ Ψ : W → R → Prop) :
  p_le w w' → safe w p Φ →
  (∀ w1 w2 r, p_le w w1 → p_le w1 w2 → Φ w1 r → Ψ w2 r) → safe w' p Ψ.
Proof.
  revert w w'. induction p as [r|A c k IH|A q k IH|]; intros w w' Hw Hp HΦ; cbn in *.
  - by apply (HΦ w w').
  - destruct Hp as [Hc Hk]. split; [by apply (p_pre_mono w) |]. intros w2 x Hw2 Hx.
    apply (IH x w2 w2); [done | apply Hk; [by etrans | done] |].
    intros w3 w4 r H3. apply HΦ. by etrans; [| etrans].
  - intros w2 x Hw2 Hx. apply (IH x w2 w2); [done | apply Hp; [by etrans | done] |].
    intros w3 w4 r H3. apply HΦ. by etrans; [| etrans].
  - done.
Qed.

(** A conclusion that later worlds keep. *)
Lemma safe_weaken {R} w w' (p : prog E C Q R) (Φ : W → R → Prop) :
  (∀ w1 w2 r, p_le w1 w2 → Φ w1 r → Φ w2 r) → p_le w w' → safe w p Φ → safe w' p Φ.
Proof. intros HΦ Hw Hp. apply (safe_mono w w' p Φ); [done.. |]. intros w1 w2 r _. apply HΦ. Qed.

(** Sequencing, with the world the first program ended in. *)
Lemma safe_then {R S} w (p : prog E C Q R) (f : R → prog E C Q S) (Φ : W → R → Prop) Ψ :
  safe w p Φ → (∀ w' r, p_le w w' → Φ w' r → safe w' (f r) Ψ) → safe w (bind p f) Ψ.
Proof.
  intros Hp Hf. apply safe_seq. revert w Hp Hf.
  induction p as [r|A c k IH|A q k IH|]; intros w Hp Hf; cbn in *; [by apply Hf | | | done].
  - destruct Hp as [Hc Hk]. split; [done |]. intros w' x Hw Hx. apply IH; [auto |].
    intros w2 r Hw2. apply Hf. by etrans.
  - intros w' x Hw Hx. apply IH; [auto |]. intros w2 r Hw2. apply Hf. by etrans.
Qed.
End safe.
