(* ===== verification/Effects.v ===== *)
(** * The calls of the executor

    The executor touches the world in two ways: it calls the store, one
    transaction per call, and it asks its other collaborators (the clock, the
    Telegram sender, the send gate, the owner profile).  A method is a program
    over those calls, so everything that may happen between two of them
    (another replica, the listener, a crash) is visible to the theorems. *)

From S2P Require Import Prelude GoString Program Rows Policy Tables Outbox Actions Turn.

(** ** Store calls *)
Inductive call : Type → Type :=
| CGetActionByCode (u : Z) (code : string) : call AgentAction
| CExpireIfStale (u id : Z) (ttl : duration) : call bool
| CGetProfile (u : Z) : call AgentProfile
| CGetConversation (u id : Z) : call Conversation
| CDeny (u id : Z) (from : ActionStatus) (reason : string) : call bool
| CUpdateStatus (u id : Z) (from to : ActionStatus) : call bool
| CListByStatus (s : ActionStatus) (limit : Z) : call (list AgentAction)
| CListStuck (grace : duration) : call (list AgentAction)
| CRecentSends (u conv : Z) (since : time) (exclude : Z) : call (list time)
| CTurnInboundText (u job : Z) : call string
| CReserve (a : AgentAction) (rid : Z) (body : string) (maxTurns maxPerMinute : Z) (window : time)
    (enforce : bool) : call bool
| CNote (u id : Z) : call (Z * bool)
| CUnnote (u id : Z) (notBefore : option time) : call (Z * bool)
| CRecordSent (u id conv tg : Z) (text : string) : call bool
| CMarkUnknown (u id : Z) (reason alert : string) : call bool.

(** What the store does on a call made at [now]. *)
Definition call_op `{Sealer} (now : time) {A} (c : call A) : op A :=
  match c with
  | CGetActionByCode u code => GetAgentActionByCode u code
  | CExpireIfStale u id ttl => ExpireAgentActionIfStale now u id ttl
  | CGetProfile u => GetAgentProfile u
  | CGetConversation u id => GetConversation u id
  | CDeny u id from reason => DenyAgentAction now u id from reason
  | CUpdateStatus u id from to => UpdateAgentActionStatus now u id from to
  | CListByStatus s limit => ListActionsByStatus s limit
  | CListStuck grace => ListStuckExecutingActions now grace
  | CRecentSends u conv since ex => ListRecentAgentOutgoingTimestampsExcludingAction u conv since ex
  | CTurnInboundText u job => TurnInboundText u job
  | CReserve a rid body mt mm w enf => ReserveAgentActionSend now a rid body mt mm w enf
  | CNote u id => NoteAgentActionSendAttempt u id
  | CUnnote u id nb => UnnoteAgentActionSendAttempt u id nb
  | CRecordSent u id conv tg text => RecordAgentActionSent now u id conv tg text
  | CMarkUnknown u id reason alert => MarkAgentActionDeliveryUnknown now u id reason alert
  end.

(** ** The other collaborators *)

(** The errors of a send; one that is neither of the first three is
    ambiguous. *)
Inductive send_error :=
| AlreadyDelivered
| FloodWaitError (wait : duration)
| SendRefusedError (class : string)
| SendAmbiguous (what : string).

Inductive profile_error := OwnerProfileNotFound | ProfileFailed (what : string).

(** A match of a restricted field: key, never_auto_send, approval_required. *)
Record restricted := Restricted {
  rf_key : string;
  rf_neverAutoSend : bool;
  rf_approvalRequired : bool;
}.

(** The first argument of [QSend] is not passed to the sender: it names the
    action the send is made for. *)
Inductive query : Type → Type :=
| QNow : query time
| QNewRandomID : query (result unit Z)
| QGlobalKill : query bool
| QSendGate (u peer : Z) : query bool          (** whether the gate is open *)
| QSend (action u peer hash rid : Z) (text : string) : query (result send_error Z)
| QLocate (u peer hash : Z) (text : string) (since : time) : query (result unit (option Z))
| QMatchRestricted (u : Z) (text : string) : query (result profile_error (option restricted))
| QMatchProtected (u : Z) (text inbound : string) (engaged : bool)
    : query (result profile_error (option ProtectedField)).

(** ** Programs *)
Abbreviation prog := (Program.prog db_error call query).
Abbreviation try := (Program.try (E:=db_error) (C:=call) (Q:=query)).

(** ** What a program has seen *)

(** An observation: a call or a question, with its answer. *)
Inductive obs :=
| OCall {A} (c : call A) (r : result db_error A)
| OQuery {A} (q : query A) (a : A).

(** A message handed to Telegram. *)
Record rpc := Rpc {
  rpc_action : Z;
  rpc_user : Z;
  rpc_peer : Z;
  rpc_hash : Z;
  rpc_rid : Z;
  rpc_text : string;
}.
Definition rpc_of {A} (q : query A) : option rpc :=
  match q with QSend a u peer hash rid text => Some (Rpc a u peer hash rid text) | _ => None end.

(** [paths Q Φ tr p]: on every path of [p], whatever the answers, each send
    satisfies [Q] of what the program saw before it (latest first), and the
    result satisfies [Φ] of all it saw. *)
Fixpoint paths {R} (Q : list obs → rpc → Prop) (Φ : list obs → R → Prop) (tr : list obs)
    (p : prog R) : Prop :=
  match p with
  | Ret r => Φ tr r
  | Exit => True
  | Call c k => ∀ x, paths Q Φ (OCall c x :: tr) (k x)
  | Query q k => (∀ m, rpc_of q = Some m → Q tr m) ∧ ∀ x, paths Q Φ (OQuery q x :: tr) (k x)
  end.

Lemma paths_bind {R S} Q (Φ : list obs → S → Prop) tr (p : prog R) (f : R → prog S) :
  paths Q (λ tr r, paths Q Φ tr (f r)) tr p → paths Q Φ tr (bind p f).
Proof.
  revert tr. induction p as [r|A c k IH|A q k IH|]; intros tr; cbn; auto.
  intros [Hq Hk]. auto.
Qed.

Lemma paths_mono {R} Q (Φ Ψ : list obs → R → Prop) tr (p : prog R) :
  (∀ tr' r, Φ (tr' ++ tr) r → Ψ (tr' ++ tr) r) → paths Q Φ tr p → paths Q Ψ tr p.
Proof.
  intros HΦ. assert (∀ tr0, (∃ l, tr0 = l ++ tr) → paths Q Φ tr0 p → paths Q Ψ tr0 p) as Hgen.
  { induction p as [r|A c k IH|A q k IH|]; intros tr0 [l ->]; cbn; auto.
    - intros Hk x. apply IH; [by exists (OCall c x :: l) | done].
    - intros [Hq Hk]. split; [done |]. intros x. apply IH; [by exists (OQuery q x :: l) | done]. }
  apply Hgen. by exists [].
Qed.

(** A call whose error ends the method. *)
Lemma paths_try {A E S} Q (Φ : list obs → result E S → Prop) tr (c : call A) f k :
  (∀ a, paths Q Φ (OCall c (Ok a) :: tr) (k a)) →
  (∀ err, Φ (OCall c (Err err) :: tr) (Err (f err))) →
  paths Q Φ tr (bind_ok (try c f) k).
Proof. intros Hok Herr [a|err]; cbn; [apply Hok | apply Herr]. Qed.

(** ** Programs that send nothing *)

(** No call of the executor moves an action to executing other than the
    reservation. *)
Definition call_legal {A} (c : call A) : Prop :=
  match c with CUpdateStatus _ _ _ to => to ≠ ActionExecuting | _ => True end.

Fixpoint tame {R} (p : prog R) : Prop :=
  match p with
  | Ret _ | Exit => True
  | Call c k => call_legal c ∧ ∀ x, tame (k x)
  | Query q k => rpc_of q = None ∧ ∀ x, tame (k x)
  end.

Lemma tame_bind {R S} (p : prog R) (f : R → prog S) : tame p → (∀ r, tame (f r)) → tame (bind p f).
Proof. intros Hp Hf. induction p; cbn in *; intuition. Qed.

(** The sends among the observations. *)
Definition obs_rpc (o : obs) : option rpc :=
  match o with OCall _ _ => None | OQuery q _ => rpc_of q end.
Definition sends (tr : list obs) : list rpc := omap obs_rpc tr.

Lemma paths_tame {R} Q (Φ : list obs → R → Prop) tr (p : prog R) :
  tame p → (∀ l r, sends l = [] → Φ (l ++ tr) r) → paths Q Φ tr p.
Proof.
  intros Hp HΦ. assert (∀ l, sends l = [] → paths Q Φ (l ++ tr) p) as Hgen; [| by apply (Hgen [])].
  induction p as [r|A c k IH|A q k IH|]; intros l Hl; cbn in *; auto.
  - intros x. apply (IH x) with (l := OCall c x :: l); [apply Hp | done].
  - destruct Hp as [Hq Hk]. split; [congruence |]. intros x.
    apply (IH x) with (l := OQuery q x :: l); [done |]. unfold sends. cbn. by rewrite Hq.
Qed.

(** Splits a tame program down to its calls. *)
Ltac tame_steps :=
  repeat match goal with
  | |- tame (bind _ _) => apply tame_bind; [| intros ?]
  | |- tame (bind_ok _ _) => apply tame_bind; [| intros ?]
  | |- tame (match ?x with _ => _ end) => destruct x
  | |- tame (if ?x then _ else _) => destruct x
  | |- tame (let _ := _ in _) => cbv zeta
  end; try solve [cbn; repeat split; try discriminate; exact I].
