(* ===== verification/Executor.v ===== *)
(** * The executor: [src/internal/agent/executor/executor.go]

    The only code that sends a reply on the agent's behalf.  It re-checks policy
    and profile restrictions, reserves the send with its random id, counts the
    attempt, sends, and records the outcome; recovery repeats an interrupted
    send with the id and the text that were reserved. *)

From S2P Require Import Prelude GoString Program Regexp PolicyContent Schedule Rows Policy Tables Outbox Actions Turn Effects.

(** ** The disclosure line *)
Definition appendDisclosure (payload disclosure : string) : string :=
  let want := TrimSpace disclosure in
  if bool_decide (want = "") then payload else
  let trimmed := TrimRightSpace payload in
  if bool_decide (trimmed = want) || HasSuffix trimmed (DisclosureSep +:+ want) then payload
  else payload +:+ DisclosureSep +:+ disclosure.

Definition stripDisclosure (payload disclosure : string) : string :=
  let want := TrimSpace disclosure in
  if bool_decide (want = "") then payload else
  let trimmed := TrimRightSpace payload in
  if bool_decide (TrimSpace trimmed = want) then ""
  else if negb (HasSuffix trimmed (DisclosureSep +:+ want)) then payload
  else TrimRightSpace (TrimSuffix trimmed (DisclosureSep +:+ want)).

(** ** Configuration and errors *)

(** The optional collaborators are present or not; the metrics registry is left
    out. *)
Record Executor := MkExecutor {
  x_SendGate : bool;
  x_Profile : bool;
  x_Locator : bool;
  x_StuckGrace : duration;
  x_ApprovalTTL : duration;
  x_CrashAfterReserve : bool;
  x_MaxSendAttempts : Z;
}.

Definition DefaultMaxSendAttempts : Z := 5.
Definition maxSendAttempts (e : Executor) : Z :=
  if 0 <? x_MaxSendAttempts e then x_MaxSendAttempts e else DefaultMaxSendAttempts.

(** An error by the sentinel it wraps, with the context around it. *)
Inductive exec_error :=
| ErrApprovalCodeNotFound
| ErrLostRace
| ErrApprovalExpired
| ErrInstallChanged
| ErrSendQueuedForRetry (what : string)
| ErrSourceSuperseded (reason : string)
| ErrSendRefused (class : string)
| ErrDeliveryUnknown (reason : string)
| ErrOther (what : string).
#[global] Instance exec_error_eq_dec : EqDecision exec_error.
Proof. solve_decision. Defined.

Definition ReasonFloodWaitOutlasted : string := "flood wait outlasted the approval TTL".
Definition ReasonSendGateClosed : string := "send gate closed".
Definition reasonAttemptsExhausted (attempts : Z) : string :=
  "delivery unknown: Telegram did not confirm the send after " +:+ FormatInt attempts +:+ " attempts".
Definition reasonStoppedAfterAttempt (reasons : list string) : string :=
  "delivery unknown: retry stopped after an attempt that may have been delivered: "
  +:+ Join reasons "; ".

Section executor.
Context `{UnicodeTables} `{TimeZones}.
Local Open Scope prog_scope.
Variable e : Executor.

Definition outcome : Type := result exec_error unit.

(** ** Profile checks *)
Definition restrictedFieldBlocks (a : AgentAction) (finalText : string)
  : prog (result string (option string)) :=
  if negb (x_Profile e) then ok None else
  let* r := ask (QMatchRestricted (aa_UserID a) finalText) in
  match r with
  | Err OwnerProfileNotFound => ok None
  | Err (ProfileFailed what) => fail ("load tenant restricted fields: " +:+ what)
  | Ok None => ok None
  | Ok (Some f) =>
    if rf_neverAutoSend f
    then ok (Some ("payload echoes never_auto_send restricted field " +:+ Quote (rf_key f)))
    else if rf_approvalRequired f && negb (bool_decide (aa_PolicyDecision a = PolicyRequireApproval))
    then ok (Some ("payload echoes approval_required restricted field " +:+ Quote (rf_key f)
                   +:+ " without owner review"))
    else ok None
  end.

Definition protectedField (a : AgentAction) (c : Conversation)
  : prog (result string (option ProtectedField)) :=
  if negb (x_Profile e) || negb (bool_decide (aa_ActionType a = ActionTypeReply)) then ok None else
  let? inbound := try (CTurnInboundText (aa_UserID a) (aa_JobID a)) (λ _, "load turn inbound text") in
  let* now := ask QNow in
  let* r := ask (QMatchProtected (aa_UserID a) (aa_Payload a) inbound (OwnerEngaged c now)) in
  match r with
  | Err OwnerProfileNotFound => ok None
  | Err (ProfileFailed what) => fail ("load tenant owner profile: " +:+ what)
  | Ok f => ok f
  end.

(** [if e.SendGate != nil { err := e.SendGate(...) }] *)
Definition gate (u peer : Z) : prog bool :=
  if x_SendGate e then ask (QSendGate u peer) else Ret true.

(** [e.ApprovalTTL > 0 && time.Since(t) > e.ApprovalTTL] *)
Definition past_ttl (t : time) : prog bool :=
  if 0 <? x_ApprovalTTL e then
    let* now := ask QNow in Ret (x_ApprovalTTL e <? time_sub now t)
  else Ret false.

(** ** Ending an action *)
Definition peerLabel (c : Conversation) : string :=
  if negb (bool_decide (TrimSpace (c_PeerDisplayName c) = "")) then c_PeerDisplayName c
  else if negb (bool_decide (TrimSpace (c_PeerUsername c) = "")) then "@" +:+ c_PeerUsername c
  else "a conversation".

Definition unknown_alert (c : Conversation) : string :=
  "The assistant could not confirm whether its reply to " +:+ peerLabel c
  +:+ " was delivered, and it will not try again. Check that chat before you reply yourself, so the reply is not sent twice.".

Definition markDeliveryUnknown (a : AgentAction) (c : Conversation) (reason : string) : prog outcome :=
  let? done := try (CMarkUnknown (aa_UserID a) (aa_ID a) reason (unknown_alert c))
                   (λ _, ErrOther "record delivery unknown") in
  if done then fail (ErrDeliveryUnknown reason) else ok tt.

Definition endHeldRetry (a : AgentAction) (c : Conversation) (attempts : Z)
    (denyReason unknownReason : string) : prog outcome :=
  if 0 <? attempts then
    let* r := markDeliveryUnknown a c unknownReason in
    match r with Ok _ => fail ErrLostRace | Err err => fail err end
  else
    let? done := try (CDeny (aa_UserID a) (aa_ID a) ActionExecuting denyReason)
                     (λ _, ErrOther "deny held retry") in
    fail (if done then ErrOther ("retry denied: " +:+ denyReason) else ErrLostRace).

(** The result is [None] when the error is left to the caller. *)
Definition settleRefusal (a : AgentAction) (c : Conversation) (reservedAt : time)
    (sent : result send_error Z) : prog (option outcome) :=
  match sent with
  | Err (FloodWaitError wait) =>
    let* now := ask QNow in
    let* r := invoke (CUnnote (aa_UserID a) (aa_ID a) (Some (now + wait))) in
    match r with
    | Err _ => Ret (Some (Err (ErrSendQueuedForRetry "flood wait, undo attempt")))
    | Ok (_, false) => Ret (Some (Err ErrLostRace))
    | Ok (attempts, true) =>
      let* late := past_ttl reservedAt in
      if late then
        let* r := endHeldRetry a c attempts ReasonFloodWaitOutlasted
          "delivery unknown: flood waits outlasted the approval TTL after an attempt that may have been delivered" in
        Ret (Some r)
      else Ret (Some (Err (ErrSendQueuedForRetry "flood wait")))
    end
  | Err (SendRefusedError class) =>
    let* r := invoke (CUnnote (aa_UserID a) (aa_ID a) None) in
    match r with
    | Err _ => Ret (Some (Err (ErrOther "undo refused attempt")))
    | Ok (_, false) => Ret (Some (Err ErrLostRace))
    | Ok (attempts, true) =>
      if 0 <? attempts then
        let* r := markDeliveryUnknown a c
          ("delivery unknown: Telegram refused a retry (" +:+ class
           +:+ ") after an attempt that may have been delivered") in
        Ret (Some r)
      else
        let* r := invoke (CDeny (aa_UserID a) (aa_ID a) ActionExecuting
                            ("send refused by Telegram: " +:+ class)) in
        Ret (Some (Err match r with
                       | Err _ => ErrOther "deny refused send"
                       | Ok false => ErrLostRace
                       | Ok true => ErrSendRefused class
                       end))
    end
  | _ => Ret None
  end.

Definition locateDelivered (a : AgentAction) (c : Conversation) (text : string) : prog Z :=
  if negb (x_Locator e) then Ret 0 else
  let* r := ask (QLocate (aa_UserID a) (c_PeerTGID c) (c_PeerAccessHash c) text (aa_UpdatedAt a)) in
  Ret (match r with Ok (Some id) => id | _ => 0 end).

(** The send itself; a duplicate refusal means it was delivered. *)
Definition deliver (a : AgentAction) (c : Conversation) (rid : Z) (text : string)
  : prog (result send_error Z) :=
  let* r := ask (QSend (aa_ID a) (aa_UserID a) (c_PeerTGID c) (c_PeerAccessHash c) rid text) in
  match r with
  | Err AlreadyDelivered => let* id := locateDelivered a c text in Ret (Ok id)
  | _ => Ret r
  end.

(** ** A fresh send *)

(** The second half of the check: [RequireApproval] stops only what no person
    has approved. *)
Definition bypasses (a : AgentAction) (r : Policy.Result) : bool :=
  bool_decide (r_Decision r = RequireApproval) && bool_decide (aa_PolicyDecision a = PolicyAllow).
Definition stopped (a : AgentAction) (r : Policy.Result) : bool :=
  bool_decide (r_Decision r = Deny) || bypasses a r.

Definition policy_input (a : AgentAction) (p : AgentProfile) (c conv : Conversation)
    (recent : list time) (kill : bool) (now : time) (f : option ProtectedField) : Input :=
  MkInput p c (MkAction (aa_ActionType a) (aa_Intent a) (aa_Payload a) (c_PeerTGID conv))
    recent kill now f "" (aa_InstallRevision a) false.

Definition queued (what : string) : exec_error := ErrSendQueuedForRetry what.

Definition deny_approved (a : AgentAction) (what : string) (err : exec_error) : prog outcome :=
  let? done := try (CUpdateStatus (aa_UserID a) (aa_ID a) ActionApproved ActionDenied)
                   (λ _, ErrOther what) in
  fail (if done then err else ErrLostRace).

Definition denySuperseded (a : AgentAction) (kind : string) : prog outcome :=
  let reason := SourceSupersededReason kind in
  let? done := try (CDeny (aa_UserID a) (aa_ID a) ActionApproved reason)
                   (λ _, ErrOther "deny superseded draft") in
  fail (ErrSourceSuperseded reason).

Definition send_rpc (a : AgentAction) (c : Conversation) (rid : Z) (text : string) : prog outcome :=
  let* reservedAt := ask QNow in
  let? noted := try (CNote (aa_UserID a) (aa_ID a)) (λ _, queued "note send attempt") in
  if negb noted.2 then fail ErrLostRace else
  let* sent := deliver a c rid text in
  let* handled := settleRefusal a c reservedAt sent in
  match handled, sent with
  | Some r, _ => Ret r
  | None, Err _ => fail (queued "send")
  | None, Ok id =>
    let? _ := try (CRecordSent (aa_UserID a) (aa_ID a) (aa_ConversationID a) id text)
                  (λ _, queued "record executed") in
    ok tt
  end.

Definition send_reserve (a : AgentAction) (p : AgentProfile) (c : Conversation) (text : string)
  : prog outcome :=
  let* rid := ask QNewRandomID in
  match rid with
  | Err _ => fail (queued "generate random id")
  | Ok rid =>
    let* now := ask QNow in
    let* r := invoke (CReserve a rid text (p_MaxAutonomousTurns p) (p_MaxMsgsPerMinute p)
                        (now - Minute) (bool_decide (aa_PolicyDecision a = PolicyAllow))) in
    match r with
    | Err (ErrSourceSupersededKind kind) => denySuperseded a kind
    | Err ErrAgentSendBudgetExhausted =>
      deny_approved a "deny action after atomic budget check"
        (ErrOther "policy budget exhausted before execution claim")
    | Err _ => fail (queued "reserve execution")
    | Ok false => fail ErrLostRace
    | Ok true => if x_CrashAfterReserve e then Exit else send_rpc a c rid text
    end
  end.

(** The text that goes out. *)
Definition final_text (a : AgentAction) (p : AgentProfile) : string :=
  let text := appendDisclosure (aa_Payload a) (EffectiveDisclosure p) in
  if p_DisclosureDisabled p then stripDisclosure text (p_DisclosureText p) else text.

Definition send_text (a : AgentAction) (p : AgentProfile) (c : Conversation) : prog outcome :=
  let text := final_text a p in
  if p_DisclosureDisabled p && bool_decide (TrimSpace text = "") then
    deny_approved a "deny empty payload" (ErrOther "draft is empty once the disclosure is stripped")
  else
  let* r := restrictedFieldBlocks a text in
  match r with
  | Err what => fail (queued ("check restricted fields: " +:+ what))
  | Ok (Some reason) =>
    deny_approved a "deny restricted-field payload" (ErrOther ("owner profile blocks send: " +:+ reason))
  | Ok None =>
    let* open := gate (aa_UserID a) (c_PeerTGID c) in
    if open then send_reserve a p c text
    else deny_approved a "deny gated send" (ErrOther "send gate blocks send")
  end.

Definition send (a : AgentAction) : prog outcome :=
  let? p := try (CGetProfile (aa_UserID a)) (λ _, queued "load profile") in
  let? c := try (CGetConversation (aa_UserID a) (aa_ConversationID a)) (λ _, queued "load conversation") in
  let* t := ask QNow in
  let? recent := try (CRecentSends (aa_UserID a) (aa_ConversationID a) (t - Minute) 0)
                     (λ _, queued "load recent sends") in
  let* protected := protectedField a c in
  match protected with
  | Err what => fail (queued ("check protected profile fields: " +:+ what))
  | Ok f =>
    let* kill := ask QGlobalKill in
    let* now := ask QNow in
    let r := Evaluate (policy_input a p c c recent kill now f) in
    if stopped a r then
      deny_approved a "deny stale approval" (ErrOther
        ((if bypasses a r
          then "policy now requires approval for this never-reviewed auto-approved action: "
          else "policy denies at send time: ") +:+ Join (r_Reasons r) "; "))
    else send_text a p c
  end.

(** ** Recovery *)

(** Ends a retry the checks stopped. *)
Definition recover_stop (a : AgentAction) (c : Conversation) (reasons : list string)
    (what : string) (err : exec_error) : prog outcome :=
  if 0 <? aa_SendAttempts a then markDeliveryUnknown a c (reasonStoppedAfterAttempt reasons) else
  let? done := try (CUpdateStatus (aa_UserID a) (aa_ID a) ActionExecuting ActionDenied)
                   (λ _, ErrOther what) in
  if done then fail err else ok tt.

Definition recover_rpc (a : AgentAction) (c : Conversation) : prog outcome :=
  let? noted := try (CNote (aa_UserID a) (aa_ID a)) (λ _, ErrOther "note send attempt") in
  let (attempts, live) := noted : Z * bool in
  if negb live then ok tt else
  let* sent := deliver a c (aa_SendRandomID a) (aa_SendBody a) in
  let* handled := settleRefusal a c (aa_UpdatedAt a) sent in
  match handled, sent with
  | Some (Err ErrLostRace), _ => ok tt
  | Some r, _ => Ret r
  | None, Err _ =>
    if maxSendAttempts e <=? attempts then
      let* r := markDeliveryUnknown a c (reasonAttemptsExhausted attempts) in
      match r with
      | Ok _ => fail (ErrOther "retry send")
      | Err (ErrDeliveryUnknown reason) => fail (ErrDeliveryUnknown "last retry")
      | Err _ => fail (ErrOther "retry send; record delivery unknown")
      end
    else fail (ErrOther "retry send")
  | None, Ok id =>
    let? _ := try (CRecordSent (aa_UserID a) (aa_ID a) (aa_ConversationID a) id (aa_SendBody a))
                  (λ _, ErrOther "record executed") in
    ok tt
  end.

Definition recover_gate (a : AgentAction) (c : Conversation) : prog outcome :=
  let* open := gate (aa_UserID a) (c_PeerTGID c) in
  if open then recover_rpc a c else
  let* late := past_ttl (aa_UpdatedAt a) in
  if late then
    let* r := endHeldRetry a c (aa_SendAttempts a) ReasonSendGateClosed
      "delivery unknown: send gate stayed closed past the approval TTL after an attempt that may have been delivered" in
    match r with Err ErrLostRace => ok tt | r => Ret r end
  else fail (ErrOther "send gate denied recovery retry").

(** The conversation before this action's own reservation. *)
Definition uncharged (c : Conversation) : Conversation :=
  if 0 <? c_AutonomousTurns c then c <|c_AutonomousTurns := c_AutonomousTurns c - 1|> else c.

Definition recover_check (a : AgentAction) (p : AgentProfile) (c : Conversation) : prog outcome :=
  let* t := ask QNow in
  let? recent := try (CRecentSends (aa_UserID a) (aa_ConversationID a) (t - Minute) (aa_ID a))
                     (λ _, ErrOther "load recent sends") in
  let* protected := protectedField a c in
  match protected with
  | Err what => fail (ErrOther ("check protected profile fields during recovery: " +:+ what))
  | Ok f =>
    let* kill := ask QGlobalKill in
    let* now := ask QNow in
    let r := Evaluate (policy_input a p (uncharged c) c recent kill now f) in
    if stopped a r then
      recover_stop a c (r_Reasons r) "deny stale approval during recovery" (ErrOther
        ((if bypasses a r
          then "policy now requires approval for this never-reviewed auto-approved action during recovery: "
          else "policy denies at recovery time: ") +:+ Join (r_Reasons r) "; "))
    else if bool_decide (aa_SendBody a = "") then fail (ErrOther "executing with no persisted send body")
    else
    let* r := restrictedFieldBlocks a (aa_SendBody a) in
    match r with
    | Err what => fail (ErrOther ("check restricted fields during recovery: " +:+ what))
    | Ok (Some reason) =>
      recover_stop a c [reason] "deny restricted-field payload during recovery"
        (ErrOther ("owner profile blocks recovery send: " +:+ reason))
    | Ok None => recover_gate a c
    end
  end.

Definition recoverOne (a : AgentAction) : prog outcome :=
  if aa_SendRandomID a =? 0 then fail (ErrOther "executing with no send_random_id") else
  let? c := try (CGetConversation (aa_UserID a) (aa_ConversationID a)) (λ _, ErrOther "load conversation") in
  let? p := try (CGetProfile (aa_UserID a)) (λ _, ErrOther "load profile") in
  if negb (aa_ExecutedTGMessageID a =? 0) && (0 <? aa_SendAttempts a) then
    if bool_decide (aa_SendBody a = "") then fail (ErrOther "executing with no persisted send body") else
    let? _ := try (CRecordSent (aa_UserID a) (aa_ID a) (aa_ConversationID a)
                     (aa_ExecutedTGMessageID a) (aa_SendBody a))
                  (λ _, ErrOther "record echoed delivery") in
    ok tt
  else if maxSendAttempts e <=? aa_SendAttempts a then
    markDeliveryUnknown a c (reasonAttemptsExhausted (aa_SendAttempts a))
  else recover_check a p c.

(** ** Entry points *)

(** The loop over a batch: an error of one action does not stop the others. *)
Fixpoint for_each (f : AgentAction → prog outcome) (l : list AgentAction) : prog unit :=
  match l with
  | [] => Ret tt
  | a :: l => let* _ := f a in for_each f l
  end.

Definition ProcessApproved : prog (result exec_error Z) :=
  let? actions := try (CListByStatus ActionApproved 50) (λ _, ErrOther "list approved actions") in
  let* _ := for_each send actions in
  ok (Z.of_nat (length actions)).

(** The ids of the batch that were not seen stuck before, and the new memory. *)
Definition trackNewlyStuck (seen : gset Z) (stuck : list AgentAction) : Z * gset Z :=
  (Z.of_nat (length (filter (λ a, aa_ID a ∉ seen) stuck)), list_to_set (map aa_ID stuck)).

Definition RecoverStuck (seen : gset Z) : prog (result exec_error (Z * gset Z)) :=
  let? stuck := try (CListStuck (x_StuckGrace e)) (λ _, ErrOther "list stuck executing actions") in
  match stuck with
  | [] => ok (0, ∅)
  | _ =>
    let* _ := for_each recoverOne stuck in
    ok (Z.of_nat (length stuck), (trackNewlyStuck seen stuck).2)
  end.

Definition lookup_error (err : db_error) : exec_error :=
  match err with
  | ErrAgentActionNotFound => ErrApprovalCodeNotFound
  | _ => ErrOther "lookup action by code"
  end.

Definition approve_now (a : AgentAction) (u : Z) : prog outcome :=
  let? done := try (CUpdateStatus u (aa_ID a) ActionPendingApproval ActionApproved)
                   (λ _, ErrOther "approve action") in
  if negb done then fail ErrLostRace else
  let* now := ask QNow in
  send (MkAgentAction (aa_ID a) (aa_ApprovalCode a) (aa_JobID a) (aa_Attempt a) (aa_ConversationID a)
    (aa_UserID a) (aa_ActionType a) (aa_Intent a) (aa_Payload a) (aa_PolicyDecision a)
    (aa_PolicyReasons a) ActionApproved (aa_ExecutedTGMessageID a) (aa_SendRandomID a)
    (aa_SendBody a) (aa_SendAttempts a) (aa_CreatedAt a) now (aa_InstallRevision a)).

Definition Approve (u : Z) (code : string) : prog outcome :=
  let? a := try (CGetActionByCode u (ToUpper (TrimSpace code))) lookup_error in
  if negb (bool_decide (aa_Status a = ActionPendingApproval)) then fail ErrLostRace else
  let* late := past_ttl (aa_UpdatedAt a) in
  if late then
    let? _ := try (CExpireIfStale u (aa_ID a) (x_ApprovalTTL e)) (λ _, ErrOther "expire stale approval") in
    fail ErrApprovalExpired
  else
  let* p := invoke (CGetProfile u) in
  match p with
  | Err ErrAgentProfileNotFound => approve_now a u
  | Err _ => fail (ErrOther "load profile")
  | Ok p =>
    if aa_InstallRevision a =? p_InstallRevision p then approve_now a u else
    let? done := try (CDeny u (aa_ID a) ActionPendingApproval ReasonInstallChanged)
                     (λ _, ErrOther "deny stale-install draft") in
    fail (if done then ErrInstallChanged else ErrLostRace)
  end.

Definition Reject (u : Z) (code : string) : prog outcome :=
  let? a := try (CGetActionByCode u (ToUpper (TrimSpace code))) lookup_error in
  let? done := try (CUpdateStatus u (aa_ID a) ActionPendingApproval ActionRejected)
                   (λ _, ErrOther "reject action") in
  if done then ok tt else fail ErrLostRace.
End executor.
