(* ===== verification/Disclosure.v ===== *)
(** * The text that goes out

    [appendDisclosure], [stripDisclosure] and the length limit: what the
    executor sends for a reply the policy let out. *)

From S2P Require Import Prelude GoString Regexp PolicyContent Schedule Rows Policy PolicyProps Tables Outbox Actions Turn Effects Executor.

(** ** Runes and byte boundaries *)
(** What trimming takes off the end starts at a rune boundary. *)
Lemma trim_left_rev_split l :
  ∃ k, l = k ++ trim_left_rev l ∧ (k = [] ∨ ∃ k' b, k = k' ++ [b] ∧ cont b = false).
Proof.
  remember (length l) as n eqn:Hn. revert l Hn.
  induction n as [n IH] using lt_wf_ind. intros l ->.
  assert (Hstep : ∀ x b k, l = x ++ b :: k → trim_left_rev l = trim_left_rev k → cont b = false →
    ∃ k0, l = k0 ++ trim_left_rev l ∧ (k0 = [] ∨ ∃ k' b, k0 = k' ++ [b] ∧ cont b = false)).
  { intros x b k Hl Ht Hb. destruct (IH (length k)) with (l := k) as (k1 & Hk1 & Hor); [| done |].
    - rewrite Hl, length_app. cbn. lia.
    - exists (x ++ b :: k1). rewrite Ht, <- app_assoc. cbn. rewrite <- Hk1. split; [done |]. right.
      destruct Hor as [->|(k' & b' & -> & Hb')]; [by exists x, b |].
      exists (x ++ b :: k'), b'. split; [| done]. by rewrite <- app_assoc. }
  destruct l as [|b0 l1]; [by exists []; split; [| left] |]. cbn [trim_left_rev] in *.
  destruct (space1 b0) eqn:E1.
  { apply (Hstep [] b0 l1); [done.. |]. unfold space1, cont, in_range in *. lia. }
  destruct l1 as [|b1 l2]; [by exists []; split; [| left] |].
  destruct (space2 b1 b0) eqn:E2.
  { apply (Hstep [b0] b1 l2); [done.. |]. unfold space2, cont in *. lia. }
  destruct l2 as [|b2 l3]; [by exists []; split; [| left] |].
  destruct (space3 b2 b1 b0) eqn:E3; [| by exists []; split; [| left]].
  apply (Hstep [b0; b1] b2 l3); [done.. |]. unfold space3, cont, in_range in *. lia.
Qed.

Lemma trim_right_split l :
  ∃ k, l = trim_right l ++ k ∧ (k = [] ∨ ∃ b k', k = b :: k' ∧ cont b = false).
Proof.
  destruct (trim_left_rev_split (rev l)) as (k & Hk & Hor). exists (rev k). unfold trim_right. split.
  - by rewrite <- rev_app_distr, <- Hk, rev_involutive.
  - destruct Hor as [->|(k' & b & -> & Hb)]; [by left | right].
    exists b, (rev k'). split; [| done]. by rewrite rev_app_distr.
Qed.

Lemma Forall_trim_right (P : Z → Prop) l : Forall P l → Forall P (trim_right l).
Proof.
  intros Hl. destruct (trim_right_split l) as (k & Hk & _). rewrite Hk in Hl.
  by apply Forall_app in Hl as [? _].
Qed.
Lemma bytes_TrimRightSpace s : bytes (TrimRightSpace s) = trim_right (bytes s).
Proof. apply bytes_of_bytes, Forall_trim_right, bytes_range. Qed.

Lemma rune_count_TrimRightSpace s : rune_count (TrimRightSpace s) ≤ rune_count s.
Proof.
  unfold rune_count. rewrite bytes_TrimRightSpace.
  destruct (trim_right_split (bytes s)) as (k & Hk & Hor). rewrite Hk at 2.
  destruct Hor as [->|(b & k' & -> & Hb)]; [rewrite app_nil_r; lia |].
  rewrite decode_app_lead, length_app by done. lia.
Qed.

(** ** Suffixes *)
Lemma str_drop_substring n s : (n ≤ String.length s)%nat →
  String.substring 0 n s +:+ str_drop n s = s.
Proof.
  revert s. induction n as [|n IH]; intros [|a s] Hn; cbn in *; try done.
  apply (f_equal (String a)), IH. lia.
Qed.

Lemma HasSuffix_TrimSuffix s p : HasSuffix s p = true → s = TrimSuffix s p +:+ p.
Proof.
  intros Hs. unfold TrimSuffix. rewrite Hs. unfold HasSuffix in Hs.
  apply andb_true_iff in Hs as [Hl%Nat.leb_le Hd%String.eqb_eq].
  rewrite <- Hd at 2. symmetry. apply str_drop_substring. lia.
Qed.

Lemma str_drop_app s t : str_drop (String.length s) (s +:+ t) = t.
Proof. by induction s. Qed.
Lemma substring_app s t : String.substring 0 (String.length s) (s +:+ t) = s.
Proof. induction s as [|a s IH]; [by destruct t |]. exact (f_equal (String a) IH). Qed.

Lemma HasSuffix_app s p : HasSuffix (s +:+ p) p = true.
Proof.
  unfold HasSuffix. rewrite str_length_app. apply andb_true_iff. split; [apply Nat.leb_le; lia |].
  apply String.eqb_eq. replace (_ - _)%nat with (String.length s) by lia. apply str_drop_app.
Qed.
Lemma TrimSuffix_app s p : TrimSuffix (s +:+ p) p = s.
Proof.
  unfold TrimSuffix. rewrite HasSuffix_app, str_length_app.
  replace (_ - _)%nat with (String.length s) by lia. apply substring_app.
Qed.

(** ** Trimming what follows an ASCII byte *)
Lemma trim_left_rev_app k b l :
  b < 128 → k ≠ [] → trim_left_rev k = k → trim_left_rev (k ++ b :: l) = k ++ b :: l.
Proof.
  intros Hb Hk Ht. assert (Hlen : ∀ x, (length (trim_left_rev x) ≤ length x)%nat).
  { intros x. destruct (trim_left_rev_split x) as (y & Hy & _). rewrite Hy at 2.
    rewrite length_app. lia. }
  destruct k as [|b0 [|b1 [|b2 k]]]; [done | ..]; cbn [app trim_left_rev] in *.
  - destruct (space1 b0); [done |]. destruct (space2 b b0) eqn:E2.
    { unfold space2 in E2. lia. }
    destruct l as [|b2 l]; [done |]. destruct (space3 b2 b b0) eqn:E3; [| done].
    unfold space3, in_range in E3. lia.
  - destruct (space1 b0); [specialize (Hlen [b1]); cbn in Ht, Hlen; rewrite Ht in Hlen; cbn in Hlen; lia |].
    destruct (space2 b1 b0); [done |]. destruct (space3 b b1 b0) eqn:E3; [| done].
    unfold space3, in_range in E3. lia.
  - destruct (space1 b0); [specialize (Hlen (b1 :: b2 :: k)); cbn in Ht, Hlen; rewrite Ht in Hlen; cbn in Hlen; lia |].
    destruct (space2 b1 b0); [specialize (Hlen (b2 :: k)); cbn in Ht, Hlen; rewrite Ht in Hlen; cbn in Hlen; lia |].
    by destruct (space3 b2 b1 b0);
      [specialize (Hlen k); cbn in Ht, Hlen; rewrite Ht in Hlen; cbn in Hlen; lia |].
Qed.

Lemma TrimRightSpace_line s d :
  d ≠ "" → TrimRightSpace d = d → TrimRightSpace (s +:+ DisclosureSep +:+ d) = s +:+ DisclosureSep +:+ d.
Proof.
  intros Hd Ht. apply (f_equal bytes) in Ht. rewrite bytes_TrimRightSpace in Ht.
  apply bytes_inj. rewrite bytes_TrimRightSpace, !bytes_app. unfold trim_right in *.
  rewrite !rev_app_distr, <- app_assoc. cbn [bytes rev app DisclosureSep].
  rewrite trim_left_rev_app.
  - rewrite rev_app_distr. cbn [rev]. by rewrite !rev_involutive, <- app_assoc.
  - by vm_compute.
  - intros Hn. apply (f_equal (@rev Z)) in Hn. rewrite rev_involutive in Hn. by apply Hd, bytes_nil.
  - rewrite <- Ht at 2. by rewrite rev_involutive.
Qed.

(** ** The disclosure line *)

(** The text ends with the line, on a line of its own. *)
Definition carries (text d : string) : Prop :=
  TrimRightSpace text = TrimSpace d ∨ HasSuffix (TrimRightSpace text) (DisclosureSep +:+ TrimSpace d) = true.

Lemma appendDisclosure_cases payload d :
  TrimSpace d ≠ "" →
  (carries payload d ∧ appendDisclosure payload d = payload) ∨
  (¬ carries payload d ∧ appendDisclosure payload d = payload +:+ DisclosureSep +:+ d).
Proof.
  intros Hd. unfold appendDisclosure, carries. rewrite bool_decide_eq_false_2 by done.
  case_bool_decide as He; cbn [orb]; [left; tauto |].
  destruct (HasSuffix _ _); [left; tauto | right]. split; [| done]. intros [?|?]; congruence.
Qed.

(** A trimmed disclosure is on the text exactly once: what was appended
    carries it as a line of its own, appending again changes nothing, and
    stripping takes off what was appended and no more than trailing space. *)
Theorem disclosure_once payload d :
  d ≠ "" → TrimSpace d = d → TrimRightSpace d = d →
  let text := appendDisclosure payload d in
  carries text d ∧ appendDisclosure text d = text ∧
  (¬ carries payload d → text = payload +:+ DisclosureSep +:+ d ∧
     (TrimSpace text ≠ d → stripDisclosure text d = TrimRightSpace payload)).
Proof.
  intros Hne Ht Htr text. assert (TrimSpace d ≠ "") as Hd by congruence.
  destruct (appendDisclosure_cases payload d Hd) as [[Hc Ha]|[Hc Ha]]; subst text; rewrite Ha.
  - split_and!; [done | done | done].
  - assert (carries (payload +:+ DisclosureSep +:+ d) d) as Hc'.
    { right. rewrite TrimRightSpace_line, Ht by done. apply HasSuffix_app. }
    destruct (appendDisclosure_cases (payload +:+ DisclosureSep +:+ d) d Hd) as [[_ ->]|[? _]]; [| done].
    split_and!; [done | done |]. intros _. split; [done |]. intros Hblank.
    unfold stripDisclosure. rewrite bool_decide_eq_false_2, Ht by done.
    rewrite TrimRightSpace_line, bool_decide_eq_false_2 by done.
    by rewrite HasSuffix_app, TrimSuffix_app.
Qed.

(** ** The length of what goes out *)
Lemma rune_count_app_sep s d :
  rune_count (s +:+ DisclosureSep +:+ d) = rune_count s + 1 + rune_count d.
Proof.
  change (DisclosureSep +:+ d) with (String newline d). rewrite rune_count_app_ascii by (by vm_compute).
  unfold rune_count at 2. cbn [bytes]. rewrite decode_ascii by (by vm_compute). cbn [length].
  unfold rune_count. lia.
Qed.

Lemma rune_count_stripDisclosure payload d : rune_count (stripDisclosure payload d) ≤ rune_count payload.
Proof.
  unfold stripDisclosure. case_bool_decide; [lia |]. case_bool_decide; [apply rune_count_nonneg |].
  destruct (HasSuffix _ _) eqn:Hs; cbn [negb]; [| lia].
  apply HasSuffix_TrimSuffix in Hs. set (t := TrimSuffix _ _) in *.
  pose proof (rune_count_TrimRightSpace t). pose proof (rune_count_TrimRightSpace payload) as Hp.
  rewrite Hs, rune_count_app_sep in Hp. pose proof (rune_count_nonneg (TrimSpace d)). lia.
Qed.

Section text.
Context `{UnicodeTables} `{TimeZones}.

(** A reply the policy does not deny fits: with the disclosure rule applied
    it is within the profile's limit, and so within Telegram's 4096 characters. *)
Theorem final_text_fits a p conv c recent kill now f :
  aa_ActionType a = ActionTypeReply →
  r_Decision (Evaluate (policy_input a p conv c recent kill now f)) ≠ Deny →
  rune_count (final_text a p) ≤ reply_max_chars p ≤ 4096.
Proof.
  intros Ha Hd. apply Evaluate_permitted in Hd; [| done]. destruct Hd.
  cbn in rp_length, rp_disclosure. clear -rp_length rp_disclosure.
  assert (reply_max_chars p ≤ 4096) as Hmax.
  { unfold reply_max_chars, telegramMaxMessageLen. destruct (Z.ltb_spec 4096
      (if p_MaxReplyChars p <=? 0 then 1200 else p_MaxReplyChars p)); lia. }
  split; [| done]. etrans; [| exact rp_length]. clear Hmax rp_length.
  unfold final_text, reply_len, EffectiveDisclosure in *. destruct (p_DisclosureDisabled p).
  - rewrite bool_decide_eq_true_2 by done. etrans; [apply rune_count_stripDisclosure |].
    change (appendDisclosure (aa_Payload a) "") with (aa_Payload a). lia.
  - destruct rp_disclosure as [|Hne]; [done |]. pose proof (rune_count_nonneg (p_DisclosureText p)).
    pose proof (rune_count_nonneg DisclosureSep).
    destruct (appendDisclosure_cases (aa_Payload a) (p_DisclosureText p) Hne) as [[_ ->]|[_ ->]].
    + case_bool_decide; lia.
    + rewrite rune_count_app_sep. case_bool_decide as He; [by rewrite He in Hne |].
      change (rune_count DisclosureSep) with 1. lia.
Qed.
End text.

(** ** Witnesses *)
Module Witnesses.
#[local] Existing Instance ascii_tables.
#[local] Existing Instance two_zones.

Lemma disclosure_once_witness :
  appendDisclosure "Thursday works " "AI assistant" = "Thursday works " +:+ DisclosureSep +:+ "AI assistant" ∧
  stripDisclosure ("Thursday works " +:+ DisclosureSep +:+ "AI assistant") "AI assistant" = "Thursday works".
Proof.
  assert ("AI assistant" ≠ "") as Hne by done.
  assert (TrimSpace "AI assistant" = "AI assistant") as Ht by (vm_compute; reflexivity).
  assert (TrimRightSpace "AI assistant" = "AI assistant") as Htr by (vm_compute; reflexivity).
  assert (¬ carries "Thursday works " "AI assistant") as Hc.
  { intros [Hx|Hx]; vm_compute in Hx; discriminate Hx. }
  destruct (disclosure_once "Thursday works " "AI assistant" Hne Ht Htr) as (_ & _ & Hx).
  destruct (Hx Hc) as [Ha Hs]. split; [exact Ha |]. rewrite Ha in Hs. rewrite Hs; [vm_compute; reflexivity |].
  vm_compute. discriminate.
Defined.

Definition draft : AgentAction :=
  MkAgentAction 1 "" 0 0 100 1 ActionTypeReply "faq" "Thursday works" PolicyAllow "" ActionApproved 0 0 "" 0 0 0 1.
Definition signed : AgentProfile :=
  (default_profile 1 0) <|p_Mode := AgentModeGuarded|> <|p_AutopilotPaused := false|>
    <|p_DisclosureText := "AI assistant"|> <|p_IntentAllowlist := "faq"|>.
Definition peer : Conversation :=
  MkConversation 1 100 500 9 "bob" "Bob" ConversationActive 0 0 time_zero time_zero PeerContactYes 0 0.
Lemma final_text_fits_witness :
  final_text draft signed = "Thursday works" +:+ DisclosureSep +:+ "AI assistant" ∧
  rune_count (final_text draft signed) ≤ 4096.
Proof.
  split; [vm_compute; reflexivity |].
  assert (r_Decision (Evaluate (policy_input draft signed peer peer [] false 50 None)) ≠ Deny) as Hd
    by (vm_compute; discriminate).
  destruct (final_text_fits draft signed peer peer [] false 50 None eq_refl Hd) as [H1 H2].
  exact (Z.le_trans _ _ _ H1 H2).
Defined.
End Witnesses.
