(* ===== verification/ExecutorProps.v ===== *)
(** * What every path of the executor checks before it sends

    Theorems on the executor's programs for arbitrary answers of the store and
    of the other collaborators: what a send has passed, and what the result of
    an attempt says. *)

From S2P Require Import Prelude GoString Program Regexp PolicyContent Schedule Rows Policy Tables Outbox Actions Turn Effects Executor.

(** The row was moved out of its status by this run. *)
Definition settled_by (o : obs) : Prop :=
  match o with
  | @OCall A c r =>
    match c in call A return result db_error A → Prop with
    | CDeny _ _ _ _ | CRecordSent _ _ _ _ _ | CMarkUnknown _ _ _ _ => λ r, r = Ok true
    | CUpdateStatus _ _ _ to => λ r, r = Ok true ∧ to = ActionDenied
    | _ => λ _, False
    end r
  | _ => False
  end.
(** Observations that neither send nor move the row. *)
Definition unsettled (tr : list obs) : Prop := Forall (λ o, ¬ settled_by o) tr.
Definition calm (tr : list obs) : Prop := sends tr = [] ∧ unsettled tr.

(** Finds an observation in an explicit trace. *)
Ltac seen :=
  first [assumption
        | solve [repeat first [apply list_elem_of_here | assumption | apply list_elem_of_further
                             | apply elem_of_app; right]]].

(** An explicit trace that is calm. *)
Ltac calm :=
  solve [split; [reflexivity | repeat (apply Forall_cons; split; [intros [] |]); apply Forall_nil; exact I]].

(** One step through the paths of a program: a new answer, a case split on it,
    or the next conditional. *)
Ltac path_step :=
  match goal with
  | |- paths _ _ _ (bind_ok (try _ _) _) => apply paths_try; intros ?
  | |- paths _ _ _ (bind _ _) => apply paths_bind
  | |- paths _ _ _ (bind_ok _ _) => unfold bind_ok
  | |- paths _ _ _ (ask _) => unfold ask
  | |- paths _ _ _ (invoke _) => unfold invoke
  | |- paths _ _ _ (try _ _) => unfold try
  | |- paths _ _ _ (fail _) => cbn [paths fail]
  | |- paths _ _ _ (ok _) => cbn [paths ok]
  | |- paths _ _ _ (Ret _) => cbn [paths]
  | |- paths _ _ _ Exit => exact I
  | |- paths _ _ _ (Call _ _) => cbn [paths]; intros ?
  | |- paths _ _ _ (Query _ _) => cbn [paths]; split; [try discriminate; try done | intros ?]
  | |- paths _ _ _ (match ?x with _ => _ end) => destruct x eqn:?
  | |- paths _ _ _ (if ?x then _ else _) => destruct x eqn:?
  | |- context [match ?x with _ => _ end] => destruct x eqn:?
  end.

Section props.
Context `{UnicodeTables} `{TimeZones}.
Variable e : Executor.

(** ** What a send has passed *)

(** The answer of the profile document lets [text] out. *)
Definition unrestricted (a : AgentAction) (r : result profile_error (option restricted)) : Prop :=
  r = Err OwnerProfileNotFound ∨ r = Ok None ∨
  ∃ f, r = Ok (Some f) ∧ rf_neverAutoSend f = false ∧
       (rf_approvalRequired f = true → aa_PolicyDecision a = PolicyRequireApproval).

(** The disclosure match the policy was given: what the profile document
    answered on this draft, or nothing when there is no document. *)
Definition protection (a : AgentAction) (c : Conversation) (tr : list obs)
    (f : option ProtectedField) : Prop :=
  (f = None ∧ (x_Profile e = false ∨ aa_ActionType a ≠ ActionTypeReply)) ∨
  ∃ inbound now r,
    OCall (CTurnInboundText (aa_UserID a) (aa_JobID a)) (Ok inbound) ∈ tr ∧
    OQuery (QMatchProtected (aa_UserID a) (aa_Payload a) inbound (OwnerEngaged c now)) r ∈ tr ∧
    (r = Ok f ∨ r = Err OwnerProfileNotFound ∧ f = None).

(** The policy was evaluated on conversation [conv], on answers of this run, and
    did not deny; it asked for approval only of a draft a person approved. *)
Definition policy_passed (a : AgentAction) (p : AgentProfile) (c conv : Conversation)
    (tr : list obs) : Prop :=
  ∃ recent since exclude f kill now,
    OCall (CRecentSends (aa_UserID a) (aa_ConversationID a) since exclude) (Ok recent) ∈ tr ∧
    (exclude = 0 ∨ exclude = aa_ID a) ∧
    protection a c tr f ∧ OQuery QGlobalKill kill ∈ tr ∧ OQuery QNow now ∈ tr ∧
    let d := r_Decision (Evaluate (policy_input a p conv c recent kill now f)) in
    d = Allow ∨ d = RequireApproval ∧ aa_PolicyDecision a ≠ PolicyAllow.

(** Policy, restricted fields and gate, each asked in this very run. *)
Record cleared (a : AgentAction) (p : AgentProfile) (c conv : Conversation) (text : string)
    (tr : list obs) : Prop := {
  cl_profile : OCall (CGetProfile (aa_UserID a)) (Ok p) ∈ tr;
  cl_conversation : OCall (CGetConversation (aa_UserID a) (aa_ConversationID a)) (Ok c) ∈ tr;
  cl_policy : policy_passed a p c conv tr;
  cl_restricted : x_Profile e = true → ∃ r,
    OQuery (QMatchRestricted (aa_UserID a) text) r ∈ tr ∧ unrestricted a r;
  cl_gate : x_SendGate e = true → OQuery (QSendGate (aa_UserID a) (c_PeerTGID c)) true ∈ tr;
}.

Lemma stopped_false a r :
  stopped a r = false →
  r_Decision r = Allow ∨ r_Decision r = RequireApproval ∧ aa_PolicyDecision a ≠ PolicyAllow.
Proof.
  unfold stopped, bypasses. autorewrite with reflect. intros [Hd Hb].
  destruct (r_Decision r); [by left | right | done]. split; [done |]. by destruct Hb.
Qed.

(** More observations do not undo a check. *)
Lemma protection_mono a c l tr f : protection a c tr f → protection a c (l ++ tr) f.
Proof.
  intros [Hn|(i & now & r & ? & ? & ?)]; [by left | right]. exists i, now, r.
  split_and!; [apply elem_of_app; by right.. | done].
Qed.
Lemma policy_passed_mono a p c conv l tr :
  policy_passed a p c conv tr → policy_passed a p c conv (l ++ tr).
Proof.
  intros (recent & since & ex & f & kill & now & ? & ? & ? & ? & ? & ?).
  exists recent, since, ex, f, kill, now.
  split_and!; try (apply elem_of_app; by right); [done | by apply protection_mono | done].
Qed.
Lemma cleared_mono a p c conv text l tr :
  cleared a p c conv text tr → cleared a p c conv text (l ++ tr).
Proof.
  intros [H1 H2 Hp Hr Hg]. split; try (apply elem_of_app; by right).
  - by apply policy_passed_mono.
  - intros He. destruct (Hr He) as (r & ? & ?). exists r. split; [apply elem_of_app; by right | done].
  - intros He. apply elem_of_app. right. by apply Hg.
Qed.

(** *** Programs that send nothing *)
Lemma past_ttl_tame t : tame (past_ttl e t).
Proof. unfold past_ttl. tame_steps. Qed.
Lemma markDeliveryUnknown_tame a c r : tame (markDeliveryUnknown a c r).
Proof. unfold markDeliveryUnknown. tame_steps. Qed.
Lemma deny_approved_tame a what err : tame (deny_approved a what err).
Proof. unfold deny_approved. tame_steps. Qed.
Lemma denySuperseded_tame a kind : tame (denySuperseded a kind).
Proof. unfold denySuperseded. tame_steps. Qed.
Lemma locateDelivered_tame a c text : tame (locateDelivered e a c text).
Proof. unfold locateDelivered. tame_steps. Qed.
Lemma endHeldRetry_tame a c n dr ur : tame (endHeldRetry a c n dr ur).
Proof. unfold endHeldRetry, markDeliveryUnknown. tame_steps. Qed.
#[local] Hint Resolve past_ttl_tame markDeliveryUnknown_tame endHeldRetry_tame : tame.
Lemma settleRefusal_tame a c t r : tame (settleRefusal e a c t r).
Proof. unfold settleRefusal. tame_steps; auto with tame. Qed.
Lemma recover_stop_tame a c l what err : tame (recover_stop a c l what err).
Proof. unfold recover_stop. tame_steps; auto with tame. Qed.
Lemma protectedField_tame a c : tame (protectedField e a c).
Proof. unfold protectedField. tame_steps. Qed.
Lemma restrictedFieldBlocks_tame a text : tame (restrictedFieldBlocks e a text).
Proof. unfold restrictedFieldBlocks. tame_steps. Qed.
Lemma gate_tame u peer : tame (gate e u peer).
Proof. unfold gate. tame_steps. Qed.

(** *** The checks, as rules *)
Lemma protectedField_paths Q Φ tr a c :
  (∀ f l, calm l → protection a c (l ++ tr) f → Φ (l ++ tr) (Ok f)) →
  (∀ what l, calm l → Φ (l ++ tr) (Err what)) →
  paths Q Φ tr (protectedField e a c).
Proof.
  intros Hok Herr. unfold protectedField. destruct (_ || _) eqn:Hskip.
  - autorewrite with reflect in Hskip. apply (Hok None []); [calm |]. left.
    split; [done |]. by destruct Hskip; [left | right].
  - repeat path_step; 
      try (apply (Herr _ [_]); calm); try (apply (Herr _ [_; _; _]); calm).
    + apply (Hok _ [_; _; _]); [calm |]. right. eexists _, _, _. split_and!; [seen | seen | by left].
    + apply (Hok _ [_; _; _]); [calm |]. right. eexists _, _, _. split_and!; [seen | seen | by right].
Qed.

Lemma restricted_paths Q Φ tr a text :
  (∀ l, calm l →
     (x_Profile e = true → ∃ r, OQuery (QMatchRestricted (aa_UserID a) text) r ∈ l ++ tr ∧ unrestricted a r) →
     Φ (l ++ tr) (Ok None)) →
  (∀ r l, calm l → r ≠ Ok None → Φ (l ++ tr) r) →
  paths Q Φ tr (restrictedFieldBlocks e a text).
Proof.
  intros Hok Hno. unfold restrictedFieldBlocks. destruct (x_Profile e); cbn [negb].
  - repeat path_step; try (by apply (Hno _ [_]); [calm |]); (apply (Hok [_]); [calm |]);
      intros _; eexists; (split; [seen |]); unfold unrestricted.
    + right. right. eexists. split_and!; [done | done |]. rewrite andb_false_iff in *.
      autorewrite with reflect in *. intros Ha. destruct_or?; congruence.
    + right. by left.
    + by left.
  - apply (Hok []); [calm | done].
Qed.

Lemma gate_paths Q Φ tr u peer :
  (∀ l, calm l → (x_SendGate e = true → OQuery (QSendGate u peer) true ∈ l ++ tr) → Φ (l ++ tr) true) →
  (∀ l, calm l → Φ (l ++ tr) false) →
  paths Q Φ tr (gate e u peer).
Proof.
  intros Hopen Hclosed. unfold gate. destruct (x_SendGate e).
  - cbn [paths ask]. split; [discriminate |].
    intros [|]; [apply (Hopen [_]); [calm | intros _; seen] | apply (Hclosed [_]); calm].
  - apply (Hopen []); [calm | done].
Qed.

Lemma deliver_paths Q Φ tr a c rid text :
  Q tr (Rpc (aa_ID a) (aa_UserID a) (c_PeerTGID c) (c_PeerAccessHash c) rid text) →
  (∀ l r, Φ (l ++ tr) r) → paths Q Φ tr (deliver e a c rid text).
Proof.
  intros Hq HΦ. unfold deliver. cbn [bind ask paths]. split; [by intros m [= <-] |].
  intros r. assert (∀ o l x, Φ (l ++ o :: tr) x) as Hr.
  { intros o l x. rewrite (cons_middle o l tr), app_assoc. apply HΦ. }
  destruct r as [|[]]; try apply (Hr _ []). apply paths_bind, paths_tame.
  - apply locateDelivered_tame.
  - intros l id _. apply Hr.
Qed.

(** ** A fresh send *)

(** What a fresh send may hand to Telegram: its action's text with the
    disclosure rule applied, for the peer of the conversation it loaded, once,
    after every check, under the random id it reserved with that text. *)
Definition fresh_send (a : AgentAction) (tr : list obs) (m : rpc) : Prop :=
  sends tr = [] ∧ ∃ p c rid window n,
    m = Rpc (aa_ID a) (aa_UserID a) (c_PeerTGID c) (c_PeerAccessHash c) rid (final_text a p) ∧
    cleared a p c c (final_text a p) tr ∧
    OCall (CReserve a rid (final_text a p) (p_MaxAutonomousTurns p) (p_MaxMsgsPerMinute p) window
             (bool_decide (aa_PolicyDecision a = PolicyAllow))) (Ok true) ∈ tr ∧
    OCall (CNote (aa_UserID a) (aa_ID a)) (Ok (n, true)) ∈ tr.

Lemma send_rpc_paths (a : AgentAction) p c rid window text tr :
  sends tr = [] → text = final_text a p → cleared a p c c text tr →
  OCall (CReserve a rid text (p_MaxAutonomousTurns p) (p_MaxMsgsPerMinute p) window
    (bool_decide (aa_PolicyDecision a = PolicyAllow))) (Ok true) ∈ tr →
  paths (fresh_send a) (λ _ _, True) tr (send_rpc e a c rid text).
Proof.
  intros Hs -> Hc Hr. unfold send_rpc. repeat path_step; try exact I.
  apply paths_bind, deliver_paths.
  - split; [done |]. exists p, c, rid, window, (fst a0). split_and!; [done | | |].
    + by apply (cleared_mono _ _ _ _ _ [_; _]).
    + by do 2 apply list_elem_of_further.
    + destruct a0 as [n b]. cbn in *. destruct b; [seen | done].
  - intros l r. apply paths_tame; [| done]. apply tame_bind; [apply settleRefusal_tame |].
    intros handled. tame_steps.
Qed.

Lemma send_text_paths a p c tr :
  sends tr = [] →
  OCall (CGetProfile (aa_UserID a)) (Ok p) ∈ tr →
  OCall (CGetConversation (aa_UserID a) (aa_ConversationID a)) (Ok c) ∈ tr →
  policy_passed a p c c tr →
  paths (fresh_send a) (λ _ _, True) tr (send_text e a p c).
Proof.
  intros Hs Hp Hc Hpol. unfold send_text.
  destruct (_ && _); [apply paths_tame; [apply deny_approved_tame | done] |].
  apply paths_bind, restricted_paths.
  2:{ intros [[reason|]|what] l _ Hne; [| done | exact I].
      apply paths_tame; [apply deny_approved_tame | done]. }
  intros l1 [Hl1 _] Hr. apply paths_bind, gate_paths.
  2:{ intros l _. apply paths_tame; [apply deny_approved_tame | done]. }
  intros l2 [Hl2 _] Hg. unfold send_reserve. cbn [bind ask invoke paths].
  split; [discriminate |]. intros [rid|[]]; [| exact I]. cbn [bind ask invoke paths].
  split; [discriminate |]. intros now res.
  destruct res as [[]|[]]; try exact I;
    try (apply paths_tame; [by (apply deny_approved_tame + apply denySuperseded_tame) | done]).
  destruct (x_CrashAfterReserve e); [exact I |].
  eapply send_rpc_paths; [| reflexivity | | seen].
  - unfold sends in *. cbn. by rewrite !omap_app, Hl2, Hl1, Hs.
  - apply (cleared_mono _ _ _ _ _ [_; _; _]). split; try seen.
    + by do 2 apply policy_passed_mono.
    + intros Hx. destruct (Hr Hx) as (r & ? & ?). exists r. split; [seen | done].
Qed.

(** C2: whatever the store and the other collaborators answer, a fresh send
    hands at most one message to Telegram, and only after policy, the owner's
    restricted fields and the send gate let it out in the same run. *)
Theorem send_checked a : paths (fresh_send a) (λ _ _, True) [] (send e a).
Proof.
  unfold send. apply paths_try; [intros p | done]. apply paths_try; [intros c | done].
  cbn [bind ask paths]. split; [discriminate | intros t]. apply paths_try; [intros recent | done].
  apply paths_bind, protectedField_paths; [| done]. intros f l [Hl _] Hf.
  cbn [bind ask paths]. split; [discriminate | intros kill]. split; [discriminate | intros now].
  destruct (stopped _ _) eqn:Hstop; [apply paths_tame; [apply deny_approved_tame | done] |].
  apply stopped_false in Hstop. set (tr := _ :: _ :: l ++ _).
  apply send_text_paths.
  - subst tr. unfold sends in *. cbn. rewrite omap_app, Hl. done.
  - subst tr. seen.
  - subst tr. seen.
  - exists recent, (t - Minute), 0, f, kill, now. subst tr. split_and!; [seen | by left | | seen | seen | done].
    by apply (protection_mono _ _ [_; _]).
Qed.

(** ** Recovery *)

(** What recovery may hand to Telegram: the reserved text under the reserved
    random id, once, within the attempt budget, for an action whose echo was
    not seen, after the same checks on the budget before its own charge. *)
Definition retried_send (a : AgentAction) (tr : list obs) (m : rpc) : Prop :=
  sends tr = [] ∧ aa_SendRandomID a ≠ 0 ∧ aa_SendBody a ≠ "" ∧
  aa_SendAttempts a < maxSendAttempts e ∧
  (aa_ExecutedTGMessageID a = 0 ∨ aa_SendAttempts a ≤ 0) ∧ ∃ p c n,
    m = Rpc (aa_ID a) (aa_UserID a) (c_PeerTGID c) (c_PeerAccessHash c)
          (aa_SendRandomID a) (aa_SendBody a) ∧
    cleared a p c (uncharged c) (aa_SendBody a) tr ∧
    OCall (CNote (aa_UserID a) (aa_ID a)) (Ok (n, true)) ∈ tr.

Lemma recover_rpc_paths a p c tr :
  sends tr = [] → aa_SendRandomID a ≠ 0 → aa_SendBody a ≠ "" →
  aa_SendAttempts a < maxSendAttempts e →
  (aa_ExecutedTGMessageID a = 0 ∨ aa_SendAttempts a ≤ 0) →
  cleared a p c (uncharged c) (aa_SendBody a) tr →
  paths (retried_send a) (λ _ _, True) tr (recover_rpc e a c).
Proof.
  intros Hs Hrid Hbody Hn He Hc. unfold recover_rpc.
  apply paths_try; [intros [n live] | done]. destruct live; cbn [negb]; [| exact I].
  apply paths_bind, deliver_paths.
  - do 5 (split; [done |]). exists p, c, n. split_and!; [done | | seen].
    by apply (cleared_mono _ _ _ _ _ [_]).
  - intros l r. apply paths_tame; [| done]. apply tame_bind; [apply settleRefusal_tame |].
    intros handled. tame_steps; auto with tame.
Qed.

Lemma recover_gate_paths a p c tr :
  sends tr = [] → aa_SendRandomID a ≠ 0 → aa_SendBody a ≠ "" →
  aa_SendAttempts a < maxSendAttempts e →
  (aa_ExecutedTGMessageID a = 0 ∨ aa_SendAttempts a ≤ 0) →
  OCall (CGetProfile (aa_UserID a)) (Ok p) ∈ tr →
  OCall (CGetConversation (aa_UserID a) (aa_ConversationID a)) (Ok c) ∈ tr →
  policy_passed a p c (uncharged c) tr →
  (x_Profile e = true → ∃ r,
     OQuery (QMatchRestricted (aa_UserID a) (aa_SendBody a)) r ∈ tr ∧ unrestricted a r) →
  paths (retried_send a) (λ _ _, True) tr (recover_gate e a c).
Proof.
  intros Hs Hrid Hbody Hn He Hp Hc Hpol Hr. unfold recover_gate. apply paths_bind, gate_paths.
  - intros l [Hl _] Hg. apply recover_rpc_paths with (p := p); try done.
    + unfold sends in *. by rewrite omap_app, Hl, Hs.
    + split; try seen.
      * by apply policy_passed_mono.
      * intros Hx. destruct (Hr Hx) as (r & ? & ?). exists r. split; [seen | done].
  - intros l _. apply paths_tame; [| done]. apply tame_bind; [apply past_ttl_tame |].
    intros [|]; [| exact I]. apply tame_bind; [apply endHeldRetry_tame | intros r; tame_steps].
Qed.

(** C3: whatever the store and the other collaborators answer, recovery hands at
    most one message to Telegram per sweep, never a new one, and only after
    policy, the owner's restricted fields and the send gate let it out again. *)
Theorem recovery_checked a : paths (retried_send a) (λ _ _, True) [] (recoverOne e a).
Proof.
  unfold recoverOne. destruct (Z.eqb_spec (aa_SendRandomID a) 0) as [|Hrid]; [exact I |].
  apply paths_try; [intros c | done]. apply paths_try; [intros p | done].
  destruct (_ && _) eqn:Hecho; [apply paths_tame; [tame_steps | done] |].
  destruct (Z.leb_spec (maxSendAttempts e) (aa_SendAttempts a)) as [|Hn];
    [apply paths_tame; [apply markDeliveryUnknown_tame | done] |].
  assert (aa_ExecutedTGMessageID a = 0 ∨ aa_SendAttempts a ≤ 0) as He.
  { autorewrite with reflect in Hecho. done. }
  unfold recover_check. cbn [bind ask paths]. split; [discriminate | intros t].
  apply paths_try; [intros recent | done].
  apply paths_bind, protectedField_paths; [| done]. intros f l [Hl _] Hf.
  cbn [bind ask paths]. split; [discriminate | intros kill]. split; [discriminate | intros now].
  destruct (stopped _ _) eqn:Hstop; [apply paths_tame; [apply recover_stop_tame | done] |].
  apply stopped_false in Hstop.
  destruct (bool_decide (aa_SendBody a = "")) eqn:Hbody; [exact I |].
  apply bool_decide_eq_false in Hbody.
  apply paths_bind, restricted_paths.
  2:{ intros [[reason|]|what] l1 _ Hne; [| done | exact I].
      apply paths_tame; [apply recover_stop_tame | done]. }
  intros l1 [Hl1 _] Hr. apply (recover_gate_paths a p); try done; try seen.
  - unfold sends in *. rewrite omap_app, Hl1. cbn. by rewrite omap_app, Hl.
  - exists recent, (t - Minute), (aa_ID a), f, kill, now.
    split_and!; [seen | by right | | seen | seen | done].
    apply protection_mono. by apply (protection_mono _ _ [_; _]).
Qed.

(** ** What the result of a fresh send says *)

(** Telegram accepted a message, or said that it has it already. *)
Definition accepted (tr : list obs) : Prop :=
  ∃ a u peer hash rid text,
    (∃ id, OQuery (QSend a u peer hash rid text) (Ok id) ∈ tr) ∨
    OQuery (QSend a u peer hash rid text) (Err AlreadyDelivered) ∈ tr.

Definition send_result (a : AgentAction) (tr : list obs) (r : outcome) : Prop :=
  let u := aa_UserID a in let id := aa_ID a in
  match r with
  | Ok _ =>
    (accepted tr ∧ ∃ tg text b, OCall (CRecordSent u id (aa_ConversationID a) tg text) (Ok b) ∈ tr) ∨
    (** refused after another attempt was counted, and the row decided elsewhere *)
    ((∃ peer hash rid text class,
        OQuery (QSend id u peer hash rid text) (Err (SendRefusedError class)) ∈ tr) ∧
     ∃ reason alert, OCall (CMarkUnknown u id reason alert) (Ok false) ∈ tr)
  | Err (ErrSendQueuedForRetry _) | Err ErrLostRace => unsettled tr
  | Err (ErrSendRefused class) =>
    (∃ peer hash rid text, OQuery (QSend id u peer hash rid text) (Err (SendRefusedError class)) ∈ tr) ∧
    ∃ reason, OCall (CDeny u id ActionExecuting reason) (Ok true) ∈ tr
  | Err (ErrDeliveryUnknown reason) => ∃ alert, OCall (CMarkUnknown u id reason alert) (Ok true) ∈ tr
  | Err (ErrSourceSuperseded _) => sends tr = []
  | Err (ErrOther _) => True
  | Err _ => False
  end.

Lemma unsettled_cons o tr : ¬ settled_by o → unsettled tr → unsettled (o :: tr).
Proof. by constructor. Qed.
Lemma unsettled_app l tr : unsettled l → unsettled tr → unsettled (l ++ tr).
Proof. intros. by apply Forall_app. Qed.

(** One observation of an explicit trace did not settle the row. *)
Ltac not_settled :=
  let H := fresh in intros H; cbn in H;
  first [exact H | discriminate H | destruct H as [H _]; discriminate H
        | destruct H as [_ H]; discriminate H].

(** A result whose claim an explicit trace shows. *)
Ltac settle :=
  repeat (match goal with b : bool |- _ => destruct b end);
  try discriminate; try exact I;
  try solve [repeat (apply unsettled_cons; [not_settled |]); assumption];
  try solve [eexists; seen];
  try solve [right; split; [do 5 eexists; seen | do 2 eexists; seen]];
  try solve [left; split; [do 6 eexists; first [left; eexists; seen | right; seen] | do 3 eexists; seen]];
  try solve [split; [do 4 eexists; seen | eexists; seen]].

Lemma deny_approved_result a what err tr :
  (match err with ErrOther _ => True | _ => False end) → unsettled tr →
  paths (λ _ _, True) (send_result a) tr (deny_approved a what err).
Proof.
  intros He Hu. unfold deny_approved. apply paths_try; [intros b | done].
  cbn [fail paths]. destruct b; cbn; [by destruct err | settle].
Qed.

Lemma send_rpc_result a c rid text tr :
  unsettled tr → paths (λ _ _, True) (send_result a) tr (send_rpc e a c rid text).
Proof.
  intros Hu. unfold send_rpc, deliver, locateDelivered, settleRefusal, past_ttl, endHeldRetry,
    markDeliveryUnknown, queued.
  repeat path_step; cbn [send_result]; settle.
Qed.

Lemma send_text_result a p c tr :
  unsettled tr → sends tr = [] → paths (λ _ _, True) (send_result a) tr (send_text e a p c).
Proof.
  intros Hu Hs. unfold send_text. destruct (_ && _); [by apply deny_approved_result |].
  apply paths_bind, restricted_paths.
  2:{ intros [[reason|]|what] l [_ Hl] Hne; [| done |].
      - apply deny_approved_result; [done | by apply unsettled_app].
      - by apply unsettled_app. }
  intros l1 [Hs1 Hl1] _. apply paths_bind, gate_paths.
  2:{ intros l [_ Hl]. apply deny_approved_result; [done |]. by do 2 (apply unsettled_app; [done |]). }
  intros l2 [Hs2 Hl2] _. assert (unsettled (l2 ++ l1 ++ tr)) as Hu2 by by do 2 (apply unsettled_app; [done |]).
  assert (sends (l2 ++ l1 ++ tr) = []) as Hs3 by (unfold sends in *; by rewrite !omap_app, Hs1, Hs2, Hs).
  unfold send_reserve, queued. cbn [bind ask invoke paths].
  split; [done |]. intros [rid|[]]; cbn [bind ask invoke paths fail send_result]; [| settle].
  split; [done |]. intros now res.
  destruct res as [[]|[]]; cbn [fail paths send_result]; settle;
    try (apply deny_approved_result; [done | settle]).
  - destruct (x_CrashAfterReserve e); [exact I |]. apply send_rpc_result. settle.
  - unfold denySuperseded. apply paths_try; [| done]. intros b. done.
Qed.

(** C4: the error a fresh send returns is true of what happened: success means
    Telegram took the message (or refused it while the action was decided
    elsewhere), a refusal and an unknown outcome were recorded as such, a
    withdrawal sent nothing, and a queued retry or a lost race moved nothing. *)
Theorem send_outcome a : paths (λ _ _, True) (send_result a) [] (send e a).
Proof.
  assert (unsettled []) as Hnil by apply Forall_nil_2. unfold send, queued.
  apply paths_try; [intros p | intros err; cbn; settle].
  apply paths_try; [intros c | intros err; cbn; settle].
  cbn [bind ask paths]. split; [done | intros t].
  apply paths_try; [intros recent | intros err; cbn; settle].
  apply paths_bind, protectedField_paths.
  2:{ intros what l [_ Hl]. cbn. apply unsettled_app; [done | settle]. }
  intros f l [Hs Hl] _. cbn [bind ask paths]. split; [done | intros kill]. split; [done | intros now].
  assert (unsettled (l ++ [OCall (CRecentSends (aa_UserID a) (aa_ConversationID a) (t - Minute) 0)
    (Ok recent); OQuery QNow t; OCall (CGetConversation (aa_UserID a) (aa_ConversationID a)) (Ok c);
    OCall (CGetProfile (aa_UserID a)) (Ok p)])) as Hu by (apply unsettled_app; [done | settle]).
  destruct (stopped _ _); [apply deny_approved_result; [done | settle] |].
  apply send_text_result; [settle |]. unfold sends in *. cbn. by rewrite omap_app, Hs.
Qed.
End props.
