(* ===== verification/ExecutorSafety.v ===== *)
(** * One message per action

    Any number of executors run side by side on one database, crash at any
    point, lose acknowledgements and are restarted, while everything else that
    writes the tables goes on.  Every message handed to Telegram for an action
    carries the same user, random id and text, so Telegram, which refuses a
    random id it has seen, delivers at most one of them. *)

From S2P Require Import Prelude GoString Program Regexp PolicyContent Schedule Rows Policy Tables Outbox Actions Turn ActionsProps ActionsFacts Effects Executor ExecutorProps.

Section safety.
Context `{Sealer} `{UnicodeTables} `{TimeZones}.

(** ** The system *)
Record system := System {
  s_db : DB;
  s_threads : list (prog unit);
  s_sent : list rpc;
}.

(** What a replica may start, each under its own configuration. *)
Inductive entry : prog unit → Prop :=
| entry_approve e u code : entry (forget (Approve e u code))
| entry_reject u code : entry (forget (Reject u code))
| entry_process e : entry (forget (ProcessApproved e))
| entry_recover e seen : entry (forget (RecoverStuck e seen)).

Inductive step (s : system) : system → Prop :=
| step_other d :              (** anything else that writes the tables *)
    db_inv d → db_le (s_db s) d → step s (System d (s_threads s) (s_sent s))
| step_start p :
    entry p → step s (System (s_db s) (s_threads s ++ [p]) (s_sent s))
| step_call i A (c : call A) k now :
    s_threads s !! i = Some (Call c k) →
    step s (System (run (call_op now c) (s_db s)).2
                (<[i := k (run (call_op now c) (s_db s)).1]> (s_threads s)) (s_sent s))
| step_lost i A (c : call A) k now err :      (** committed, but the answer was lost *)
    s_threads s !! i = Some (Call c k) →
    step s (System (run (call_op now c) (s_db s)).2 (<[i := k (Err err)]> (s_threads s)) (s_sent s))
| step_fail i A (c : call A) k err :          (** never reached the database *)
    s_threads s !! i = Some (Call c k) →
    step s (System (s_db s) (<[i := k (Err err)]> (s_threads s)) (s_sent s))
| step_query i A (q : query A) k x :
    s_threads s !! i = Some (Query q k) →
    step s (System (s_db s) (<[i := k x]> (s_threads s)) (option_list (rpc_of q) ++ s_sent s))
| step_crash i :                              (** a replica dies *)
    step s (System (s_db s) (delete i (s_threads s)) (s_sent s)).

Definition start (d : DB) : system := System d [] [].

(** ** The identity of a send *)

(** The reservations made so far: user, random id and text of an action. *)
Abbreviation ghost := (gmap Z (Z * Z * string)) (only parsing).

Definition row_text (r : action_row) : string := default "" (open_opt (a_SendBody r) (a_UserID r)).

Record ghost_ok (G : ghost) (d : DB) : Prop := {
  ghost_row id r x : d_actions d !! id = Some r → a_SendRandomID r = Some x →
    ∃ t, G !! id = Some (a_UserID r, x, t) ∧
         ∀ s, open_opt (a_SendBody r) (a_UserID r) = Some s → s = t ∨ s = "";
  ghost_known id g : G !! id = Some g →
    ∃ r, d_actions d !! id = Some r ∧ a_SendRandomID r ≠ None;
}.

Record ghost_step (G : ghost) (d : DB) (G' : ghost) : Prop := {
  gs_grows : G ⊆ G';
  gs_ok : ghost_ok G' d;
  gs_new id r x : d_actions d !! id = Some r → a_SendRandomID r = Some x → G !! id = None →
    G' !! id = Some (a_UserID r, x, row_text r);
}.

Definition row_ghost (r : action_row) : option (Z * Z * string) :=
  (λ x, (a_UserID r, x, row_text r)) <$> a_SendRandomID r.
Definition extend (G : ghost) (d : DB) : ghost := G ∪ omap row_ghost (d_actions d).

Lemma extend_step G d d' :
  db_inv d → ghost_ok G d → db_le d d' → ghost_step G d' (extend G d').
Proof.
  intros Hi [Hrow Hknown] [_ Hle].
  assert (Hold : ∀ id g, G !! id = Some g → extend G d' !! id = Some g).
  { intros id g Hg. unfold extend. by apply lookup_union_Some_l. }
  assert (Hnew : ∀ id r x, d_actions d' !! id = Some r → a_SendRandomID r = Some x → G !! id = None →
    extend G d' !! id = Some (a_UserID r, x, row_text r)).
  { intros id r x Hr Hx Hg. unfold extend. rewrite lookup_union_r by done.
    rewrite lookup_omap, Hr. cbn. unfold row_ghost. by rewrite Hx. }
  split; [by apply map_subseteq_spec | | done]. split.
  - intros id r' x Hr' Hx. destruct (G !! id) as [g|] eqn:Hg.
    + destruct (Hknown _ _ Hg) as (r & Hr & Hn). destruct (Hle _ _ Hr) as (r2 & Hr2 & L). simplify_eq.
      destruct (a_SendRandomID r) as [y|] eqn:Hy; [| done].
      destruct (Hrow _ _ _ Hr Hy) as (t & Ht & Hs). exists t.
      destruct (inv_row _ Hi _ _ Hr) as (_ & _ & [Hw _ _]).
      destruct L as [? ? Hu ? ? ? ? ? ? ? [Hwait|[Hrid Hbody]]]; [apply Hw in Hwait; congruence |].
      rewrite Hu. assert (x = y) as -> by congruence. split; [by apply Hold |].
      destruct Hbody as [->| ->]; [done |]. cbn. intros s [= <-]. by right.
    + exists (row_text r'). split; [by apply Hnew |]. unfold row_text. intros s ->. by left.
  - intros id g Hg. destruct (G !! id) as [g'|] eqn:Hg'.
    + destruct (Hknown _ _ Hg') as (r & Hr & Hn). destruct (Hle _ _ Hr) as (r' & Hr' & L).
      exists r'. split; [done |]. destruct (inv_row _ Hi _ _ Hr) as (_ & _ & [Hw _ _]).
      destruct L as [? ? Hu ? ? ? ? ? ? ? [Hwait|[Hrid Hbody]]]; [| congruence].
      apply Hw in Hwait. congruence.
    + unfold extend in Hg. rewrite lookup_union_r in Hg by done. rewrite lookup_omap in Hg.
      destruct (d_actions d' !! id) as [r|]; [| done]. exists r. split; [done |].
      cbn in Hg. unfold row_ghost in Hg. by destruct (a_SendRandomID r).
Qed.

Definition matches (G : ghost) (m : rpc) : Prop :=
  G !! rpc_action m = Some (rpc_user m, rpc_rid m, rpc_text m).
Lemma matches_mono G G' m : G ⊆ G' → matches G m → matches G' m.
Proof. intros HG Hm. by eapply lookup_weaken. Qed.

(** ** Programs that respect the reservations *)
Fixpoint respects {R} (G : ghost) (p : prog R) (Φ : ghost → R → Prop) : Prop :=
  match p with
  | Ret r => Φ G r
  | Exit => True
  | Call c k =>
    call_legal c ∧
    (∀ G' err, G ⊆ G' → respects G' (k (Err err)) Φ) ∧
    (∀ now d G1 G2, G ⊆ G1 → ghost_ok G1 d → db_inv d →
       ghost_step G1 (run (call_op now c) d).2 G2 →
       respects G2 (k (run (call_op now c) d).1) Φ)
  | Query q k =>
    (∀ m, rpc_of q = Some m → matches G m) ∧ ∀ x, respects G (k x) Φ
  end.

Definition anything {R} (G : ghost) (r : R) : Prop := True.

Lemma respects_mono {R} G G' (p : prog R) (Φ Ψ : ghost → R → Prop) :
  G ⊆ G' → respects G p Φ → (∀ G1 G2 r, G ⊆ G1 → G1 ⊆ G2 → Φ G1 r → Ψ G2 r) → respects G' p Ψ.
Proof.
  revert G G'. induction p as [r|A c k IH|A q k IH|]; intros G G' HG Hp HΦ; cbn in *; [eauto | | | done].
  - destruct Hp as (Hc & Herr & Hk). split_and!; [done | |].
    + intros G2 err HG2. assert (G ⊆ G2) by by etrans. eapply (IH _ G2); [reflexivity | by apply Herr |].
      intros G3 G4 r H3. apply HΦ. by etrans.
    + intros now d G1 G2 HG1 Hok Hi Hstep. assert (G ⊆ G2) as HG2.
      { etrans; [exact HG |]. etrans; [exact HG1 | by destruct Hstep]. }
      eapply (IH _ G2); [reflexivity | apply (Hk now d G1 G2); [etrans; [exact HG | exact HG1] | done..] |].
      intros G3 G4 r H3. apply HΦ. by etrans.
  - destruct Hp as [Hq Hk]. split; [intros m Hm; eapply matches_mono; eauto |]. eauto.
Qed.

Lemma respects_weaken {R} G G' (p : prog R) :
  G ⊆ G' → respects G p anything → respects G' p anything.
Proof. intros HG Hp. by eapply respects_mono. Qed.

Lemma respects_bind {R S} G (p : prog R) (f : R → prog S) Φ :
  respects G p (λ G' r, respects G' (f r) Φ) → respects G (bind p f) Φ.
Proof.
  revert G. induction p as [r|A c k IH|A q k IH|]; intros G; cbn; auto.
  - intros (Hc & Herr & Hk). split_and!; eauto.
  - intros [Hq Hk]. split; auto.
Qed.

Lemma respects_tame {R} G (p : prog R) (Φ : ghost → R → Prop) :
  tame p → (∀ G' r, G ⊆ G' → Φ G' r) → respects G p Φ.
Proof.
  revert G. induction p as [r|A c k IH|A q k IH|]; intros G Hp HΦ; cbn in *; auto.
  - destruct Hp as [Hc Hk]. split_and!; [done | |].
    + intros G' err HG. apply IH; [done |]. intros G2 r HG2. apply HΦ. by etrans.
    + intros now d G1 G2 HG1 _ _ [HG2 _ _]. apply IH; [done |]. intros G3 r HG3. apply HΦ.
      etrans; [exact HG1 |]. by etrans.
  - destruct Hp as [Hq Hk]. split; [congruence |]. auto.
Qed.

Lemma respects_try {A E R} G (c : call A) (f : db_error → E) (k : A → prog (result E R)) :
  call_legal c → (∀ G' x, G ⊆ G' → respects G' (k x) anything) →
  respects G (bind_ok (try c f) k) anything.
Proof.
  intros Hc Hk. apply respects_bind. apply respects_tame.
  - by split.
  - intros G' [x|err] HG; [by apply Hk | exact I].
Qed.

Lemma deliver_respects e G a c rid text Φ :
  G !! aa_ID a = Some (aa_UserID a, rid, text) →
  (∀ G' r, G ⊆ G' → Φ G' r) → respects G (deliver e a c rid text) Φ.
Proof.
  intros Hg HΦ. unfold deliver. cbn [bind ask respects]. split; [by intros m [= <-] |].
  intros [|[]]; cbn [respects]; try by apply HΦ.
  apply respects_bind, respects_tame; [apply locateDelivered_tame |]. intros G' r HG. by apply HΦ.
Qed.

(** *** A fresh send *)
Lemma reserve_ghost now a rid text mt mm w enf d G1 G2 :
  ghost_ok G1 d → db_inv d →
  ghost_step G1 (run (ReserveAgentActionSend now a rid text mt mm w enf) d).2 G2 →
  (run (ReserveAgentActionSend now a rid text mt mm w enf) d).1 = Ok true →
  G2 !! aa_ID a = Some (aa_UserID a, rid, text).
Proof.
  intros [_ Hknown] Hi Hstep Hres. unfold run in *.
  destruct (ReserveAgentActionSend now a rid text mt mm w enf d) as [[b d']|] eqn:E; [| done].
  cbn in *. injection Hres as ->.
  apply Reserve_true in E as (c & r & sb & _ & _ & Hr & Hs & Hu & _ & _ & Hb & _ & _ & _ & ->).
  destruct (inv_row _ Hi _ _ Hr) as (_ & _ & [Hw _ _]).
  assert (a_SendRandomID r = None) as Hn by (apply Hw; by rewrite Hs).
  assert (G1 !! aa_ID a = None) as Hg.
  { destruct (G1 !! aa_ID a) as [g|] eqn:Hg; [| done].
    destruct (Hknown _ _ Hg) as (r' & Hr' & Hne). congruence. }
  assert (G2 !! aa_ID a = Some (a_UserID (reserve_row now rid sb r), rid,
    row_text (reserve_row now rid sb r))) as ->.
  { eapply gs_new; [exact Hstep | | done | done]. cbn. apply lookup_insert_eq. }
  unfold row_text. cbn. by rewrite Hu, Hb.
Qed.

Lemma send_rpc_respects e G a c rid text :
  G !! aa_ID a = Some (aa_UserID a, rid, text) → respects G (send_rpc e a c rid text) anything.
Proof.
  intros Hg. unfold send_rpc. cbn [bind ask respects]. split; [done |]. intros reservedAt.
  apply respects_try; [done |]. intros G1 [n live] HG1. destruct live; [| exact I]. cbn [negb snd].
  apply respects_bind, deliver_respects; [by eapply lookup_weaken |]. intros G2 r HG2.
  apply respects_tame; [| done]. apply tame_bind; [apply settleRefusal_tame |]. intros handled. tame_steps.
Qed.

Lemma send_reserve_respects e G a p c text : respects G (send_reserve e a p c text) anything.
Proof.
  unfold send_reserve. cbn [bind ask respects]. split; [done |]. intros [rid|[]]; [| exact I].
  cbn [bind ask invoke respects]. split; [done |]. intros now. split; [done |]. split.
  - intros G' err HG. apply respects_tame; [| done].
    destruct err; try exact I; apply denySuperseded_tame || apply deny_approved_tame.
  - intros t d G1 G2 HG1 Hok Hi Hstep. cbn [call_op] in *.
    destruct (run _ d).1 as [[]|err] eqn:Hres.
    + destruct (x_CrashAfterReserve e); [exact I |]. apply send_rpc_respects.
      by eapply reserve_ghost.
    + exact I.
    + apply respects_tame; [| done].
      destruct err; try exact I; apply denySuperseded_tame || apply deny_approved_tame.
Qed.

Lemma send_text_respects e G a p c : respects G (send_text e a p c) anything.
Proof.
  unfold send_text. destruct (_ && _); [by apply respects_tame; [apply deny_approved_tame |] |].
  apply respects_bind, respects_tame; [apply restrictedFieldBlocks_tame |].
  intros G1 [[reason|]|what] _; [by apply respects_tame; [apply deny_approved_tame |] | | exact I].
  apply respects_bind, respects_tame; [apply gate_tame |]. intros G2 [|] _;
    [apply send_reserve_respects | by apply respects_tame; [apply deny_approved_tame |]].
Qed.

Lemma send_respects e G a : respects G (send e a) anything.
Proof.
  unfold send. apply respects_try; [done |]. intros G1 p _. apply respects_try; [done |]. intros G2 c _.
  cbn [bind ask respects]. split; [done |]. intros t. apply respects_try; [done |]. intros G3 recent _.
  apply respects_bind, respects_tame; [apply protectedField_tame |]. intros G4 [f|what] _; [| exact I].
  cbn [bind ask respects]. split; [done |]. intros kill. split; [done |]. intros now.
  destruct (stopped _ _); [by apply respects_tame; [apply deny_approved_tame |] |].
  apply send_text_respects.
Qed.
(** *** Recovery *)
Lemma run_get {A} (f : DB → A) d : run (op_get f) d = (Ok (f d), d).
Proof. done. Qed.

Lemma stuck_ghost now grace d G1 stuck :
  ghost_ok G1 d → db_inv d → (run (ListStuckExecutingActions now grace) d).1 = Ok stuck →
  ∀ a, a ∈ stuck → aa_SendRandomID a ≠ 0 → aa_SendBody a ≠ "" →
    G1 !! aa_ID a = Some (aa_UserID a, aa_SendRandomID a, aa_SendBody a).
Proof.
  intros [Hrow _] Hi [= <-] a (r & Hr & Ha)%list_elem_of_omap Hrid Hbody.
  apply elem_of_rows_where in Hr as [_ (id & Hr)].
  destruct (inv_row _ Hi _ _ Hr) as (Hid & _ & _). subst id.
  unfold open_action in Ha. destruct (open_opt (a_CodeEncrypted r) _); [| done]. cbn in Ha.
  destruct (open_opt (a_Payload r) _); [| done]. cbn in Ha.
  destruct (open_opt (a_SendBody r) _) as [body|] eqn:Hb; [| done]. injection Ha as <-. cbn in *.
  destruct (a_SendRandomID r) as [x|] eqn:Hx; [| done]. cbn in *.
  destruct (Hrow _ _ _ Hr Hx) as (t & Ht & Ho). destruct (Ho _ Hb) as [-> | ->]; done.
Qed.

Lemma recover_rpc_respects e G a c :
  G !! aa_ID a = Some (aa_UserID a, aa_SendRandomID a, aa_SendBody a) →
  respects G (recover_rpc e a c) anything.
Proof.
  intros Hg. unfold recover_rpc. apply respects_try; [done |]. intros G1 [n live] HG1.
  destruct live; [| exact I]. cbn [negb].
  apply respects_bind, deliver_respects; [by eapply lookup_weaken |]. intros G2 r HG2.
  apply respects_tame; [| done]. apply tame_bind; [apply settleRefusal_tame |].
  intros handled. tame_steps; apply markDeliveryUnknown_tame.
Qed.

Lemma recoverOne_respects e G a :
  (aa_SendRandomID a ≠ 0 → aa_SendBody a ≠ "" →
   G !! aa_ID a = Some (aa_UserID a, aa_SendRandomID a, aa_SendBody a)) →
  respects G (recoverOne e a) anything.
Proof.
  intros Hg. unfold recoverOne. destruct (Z.eqb_spec (aa_SendRandomID a) 0) as [|Hrid]; [exact I |].
  specialize (Hg Hrid). apply respects_try; [done |]. intros G1 c HG1.
  apply respects_try; [done |]. intros G2 p HG2.
  destruct (_ && _); [by apply respects_tame; [tame_steps |] |].
  destruct (_ <=? _); [by apply respects_tame; [apply markDeliveryUnknown_tame |] |].
  unfold recover_check. cbn [bind ask respects]. split; [done |]. intros t.
  apply respects_try; [done |]. intros G3 recent HG3.
  apply respects_bind, respects_tame; [apply protectedField_tame |]. intros G4 [f|what] HG4; [| exact I].
  cbn [bind ask respects]. split; [done |]. intros kill. split; [done |]. intros now.
  destruct (stopped _ _); [by apply respects_tame; [apply recover_stop_tame |] |].
  destruct (bool_decide (aa_SendBody a = "")) eqn:Hbody; [exact I |].
  apply bool_decide_eq_false in Hbody. specialize (Hg Hbody).
  apply respects_bind, respects_tame; [apply restrictedFieldBlocks_tame |].
  intros G5 [[reason|]|what] HG5; [by apply respects_tame; [apply recover_stop_tame |] | | exact I].
  unfold recover_gate. apply respects_bind, respects_tame; [apply gate_tame |]. intros G6 [|] HG6.
  - apply recover_rpc_respects. eapply lookup_weaken; [exact Hg |].
    do 5 (etrans; [eassumption |]). done.
  - apply respects_tame; [| done]. apply tame_bind; [apply past_ttl_tame |]. intros [|]; [| exact I].
    apply tame_bind; [apply endHeldRetry_tame | intros r; tame_steps].
Qed.

(** *** The entry points *)
Lemma for_each_respects G (f : AgentAction → prog outcome) l :
  (∀ a G', a ∈ l → G ⊆ G' → respects G' (f a) anything) → respects G (for_each f l) anything.
Proof.
  revert G. induction l as [|a l IH]; intros G Hf; [exact I |]. cbn. apply respects_bind.
  eapply (respects_mono G); [done | apply Hf; [left | done] |]. cbn. intros G1 G2 _ H1' H2' _.
  apply IH. intros a' G3 Ha HG3. apply Hf; [by right |].
  etrans; [exact H1' |]. by etrans.
Qed.

Lemma forget_respects {R} G (p : prog R) : respects G p anything → respects G (forget p) anything.
Proof. intros Hp. apply respects_bind. by eapply respects_mono. Qed.

Lemma approve_now_respects e G a u : respects G (approve_now e a u) anything.
Proof.
  unfold approve_now. apply respects_try; [done |]. intros G1 [|] _; [| exact I]. cbn [negb bind ask respects].
  split; [done |]. intros now. apply send_respects.
Qed.

Lemma entry_respects G p : entry p → respects G p anything.
Proof.
  intros [e u code|u code|e|e seen]; apply forget_respects.
  - unfold Approve. apply respects_try; [done |]. intros G1 a _.
    destruct (negb _); [exact I |]. apply respects_bind, respects_tame; [apply past_ttl_tame |].
    intros G2 [|] _; [by apply respects_tame; [tame_steps |] |]. cbn [bind invoke respects].
    split; [done |]. assert (∀ G' (p : result db_error AgentProfile), respects G'
      (match p with
       | Err ErrAgentProfileNotFound => approve_now e a u
       | Err _ => fail (ErrOther "load profile")
       | Ok p =>
         if aa_InstallRevision a =? p_InstallRevision p then approve_now e a u else
         bind_ok (try (CDeny u (aa_ID a) ActionPendingApproval ReasonInstallChanged)
                      (λ _, ErrOther "deny stale-install draft"))
                 (λ done, fail (if done then ErrInstallChanged else ErrLostRace))
       end) anything) as Hp.
    { intros G' [prof|[]]; try exact I; try apply approve_now_respects.
      destruct (_ =? _); [apply approve_now_respects | by apply respects_tame; [tame_steps |]]. }
    split; [intros G' err _; apply (Hp G' (Err err)) | intros; apply Hp].
  - unfold Reject. apply respects_tame; [| done]. tame_steps.
  - unfold ProcessApproved. apply respects_try; [done |]. intros G1 l _.
    apply respects_bind. eapply respects_mono; [reflexivity | |].
    + apply for_each_respects. intros. apply send_respects.
    + by intros.
  - unfold RecoverStuck. apply respects_bind. cbn [try respects]. split_and!; [done | done |].
    intros now d G1 G2 HG1 Hok Hi Hstep. cbn [call_op] in *.
    destruct (run _ d).1 as [stuck|err] eqn:Hres; [| exact I]. cbn [map_err].
    destruct stuck as [|a0 stuck]; [exact I |]. apply respects_bind.
    eapply respects_mono; [reflexivity | |].
    + apply for_each_respects. intros a G' Ha HG'. apply recoverOne_respects. intros Hrid Hbody.
      eapply lookup_weaken; [by eapply (stuck_ghost _ _ _ G1) |]. etrans; [apply Hstep | done].
    + by intros.
Qed.

(** ** The system respects the reservations *)
Lemma GetIncomingEvent_safe u id : safe (GetIncomingEvent u id).
Proof. unfold GetIncomingEvent. safe_steps. Qed.
Lemma inbound_parts_safe u ids : safe (inbound_parts u ids).
Proof. induction ids; cbn; safe_steps. apply GetIncomingEvent_safe. Qed.
Lemma TurnInboundText_safe u j : safe (TurnInboundText u j).
Proof. unfold TurnInboundText, GetAgentJob. safe_steps. apply inbound_parts_safe. Qed.

Lemma call_safe now {A} (c : call A) : call_legal c → safe (call_op now c).
Proof.
  destruct c; cbn [call_op call_legal]; intros Hc; try solve [auto with safe].
  - unfold GetAgentActionByCode, approvalCodeHash, getAgentAction. safe_steps.
  - unfold GetAgentProfile. safe_steps.
  - unfold ListActionsByStatus. safe_steps.
  - unfold ListStuckExecutingActions. safe_steps.
  - unfold ListRecentAgentOutgoingTimestampsExcludingAction. safe_steps.
  - apply TurnInboundText_safe.
  - by apply recordAgentActionSent_safe.
Qed.

Record respected (G : ghost) (s : system) : Prop := {
  sys_inv : db_inv (s_db s);
  sys_ghost : ghost_ok G (s_db s);
  sys_threads : Forall (λ p, respects G p anything) (s_threads s);
  sys_sent : Forall (matches G) (s_sent s);
}.

Lemma threads_weaken G G' (l : list (prog unit)) :
  G ⊆ G' → Forall (λ p, respects G p anything) l → Forall (λ p, respects G' p anything) l.
Proof. intros HG Hl. eapply Forall_impl; [exact Hl |]. intros p. by apply respects_weaken. Qed.
Lemma sent_weaken G G' l : G ⊆ G' → Forall (matches G) l → Forall (matches G') l.
Proof. intros HG Hl. eapply Forall_impl; [exact Hl |]. intros m. by apply matches_mono. Qed.

Lemma db_step_respected G s d i p :
  respected G s → db_inv d → db_le (s_db s) d →
  (∀ G', ghost_step G d G' → respects G' p anything) →
  respected (extend G d) (System d (<[i := p]> (s_threads s)) (s_sent s)).
Proof.
  intros [Hi Hg Ht Hs] Hi' Hle Hp. pose proof (extend_step _ _ _ Hi Hg Hle) as Hstep.
  destruct Hstep as [HG Hok Hnew] eqn:E. clear E. split; cbn; [done | done | |].
  - apply Forall_insert; [by eapply threads_weaken | by apply Hp].
  - by eapply sent_weaken.
Qed.

Lemma step_respected G s s' :
  respected G s → step s s' → ∃ G', G ⊆ G' ∧ respected G' s'.
Proof.
  intros HR Hstep. pose proof HR as [Hi Hg Ht Hs].
  assert (Hcall : ∀ i A (c : call A) k now, s_threads s !! i = Some (Call c k) →
    let d := (run (call_op now c) (s_db s)).2 in
    db_inv d ∧ db_le (s_db s) d ∧
    (∀ G', ghost_step G d G' → respects G' (k (run (call_op now c) (s_db s)).1) anything) ∧
    (∀ G' err, G ⊆ G' → respects G' (k (Err err)) anything)).
  { intros i A c k now Hth d.
    pose proof (Forall_lookup_1 _ _ _ _ Ht Hth) as Hx. cbn in Hx. destruct Hx as (Hc & Herr & Hk).
    destruct (run_safe (call_op now c) (s_db s) (call_safe now c Hc) Hi) as [Hi' Hle].
    split_and!; [done | done | | done]. intros G' HG'. by apply (Hk now (s_db s) G G'). }
  destruct Hstep as [d Hd Hle|p Hp|i A c k now Hth|i A c k now err Hth|i A c k err Hth|i A q k x Hth|i].
  - pose proof (extend_step _ _ _ Hi Hg Hle) as [HG Hok Hnew]. exists (extend G d).
    split; [done |]. split; [done | done | by eapply threads_weaken | by eapply sent_weaken].
  - exists G. split; [done |]. split; cbn; try done. apply Forall_app. split; [done |].
    constructor; [by apply entry_respects | done].
  - destruct (Hcall _ _ _ _ now Hth) as (Hi' & Hle & Hk & _). eexists (extend G _). split; [eapply gs_grows, extend_step; [exact Hi | exact Hg | exact Hle] |].
    by apply db_step_respected.
  - destruct (Hcall _ _ _ _ now Hth) as (Hi' & Hle & _ & Herr). eexists (extend G _). split; [eapply gs_grows, extend_step; [exact Hi | exact Hg | exact Hle] |].
    apply db_step_respected; [done.. |]. intros G' [HG _ _]. by apply Herr.
  - destruct (Hcall _ _ _ _ 0 Hth) as (_ & _ & _ & Herr). exists G. split; [done |].
    split; cbn; try done. apply Forall_insert; [done | by apply Herr].
  - pose proof (Forall_lookup_1 _ _ _ _ Ht Hth) as Hx. cbn in Hx. destruct Hx as [Hq Hk].
    exists G. split; [done |]. split; cbn; [done | done | by apply Forall_insert |].
    destruct (rpc_of q) as [m|]; [| done]. constructor; [by apply Hq | done].
  - exists G. split; [done |]. split; cbn; try done. by apply Forall_delete.
Qed.

Lemma start_respected d : db_inv d → respected (omap row_ghost (d_actions d)) (start d).
Proof.
  intros Hi. split; cbn; [done | | done | done]. split.
  - intros id r x Hr Hx. exists (row_text r). rewrite lookup_omap, Hr. cbn. unfold row_ghost. rewrite Hx.
    split; [done |]. unfold row_text. intros s ->. by left.
  - intros id g. rewrite lookup_omap. destruct (d_actions d !! id) as [r|]; [| done]. cbn.
    intros Hg. exists r. split; [done |]. unfold row_ghost in Hg. by destruct (a_SendRandomID r).
Qed.

Lemma reachable_respected d s : db_inv d → rtc step (start d) s → ∃ G, respected G s.
Proof.
  intros Hi Hs. apply start_respected in Hi. revert Hi. generalize (omap row_ghost (d_actions d)).
  induction Hs as [s|s1 s2 s3 H12 _ IH]; intros G HR; [by exists G |].
  destruct (step_respected _ _ _ HR H12) as (G' & _ & HR'). by eapply IH.
Qed.

(** ** What Telegram shows the peer *)

(** Of the messages that reach it (latest first), Telegram delivers those whose
    sender and random id it has not seen. *)
Definition rpc_key (m : rpc) : Z * Z := (rpc_user m, rpc_rid m).
Fixpoint delivered (reached : list rpc) : list rpc :=
  match reached with
  | [] => []
  | m :: older =>
    let shown := delivered older in
    if bool_decide (rpc_key m ∈ map rpc_key shown) then shown else m :: shown
  end.

Lemma delivered_incl l : delivered l ⊆ l.
Proof.
  induction l as [|m l IH]; [done |]. cbn. case_bool_decide; set_solver.
Qed.
Lemma delivered_keys l : NoDup (map rpc_key (delivered l)).
Proof.
  induction l as [|m l IH]; cbn; [constructor |]. case_bool_decide; [done |]. cbn. by constructor.
Qed.

Lemma same_key_once (l : list rpc) k :
  NoDup (map rpc_key l) → (∀ m, m ∈ l → rpc_key m = k) → (length l ≤ 1)%nat.
Proof.
  destruct l as [|m [|m' l]]; cbn; [lia | lia |]. intros Hnd Hk. exfalso.
  apply NoDup_cons in Hnd as [Hnin _]. apply Hnin.
  rewrite (Hk m) by left. rewrite <- (Hk m') by (right; left). left.
Qed.

Lemma NoDup_map_filter {B} (f : rpc → B) id l :
  NoDup (map f l) → NoDup (map f (filter (λ m, rpc_action m = id) l)).
Proof.
  induction l as [|m l IH]; cbn; [done |]. intros [Hm Hnd]%NoDup_cons. case_decide; [| by apply IH].
  cbn. constructor; [| by apply IH]. intros (m' & Hf & Hm')%elem_of_map. apply Hm, elem_of_map.
  exists m'. split; [done |]. by apply list_elem_of_filter in Hm' as [_ ?].
Qed.

(** C1: at most one message per action: however executors interleave, crash,
    lose acknowledgements and restart beside other writers, all messages handed
    to Telegram for an action carry one user, one random id and one text, and
    of those that reach it, whichever they are, Telegram delivers at most one. *)
Theorem one_message_per_action d s :
  db_inv d → rtc step (start d) s →
  (∀ m m', m ∈ s_sent s → m' ∈ s_sent s → rpc_action m = rpc_action m' →
     rpc_user m = rpc_user m' ∧ rpc_rid m = rpc_rid m' ∧ rpc_text m = rpc_text m') ∧
  (∀ reached id, reached ⊆+ s_sent s →
     (length (filter (λ m, rpc_action m = id) (delivered reached)) ≤ 1)%nat).
Proof.
  intros Hi Hs. destruct (reachable_respected _ _ Hi Hs) as (G & [_ _ _ Hsent]).
  rewrite Forall_forall in Hsent.
  assert (Hsame : ∀ m m', m ∈ s_sent s → m' ∈ s_sent s → rpc_action m = rpc_action m' →
     rpc_user m = rpc_user m' ∧ rpc_rid m = rpc_rid m' ∧ rpc_text m = rpc_text m').
  { intros m m' Hm Hm' Ha. pose proof (Hsent _ Hm) as H1'. pose proof (Hsent _ Hm') as H2'.
    unfold matches in *. rewrite Ha, H2' in H1'. by injection H1' as -> -> ->. }
  split; [done |]. intros reached id Hsub.
  destruct (filter _ (delivered reached)) as [|m l] eqn:Hf; [cbn; lia |]. rewrite <- Hf.
  assert (Hin : ∀ m', m' ∈ m :: l → m' ∈ s_sent s ∧ rpc_action m' = id).
  { intros m' Hm'. rewrite <- Hf in Hm'. apply list_elem_of_filter in Hm' as [Ha Hm']. split; [| done].
    eapply elem_of_submseteq; [by apply delivered_incl | exact Hsub]. }
  apply (same_key_once _ (rpc_key m)); [apply NoDup_map_filter, delivered_keys |].
  intros m' Hm'. rewrite Hf in Hm'. destruct (Hin _ Hm') as [Hs1 Ha1].
  destruct (Hin m) as [Hs2 Ha2]; [by left |].
  destruct (Hsame m' m) as (Hu & Hr & _); [done | done | congruence |]. unfold rpc_key. congruence.
Qed.
End safety.

(** ** Witnesses *)

(** The first thread runs alone, with the answers of [o]. *)
Section drive.
Context `{Sealer} `{UnicodeTables} `{TimeZones}.
Variable o : ∀ A, query A → A.
Variable now : time.

Definition advance (s : system) : system :=
  match s_threads s with
  | Call c k :: l => System (run (call_op now c) (s_db s)).2 (k (run (call_op now c) (s_db s)).1 :: l) (s_sent s)
  | Query q k :: l => System (s_db s) (k (o _ q) :: l) (option_list (rpc_of q) ++ s_sent s)
  | _ => s
  end.
Lemma advance_step s : rtc step s (advance s).
Proof.
  destruct s as [d [|[r|A c k|A q k|] l] sent]; try apply rtc_refl; apply rtc_once.
  - by apply (step_call (System d (Call c k :: l) sent) 0 A c k now).
  - by apply (step_query (System d (Query q k :: l) sent) 0 A q k).
Qed.
Lemma advance_steps n s : rtc step s (Nat.iter n advance s).
Proof. induction n as [|n IH]; [apply rtc_refl |]. cbn. etrans; [exact IH | apply advance_step]. Qed.

(** A replica dies and another one starts. *)
Lemma restart n p s :
  entry p → (length (s_threads s) ≤ 1)%nat →
  rtc step s (Nat.iter n advance (System (s_db s) [p] (s_sent s))).
Proof.
  intros Hp Hl. etrans; [| apply advance_steps]. destruct s as [d [|q [|]] sent]; cbn in *; [| | lia].
  - apply rtc_once. by apply (step_start (System d [] sent)).
  - eapply rtc_l; [by apply (step_crash _ 0) |]. apply rtc_once. by apply (step_start (System d [] sent)).
Qed.
End drive.

Module Witnesses.
Import ActionsProps.Witnesses ActionsFacts.Witnesses.
#[local] Existing Instance pair_sealer.
#[local] Existing Instance ascii_tables.
#[local] Existing Instance two_zones.

Definition replica : Executor := MkExecutor true true false (2 * Minute) Hour false 0.
Definition answers (A : Type) (q : query A) : A :=
  match q with
  | QNow => 50
  | QNewRandomID => Ok 77
  | QGlobalKill => false
  | QSendGate _ _ => true
  | QSend _ _ _ _ _ _ => Err (SendAmbiguous "connection reset")
  | QLocate _ _ _ _ _ => Ok None
  | QMatchRestricted _ _ => Err OwnerProfileNotFound
  | QMatchProtected _ _ _ _ => Ok None
  end.
Definition profile : AgentProfile :=
  (default_profile 1 0) <|p_Mode := AgentModeGuarded|> <|p_AutopilotPaused := false|>
    <|p_DisclosureText := "AI assistant"|> <|p_IntentAllowlist := "faq"|>.
Definition ready : DB := (play cfg approval empty_db) <|d_profiles := {[1 := profile]}|>.

(** The send that lost its answer is repeated by the recovery of another
    replica, two minutes later: two messages handed over, one delivered. *)
Definition first_send : system :=
  Nat.iter 30 (advance answers 60) (System ready [forget (ProcessApproved replica)] []).
Definition after_recovery : system :=
  Nat.iter 30 (advance answers (Hour)) (System (s_db first_send)
    [forget (RecoverStuck replica ∅)] (s_sent first_send)).

Lemma first_send_reached : rtc step (start ready) first_send.
Proof. apply (restart answers 60 30 _ (start ready)); [constructor | cbn; lia]. Defined.
Lemma after_recovery_reached : rtc step (start ready) after_recovery.
Proof.
  etrans; [apply first_send_reached |]. apply (restart answers Hour 30 _ first_send); [constructor |].
  vm_compute. lia.
Defined.
Lemma ready_inv : db_inv ready.
Proof. apply frame_safe with (d := play cfg approval empty_db); [done | done | apply approved_inv]. Defined.

Lemma one_message_per_action_witness :
  length (s_sent after_recovery) = 2%nat ∧
  (length (filter (λ m, rpc_action m = 1%Z) (delivered (s_sent after_recovery))) ≤ 1)%nat.
Proof.
  split; [vm_compute; reflexivity |].
  destruct (one_message_per_action ready after_recovery ready_inv after_recovery_reached) as [_ Honce].
  by apply Honce.
Defined.
End Witnesses.
