(* ===== verification/OAuthStore.v ===== *)
(** * The tables behind the token endpoint: [src/internal/db/refresh_tokens.go]
    and the authorization codes of [src/internal/db/store_oauth.go]

    A refresh token is stored under the SHA-256 digest of its text; a unique
    index makes the digest the key of the table.  An operation that fails rolls
    its transaction back.  Of the [users] table the model keeps the columns the
    token endpoint reads or an account deletion writes. *)

From S2P Require Import Prelude GoString Sha256.

(** [nullable]: the empty string is stored as NULL; [NullString.String] of a
    NULL is empty. *)
Definition nullable (s : string) : option string := if bool_decide (s = "") then None else Some s.
Definition null_string (o : option string) : string := default "" o.

Inductive oauth_error :=
| ErrRefreshTokenNotFound
| ErrAccountDeletedSinceGrant
| ErrOAuthNotFound
| ErrOAuthCodeConflict
| ErrStore (what : string).   (** a missing argument or a failed statement *)
#[global] Instance oauth_error_eq_dec : EqDecision oauth_error.
Proof. solve_decision. Defined.

(** ** Rows *)
Record RefreshToken := {
  rt_FamilyID : string;
  rt_UserID : Z;
  rt_ClientID : string;
  rt_ClientName : string;
  rt_TelegramID : Z;
  rt_TelegramUsername : string;
  rt_Scope : string;
  rt_CreatedAt : time;
  rt_ExpiresAt : time;
  rt_RevokedAt : time;         (** the zero time: still active *)
  rt_RevokedReason : string;
  rt_ParentTokenHash : string; (** empty: a family's first token *)
  rt_RedirectURI : string;
  rt_RedirectURIKnown : bool;
}.
#[export] Instance RefreshToken_eta : Eta RefreshToken := λ r,
  Build_RefreshToken (rt_FamilyID r) (rt_UserID r) (rt_ClientID r) (rt_ClientName r) (rt_TelegramID r)
    (rt_TelegramUsername r) (rt_Scope r) (rt_CreatedAt r) (rt_ExpiresAt r) (rt_RevokedAt r)
    (rt_RevokedReason r) (rt_ParentTokenHash r) (rt_RedirectURI r) (rt_RedirectURIKnown r).

Definition Revoked (rt : RefreshToken) : bool := negb (IsZero (rt_RevokedAt rt)).
Definition Expired (rt : RefreshToken) (now : time) : bool := rt_ExpiresAt rt <? now.

(** The columns of [oauth_refresh_tokens] next to the key [token_hash]. *)
Record token_row := {
  tr_family_id : string;
  tr_user_id : Z;
  tr_client_id : string;
  tr_telegram_id : Z;
  tr_telegram_username : option string;
  tr_scope : option string;
  tr_client_name : string;
  tr_created_at : time;
  tr_expires_at : time;
  tr_revoked_at : option time;
  tr_parent_token_hash : option string;
  tr_revoked_reason : option string;
  tr_redirect_uri : option string;
}.
#[export] Instance token_row_eta : Eta token_row := λ r,
  Build_token_row (tr_family_id r) (tr_user_id r) (tr_client_id r) (tr_telegram_id r)
    (tr_telegram_username r) (tr_scope r) (tr_client_name r) (tr_created_at r) (tr_expires_at r)
    (tr_revoked_at r) (tr_parent_token_hash r) (tr_revoked_reason r) (tr_redirect_uri r).

Record OAuthCode := {
  oc_Code : string;
  oc_ClientID : string;
  oc_RedirectURI : string;
  oc_CodeChallenge : string;
  oc_ChallengeMethod : string;
  oc_TelegramID : Z;
  oc_TelegramUsername : string;
  oc_Scope : string;
  oc_CreatedAt : time;
}.

Record user_row := {
  us_github_login : string;
  us_telegram_login_id : option Z;
  us_telegram_username : option string;
  us_telegram_display_name : option string;
  us_access_tier : option string;
  us_account_deleted_at : option time;
}.
#[export] Instance user_row_eta : Eta user_row := λ r,
  Build_user_row (us_github_login r) (us_telegram_login_id r) (us_telegram_username r)
    (us_telegram_display_name r) (us_access_tier r) (us_account_deleted_at r).

Record odb := {
  od_tokens : gmap string token_row;   (** by token_hash *)
  od_codes : gmap string OAuthCode;    (** by code *)
  od_users : gmap Z user_row;
}.
#[export] Instance odb_eta : Eta odb := λ d, Build_odb (od_tokens d) (od_codes d) (od_users d).

Definition live (r : token_row) : bool := bool_decide (tr_revoked_at r = None).

#[local] Open Scope result_scope.

(** ** Refresh tokens *)
Definition hashRefreshToken (plaintext : string) : string := Sum256 plaintext.
#[global] Arguments hashRefreshToken : simpl never.

Definition redirectURIValue (rt : RefreshToken) : option string :=
  if rt_RedirectURIKnown rt then Some (rt_RedirectURI rt) else None.

(** The row an insert at [now] writes: [created_at] has its default. *)
Definition token_of (now : time) (rt : RefreshToken) : token_row := {|
  tr_family_id := rt_FamilyID rt; tr_user_id := rt_UserID rt; tr_client_id := rt_ClientID rt;
  tr_telegram_id := rt_TelegramID rt; tr_telegram_username := nullable (rt_TelegramUsername rt);
  tr_scope := nullable (rt_Scope rt); tr_client_name := rt_ClientName rt; tr_created_at := now;
  tr_expires_at := rt_ExpiresAt rt; tr_revoked_at := None;
  tr_parent_token_hash := nullable (rt_ParentTokenHash rt); tr_revoked_reason := None;
  tr_redirect_uri := redirectURIValue rt |}.

Definition saveRefreshToken (now : time) (plaintext : string) (rt : RefreshToken) (d : odb)
    : result oauth_error odb :=
  if bool_decide (plaintext = "") then Err (ErrStore "refresh token plaintext required")
  else if bool_decide (rt_FamilyID rt = "") then Err (ErrStore "refresh token family id required")
  else match od_tokens d !! hashRefreshToken plaintext, od_users d !! rt_UserID rt with
       | None, Some _ => Ok (d <|od_tokens := <[hashRefreshToken plaintext := token_of now rt]> (od_tokens d)|>)
       | _, _ => Err (ErrStore "insert refresh token")      (** the unique index or the foreign key *)
       end.

Definition token_from (r : token_row) : RefreshToken := {|
  rt_FamilyID := tr_family_id r; rt_UserID := tr_user_id r; rt_ClientID := tr_client_id r;
  rt_ClientName := tr_client_name r; rt_TelegramID := tr_telegram_id r;
  rt_TelegramUsername := null_string (tr_telegram_username r); rt_Scope := null_string (tr_scope r);
  rt_CreatedAt := tr_created_at r; rt_ExpiresAt := tr_expires_at r;
  rt_RevokedAt := default time_zero (tr_revoked_at r);
  rt_RevokedReason := null_string (tr_revoked_reason r);
  rt_ParentTokenHash := "";                                  (** not selected *)
  rt_RedirectURI := null_string (tr_redirect_uri r);
  rt_RedirectURIKnown := bool_decide (is_Some (tr_redirect_uri r)) |}.

Definition LookupRefreshToken (plaintext : string) (d : odb) : result oauth_error RefreshToken :=
  if bool_decide (plaintext = "") then Err ErrRefreshTokenNotFound
  else match od_tokens d !! hashRefreshToken plaintext with
       | Some r => Ok (token_from r)
       | None => Err ErrRefreshTokenNotFound
       end.

Definition LookupRefreshTokenByHashPair (oldPlaintext newPlaintext familyID clientID : string) (d : odb)
    : result oauth_error RefreshToken :=
  match od_tokens d !! hashRefreshToken newPlaintext with
  | Some r =>
    if bool_decide (tr_parent_token_hash r = Some (hashRefreshToken oldPlaintext))
       && bool_decide (tr_family_id r = familyID) && bool_decide (tr_client_id r = clientID) && live r
    then Ok (token_from r) else Err ErrRefreshTokenNotFound
  | None => Err ErrRefreshTokenNotFound
  end.

Definition revoke_row (now : time) (reason : string) (r : token_row) : token_row :=
  r <|tr_revoked_at := Some now|> <|tr_revoked_reason := Some reason|>.

(** [UPDATE oauth_refresh_tokens SET revoked_at, revoked_reason WHERE ... AND
    revoked_at IS NULL]: the rows it touched and the table after it. *)
Definition revoke_where (p : token_row → bool) (now : time) (reason : string) (d : odb) : Z * odb :=
  (Z.of_nat (size (filter (λ kr, p kr.2 && live kr.2) (od_tokens d))),
   d <|od_tokens := (λ r, if p r && live r then revoke_row now reason r else r) <$> od_tokens d|>).

Definition RotateRefreshToken (now : time) (oldPlaintext newPlaintext : string) (newRT : RefreshToken)
    (d : odb) : result oauth_error odb :=
  if rt_UserID newRT <=? 0 then Err (ErrStore "rotate refresh token: missing user id")
  else
    let oldHash := hashRefreshToken oldPlaintext in
    match od_tokens d !! oldHash with
    | Some r =>
      if live r then
        saveRefreshToken now newPlaintext (newRT <|rt_ParentTokenHash := oldHash|>)
          (d <|od_tokens := <[oldHash := revoke_row now "rotated" r]> (od_tokens d)|>)
      else Err ErrRefreshTokenNotFound
    | None => Err ErrRefreshTokenNotFound
    end.

Definition RevokeRefreshTokenFamily (now : time) (familyID reason : string) (d : odb) : Z * odb :=
  revoke_where (λ r, bool_decide (tr_family_id r = familyID)) now reason d.

Definition SweepExpiredRefreshTokens (now : time) (d : odb) : Z * odb :=
  (Z.of_nat (size (filter (λ kr, tr_expires_at kr.2 < now) (od_tokens d))),
   d <|od_tokens := filter (λ kr, ¬ tr_expires_at kr.2 < now) (od_tokens d)|>).

Definition FamilyEverHeldScope (familyID : string) (d : odb) : bool :=
  existsb (λ kr, bool_decide (tr_family_id kr.2 = familyID)
                 && match tr_scope kr.2 with Some s => negb (bool_decide (s = "")) | None => false end)
    (map_to_list (od_tokens d)).

Definition ReasonAccountDeleted : string := "account_deleted".

Definition accountDeletedSince (userID : Z) (at_ : time) (d : odb) : result oauth_error bool :=
  match od_users d !! userID with
  | None => Err (ErrStore "read account deletion")
  | Some u => Ok (match us_account_deleted_at u with Some t => negb (t <? at_) | None => false end)
  end.

Definition SaveRefreshTokenForGrant (now : time) (plaintext : string) (rt : RefreshToken)
    (grantIssuedAt : time) (d : odb) : result oauth_error odb :=
  if rt_UserID rt <=? 0 then Err (ErrStore "save refresh token: missing user id")
  else
    let! deleted := accountDeletedSince (rt_UserID rt) grantIssuedAt d in
    if deleted : bool then Err ErrAccountDeletedSinceGrant else saveRefreshToken now plaintext rt d.

Definition revokeUserRefreshTokens (userID : Z) (reason : string) (now : time) (d : odb) : Z * odb :=
  revoke_where (λ r, bool_decide (tr_user_id r = userID)) now reason d.

Definition RefreshRevokedByOwner : string := "owner_revoke".

Definition client_row (now : time) (userID : Z) (clientID : string) (r : token_row) : bool :=
  bool_decide (tr_user_id r = userID) && bool_decide (tr_client_id r = clientID) && (now <? tr_expires_at r).
Definition RevokeClientGrants (now : time) (userID : Z) (clientID : string) (d : odb)
    : result oauth_error (Z * odb) :=
  if (userID <=? 0) || bool_decide (clientID = "")
  then Err (ErrStore "revoke client grants: user id and client id required")
  else Ok (revoke_where (client_row now userID clientID) now RefreshRevokedByOwner d).

(** The part of [HardDeleteAccount] that stops the account's sign-ins: the
    deletion marker and the identity columns, the refresh tokens, and the
    usernames they carry. *)
Definition clear_identity (now : time) (u : user_row) : user_row :=
  u <|us_telegram_username := None|> <|us_telegram_display_name := None|>
    <|us_account_deleted_at := Some now|>.
Definition HardDeleteAccount (now : time) (userID : Z) (d : odb) : odb :=
  let d := d <|od_users := alter (clear_identity now) userID (od_users d)|> in
  let d := (revokeUserRefreshTokens userID ReasonAccountDeleted now d).2 in
  d <|od_tokens := (λ r, if bool_decide (tr_user_id r = userID)
                         then r <|tr_telegram_username := None|> else r) <$> od_tokens d|>.

(** ** The grants a user sees *)
Record ClientGrant := {
  cg_ClientID : string;
  cg_ClientName : string;
  cg_Families : Z;
  cg_LastIssuedAt : time;
}.

(** One row of the loop, the rows in the order the database returned them. *)
Definition grant_add (acc : gmap string (string * time * gset string)) (r : token_row) :=
  let '(name, last, fams) := default ("", time_zero, ∅) (acc !! tr_client_id r) in
  let '(name, last) := if last <? tr_created_at r
    then (if bool_decide (tr_client_name r = "") then name else tr_client_name r, tr_created_at r)
    else (name, last) in
  let name := if bool_decide (name = "") then tr_client_name r else name in
  <[tr_client_id r := (name, last, {[tr_family_id r]} ∪ fams)]> acc.

Definition grants_listed (now : time) (userID : Z) (r : token_row) : bool :=
  bool_decide (tr_user_id r = userID) && live r && (now <? tr_expires_at r).

(** [sort.Slice]'s order: the newest first, then by client id. *)
Definition grant_before (a b : ClientGrant) : Prop :=
  cg_LastIssuedAt b < cg_LastIssuedAt a ∨
  cg_LastIssuedAt a = cg_LastIssuedAt b ∧ String.leb (cg_ClientID a) (cg_ClientID b) = true.
#[global] Instance grant_before_dec a b : Decision (grant_before a b).
Proof. unfold grant_before. apply _. Defined.

Definition ListActiveClientGrants (now : time) (userID : Z) (d : odb) : list ClientGrant :=
  let rows := filter (λ r, grants_listed now userID r) (map_to_list (od_tokens d)).*2 in
  let byClient := foldl grant_add ∅ rows in
  merge_sort grant_before
    ((λ kv, {| cg_ClientID := kv.1; cg_ClientName := kv.2.1.1; cg_Families := Z.of_nat (size kv.2.2);
               cg_LastIssuedAt := kv.2.1.2 |}) <$> map_to_list byClient).

(** ** Authorization codes *)
Definition InsertOAuthCode (c : OAuthCode) (userID : Z) (signInStartedAt : time) (d : odb)
    : result oauth_error odb :=
  if userID <=? 0 then Err (ErrStore "insert oauth_auth_codes: missing user id")
  else if IsZero signInStartedAt then Err (ErrStore "insert oauth_auth_codes: missing sign-in start")
  else
    let! deleted := accountDeletedSince userID signInStartedAt d in
    if deleted : bool then Err ErrAccountDeletedSinceGrant
    else match od_codes d !! oc_Code c with
         | Some _ => Err ErrOAuthCodeConflict
         | None => Ok (d <|od_codes := <[oc_Code c := c]> (od_codes d)|>)
         end.

Definition ConsumeOAuthCode (now : time) (code : string) (ttl : duration) (d : odb)
    : result oauth_error (OAuthCode * odb) :=
  match od_codes d !! code with
  | Some c => if negb (oc_CreatedAt c <? now - ttl)
              then Ok (c, d <|od_codes := delete code (od_codes d)|>) else Err ErrOAuthNotFound
  | None => Err ErrOAuthNotFound
  end.

(** The codes' half of [DeleteExpiredOAuthRows]. *)
Definition DeleteExpiredOAuthCodes (now : time) (ttl : duration) (d : odb) : odb :=
  d <|od_codes := filter (λ kc, ¬ oc_CreatedAt kc.2 < now - ttl) (od_codes d)|>.

(** ** Users *)
Definition TierNone : string := "none".
Definition TierClient : string := "client".

Definition user_with (p : user_row → bool) (d : odb) : option Z :=
  fst <$> head (filter (λ ku, p ku.2) (map_to_list (od_users d))).
Definition by_telegram_login (tgID : Z) (u : user_row) : bool :=
  bool_decide (us_telegram_login_id u = Some tgID).

Definition GetAccessTier (tgID : Z) (d : odb) : string :=
  match user_with (by_telegram_login tgID) d with
  | Some id => null_string (od_users d !! id ≫= us_access_tier)
  | None => ""
  end.

Definition by_github_login (login : string) (u : user_row) : bool :=
  bool_decide (us_github_login u = login).
Definition syntheticLogin (tgID : Z) : string := "tg:" +:+ FormatInt tgID.

(** [INSERT ... ON CONFLICT DO NOTHING], with the id a new row gets; both
    logins are unique. *)
Definition insert_user (newID tgID : Z) (username displayName : string) (d : odb) : odb :=
  match user_with (by_telegram_login tgID) d, user_with (by_github_login (syntheticLogin tgID)) d with
  | None, None => d <|od_users := <[newID := {|
      us_github_login := syntheticLogin tgID; us_telegram_login_id := Some tgID;
      us_telegram_username := nullable username; us_telegram_display_name := nullable displayName;
      us_access_tier := None; us_account_deleted_at := None |}]> (od_users d)|>
  | _, _ => d
  end.

(** Its statements run as one step of the model. *)
Definition EnsureUserByTelegramID (newID : Z) (tgID : Z) (username displayName : string) (d : odb)
    : result oauth_error (Z * odb) :=
  if tgID <=? 0 then Err (ErrStore "telegram id must be positive")
  else
    let effective := if bool_decide (username = "") then displayName else username in
    let d := insert_user newID tgID effective displayName d in
    let found := match user_with (by_telegram_login tgID) d with
                 | Some id => Some id
                 | None => user_with (by_github_login (syntheticLogin tgID)) d
                 end in
    match found with
    | None => Err (ErrStore "select user by tg_id (fallback)")
    | Some id =>
      let keep s old := match nullable s with Some s => Some s | None => old end in
      Ok (id, if bool_decide (username = "") && bool_decide (displayName = "") then d
              else d <|od_users := alter (λ u,
                u <|us_telegram_username := keep effective (us_telegram_username u)|>
                  <|us_telegram_display_name := keep displayName (us_telegram_display_name u)|>)
                id (od_users d)|>)
    end.
