(* ===== verification/OAuth.v ===== *)
(** * The token endpoint: [src/internal/oauth/server.go]

    The handlers of [/oauth/token] and [/oauth/revoke], and the in-process
    exchange of the connect page, as programs over the calls of [OAuthStore] and
    queries to the clock, the random source, the token issuer and the client
    metadata resolver.  Several requests run at once, so every call is a point
    where another request, a deletion or a sweep may come between.

    The codes are the ones in the database: the in-memory code store of a
    server without Postgres is not modelled. *)

From S2P Require Import Prelude GoString Program Sha256 OAuthStore.

#[local] Open Scope prog_scope.

(** ** Store calls *)
Inductive store_call : Type → Type :=
| CLookup (plaintext : string) : store_call RefreshToken
| CLookupPair (oldPlaintext newPlaintext familyID clientID : string) : store_call RefreshToken
| CRotate (oldPlaintext newPlaintext : string) (rt : RefreshToken) : store_call unit
| CRevokeFamily (familyID reason : string) : store_call Z
| CEverHeldScope (familyID : string) : store_call bool
| CAccessTier (tgID : Z) : store_call string
| CConsumeCode (code : string) (ttl : duration) : store_call OAuthCode
| CEnsureUser (tgID : Z) (username displayName : string) : store_call Z
| CSaveForGrant (plaintext : string) (rt : RefreshToken) (grantIssuedAt : time) : store_call unit.

(** What the store does on a call made at [now]; [newID] is the id a new row of
    [users] gets. *)
Definition store_op (now : time) (newID : Z) {A} (c : store_call A) (d : odb) : result oauth_error (A * odb) :=
  match c in store_call A return result oauth_error (A * odb) with
  | CLookup t => let! r := LookupRefreshToken t d in Ok (r, d)
  | CLookupPair o n f cl => let! r := LookupRefreshTokenByHashPair o n f cl d in Ok (r, d)
  | CRotate o n rt => let! d' := RotateRefreshToken now o n rt d in Ok (tt, d')
  | CRevokeFamily f reason => Ok (RevokeRefreshTokenFamily now f reason d)
  | CEverHeldScope f => Ok (FamilyEverHeldScope f d, d)
  | CAccessTier tg => Ok (GetAccessTier tg d, d)
  | CConsumeCode code ttl => ConsumeOAuthCode now code ttl d
  | CEnsureUser tg u n => EnsureUserByTelegramID newID tg u n d
  | CSaveForGrant t rt at_ => let! d' := SaveRefreshTokenForGrant now t rt at_ d in Ok (tt, d')
  end%result.

(** ** Collaborators *)

(** The fields the minter of [mintAccessToken] sets. *)
Record Claims := {
  cl_Subject : string;
  cl_TelegramID : Z;
  cl_TelegramUsername : string;
  cl_Groups : list string;
  cl_Scopes : list string;
  cl_Audience : list string;
  cl_ClientID : string;
  cl_Profile : string;
}.

Inductive cimd_error := errCIMDRefused | errCIMDUnavailable | errCIMDAuthFailed | errJTIStore.

Inductive oauth_query : Type → Type :=
| QClock : oauth_query time
| QRandomToken (n : Z) : oauth_query string
| QMint (c : Claims) (ttl : duration) : oauth_query (result unit string)
(** [authenticateCIMDClient]: [None] when the client is no CIMD client, the
    failure or the redirect URIs of its document otherwise. *)
| QAuthenticateCIMD (clientID wher : string) : oauth_query (option (result cimd_error (list string)))
| QRedirectAllowed (uris : list string) (redirectURI : string) : oauth_query bool
| QClientDisplayName (clientID : string) : oauth_query string.

Abbreviation handler := (Program.prog oauth_error store_call oauth_query).
Abbreviation ask := (Program.ask (E:=oauth_error) (C:=store_call) (Q:=oauth_query)).
Abbreviation invoke := (Program.invoke (E:=oauth_error) (C:=store_call) (Q:=oauth_query)).

(** ** Responses *)
Inductive token_response :=
| TokenError (code desc : string) (status : Z)
| TokenJSON (accessToken refreshToken : string) (expiresIn : Z) (scopes : list string)
| RevokeSuccess.

Definition StatusBadRequest : Z := 400.
Definition StatusInternalServerError : Z := 500.
Definition StatusServiceUnavailable : Z := 503.

Definition cimd_message (e : cimd_error) : string :=
  match e with
  | errCIMDRefused => "client metadata document could not be used for this client_id"
  | errCIMDUnavailable => "client metadata document is temporarily unavailable; retry later"
  | errCIMDAuthFailed => "client authentication failed"
  | errJTIStore => "could not record the client assertion; retry later"
  end.
Definition writeCIMDTokenError (e : cimd_error) : token_response :=
  match e with
  | errCIMDUnavailable | errJTIStore => TokenError "server_error" (cimd_message e) StatusServiceUnavailable
  | _ => TokenError "invalid_client" (cimd_message e) StatusBadRequest
  end.

(** ** Scopes *)
Definition DCRNegotiableScopes : list string := [
  "telegram:dialogs:read"; "telegram:messages:read"; "telegram:messages:send";
  "telegram:messages:pin"; "account:manage"].

Definition narrowGrant (entitled : list string) (requested : string) : list string :=
  let asked := Fields requested in
  if bool_decide (asked = []) then entitled
  else filter (λ s, s ∉ DCRNegotiableScopes ∨ s ∈ asked) entitled.

Definition boundRefreshGrant (currentGroups currentScopes : list string) (originalScope : string)
    : list string * list string :=
  let bounded := filter (λ s, s ∈ Fields originalScope) currentScopes in
  if bool_decide (bounded = []) then ([], []) else (currentGroups, bounded).

(** ** Tool profiles: [toolprofile.Bindings] *)
Record Bindings := {
  ByClientID : gmap string string;
  ByRedirectURI : gmap string string;
}.
Definition Resolve (b : Bindings) (clientID redirectURI : string) : string :=
  match ByClientID b !! clientID with
  | Some p => p
  | None => if bool_decide (redirectURI = "") then "" else default "" (ByRedirectURI b !! redirectURI)
  end.

Record tokenOrigin := {
  to_ClientID : string;
  to_RedirectURI : string;
  to_RedirectURIKnown : bool;
}.

(** ** The server's configuration *)
Record Config := {
  JWTSecret : string;
  JWTAudience : string;
  AccessTokenTTL : duration;
  RefreshTokenTTL : duration;
  CodeTTL : duration;
  AutoApproveClients : bool;
  AdminTelegramIDs : gset Z;
  BroadcastOperatorTelegramIDs : gset Z;
  LookupAdminTelegramIDs : gset Z;
  ClientTelegramIDs : gset Z;
  ClientProfiles : Bindings;
}.

Definition ConnectClientID : string := "mctl_self_connect".
Definition rotationGraceWindow : duration := Minute.
Definition profileUnresolvableDescription : string :=
  "this grant predates redirect_uri tool-profile binding; authorize again".

Definition pkceMinLen : Z := 43.
Definition pkceMaxLen : Z := 128.
Definition pkce_char (c : Z) : bool :=
  in_range 65 90 c || in_range 97 122 c || in_range 48 57 c
  || (c =? 45) || (c =? 46) || (c =? 95) || (c =? 126).
(** [None] is the nil error; a text is the error's. *)
Definition validPKCEString `{UnicodeTables} (s : string) : option string :=
  let n := Z.of_nat (String.length s) in
  if (n <? pkceMinLen) || (pkceMaxLen <? n)
  then Some ("must be 43–128 characters (got " +:+ FormatInt n +:+ ")")
  else
    (λ '(i, c), "contains disallowed character " +:+ QuoteRune c +:+ " at index " +:+ FormatInt (Z.of_nat i)
                +:+ " (only [A-Za-z0-9-._~] permitted)")
    <$> list_find (λ c, pkce_char c = false) (bytes s).
Definition pkceVerify (verifier challenge : string) : bool :=
  if bool_decide (verifier = "") || bool_decide (challenge = "") then false
  else bool_decide (base64_url (digest (bytes verifier)) = challenge).
#[global] Arguments pkceVerify : simpl never.

Definition refreshTokenSuccessorDomain : string := "mctl-telegram-refresh-token-v1".
Definition deriveSuccessorRefreshToken (secret predecessor : string) : string :=
  base64_url (hmac_sha256 (bytes secret) (bytes refreshTokenSuccessorDomain ++ [0] ++ bytes predecessor)).
#[global] Arguments deriveSuccessorRefreshToken : simpl never.

Section server.
Context `{UnicodeTables} (cfg : Config).

Definition expires_in : Z := Z.quot (AccessTokenTTL cfg) Second.

Definition isClientTier (tgID : Z) : handler (result oauth_error bool) :=
  let? tier := invoke (CAccessTier tgID) in
  ok (if bool_decide (tier = TierClient) then true
      else if bool_decide (tier = TierNone) then false
      else AutoApproveClients cfg || bool_decide (tgID ∈ ClientTelegramIDs cfg)).

Definition ResolveScopes (tgID : Z) : handler (result oauth_error (list string * list string)) :=
  if bool_decide (tgID ∈ AdminTelegramIDs cfg) then
    ok (["platform-admins"; "admins"],
        ["telegram:dialogs:read"; "telegram:messages:read"; "telegram:messages:send";
         "telegram:messages:pin"; "admin:users"; "account:manage"]
        ++ (if bool_decide (tgID ∈ BroadcastOperatorTelegramIDs cfg) then ["admin:broadcast"] else []))
  else if bool_decide (tgID ∈ LookupAdminTelegramIDs cfg) then
    ok (["admin-lookup"], ["admin:users:read"])
  else
    let? isClient := isClientTier tgID in
    ok (if isClient : bool then
          (["clients"], ["telegram:dialogs:read"; "telegram:messages:read"; "telegram:messages:send";
                         "telegram:messages:pin"; "account:manage"])
        else ([], [])).

Definition refreshGrantStillValid (bounded : list string) (familyID : string) (tgID : Z)
    : handler (result oauth_error bool) :=
  if negb (bool_decide (bounded = [])) then ok true
  else
    let? everHeld := invoke (CEverHeldScope familyID) in
    if everHeld : bool then ok false
    else
      let? tier := invoke (CAccessTier tgID) in
      ok (negb (bool_decide (tier = TierNone))).

(** [None] is [errProfileUnresolvable]. *)
Definition profileFor (origin : tokenOrigin) : option string :=
  let b := ClientProfiles cfg in
  if to_RedirectURIKnown origin then Some (Resolve b (to_ClientID origin) (to_RedirectURI origin))
  else match ByClientID b !! to_ClientID origin with
       | Some p => Some p
       | None => if bool_decide (ByRedirectURI b = ∅) then Some "" else None
       end.

Inductive mint_error := errProfileUnresolvable | errMint.

Definition mintAccessToken (origin : tokenOrigin) (tgID : Z) (tgUsername : string)
    (groups scopes : list string) : handler (result mint_error string) :=
  match profileFor origin with
  | None => fail errProfileUnresolvable
  | Some profile =>
    let* r := ask (QMint {|
      cl_Subject := "tg:" +:+ FormatInt tgID; cl_TelegramID := tgID; cl_TelegramUsername := tgUsername;
      cl_Groups := groups; cl_Scopes := scopes;
      cl_Audience := if bool_decide (JWTAudience cfg = "") then [] else [JWTAudience cfg];
      cl_ClientID := to_ClientID origin; cl_Profile := profile |} (AccessTokenTTL cfg)) in
    Ret (map_err (λ _, errMint) r)
  end.

Definition origin_of (rt : RefreshToken) : tokenOrigin := {|
  to_ClientID := rt_ClientID rt; to_RedirectURI := rt_RedirectURI rt;
  to_RedirectURIKnown := rt_RedirectURIKnown rt |}.

Definition invalid_grant (desc : string) : token_response := TokenError "invalid_grant" desc StatusBadRequest.
Definition server_error (desc : string) : token_response :=
  TokenError "server_error" desc StatusInternalServerError.

(** The steps [handleTokenRefresh] and [attemptGraceRecovery] share on a token
    row: the current scopes bounded by the row's, and an access token for them.
    The error is the response. *)
Definition regrant (rt : RefreshToken) : handler (result token_response (string * list string)) :=
  let* r := ResolveScopes (rt_TelegramID rt) in
  match r with
  | Err _ => fail (server_error "could not resolve scopes")
  | Ok (groups, scopes) =>
    let '(groups, scopes) := boundRefreshGrant groups scopes (rt_Scope rt) in
    let* v := refreshGrantStillValid scopes (rt_FamilyID rt) (rt_TelegramID rt) in
    match v with
    | Err _ => fail (server_error "could not verify refresh authorization")
    | Ok false => fail (invalid_grant "refresh authorization no longer available")
    | Ok true =>
      let* m := mintAccessToken (origin_of rt) (rt_TelegramID rt) (rt_TelegramUsername rt) groups scopes in
      match m with
      | Err errProfileUnresolvable => fail (invalid_grant profileUnresolvableDescription)
      | Err errMint => fail (server_error "could not mint token")
      | Ok tok => ok (tok, scopes)
      end
    end
  end.

(** [graceNotEligible] is [None]; the other outcomes wrote a response. *)
Definition attemptGraceRecovery (refreshTok revokedReason : string) (revokedAt : time)
    (familyID clientID : string) : handler (option token_response) :=
  let recover :=
    let candidate := deriveSuccessorRefreshToken (JWTSecret cfg) refreshTok in
    let* l := invoke (CLookupPair refreshTok candidate familyID clientID) in
    match l with
    | Err ErrRefreshTokenNotFound => Ret (Some (invalid_grant "refresh token already used"))
    | Err _ => Ret (Some (server_error "could not verify grace-window replay"))
    | Ok child =>
      let* now := ask QClock in
      if Expired child now then Ret (Some (invalid_grant "refresh token already used"))
      else
        let* r := regrant child in
        Ret (Some (match r with
                   | Err resp => resp
                   | Ok (tok, scopes) => TokenJSON tok candidate expires_in scopes
                   end))
    end in
  if negb (bool_decide (revokedReason = "rotated")) then Ret None
  else
    let* now := ask QClock in
    if rotationGraceWindow <=? time_sub now revokedAt then Ret None else recover.

(** The successor row: the identity and the expiry of the old one. *)
Definition successor (rt : RefreshToken) (scopes : list string) : RefreshToken := {|
  rt_FamilyID := rt_FamilyID rt; rt_UserID := rt_UserID rt; rt_ClientID := rt_ClientID rt;
  rt_ClientName := rt_ClientName rt; rt_TelegramID := rt_TelegramID rt;
  rt_TelegramUsername := rt_TelegramUsername rt; rt_Scope := Join scopes " ";
  rt_CreatedAt := time_zero; rt_ExpiresAt := rt_ExpiresAt rt; rt_RevokedAt := time_zero;
  rt_RevokedReason := ""; rt_ParentTokenHash := ""; rt_RedirectURI := rt_RedirectURI rt;
  rt_RedirectURIKnown := rt_RedirectURIKnown rt |}.

(** The token was revoked before this request or by one that overtook it:
    recover the successor or revoke the family.  A failed revocation is the
    error [onRevokeError] of the caller. *)
Definition reuse (rt : RefreshToken) (onRevokeError : token_response) : handler token_response :=
  let* r := invoke (CRevokeFamily (rt_FamilyID rt) "reuse_detected") in
  Ret (match r with Err _ => onRevokeError | Ok _ => invalid_grant "refresh token already used" end).

Definition lost_race (rt : RefreshToken) (refreshTok clientID : string) : handler token_response :=
  let hard := reuse rt (invalid_grant "refresh token already used") in
  let* re := invoke (CLookup refreshTok) in
  match re with
  | Err ErrRefreshTokenNotFound => hard
  | Err _ => Ret (server_error "could not verify rotation race")
  | Ok reRead =>
    if Revoked reRead then
      let* g := attemptGraceRecovery refreshTok (rt_RevokedReason reRead) (rt_RevokedAt reRead)
                                     (rt_FamilyID reRead) clientID in
      match g with Some resp => Ret resp | None => hard end
    else hard
  end.

Definition rotate (rt : RefreshToken) (refreshTok clientID tok : string) (scopes : list string)
    : handler token_response :=
  let newRefresh := deriveSuccessorRefreshToken (JWTSecret cfg) refreshTok in
  let* r := invoke (CRotate refreshTok newRefresh (successor rt scopes)) in
  match r with
  | Ok _ => Ret (TokenJSON tok newRefresh expires_in scopes)
  | Err ErrRefreshTokenNotFound => lost_race rt refreshTok clientID
  | Err _ => Ret (server_error "could not rotate refresh token")
  end.

Definition handleTokenRefresh (refreshTok clientID : string) : handler token_response :=
  if bool_decide (refreshTok = "") || bool_decide (clientID = "") then
    Ret (TokenError "invalid_request" "refresh_token and client_id are required" StatusBadRequest)
  else if bool_decide (clientID = ConnectClientID) then
    Ret (TokenError "unauthorized_client" "this client cannot refresh" StatusBadRequest)
  else
    let* cimd := ask (QAuthenticateCIMD clientID "token_refresh") in
    match cimd with
    | Some (Err e) => Ret (writeCIMDTokenError e)
    | _ =>
      let* l := invoke (CLookup refreshTok) in
      match l with
      | Err ErrRefreshTokenNotFound =>
        Ret (invalid_grant "refresh token not found, expired, or already used")
      | Err _ => Ret (server_error "could not look up refresh token")
      | Ok rt =>
        if Revoked rt then
          let* g := attemptGraceRecovery refreshTok (rt_RevokedReason rt) (rt_RevokedAt rt)
                                         (rt_FamilyID rt) clientID in
          match g with
          | Some resp => Ret resp
          | None => reuse rt (server_error "could not complete reuse detection")
          end
        else
          let* now := ask QClock in
          if Expired rt now then Ret (invalid_grant "refresh token expired")
          else if negb (bool_decide (rt_ClientID rt = clientID)) then
            Ret (invalid_grant "client_id mismatch")
          else
            let* r := regrant rt in
            match r with
            | Err resp => Ret resp
            | Ok (tok, scopes) => rotate rt refreshTok clientID tok scopes
            end
      end
    end.

(** ** The authorization-code exchange *)
Definition issueRefreshToken (grantIssuedAt : time) (rt : RefreshToken)
    : handler (result oauth_error string) :=
  let* plaintext := ask (QRandomToken 32) in
  let* now := ask QClock in
  let? _ := invoke (CSaveForGrant plaintext (rt <|rt_ExpiresAt := now + RefreshTokenTTL cfg|>) grantIssuedAt) in
  ok plaintext.

Definition first_token (family : string) (uid : Z) (clientName : string) (entry : OAuthCode)
    (clientID : string) (scopes : list string) : RefreshToken := {|
  rt_FamilyID := family; rt_UserID := uid; rt_ClientID := clientID; rt_ClientName := clientName;
  rt_TelegramID := oc_TelegramID entry; rt_TelegramUsername := oc_TelegramUsername entry;
  rt_Scope := Join scopes " "; rt_CreatedAt := time_zero; rt_ExpiresAt := time_zero;
  rt_RevokedAt := time_zero; rt_RevokedReason := ""; rt_ParentTokenHash := "";
  rt_RedirectURI := oc_RedirectURI entry; rt_RedirectURIKnown := true |}.

(** The checks of a consumed code, in order: the error description. *)
Definition code_refused (entry : OAuthCode) (clientID redirectURI codeVerifier : string) : option string :=
  if negb (bool_decide (oc_ClientID entry = clientID)) then Some "client_id mismatch"
  else if negb (bool_decide (oc_RedirectURI entry = redirectURI)) then Some "redirect_uri mismatch"
  else if negb (pkceVerify codeVerifier (oc_CodeChallenge entry))
  then Some "code_verifier does not match code_challenge"
  else None.

(** The authorization an exchange mints for: the current scopes narrowed to the
    request's.  The error is the description of a server error. *)
Definition code_grant (entry : OAuthCode) (clientID : string)
    : handler (result string (string * list string)) :=
  let* r := ResolveScopes (oc_TelegramID entry) in
  match r with
  | Err _ => fail "could not resolve scopes"
  | Ok (groups, scopes) =>
    let scopes := narrowGrant scopes (oc_Scope entry) in
    let* m := mintAccessToken {| to_ClientID := clientID; to_RedirectURI := oc_RedirectURI entry;
                                 to_RedirectURIKnown := true |}
                (oc_TelegramID entry) (oc_TelegramUsername entry) groups scopes in
    match m with
    | Err _ => fail "could not mint token"
    | Ok tok => ok (tok, scopes)
    end
  end.

(** What the exchange does with a code it consumed. *)
Definition redeem (entry : OAuthCode) (clientID redirectURI codeVerifier : string) : handler token_response :=
  match code_refused entry clientID redirectURI codeVerifier with
  | Some desc => Ret (invalid_grant desc)
  | None =>
    let* r := code_grant entry clientID in
    match r with
    | Err desc => Ret (server_error desc)
    | Ok (tok, scopes) =>
      let* u := invoke (CEnsureUser (oc_TelegramID entry) (oc_TelegramUsername entry) "") in
      match u with
      | Err _ => Ret (server_error "could not resolve user")
      | Ok uid =>
        let* clientName := ask (QClientDisplayName clientID) in
        let* family := ask (QRandomToken 16) in
        let* t := issueRefreshToken (oc_CreatedAt entry)
                    (first_token family uid clientName entry clientID scopes) in
        Ret (match t with
             | Ok refreshTok => TokenJSON tok refreshTok expires_in scopes
             | Err ErrAccountDeletedSinceGrant =>
               invalid_grant "the account was deleted after this code was issued"
             | Err _ => server_error "could not issue refresh token"
             end)
      end
    end
  end.

Definition cimd_redirect_refused (cimd : option (result cimd_error (list string))) (redirectURI : string)
    : handler (option cimd_error) :=
  match cimd with
  | None => Ret None
  | Some (Err e) => Ret (Some e)
  | Some (Ok uris) =>
    if bool_decide (redirectURI = "") then Ret None
    else
      let* allowed := ask (QRedirectAllowed uris redirectURI) in
      Ret (if allowed : bool then None else Some errCIMDRefused)
  end.

Definition handleTokenAuthCode (code clientID redirectURI codeVerifier : string) : handler token_response :=
  if bool_decide (code = "") || bool_decide (clientID = "") || bool_decide (codeVerifier = "") then
    Ret (TokenError "invalid_request" "code, client_id, code_verifier are required" StatusBadRequest)
  else if bool_decide (clientID = ConnectClientID) then
    Ret (TokenError "unauthorized_client" "this client's codes are not redeemable at the token endpoint" StatusBadRequest)
  else match validPKCEString codeVerifier with
  | Some err => Ret (TokenError "invalid_request" ("code_verifier " +:+ err) StatusBadRequest)
  | None =>
    let* cimd := ask (QAuthenticateCIMD clientID "token_code") in
    let* refused := cimd_redirect_refused cimd redirectURI in
    match refused with
    | Some e => Ret (writeCIMDTokenError e)
    | None =>
      let* c := invoke (CConsumeCode code (CodeTTL cfg)) in
      match c with
      | Err ErrOAuthNotFound => Ret (invalid_grant "code not found, expired, or already used")
      | Err _ => Ret (server_error "could not redeem code")
      | Ok entry => redeem entry clientID redirectURI codeVerifier
      end
    end
  end.

(** The self-connect client's exchange; no refresh token is issued.  The error
    is its text, without the cause it wraps. *)
Definition ExchangeConnect (code verifier clientID redirectURI : string) : handler (result string string) :=
  if bool_decide (code = "") || bool_decide (verifier = "") || bool_decide (clientID = "")
     || bool_decide (redirectURI = "")
  then fail "invalid_request: code, verifier, client_id, redirect_uri are required"
  else if negb (bool_decide (clientID = ConnectClientID)) then
    fail "invalid_request: client_id must be mctl_self_connect"
  else match validPKCEString verifier with
  | Some err => fail ("invalid_request: code_verifier " +:+ err)
  | None =>
    let* c := invoke (CConsumeCode code (CodeTTL cfg)) in
    match c with
    | Err ErrOAuthNotFound => fail "invalid_grant: code not found, expired, or already used"
    | Err _ => fail "server_error: could not redeem code"
    | Ok entry =>
      match code_refused entry clientID redirectURI verifier with
      | Some desc => fail ("invalid_grant: " +:+ desc)
      | None =>
        let* r := code_grant entry clientID in
        match r with
        | Err desc => fail ("server_error: " +:+ desc)
        | Ok (tok, _) => ok tok
        end
      end
    end
  end.

(** ** Revocation *)
Definition handleRevoke (token clientID : string) : handler token_response :=
  if bool_decide (token = "") || bool_decide (clientID = "") then
    Ret (TokenError "invalid_request" "token and client_id are required" StatusBadRequest)
  else
    let* l := invoke (CLookup token) in
    match l with
    | Err ErrRefreshTokenNotFound => Ret RevokeSuccess
    | Err _ => Ret (server_error "could not look up token")
    | Ok rt =>
      if negb (bool_decide (rt_ClientID rt = clientID)) then Ret RevokeSuccess
      else
        let* r := invoke (CRevokeFamily (rt_FamilyID rt) "explicit_revoke") in
        Ret (match r with Err _ => server_error "could not revoke token" | Ok _ => RevokeSuccess end)
    end.

(** ** Dispatch *)
Record token_form := {
  tf_grant_type : string;
  tf_code : string;
  tf_client_id : string;
  tf_redirect_uri : string;
  tf_code_verifier : string;
  tf_refresh_token : string;
}.

(** [handleToken] on a form whose [client_id] is settled. *)
Definition handleToken (f : token_form) : handler token_response :=
  if bool_decide (tf_grant_type f = "authorization_code") then
    handleTokenAuthCode (tf_code f) (tf_client_id f) (tf_redirect_uri f) (tf_code_verifier f)
  else if bool_decide (tf_grant_type f = "refresh_token") then
    handleTokenRefresh (tf_refresh_token f) (tf_client_id f)
  else
    Ret (TokenError "unsupported_grant_type"
           "only authorization_code and refresh_token are supported" StatusBadRequest).
End server.
