(* ===== verification/OAuthProps.v ===== *)
(** * Refresh tokens over every interleaving of requests

    Any number of token requests run at once on one database, with lost answers,
    failed statements and dropped requests, while accounts are deleted, owners
    revoke clients, expired rows are swept and sign-ins issue codes.  The world
    of a run is what has happened in it: the tokens stored, the grants their
    families descend from, and the access tokens minted. *)

From S2P Require Import Prelude GoString Program Sha256 OAuthStore OAuth.

(** ** The world *)

(** What an authorization granted: fixed when its code is exchanged. *)
Record grant := {
  g_user : Z;
  g_client : string;
  g_telegram : Z;
  g_redirect : option string;
  g_expires : time;
  g_scopes : list string;
  g_issued : time;
}.
Definition grant_of (rt : RefreshToken) (at_ : time) : grant := {|
  g_user := rt_UserID rt; g_client := rt_ClientID rt; g_telegram := rt_TelegramID rt;
  g_redirect := redirectURIValue rt; g_expires := rt_ExpiresAt rt; g_scopes := Fields (rt_Scope rt);
  g_issued := at_ |}.

Record world := {
  w_issued : list (string * string);       (** token hash and family *)
  w_grants : list (string * grant);        (** family and grant *)
  w_minted : list (Claims * string);       (** access tokens *)
}.
#[export] Instance world_eta : Eta world := λ w, Build_world (w_issued w) (w_grants w) (w_minted w).

Definition committed {A} (c : store_call A) (w : world) : world :=
  match c with
  | CRotate _ n rt => w <|w_issued := (hashRefreshToken n, rt_FamilyID rt) :: w_issued w|>
  | CSaveForGrant t rt at_ =>
    w <|w_issued := (hashRefreshToken t, rt_FamilyID rt) :: w_issued w|>
      <|w_grants := (rt_FamilyID rt, grant_of rt at_) :: w_grants w|>
  | _ => w
  end.
Definition asked {A} (q : oauth_query A) : A → world → world :=
  match q in oauth_query A return A → world → world with
  | QMint c _ => λ r w, match r with Ok t => w <|w_minted := (c, t) :: w_minted w|> | Err _ => w end
  | _ => λ _ w, w
  end.

(** No two tokens stored in the run had the same hash, and no two families the
    same id: what the 256-bit hash and the 128-bit random id are relied on for. *)
Definition fresh (w : world) : Prop := NoDup (w_issued w).*1 ∧ NoDup (w_grants w).*1.

Record world_le (w w' : world) : Prop := {
  wl_issued : w_issued w ⊆ w_issued w';
  wl_grants : w_grants w ⊆ w_grants w';
  wl_minted : w_minted w ⊆ w_minted w';
}.
#[global] Instance world_le_preorder : PreOrder world_le.
Proof.
  split; [by split | intros w1 w2 w3 [] []; split; by etrans].
Qed.

(** ** What the store promises *)

(** The token belongs to the grant: its scopes are among the granted ones. *)
Record belongs (g : grant) (rt : RefreshToken) : Prop := {
  b_user : rt_UserID rt = g_user g;
  b_client : rt_ClientID rt = g_client g;
  b_telegram : rt_TelegramID rt = g_telegram g;
  b_redirect : redirectURIValue rt = g_redirect g;
  b_expires : rt_ExpiresAt rt = g_expires g;
  b_scopes : Fields (rt_Scope rt) ⊆ g_scopes g;
}.

(** A token text whose stored token is, or was, [rt]. *)
Definition known (w : world) (plaintext : string) (rt : RefreshToken) : Prop :=
  (hashRefreshToken plaintext, rt_FamilyID rt) ∈ w_issued w ∧
  ∃ g, (rt_FamilyID rt, g) ∈ w_grants w ∧ belongs g rt.

Definition call_pre {A} (w : world) (c : store_call A) : Prop :=
  match c with CRotate o _ rt => known w o rt | _ => True end.
Definition call_post {A} (w : world) (c : store_call A) : result oauth_error A → Prop :=
  match c in store_call A return result oauth_error A → Prop with
  | CLookup t => λ r, ∀ rt, r = Ok rt → known w t rt
  | CLookupPair _ n _ _ => λ r, ∀ rt, r = Ok rt → known w n rt
  | CRotate _ n rt => λ r, r = Ok tt → (hashRefreshToken n, rt_FamilyID rt) ∈ w_issued w
  | CSaveForGrant t rt at_ => λ r, r = Ok tt →
    (hashRefreshToken t, rt_FamilyID rt) ∈ w_issued w ∧ (rt_FamilyID rt, grant_of rt at_) ∈ w_grants w
  | _ => λ _, True
  end.
Definition query_ans {A} (w : world) (q : oauth_query A) : A → Prop :=
  match q in oauth_query A return A → Prop with
  | QMint c _ => λ r, ∀ t, r = Ok t → (c, t) ∈ w_minted w
  | _ => λ _, True
  end.

Lemma known_mono w w' t rt : world_le w w' → known w t rt → known w' t rt.
Proof. intros [] [? (g & ? & ?)]. split; [auto |]. exists g. auto. Qed.

#[global, refine] Instance token_protocol : Protocol oauth_error store_call oauth_query world := {
  p_le := world_le;
  p_pre := @call_pre;
  p_post := @call_post;
  p_ans := @query_ans;
}.
Proof. intros A w w' [] Hw; cbn; try done. by apply known_mono. Defined.

(** ** The invariant of the tables *)
Record db_ok (w : world) (d : odb) : Prop := {
  ok_issued h r : od_tokens d !! h = Some r → (h, tr_family_id r) ∈ w_issued w;
  ok_grant h r : od_tokens d !! h = Some r →
    ∃ g, (tr_family_id r, g) ∈ w_grants w ∧ belongs g (token_from r);
  ok_family h f : (h, f) ∈ w_issued w → f ∈ (w_grants w).*1;
  ok_user h r : od_tokens d !! h = Some r → is_Some (od_users d !! tr_user_id r);
  ok_live h h' r r' : od_tokens d !! h = Some r → od_tokens d !! h' = Some r' →
    live r → live r' → tr_family_id r = tr_family_id r' → h = h';
  ok_deleted h r u t g : od_tokens d !! h = Some r → live r →
    od_users d !! tr_user_id r = Some u → us_account_deleted_at u = Some t →
    (tr_family_id r, g) ∈ w_grants w → t < g_issued g;
}.

(** No live token of the family is left. *)
Definition family_dead (d : odb) (f : string) : Prop :=
  ∀ h r, od_tokens d !! h = Some r → tr_family_id r = f → ¬ live r.

(** ** Writes that only take away *)

(** The columns no statement changes, and a revocation that stays. *)
Record row_le (r r' : token_row) : Prop := {
  rl_family : tr_family_id r' = tr_family_id r;
  rl_user : tr_user_id r' = tr_user_id r;
  rl_client : tr_client_id r' = tr_client_id r;
  rl_telegram : tr_telegram_id r' = tr_telegram_id r;
  rl_scope : tr_scope r' = tr_scope r;
  rl_expires : tr_expires_at r' = tr_expires_at r;
  rl_redirect : tr_redirect_uri r' = tr_redirect_uri r;
  rl_live : live r' → live r;
}.
#[global] Instance row_le_preorder : PreOrder row_le.
Proof. split; [by split | intros r1 r2 r3 [] []; split; try congruence; auto]. Qed.

Definition shrinks (d d' : odb) : Prop :=
  ∀ h r', od_tokens d' !! h = Some r' → ∃ r, od_tokens d !! h = Some r ∧ row_le r r'.

(** The users are still there, with the same deletion marker outside [P]. *)
Definition users_kept (P : Z → Prop) (U U' : gmap Z user_row) : Prop :=
  ∀ id u, U !! id = Some u →
    ∃ u', U' !! id = Some u' ∧ (P id ∨ us_account_deleted_at u' = us_account_deleted_at u).

Lemma live_iff r : live r ↔ tr_revoked_at r = None.
Proof. unfold live. by rewrite bool_decide_spec. Qed.

Lemma redirect_token_from r : redirectURIValue (token_from r) = tr_redirect_uri r.
Proof. unfold redirectURIValue, token_from. cbn. by destruct (tr_redirect_uri r). Qed.

Lemma belongs_le g r r' : row_le r r' → belongs g (token_from r) → belongs g (token_from r').
Proof.
  intros [Hf Hu Hc Ht Hs He Hr _] [Bu Bc Bt Br Be Bs]. rewrite redirect_token_from in Br.
  split; rewrite ?redirect_token_from; cbn in *; by rewrite ?Hu, ?Hc, ?Ht, ?Hs, ?He, ?Hr.
Qed.

Lemma shrinks_ok w d d' (P : Z → Prop) :
  db_ok w d → shrinks d d' → users_kept P (od_users d) (od_users d') →
  (∀ h r, od_tokens d' !! h = Some r → live r → ¬ P (tr_user_id r)) → db_ok w d'.
Proof.
  intros Hd Hs Hu HP. split.
  - intros h r' (r & Hr & L)%Hs. rewrite (rl_family _ _ L). by eapply ok_issued.
  - intros h r' (r & Hr & L)%Hs. rewrite (rl_family _ _ L).
    destruct (ok_grant _ _ Hd _ _ Hr) as (g & Hg & Hb). exists g. split; [done |]. by eapply belongs_le.
  - apply (ok_family _ _ Hd).
  - intros h r' (r & Hr & L)%Hs. rewrite (rl_user _ _ L).
    destruct (ok_user _ _ Hd _ _ Hr) as [u Hu']. destruct (Hu _ _ Hu') as (u' & ? & _). by exists u'.
  - intros h1 h2 r1' r2' (r1 & Hr1 & L1)%Hs (r2 & Hr2 & L2)%Hs Hl1 Hl2 Hf.
    rewrite (rl_family _ _ L1), (rl_family _ _ L2) in Hf.
    eapply (ok_live _ _ Hd); [exact Hr1 | exact Hr2 | by apply L1 | by apply L2 | done].
  - intros h r' u' t g Hr' Hl Hu' Ht Hg. pose proof (HP _ _ Hr' Hl) as HnP.
    destruct (Hs _ _ Hr') as (r & Hr & L). rewrite (rl_user _ _ L) in Hu', HnP.
    rewrite (rl_family _ _ L) in Hg.
    destruct (ok_user _ _ Hd _ _ Hr) as [u Hu2]. destruct (Hu _ _ Hu2) as (u2 & Hu3 & [?|Hdel]); [done |].
    rewrite Hu' in Hu3. injection Hu3 as <-. rewrite Ht in Hdel.
    eapply (ok_deleted _ _ Hd); [exact Hr | by apply L | exact Hu2 | done | exact Hg].
Qed.

Lemma shrinks_dead d d' f : shrinks d d' → family_dead d f → family_dead d' f.
Proof.
  intros Hs Hd h r' Hr' Hf Hl. destruct (Hs _ _ Hr') as (r & Hr & L).
  apply (Hd _ _ Hr); [by rewrite <- (rl_family _ _ L) | by apply L].
Qed.

Lemma users_kept_refl P U : users_kept P U U.
Proof. intros id u Hu. exists u. auto. Qed.

Lemma fmap_shrinks d U C (f : token_row → token_row) :
  (∀ r, row_le r (f r)) → shrinks d (Build_odb (f <$> od_tokens d) C U).
Proof.
  intros Hf h r'. cbn. rewrite lookup_fmap. intros (r & Hr & ->)%fmap_Some. exists r. auto.
Qed.

Lemma filter_shrinks d U C (P : string * token_row → Prop) `{∀ x, Decision (P x)} :
  shrinks d (Build_odb (filter P (od_tokens d)) C U).
Proof. intros h r' [Hr _]%map_lookup_filter_Some. by exists r'. Qed.

Lemma row_le_revoke now reason r : row_le r (revoke_row now reason r).
Proof. by split. Qed.

Lemma revoke_where_shrinks p now reason d : shrinks d (revoke_where p now reason d).2.
Proof.
  apply fmap_shrinks. intros r. case_match; [apply row_le_revoke | reflexivity].
Qed.

Lemma revoke_where_dead p now reason d h r :
  od_tokens (revoke_where p now reason d).2 !! h = Some r → p r = true → ¬ live r.
Proof.
  cbn. rewrite lookup_fmap. intros (r0 & Hr0 & ->)%fmap_Some Hpr.
  destruct (p r0 && live r0) eqn:E; [intros Hl%live_iff; discriminate Hl |].
  intros Hl. rewrite Hpr in E. by destruct (live r0).
Qed.

(** ** A token is stored *)

(** The row an insert adds, on a table that has shrunk. *)
Lemma token_from_of now rt p :
  belongs (grant_of rt p) (token_from (token_of now rt)).
Proof.
  assert (∀ s, null_string (nullable s) = s) as Hn.
  { intros s'. unfold nullable. by case_bool_decide. }
  split; rewrite ?redirect_token_from; cbn; rewrite ?Hn; done.
Qed.

Lemma belongs_of now rt g : belongs g rt → belongs g (token_from (token_of now rt)).
Proof.
  destruct (token_from_of now rt 0) as [Bu Bc Bt Br Be Bs]. intros [].
  split; [..| by etrans]; etrans; try (exact Bu || exact Bc || exact Bt || exact Br || exact Be); done.
Qed.

Lemma saved_ok w d now plaintext rt g d' w' :
  db_ok w d → saveRefreshToken now plaintext rt d = Ok d' →
  w_issued w' = (hashRefreshToken plaintext, rt_FamilyID rt) :: w_issued w →
  w_grants w ⊆ w_grants w' → NoDup (w_grants w').*1 →
  (rt_FamilyID rt, g) ∈ w_grants w' → belongs g rt →
  family_dead d (rt_FamilyID rt) →
  (∀ u t, od_users d !! rt_UserID rt = Some u → us_account_deleted_at u = Some t → t < g_issued g) →
  db_ok w' d'.
Proof.
  intros Hd Hsave Hw Hinc Hnd Hg Hb Hdead Hdel.
  unfold saveRefreshToken in Hsave. do 2 (case_bool_decide; [done |]).
  destruct (od_tokens d !! hashRefreshToken plaintext) eqn:Hnew; [done |].
  destruct (od_users d !! rt_UserID rt) as [u0|] eqn:Hu0; [| done]. injection Hsave as <-.
  assert (Hrow : ∀ h r (P : Prop), <[hashRefreshToken plaintext := token_of now rt]> (od_tokens d) !! h = Some r →
    (h = hashRefreshToken plaintext → r = token_of now rt → P) →
    (h ≠ hashRefreshToken plaintext → od_tokens d !! h = Some r → P) → P).
  { intros h r P [[<- <-]|[? ?]]%lookup_insert_Some; auto. }
  split; cbn.
  - intros h r Hr. rewrite Hw. eapply Hrow; [exact Hr | intros -> -> | intros _ Hr']; [left |].
    right. by eapply ok_issued.
  - intros h r Hr. eapply Hrow; [exact Hr | intros -> -> | intros _ Hr'].
    + exists g. split; [done |]. by apply belongs_of.
    + destruct (ok_grant _ _ Hd _ _ Hr') as (g' & Hg' & ?). exists g'. auto.
  - intros h f. rewrite Hw. intros [[= -> ->]|Hf]%elem_of_cons; [by eapply elem_of_keys |].
    apply (ok_family _ _ Hd) in Hf. apply elem_of_map in Hf as ([f' g'] & -> & Hf).
    apply Hinc in Hf. by eapply elem_of_keys.
  - intros h r Hr. eapply Hrow; [exact Hr | intros -> -> | intros _ Hr']; [by eexists |].
    by eapply ok_user.
  - intros h1 h2 r1 r2 Hr1 Hr2 Hl1 Hl2 Hf.
    eapply Hrow; [exact Hr1 | intros -> -> | intros _ Hr1'];
      (eapply Hrow; [exact Hr2 | intros -> -> | intros _ Hr2']).
    + done.
    + by destruct (Hdead _ _ Hr2' (eq_sym Hf)).
    + by destruct (Hdead _ _ Hr1' Hf).
    + by eapply (ok_live _ _ Hd).
  - intros h r u t g' Hr Hl Hu Ht Hg'. eapply Hrow; [exact Hr | intros -> -> | intros _ Hr'].
    + assert (g' = g) as -> by (eapply NoDup_keys_inj; [exact Hnd | exact Hg' | exact Hg]).
      cbn in Hu. rewrite Hu0 in Hu. exact (Hdel _ _ Hu Ht).
    + clear Hr. destruct (ok_grant _ _ Hd _ _ Hr') as (g2 & Hg2 & _).
      assert (g' = g2) as -> by (eapply NoDup_keys_inj; [exact Hnd | exact Hg' | by apply Hinc]).
      exact (ok_deleted _ _ Hd _ _ _ _ _ Hr' Hl Hu Ht Hg2).
Qed.

Lemma saved_dead now plaintext rt d d' f :
  saveRefreshToken now plaintext rt d = Ok d' → f ≠ rt_FamilyID rt → family_dead d f → family_dead d' f.
Proof.
  unfold saveRefreshToken. intros Hs Hne Hdead. repeat case_match; try done. injection Hs as <-.
  intros h r'. cbn. intros [[<- <-]|[_ Hr']]%lookup_insert_Some; [by intros <- | by eapply Hdead].
Qed.

(** ** What a rotation and a first token do *)
Lemma rotate_ok w d now old new rt d' :
  db_ok w d → known w old rt → fresh (committed (CRotate old new rt) w) →
  RotateRefreshToken now old new rt d = Ok d' →
  db_ok (committed (CRotate old new rt) w) d' ∧ ∀ f, family_dead d f → family_dead d' f.
Proof.
  intros Hd [Hiss (g & Hg & Hb)] [Hf1 Hf2] Hrot. unfold RotateRefreshToken in Hrot.
  case_match; [done |]. destruct (od_tokens d !! hashRefreshToken old) as [r|] eqn:Hr; [| done].
  destruct (live r) eqn:Hl; [| done].
  assert (tr_family_id r = rt_FamilyID rt) as Hfam.
  { eapply NoDup_keys_inj; [by apply NoDup_cons in Hf1 as [_ Hf1]; exact Hf1 | by eapply ok_issued | done]. }
  set (d1 := d <|od_tokens := _|>) in Hrot.
  assert (Hs1 : shrinks d d1).
  { intros h r'. cbn. intros [[<- <-]|[? ?]]%lookup_insert_Some; [| by exists r'].
    exists r. by split; [| apply row_le_revoke]. }
  assert (Hd1 : db_ok w d1).
  { apply (shrinks_ok w d d1 (λ _, False)); [done | done | apply users_kept_refl | tauto]. }
  split.
  2:{ intros f Hf. eapply saved_dead; [exact Hrot | | by eapply shrinks_dead]. intros ->. cbn in Hf.
      eapply Hf; [exact Hr | done | by rewrite Hl]. }
  eapply (saved_ok w d1 now new _ g); try done; [by split; destruct Hb |  |].
  - intros h r'. cbn. intros [[<- <-]|[Hne Hr']]%lookup_insert_Some; [intros _ Hl'%live_iff; discriminate Hl' |].
    intros Hf Hl'. apply Hne. symmetry.
    eapply (ok_live _ _ Hd); [exact Hr' | exact Hr | done | by rewrite Hl | by rewrite Hf, Hfam].
  - cbn. intros u t Hu Ht. destruct (ok_grant _ _ Hd _ _ Hr) as (g' & Hg' & Hb').
    rewrite Hfam in Hg'. assert (g' = g) as -> by (eapply NoDup_keys_inj; [exact Hf2 | exact Hg' | exact Hg]).
    eapply (ok_deleted _ _ Hd); [exact Hr | by rewrite Hl | | exact Ht | by rewrite Hfam].
    rewrite <- Hu. f_equal. transitivity (g_user g); [apply Hb' | symmetry; apply Hb].
Qed.

Lemma save_ok w d now plaintext rt at_ d' :
  db_ok w d → fresh (committed (CSaveForGrant plaintext rt at_) w) →
  SaveRefreshTokenForGrant now plaintext rt at_ d = Ok d' →
  db_ok (committed (CSaveForGrant plaintext rt at_) w) d' ∧
  ∀ f, f ∈ (w_grants w).*1 → family_dead d f → family_dead d' f.
Proof.
  intros Hd [Hf1 Hf2] Hs. unfold SaveRefreshTokenForGrant, accountDeletedSince in Hs. cbn in Hf2.
  apply NoDup_cons in Hf2 as [Hnew Hf2].
  case_match; [done |]. destruct (od_users d !! rt_UserID rt) as [u0|] eqn:Hu0; [| done]. cbn in Hs.
  destruct (match us_account_deleted_at u0 with Some t => _ | None => _ end) eqn:Hdel; [done |].
  split; [| intros f Hf; eapply saved_dead; [exact Hs | congruence]].
  eapply (saved_ok w d now plaintext rt (grant_of rt at_)); try done; cbn.
  - intros x Hx. by right.
  - by apply NoDup_cons.
  - by left.
  - intros h r Hr Hf. destruct Hnew. rewrite <- Hf.
    destruct (ok_grant _ _ Hd _ _ Hr) as (g & Hg & _). by eapply elem_of_keys.
  - intros u t. rewrite Hu0. intros [= <-] Ht. rewrite Ht in Hdel. bool_to_Prop. lia.
Qed.

(** ** The users *)
Definition no_user : Z → Prop := λ _, False.

Lemma alter_kept (P : Z → Prop) U id (f : user_row → user_row) :
  (∀ u, P id ∨ us_account_deleted_at (f u) = us_account_deleted_at u) → users_kept P U (alter f id U).
Proof.
  intros Hf id' u Hu. destruct (decide (id = id')) as [->|Hne].
  - exists (f u). rewrite lookup_alter_eq, Hu. split; [done | apply Hf].
  - exists u. rewrite lookup_alter_ne by done. auto.
Qed.

Lemma users_kept_trans P U1 U2 U3 : users_kept P U1 U2 → users_kept P U2 U3 → users_kept P U1 U3.
Proof.
  intros H1 H2 id u (u2 & Hu2 & E2)%H1. destruct (H2 _ _ Hu2) as (u3 & ? & E3). exists u3.
  split; [done |]. destruct E2, E3; [tauto.. |]. right. congruence.
Qed.

Lemma ensure_user_kept newID tg username name d id d' :
  od_users d !! newID = None → EnsureUserByTelegramID newID tg username name d = Ok (id, d') →
  od_tokens d' = od_tokens d ∧ users_kept no_user (od_users d) (od_users d').
Proof.
  intros Hnew. unfold EnsureUserByTelegramID. case_match; [done |].
  set (d1 := insert_user _ _ _ _ d).
  assert (Hd1 : od_tokens d1 = od_tokens d ∧ users_kept no_user (od_users d) (od_users d1)).
  { subst d1. unfold insert_user. repeat case_match; split; try done; try apply users_kept_refl.
    all: intros i u Hu; exists u; split; [| auto]; apply lookup_insert_Some; right; split; [congruence | done]. }
  clearbody d1. destruct Hd1 as [Ht Hk].
  destruct (match user_with _ d1 with Some i => _ | None => _ end) as [i|]; [| done].
  intros [= <- <-]. case_match; [done |]. cbn. split; [done |].
  eapply users_kept_trans; [exact Hk |]. apply alter_kept. by right.
Qed.

Lemma shrinks_eq d d' : od_tokens d' = od_tokens d → shrinks d d'.
Proof. intros E h r'. rewrite E. by exists r'. Qed.

Lemma keeps_ok w d d' :
  db_ok w d → shrinks d d' → users_kept no_user (od_users d) (od_users d') → db_ok w d'.
Proof. intros. eapply shrinks_ok; [done.. | tauto]. Qed.

(** ** The store implements the protocol *)
Lemma store_implements w d now newID A (c : store_call A) a d' :
  db_ok w d → call_pre w c → od_users d !! newID = None → fresh (committed c w) →
  store_op now newID c d = Ok (a, d') →
  db_ok (committed c w) d' ∧ call_post (committed c w) c (Ok a) ∧
  ∀ f, f ∈ (w_grants w).*1 → family_dead d f → family_dead d' f.
Proof.
  intros Hd Hpre Hnew Hfresh Hop.
  destruct c as [t|o n f cl|o n rt|f why|f|tg|code ttl|tg u n|t rt at_]; cbn -[RotateRefreshToken SaveRefreshTokenForGrant] in *.
  - apply rbind_Ok in Hop as (r & Hr & [= <- <-]). unfold LookupRefreshToken in Hr. case_bool_decide; [done |].
    destruct (od_tokens d !! _) as [row|] eqn:Hrow; [| done]. injection Hr as <-.
    split_and!; [done | | done]. intros rt [= <-].
    split; [by eapply ok_issued | by eapply ok_grant].
  - apply rbind_Ok in Hop as (r & Hr & [= <- <-]). unfold LookupRefreshTokenByHashPair in Hr.
    destruct (od_tokens d !! _) as [row|] eqn:Hrow; [| done]. case_match; [| done]. injection Hr as <-.
    split_and!; [done | | done]. intros rt [= <-].
    split; [by eapply ok_issued | by eapply ok_grant].
  - apply rbind_Ok in Hop as (d2 & Hr & [= _ <-]).
    destruct (rotate_ok _ _ _ _ _ _ _ Hd Hpre Hfresh Hr) as [Hok Hdead].
    split_and!; [done | by left | auto].
  - injection Hop as <- <-. split_and!; [| done |].
    + eapply keeps_ok; [done | apply revoke_where_shrinks | apply users_kept_refl].
    + intros f' _. apply shrinks_dead, revoke_where_shrinks.
  - injection Hop as <- <-. done.
  - injection Hop as <- <-. done.
  - unfold ConsumeOAuthCode in Hop. repeat case_match; try done. injection Hop as <- <-.
    split_and!; [| done |].
    + eapply keeps_ok; [done | by apply shrinks_eq | apply users_kept_refl].
    + intros f' _. by apply shrinks_dead, shrinks_eq.
  - destruct (ensure_user_kept _ _ _ _ _ _ _ Hnew Hop) as [Ht Hk]. split_and!; [| done |].
    + eapply keeps_ok; [done | by apply shrinks_eq | done].
    + intros f' _. by apply shrinks_dead, shrinks_eq.
  - apply rbind_Ok in Hop as (d2 & Hr & [= _ <-]).
    destruct (save_ok _ _ _ _ _ _ _ Hd Hfresh Hr) as [Hok Hdead].
    split_and!; [done | by split; left | done].
Qed.
