(* ===== verification/OAuthSafety.v ===== *)
(** * What the token endpoint hands out

    The handlers keep to the protocol of [OAuthProps], so the invariant of the
    tables and the bound on what a response carries hold in every state the
    server reaches. *)

From S2P Require Import Prelude GoString Program Sha256 OAuthStore OAuth OAuthProps.

Lemma Forall_subset {A} (P : A → Prop) l k : l ⊆ k → Forall P k → Forall P l.
Proof. rewrite !Forall_forall. auto. Qed.

Section safety.
Context `{UnicodeTables} (cfg : Config).

(** ** Responses *)
Definition minted_for (w : world) (tok client : string) (tg : Z) (scopes : list string) : Prop :=
  ∃ c, (c, tok) ∈ w_minted w ∧ cl_ClientID c = client ∧ cl_TelegramID c = tg ∧ cl_Scopes c = scopes.

(** A token response is within one grant: its refresh token is of the grant's
    family, and its access token is for the grant's client and identity and has
    no other scopes than the granted. *)
Definition within (w : world) (r : token_response) (f : string) (g : grant) : Prop :=
  match r with
  | TokenJSON access refresh _ scopes =>
    (f, g) ∈ w_grants w ∧ (hashRefreshToken refresh, f) ∈ w_issued w ∧
    minted_for w access (g_client g) (g_telegram g) scopes ∧ scopes ⊆ g_scopes g
  | _ => True
  end.
Definition granted (w : world) (r : token_response) : Prop :=
  match r with TokenJSON _ _ _ _ => ∃ f g, within w r f g | _ => True end.

Lemma minted_for_mono w w' tok client tg scopes :
  world_le w w' → minted_for w tok client tg scopes → minted_for w' tok client tg scopes.
Proof. intros [_ _ Hm] (c & ? & ?). exists c. auto. Qed.

Lemma granted_mono w w' r : world_le w w' → granted w r → granted w' r.
Proof.
  intros Hw. destruct r; cbn; try done. intros (f & g & ? & ? & ? & ?). exists f, g.
  split_and!; [by apply Hw | by apply Hw | by eapply minted_for_mono | done].
Qed.

(** ** The pieces of the handlers *)

Lemma ResolveScopes_safe w tg :
  safe w (ResolveScopes cfg tg) (λ _ r, ∀ g s, r = Ok (g, s) → Forall word_ok s).
Proof.
  unfold ResolveScopes, isClientTier.
  case_bool_decide; [cbn; intros ? ? [= _ <-]; case_bool_decide; repeat constructor |].
  case_bool_decide; [cbn; intros ? ? [= _ <-]; repeat constructor |].
  cbn. split; [done |]. intros w' [t|e] _ _; cbn; [| done].
  intros ? ? [=]. case_match; simplify_eq; repeat constructor.
Qed.

Lemma still_valid_safe w bounded f tg : safe w (refreshGrantStillValid bounded f tg) (λ _ _, True).
Proof.
  unfold refreshGrantStillValid. case_match; [done |]. cbn. split; [done |].
  intros w' [[|]|e] _ _; cbn; try done. split; [done |]. by intros w2 [?|?] _ _.
Qed.

Lemma mint_safe w origin tg u groups scopes :
  safe w (mintAccessToken cfg origin tg u groups scopes)
    (λ w r, ∀ t, r = Ok t → minted_for w t (to_ClientID origin) tg scopes).
Proof.
  unfold mintAccessToken. destruct (profileFor cfg origin) as [p|]; [| done]. cbn.
  intros w' [t|e] _ Ha; cbn; [| done]. intros ? [= <-]. eexists. split; [by apply Ha | done].
Qed.

Definition is_error (r : token_response) : Prop :=
  match r with TokenError _ _ _ => True | _ => False end.
Lemma error_granted w r : is_error r → granted w r.
Proof. by destruct r. Qed.

Lemma regrant_safe w rt :
  safe w (regrant cfg rt) (λ w r,
    match r with
    | Ok (tok, scopes) => Forall word_ok scopes ∧ scopes ⊆ Fields (rt_Scope rt) ∧
                          minted_for w tok (rt_ClientID rt) (rt_TelegramID rt) scopes
    | Err resp => is_error resp
    end).
Proof.
  unfold regrant. eapply safe_then; [apply ResolveScopes_safe |].
  intros w1 [[groups scopes]|e] _ Hok; [| done]. specialize (Hok _ _ eq_refl).
  destruct (boundRefreshGrant groups scopes (rt_Scope rt)) as [groups' scopes'] eqn:Eb.
  assert (Forall word_ok scopes' ∧ scopes' ⊆ Fields (rt_Scope rt)) as [Hw Hsub].
  { unfold boundRefreshGrant in Eb. case_bool_decide; simplify_eq; [split; [done | by intros ? ?%elem_of_nil] |].
    split; [| by intros ? [? _]%list_elem_of_filter].
    eapply Forall_subset; [| exact Hok]. by intros ? [_ ?]%list_elem_of_filter. }
  eapply safe_then; [apply still_valid_safe |]. intros w2 [[|]|e] _ _; [| done..].
  eapply safe_then; [apply mint_safe |]. intros w3 [tok|[]] _ Hm; cbn; try done.
  split_and!; [done.. | by apply Hm].
Qed.

Lemma known_child w t rt : known w t rt → ∀ tok scopes ttl,
  scopes ⊆ Fields (rt_Scope rt) → minted_for w tok (rt_ClientID rt) (rt_TelegramID rt) scopes →
  granted w (TokenJSON tok t ttl scopes).
Proof.
  intros [Hi (g & Hg & [Hu Hc Ht Hr He Hs])] tok scopes ttl Hsub Hm. exists (rt_FamilyID rt), g.
  split_and!; [done.. | by rewrite <- Hc, <- Ht | by etrans].
Qed.

Lemma grace_safe w refreshTok reason at_ f client :
  safe w (attemptGraceRecovery cfg refreshTok reason at_ f client)
    (λ w r, ∀ resp, r = Some resp → granted w resp).
Proof.
  unfold attemptGraceRecovery. case_match; [done |]. cbn. intros w1 now _ _. case_match; [done |].
  cbn. split; [done |]. intros w2 [child|e] _ Hk; cbn; [| destruct e; cbn; by intros ? [= <-]].
  specialize (Hk _ eq_refl). intros w3 now' Hw3 _. case_match; [cbn; by intros ? [= <-] |].
  eapply safe_then; [apply regrant_safe |]. intros w4 [[tok scopes]|resp] Hw4 Hr; cbn; intros ? [= <-].
  - destruct Hr as (_ & Hsub & Hm). eapply known_child; [| done..].
    eapply known_mono; [exact Hw4 |]. by eapply known_mono.
  - by apply error_granted.
Qed.

Lemma reuse_safe w rt resp : is_error resp → safe w (reuse rt resp) granted.
Proof. intros Hr. cbn. split; [done |]. intros w' [n|e] _ _; [done | by apply error_granted]. Qed.

Lemma grace_or_safe w (p : handler (option token_response)) q :
  safe w p (λ w r, ∀ resp, r = Some resp → granted w resp) → (∀ w, safe w q granted) →
  safe w (let* g := p in match g with Some resp => Ret resp | None => q end)%prog granted.
Proof. intros Hp Hq. eapply safe_then; [exact Hp |]. intros w' [resp|] _ Hr; [by apply Hr | apply Hq]. Qed.

Lemma lost_race_safe w rt refreshTok client : safe w (lost_race cfg rt refreshTok client) granted.
Proof.
  assert (∀ w, safe w (reuse rt (invalid_grant "refresh token already used")) granted) as Hreuse.
  { intros. by apply reuse_safe. }
  unfold lost_race. cbn -[reuse]. split; [done |]. intros w' [re|[]] _ _; try done; try apply Hreuse.
  case_match; [| apply Hreuse]. apply grace_or_safe; [apply grace_safe | done].
Qed.

Lemma successor_scopes rt scopes : Forall word_ok scopes → Fields (rt_Scope (successor rt scopes)) = scopes.
Proof. apply Fields_Join. Qed.

Lemma rotate_safe w rt refreshTok client tok scopes :
  known w refreshTok rt → Forall word_ok scopes → scopes ⊆ Fields (rt_Scope rt) →
  minted_for w tok (rt_ClientID rt) (rt_TelegramID rt) scopes →
  safe w (rotate cfg rt refreshTok client tok scopes) granted.
Proof.
  intros Hk Hw Hsub Hm. unfold rotate. cbn -[lost_race].
  assert (known w refreshTok (successor rt scopes)) as Hs.
  { destruct Hk as [Hi (g & Hg & [])]. split; [done |]. exists g. split; [done |].
    split; try done. rewrite successor_scopes by done. by etrans. }
  split; [done |]. intros w' [[]|[]] Hw' Hpost; try done; [| apply lost_race_safe].
  apply (known_child _ _ (successor rt scopes)); [| by rewrite successor_scopes | by eapply minted_for_mono].
  destruct (known_mono _ w' _ _ Hw' Hs) as [_ Hg]. split; [by apply Hpost | done].
Qed.

Lemma refresh_safe w refreshTok client : safe w (handleTokenRefresh cfg refreshTok client) granted.
Proof.
  unfold handleTokenRefresh. do 2 (case_match; [done |]). cbn -[reuse attemptGraceRecovery regrant rotate].
  intros w1 cimd _ _. assert (∀ p, safe w1 p granted →
    safe w1 (match cimd with Some (Err e) => Ret (writeCIMDTokenError e) | _ => p end) granted) as Hc.
  { intros p Hp. destruct cimd as [[?|[]]|]; done. }
  apply Hc. clear Hc. split; [done |]. intros w2 [rt|[]] _ Hk; try done. specialize (Hk _ eq_refl).
  case_match.
  - apply grace_or_safe; [apply grace_safe |]. intros w3. by apply reuse_safe.
  - cbn -[regrant rotate]. intros w3 now Hw3 _. do 2 (case_match; [done |]).
    eapply safe_then; [apply regrant_safe |]. intros w4 [[tok scopes]|resp] Hw4 Hr; [| by apply error_granted].
    destruct Hr as (? & ? & ?). apply rotate_safe; try done.
    eapply known_mono; [exact Hw4 |]. by eapply known_mono.
Qed.

Lemma revoke_safe w token client : safe w (handleRevoke token client) granted.
Proof.
  unfold handleRevoke. case_match; [done |]. cbn. split; [done |].
  intros w1 [rt|[]] _ _; try done. cbn. case_match; [done |]. split; [done |]. by intros w2 [n|e].
Qed.

Lemma narrowGrant_subset scopes requested : narrowGrant scopes requested ⊆ scopes.
Proof.
  unfold narrowGrant. case_bool_decide; [done |]. by intros x [_ Hx]%list_elem_of_filter.
Qed.

Lemma code_grant_safe w entry client :
  safe w (code_grant cfg entry client) (λ w r, ∀ tok scopes, r = Ok (tok, scopes) →
    Forall word_ok scopes ∧ minted_for w tok client (oc_TelegramID entry) scopes).
Proof.
  unfold code_grant. eapply safe_then; [apply ResolveScopes_safe |].
  intros w1 [[groups scopes]|e] _ Hok; [| done]. specialize (Hok _ _ eq_refl).
  eapply safe_then; [apply mint_safe |]. intros w2 [tok|[]] _ Hm; cbn; try done.
  intros ? ? [= <- <-]. split; [| by apply Hm]. eapply Forall_subset; [apply narrowGrant_subset | done].
Qed.

Lemma issue_safe w at_ family uid name entry client scopes :
  safe w (issueRefreshToken cfg at_ (first_token family uid name entry client scopes))
    (λ w r, ∀ t, r = Ok t → (hashRefreshToken t, family) ∈ w_issued w ∧
       ∃ exp, (family, grant_of ((first_token family uid name entry client scopes) <|rt_ExpiresAt := exp|>) at_)
              ∈ w_grants w).
Proof.
  cbn. intros w1 plaintext _ _ w2 now _ _. split; [done |]. intros w3 [[]|e] _ Hp; cbn; [| done].
  intros ? [= <-]. destruct (Hp eq_refl) as [Hi Hg]. split; [done |]. by eexists.
Qed.

Lemma redeem_safe w entry client redirect verifier :
  safe w (redeem cfg entry client redirect verifier) granted.
Proof.
  unfold redeem. case_match; [done |]. eapply safe_then; [apply code_grant_safe |].
  intros w1 [[tok scopes]|desc] _ Hr; [| done]. destruct (Hr _ _ eq_refl) as [Hok Hm].
  cbn -[issueRefreshToken]. split; [done |]. intros w2 [uid|e] Hw2 _; [| done].
  cbn -[issueRefreshToken]. intros w3 name Hw3 _ w4 family Hw4 _.
  eapply safe_then; [apply issue_safe |]. intros w5 [t|[]] Hw5 Ht; try done.
  destruct (Ht _ eq_refl) as (Hi & exp & Hg). do 2 eexists. split_and!; [exact Hg | exact Hi | |].
  - eapply minted_for_mono, Hm. do 3 (etrans; [eassumption |]). eassumption.
  - change (scopes ⊆ Fields (Join scopes " ")). by rewrite Fields_Join.
Qed.

Lemma exchange_safe w code client redirect verifier :
  safe w (handleTokenAuthCode cfg code client redirect verifier) granted.
Proof.
  unfold handleTokenAuthCode. do 3 (case_match; [done |]). cbn -[redeem]. intros w1 cimd _ _.
  assert (∀ (k : option cimd_error → handler token_response), (∀ w o, safe w (k o) granted) →
    safe w1 (bind (cimd_redirect_refused cimd redirect) k) granted) as Hc.
  { intros k Hk. destruct cimd as [[uris|e]|]; cbn; try apply Hk.
    case_match; cbn; [apply Hk |]. intros. apply Hk. }
  apply Hc. intros w2 [e|]; [by destruct e |]. cbn -[redeem]. split; [done |].
  intros w3 [entry|[]] _ _; try done. apply redeem_safe.
Qed.

Lemma connect_safe w code client redirect verifier :
  safe w (ExchangeConnect cfg code verifier client redirect) (λ _ _, True).
Proof.
  unfold ExchangeConnect. do 2 (case_match; [done |]). case_match; [done |]. cbn -[code_grant].
  split; [done |]. intros w1 [entry|[]] _ _; try done. case_match; [done |].
  eapply safe_then; [apply code_grant_safe |]. by intros w2 [[tok scopes]|desc].
Qed.

(** ** The server *)
Record server := {
  s_db : odb;
  s_requests : list (handler token_response);
  s_world : world;
}.

(** The requests; the connect page's exchange answers no token response. *)
Inductive request : handler token_response → Prop :=
| request_token f : request (handleToken cfg f)
| request_revoke token client : request (handleRevoke token client)
| request_connect code verifier client redirect :
    request (bind (ExchangeConnect cfg code verifier client redirect) (λ _, Ret RevokeSuccess)).

(** Everything else that writes the tables: sign-ins issue codes, codes expire
    or are evicted, rows of users come and change, expired tokens are swept,
    owners revoke a client and accounts are deleted. *)
Inductive outside : odb → odb → Prop :=
| outside_code c u at_ d d' : InsertOAuthCode c u at_ d = Ok d' → outside d d'
| outside_codes codes d : codes ⊆ od_codes d → outside d (d <|od_codes := codes|>)
| outside_users users d : users_kept no_user (od_users d) users → outside d (d <|od_users := users|>)
| outside_sweep now d : outside d (SweepExpiredRefreshTokens now d).2
| outside_owner now u client n d d' : RevokeClientGrants now u client d = Ok (n, d') → outside d d'
| outside_delete now u d : outside d (HardDeleteAccount now u d).

Inductive step (s : server) : server → Prop :=
| step_outside d : outside (s_db s) d → step s (Build_server d (s_requests s) (s_world s))
| step_start p : request p → step s (Build_server (s_db s) (s_requests s ++ [p]) (s_world s))
| step_call i A (c : store_call A) k now newID a d :
    s_requests s !! i = Some (Call c k) → od_users (s_db s) !! newID = None →
    store_op now newID c (s_db s) = Ok (a, d) →
    step s (Build_server d (<[i := k (Ok a)]> (s_requests s)) (committed c (s_world s)))
| step_error i A (c : store_call A) k now newID e :
    s_requests s !! i = Some (Call c k) → store_op now newID c (s_db s) = Err e →
    step s (Build_server (s_db s) (<[i := k (Err e)]> (s_requests s)) (s_world s))
| step_lost i A (c : store_call A) k now newID a d what :     (** committed, but the answer was lost *)
    s_requests s !! i = Some (Call c k) → od_users (s_db s) !! newID = None →
    store_op now newID c (s_db s) = Ok (a, d) →
    step s (Build_server d (<[i := k (Err (ErrStore what))]> (s_requests s)) (committed c (s_world s)))
| step_fail i A (c : store_call A) k what :                    (** never reached the database *)
    s_requests s !! i = Some (Call c k) →
    step s (Build_server (s_db s) (<[i := k (Err (ErrStore what))]> (s_requests s)) (s_world s))
| step_query i A (q : oauth_query A) k x :
    s_requests s !! i = Some (Query q k) →
    step s (Build_server (s_db s) (<[i := k x]> (s_requests s)) (asked q x (s_world s)))
| step_drop i : step s (Build_server (s_db s) (delete i (s_requests s)) (s_world s)).

Definition empty_world : world := {| w_issued := []; w_grants := []; w_minted := [] |}.
(** A server with no refresh token yet; users and codes may be there. *)
Definition start (users : gmap Z user_row) (codes : gmap string OAuthCode) : server :=
  {| s_db := {| od_tokens := ∅; od_codes := codes; od_users := users |}; s_requests := [];
     s_world := empty_world |}.
Definition reachable (s : server) : Prop := ∃ users codes, rtc step (start users codes) s.

(** ** The invariant *)
Record server_ok (s : server) : Prop := {
  so_db : db_ok (s_world s) (s_db s);
  so_requests : Forall (λ p, safe (s_world s) p granted) (s_requests s);
}.

Lemma request_safe w p : request p → safe w p granted.
Proof.
  intros [f|token client|code verifier client redirect].
  - unfold handleToken. case_match; [apply exchange_safe |]. case_match; [apply refresh_safe | done].
  - apply revoke_safe.
  - eapply safe_then; [apply connect_safe | done].
Qed.

Lemma start_ok users codes : server_ok (start users codes).
Proof. split; [| constructor]. split; cbn; try done. by intros ? ? ?%elem_of_nil. Qed.

Lemma sweep_shrinks now d : shrinks d (SweepExpiredRefreshTokens now d).2.
Proof. apply (filter_shrinks d (od_users d) (od_codes d)). Qed.

Lemma delete_shrinks now u d : shrinks d (HardDeleteAccount now u d).
Proof.
  intros h r'. cbn. rewrite !lookup_fmap. destruct (od_tokens d !! h) as [r|]; [| done]. cbn.
  intros [= <-]. exists r. split; [done |]. repeat case_match; try done; by split; try (intros Hl%live_iff; discriminate Hl).
Qed.

Lemma outside_shrinks d d' : outside d d' → shrinks d d'.
Proof.
  intros [c u at_ d0 d1 Hi|codes d0 _|users d0 _|now d0|now u cl n d0 d1 Ho|now u d0].
  - apply shrinks_eq. unfold InsertOAuthCode in Hi. do 2 (case_match; [done |]).
    apply rbind_Ok in Hi as ([|] & _ & Hi); [done |]. case_match; [done |]. by injection Hi as <-.
  - by apply shrinks_eq.
  - by apply shrinks_eq.
  - apply sweep_shrinks.
  - unfold RevokeClientGrants in Ho. case_match; [done |]. injection Ho as <- <-. apply revoke_where_shrinks.
  - apply delete_shrinks.
Qed.

Lemma delete_ok w now u d : db_ok w d → db_ok w (HardDeleteAccount now u d).
Proof.
  intros Hd. apply (shrinks_ok w d _ (λ id, id = u)); [done | apply delete_shrinks | |].
  - cbn. intros id x Hx. destruct (decide (u = id)) as [->|Hne].
    + exists (clear_identity now x). rewrite lookup_alter_eq, Hx. auto.
    + exists x. rewrite lookup_alter_ne by done. auto.
  - intros h r. cbn. rewrite !lookup_fmap. destruct (od_tokens d !! h) as [r0|]; [| done]. cbn.
    intros [= <-]. destruct (live r0) eqn:El; repeat case_bool_decide; cbn; try done.
    all: intros Hl%live_iff Hu; try discriminate Hl; cbn in *; try congruence.
    all: by apply live_iff in Hl; rewrite El in Hl.
Qed.

Lemma outside_ok w d d' : db_ok w d → outside d d' → db_ok w d'.
Proof.
  intros Hd Ho. pose proof (outside_shrinks _ _ Ho) as Hs.
  destruct Ho as [c u at_ d0 d1 Hi|codes d0 _|users d0 Hk|now d0|now u cl n d0 d1 Ho|now u d0];
    [| | | | |by apply delete_ok]; (eapply keeps_ok; [exact Hd | exact Hs |]); try apply users_kept_refl; [| done |].
  - unfold InsertOAuthCode in Hi. do 2 (case_match; [done |]).
    apply rbind_Ok in Hi as ([|] & _ & Hi); [done |]. case_match; [done |]. injection Hi as <-.
    apply users_kept_refl.
  - unfold RevokeClientGrants in Ho. case_match; [done |]. injection Ho as <- <-. apply users_kept_refl.
Qed.

Lemma committed_le A (c : store_call A) w : world_le w (committed c w).
Proof. destruct c; split; cbn; try done; by right. Qed.
Lemma asked_le A (q : oauth_query A) x w : world_le w (asked q x w).
Proof. destruct q; try done. destruct x; [| done]. split; cbn; try done. by right. Qed.
Lemma asked_ans A (q : oauth_query A) x w : query_ans (asked q x w) q x.
Proof. destruct q; try done. destruct x; cbn; [| done]. intros ? [= <-]. by left. Qed.

Lemma error_post A (c : store_call A) w e : call_post w c (Err e).
Proof. destruct c; cbn; naive_solver. Qed.

Lemma fresh_committed A (c : store_call A) w : fresh (committed c w) → fresh w.
Proof. intros [H1 H2]. destruct c; cbn in *; try done; split; try apply NoDup_cons in H1; try apply NoDup_cons in H2; naive_solver. Qed.
Lemma fresh_asked A (q : oauth_query A) x w : fresh (asked q x w) → fresh w.
Proof. destruct q; try done. by destruct x. Qed.

Lemma fresh_step s s' : step s s' → fresh (s_world s') → fresh (s_world s).
Proof. intros []; cbn; try done; [apply fresh_committed.. | apply fresh_asked]. Qed.

Lemma requests_le w w' l :
  world_le w w' → Forall (λ p, safe w p granted) l → Forall (λ p, safe w' p granted) l.
Proof.
  intros Hw Hl. eapply Forall_impl; [exact Hl |]. intros p. apply safe_weaken; [| done]. intros w1 w2 r. apply granted_mono.
Qed.

(** A family without a live token keeps being one. *)
Definition dead_kept (s s' : server) : Prop :=
  ∀ f, f ∈ (w_grants (s_world s)).*1 → family_dead (s_db s) f →
       f ∈ (w_grants (s_world s')).*1 ∧ family_dead (s_db s') f.

Lemma dead_kept_grows s s' :
  world_le (s_world s) (s_world s') →
  (∀ f, f ∈ (w_grants (s_world s)).*1 → family_dead (s_db s) f → family_dead (s_db s') f) →
  dead_kept s s'.
Proof.
  intros Hle Hd f Hf Hfd. split; [| by apply Hd].
  apply elem_of_map in Hf as ([f' g] & -> & Hf). apply Hle in Hf. by eapply elem_of_keys.
Qed.

(** A request goes on, in the same world or a later one. *)
Lemma answered_ok s i p d w :
  server_ok s → world_le (s_world s) w → db_ok w d → safe w p granted →
  server_ok (Build_server d (<[i := p]> (s_requests s)) w).
Proof.
  intros [_ Hp] Hle Hd Hs. split; [done |]. apply Forall_insert; [by eapply requests_le | done].
Qed.

Lemma request_at s i p : server_ok s → s_requests s !! i = Some p → safe (s_world s) p granted.
Proof. intros [_ Hp] Hi. by eapply Forall_lookup in Hp. Qed.

(** A call that committed, whether its answer arrived or not. *)
Lemma commit_ok s i A (c : store_call A) k now newID a d r :
  server_ok s → fresh (committed c (s_world s)) → s_requests s !! i = Some (Call c k) →
  od_users (s_db s) !! newID = None → store_op now newID c (s_db s) = Ok (a, d) →
  r = Ok a ∨ (∃ e, r = Err e) →
  let s' := Build_server d (<[i := k r]> (s_requests s)) (committed c (s_world s)) in
  server_ok s' ∧ dead_kept s s'.
Proof.
  intros Hok Hfresh Hi Hnew Hop Hr. destruct (request_at _ _ _ Hok Hi) as [Hpre Hk].
  destruct (store_implements _ _ _ _ _ _ _ _ (so_db _ Hok) Hpre Hnew Hfresh Hop) as (Hd' & Hpost & Hdead).
  pose proof (committed_le _ c (s_world s)) as Hle. split; [| by apply dead_kept_grows].
  apply answered_ok; [done.. |]. apply Hk; [done |].
  destruct Hr as [->|[e ->]]; [done | apply error_post].
Qed.

Lemma step_ok s s' :
  server_ok s → fresh (s_world s') → step s s' → server_ok s' ∧ dead_kept s s'.
Proof.
  intros Hok Hfresh Hstep. pose proof Hok as [Hd Hp].
  destruct Hstep as [d Ho|p Hr|i A c k now newID a d Hi Hnew Hop|i A c k now newID e Hi Hop
    |i A c k now newID a d what Hi Hnew Hop|i A c k what Hi|i A q k x Hi|i].
  - split; [split; [by eapply outside_ok | done] |]. apply dead_kept_grows; [done |].
    intros f _. by apply shrinks_dead, outside_shrinks.
  - split; [| by intros f Hf Hfd]. split; [done |]. apply Forall_app. split; [done |].
    by repeat constructor; apply request_safe.
  - eapply commit_ok; eauto.
  - destruct (request_at _ _ _ Hok Hi) as [_ Hk]. split; [| by intros f Hf Hfd].
    apply answered_ok; [done.. |]. apply Hk; [reflexivity | apply error_post].
  - eapply commit_ok; eauto.
  - destruct (request_at _ _ _ Hok Hi) as [_ Hk]. split; [| by intros f Hf Hfd].
    apply answered_ok; [done.. |]. apply Hk; [reflexivity | apply error_post].
  - pose proof (request_at _ _ _ Hok Hi) as Hk. pose proof (asked_le _ q x (s_world s)) as Hle.
    split; [| by apply dead_kept_grows]. apply answered_ok; [done.. | |].
    + destruct q; try done. destruct x; [| done]. by destruct Hd.
    + apply Hk; [done | apply asked_ans].
  - split; [| by intros f Hf Hfd]. split; [done |]. by apply Forall_delete.
Qed.

Lemma steps_ok s s' :
  server_ok s → rtc step s s' → fresh (s_world s') → server_ok s' ∧ dead_kept s s'.
Proof.
  intros Hok. revert s'. refine (rtc_ind_r (λ s', fresh (s_world s') → server_ok s' ∧ dead_kept s s') s _ _).
  - done.
  - intros s1 s2 _ H12 IH Hf. destruct (IH (fresh_step _ _ H12 Hf)) as [Hok1 Hd1].
    destruct (step_ok _ _ Hok1 Hf H12) as [Hok2 Hd2]. split; [done |].
    intros f Hg Hdead. destruct (Hd1 f Hg Hdead) as [Hg1 Hdead1]. by apply Hd2.
Qed.

Lemma fresh_steps s s' : rtc step s s' → fresh (s_world s') → fresh (s_world s).
Proof. induction 1 as [|s1 s2 s3 H12 _ IH]; [done |]. intros Hf. eapply fresh_step; [exact H12 | auto]. Qed.

Lemma reachable_ok s : reachable s → fresh (s_world s) → server_ok s.
Proof. intros (users & codes & Hs) Hf. by eapply steps_ok; [apply start_ok | |]. Qed.
End safety.
