(* ===== verification/OAuthTheorems.v ===== *)
(** * The theorems on the token endpoint

    What responses carry, what the token table looks like in every reachable
    state, how a replayed token is answered, and what a code exchange checked. *)

From S2P Require Import Prelude GoString Program Sha256 OAuthStore OAuth OAuthProps OAuthSafety.

(** ** The grants an owner sees *)
Lemma grant_add_dom acc r : dom (grant_add acc r) = {[tr_client_id r]} ∪ dom acc.
Proof.
  unfold grant_add. destruct (default _ _) as [[name last] fams]. destruct (if _ <? _ then _ else _).
  apply dom_insert_L.
Qed.

Lemma grants_dom acc rows : dom (foldl grant_add acc rows) = list_to_set (tr_client_id <$> rows) ∪ dom acc.
Proof.
  revert acc. induction rows as [|r rows IH]; intros acc; cbn; [set_solver |].
  rewrite IH, grant_add_dom. set_solver.
Qed.

Lemma elem_of_listed now u d c :
  c ∈ map cg_ClientID (ListActiveClientGrants now u d) ↔
  ∃ h r, od_tokens d !! h = Some r ∧ grants_listed now u r = true ∧ tr_client_id r = c.
Proof.
  unfold ListActiveClientGrants. set (rows := filter _ _).
  transitivity (c ∈ dom (foldl grant_add ∅ rows)).
  - rewrite elem_of_map, elem_of_dom. split.
    + intros (g & -> & Hg). rewrite (merge_sort_Permutation _ _) in Hg.
      apply elem_of_map in Hg as ([k v] & -> & Hkv%elem_of_map_to_list). by eexists.
    + intros [v Hv%elem_of_map_to_list]. eexists. split; [| rewrite (merge_sort_Permutation _ _);
        apply elem_of_map; eexists; split; [reflexivity | exact Hv]]. done.
  - rewrite grants_dom, dom_empty_L, (right_id_L ∅ (∪)), elem_of_list_to_set. subst rows. split.
    + intros (r & -> & [Hl Hr]%list_elem_of_filter)%elem_of_map.
      apply elem_of_map in Hr as ([h r'] & -> & Hr%elem_of_map_to_list). exists h, r'.
      split_and!; [done | by apply Is_true_true | done].
    + intros (h & r & Hr%elem_of_map_to_list & Hl & <-). apply elem_of_map. exists r. split; [done |].
      apply list_elem_of_filter. split; [by apply Is_true_true |]. apply elem_of_map. by exists (h, r).
Qed.

(** Once an owner has revoked a client, the client is not listed any more,
    and the other clients are listed as before. *)
Theorem owner_revocation now now' u client n d d' :
  RevokeClientGrants now u client d = Ok (n, d') → now ≤ now' →
  (client ∉ map cg_ClientID (ListActiveClientGrants now' u d')) ∧
  ∀ c, c ≠ client →
    (c ∈ map cg_ClientID (ListActiveClientGrants now' u d')) ↔
    (c ∈ map cg_ClientID (ListActiveClientGrants now' u d)).
Proof.
  unfold RevokeClientGrants. intros Hrev Hnow. case_match; [done |]. injection Hrev as _ <-.
  set (p := client_row now u client). assert (Hlook : ∀ h r, od_tokens (revoke_where p now RefreshRevokedByOwner d).2 !! h = Some r ↔
    ∃ r0, od_tokens d !! h = Some r0 ∧ r = if p r0 && live r0 then revoke_row now RefreshRevokedByOwner r0 else r0).
  { intros h r. cbn. by rewrite lookup_fmap, fmap_Some. }
  setoid_rewrite elem_of_listed. setoid_rewrite Hlook. split.
  - intros (h & r & (r0 & Hr0 & ->) & Hl & Hc). unfold grants_listed in Hl.
    destruct (p r0 && live r0) eqn:E; [cbn in Hl; by rewrite andb_false_r in Hl |].
    unfold p, client_row in E. bool_to_Prop. subst. rewrite !bool_decide_true in E by done.
    rewrite (proj2 (Z.ltb_lt _ _)) in E by lia. by destruct (live r0).
  - intros c Hne. split.
    + intros (h & r & (r0 & Hr0 & ->) & Hl & Hc). exists h, r0.
      unfold grants_listed in Hl. destruct (p r0 && live r0); [| done]. cbn in Hl. by rewrite andb_false_r in Hl.
    + intros (h & r & Hr & Hl & Hc). exists h, r. split; [| done]. exists r. split; [done |].
      unfold p, client_row. rewrite Hc, (bool_decide_false (c = client)) by done. by rewrite !andb_false_r.
Qed.

Section theorems.
Context `{UnicodeTables} (cfg : Config).

(** C20: however requests, account deletions, revocations and sweeps interleave,
    a token response is within one grant: its access token was minted for the
    grant's client and identity and for no scope the grant does not have, and
    its refresh token is of the grant's family and, while stored, expires when
    the grant does and names the grant's user. *)
Theorem refresh_never_widens s i access refresh ttl scopes :
  reachable cfg s → fresh (s_world s) →
  s_requests s !! i = Some (Ret (TokenJSON access refresh ttl scopes)) →
  ∃ f g, within (s_world s) (TokenJSON access refresh ttl scopes) f g ∧
    ∀ r, od_tokens (s_db s) !! hashRefreshToken refresh = Some r →
      tr_family_id r = f ∧ tr_expires_at r = g_expires g ∧ tr_user_id r = g_user g.
Proof.
  intros Hr Hf Hi. pose proof (reachable_ok cfg _ Hr Hf) as Hok.
  destruct (request_at _ _ _ Hok Hi) as (f & g & Hw). exists f, g. split; [done |].
  intros r Hrow. destruct Hw as (Hg & Hiss & _). destruct Hf as [Hf1 Hf2].
  assert (tr_family_id r = f) as <-
    by (eapply NoDup_keys_inj; [exact Hf1 | by eapply ok_issued, Hrow; apply Hok | done]).
  destruct (ok_grant _ _ (so_db _ Hok) _ _ Hrow) as (g' & Hg' & Hb).
  assert (g' = g) as -> by (eapply NoDup_keys_inj; [exact Hf2 | done..]). split_and!; [done | apply Hb..].
Qed.

(** C21: in every reachable state the stored tokens of a family all carry the
    user, client, identity, redirect URI and expiry of its grant and no scope
    outside it, and at most one of them is live. *)
Theorem one_live_token s :
  reachable cfg s → fresh (s_world s) →
  (∀ h r, od_tokens (s_db s) !! h = Some r →
     ∃ g, (tr_family_id r, g) ∈ w_grants (s_world s) ∧ belongs g (token_from r)) ∧
  (∀ h h' r r', od_tokens (s_db s) !! h = Some r → od_tokens (s_db s) !! h' = Some r' →
     tr_family_id r = tr_family_id r' → live r → live r' → h = h').
Proof.
  intros Hr Hf. destruct (so_db _ (reachable_ok cfg _ Hr Hf)). split; [done |]. eauto.
Qed.

(** C22: a revoked family never has a live token again, whatever requests were
    already in flight. *)
Theorem revocation_is_final s now f reason s' :
  reachable cfg s → f ∈ (w_grants (s_world s)).*1 →
  rtc (step cfg) (Build_server (RevokeRefreshTokenFamily now f reason (s_db s)).2 (s_requests s) (s_world s)) s' →
  fresh (s_world s') → family_dead (s_db s') f.
Proof.
  intros Hr Hf Hs Hfresh'. pose proof (fresh_steps _ _ _ Hs Hfresh') as Hfresh. pose proof (reachable_ok cfg _ Hr Hfresh) as [Hd Hp].
  match type of Hs with rtc _ ?s1 _ => assert (server_ok s1) as Hok end.
  { split; [| done]. eapply keeps_ok; [done | apply revoke_where_shrinks | apply users_kept_refl]. }
  destruct (steps_ok cfg _ s' Hok Hs Hfresh') as [_ Hk].
  apply Hk; [done |]. intros h r Hrow Hfam. eapply revoke_where_dead; [exact Hrow |]. cbn.
  by apply bool_decide_eq_true.
Qed.

(** C23: a live token of a user whose account was deleted descends from a grant
    whose code was issued after the deletion. *)
Theorem no_token_after_deletion s h r u t :
  reachable cfg s → fresh (s_world s) →
  od_tokens (s_db s) !! h = Some r → live r →
  od_users (s_db s) !! tr_user_id r = Some u → us_account_deleted_at u = Some t →
  ∃ g, (tr_family_id r, g) ∈ w_grants (s_world s) ∧ t < g_issued g.
Proof.
  intros Hr Hf Hrow Hl Hu Ht. pose proof (so_db _ (reachable_ok cfg _ Hr Hf)) as Hd.
  destruct (ok_grant _ _ Hd _ _ Hrow) as (g & Hg & _). exists g. split; [done |].
  by eapply ok_deleted.
Qed.

(** ** Replays *)
Abbreviation trace := (list (obs oauth_error store_call oauth_query)).

(** Whether the replay of a token superseded at [at_] may be answered with its
    successor, as far as the clock the handler read tells. *)
Definition in_grace (tr : trace) (rt : RefreshToken) : Prop :=
  rt_RevokedReason rt = "rotated" ∧
  ∃ now, OQuery QClock now ∈ tr ∧ time_sub now (rt_RevokedAt rt) < rotationGraceWindow.

(** What the lookups of a token answered, and the families a request revoked. *)
Definition lookup_answer {A} (c : store_call A) : result oauth_error A → option (result oauth_error RefreshToken) :=
  match c in store_call A return result oauth_error A → _ with CLookup _ => Some | _ => λ _, None end.
Definition lookups (tr : trace) : list (result oauth_error RefreshToken) :=
  omap (λ o, match o with OCall c r => lookup_answer c r | OQuery _ _ => None end) tr.
Definition revoked_family {A} (c : store_call A) : option (string * string) :=
  match c with CRevokeFamily f why => Some (f, why) | _ => None end.
Definition revocations (tr : trace) : list (string * string) :=
  omap (λ o, match o with OCall c _ => revoked_family c | OQuery _ _ => None end) tr.

(** The row the request found its token in: its first lookup, the last of the
    trace. *)
Definition found (tr : trace) (rt : RefreshToken) : Prop := last (lookups tr) = Some (Ok rt).

(** Neither a lookup nor a revocation. *)
Definition quiet (l : trace) : Prop := revocations l = [] ∧ lookups l = [].
Lemma quiet_app l k : quiet l → quiet k → quiet (l ++ k).
Proof. unfold quiet, revocations, lookups. rewrite !omap_app. by intros [-> ->] [-> ->]. Qed.
Lemma revocations_app l k : quiet l → revocations (l ++ k) = revocations k.
Proof. unfold quiet, revocations. rewrite omap_app. by intros [-> _]. Qed.

Lemma found_app l tr rt : lookups tr ≠ [] → found (l ++ tr) rt → found tr rt.
Proof.
  unfold found, lookups. rewrite omap_app. intros Hne. rewrite last_app. by destruct (last _) eqn:E; [|apply last_None in E].
Qed.

(** Runs a program to its results, whatever it is answered. *)
Ltac outcomes_steps :=
  repeat match goal with
  | |- outcomes _ _ (bind _ _) => apply outcomes_bind
  | |- outcomes _ _ (bind_ok _ _) => unfold bind_ok
  | |- outcomes _ _ (Ret _) => cbn [outcomes]
  | |- outcomes _ _ (ok _) => cbn [outcomes ok]
  | |- outcomes _ _ (fail _) => cbn [outcomes fail]
  | |- outcomes _ _ (invoke _) => cbn [outcomes invoke]; intros ?
  | |- outcomes _ _ (ask _) => cbn [outcomes ask]; intros ?
  | |- outcomes _ _ (match ?x with _ => _ end) => destruct x eqn:?
  end.

Lemma regrant_outcomes rt (Φ : trace → result token_response (string * list string) → Prop) tr :
  (∀ l r, quiet l → match r with Ok _ => True | Err resp => is_error resp end → Φ (l ++ tr) r) →
  outcomes Φ tr (regrant cfg rt).
Proof.
  intros HΦ. apply outcomes_mono with (Φ := λ tr' r, ∃ l, tr' = l ++ tr ∧ quiet l ∧
    match r with Ok _ => True | Err resp => is_error resp end).
  { intros l r (l' & El & Hl & Hr). apply app_inv_tail in El as ->. by apply HΦ. }
  unfold regrant, ResolveScopes, isClientTier, refreshGrantStillValid, mintAccessToken.
  outcomes_steps; first
    [ by exists [] | by eexists [_] | by eexists [_; _] | by eexists [_; _; _] | by eexists [_; _; _; _] ].
Qed.

Lemma reuse_outcomes rt resp (Φ : trace → token_response → Prop) tr :
  is_error resp →
  (∀ x r, is_error r → Φ (OCall (CRevokeFamily (rt_FamilyID rt) "reuse_detected") x :: tr) r) →
  outcomes Φ tr (reuse rt resp).
Proof. intros Hr HΦ x. by destruct x; apply HΦ. Qed.

(** A recovery that was tried: inside the window, revoking nothing, and
    answering an error or the successor the store confirmed. *)
Definition recovered (tr : trace) (refreshTok clientID : string) (rt : RefreshToken) (resp : token_response) : Prop :=
  is_error resp ∨
  ∃ child access scopes,
    OCall (CLookupPair refreshTok (deriveSuccessorRefreshToken (JWTSecret cfg) refreshTok)
             (rt_FamilyID rt) clientID) (Ok child) ∈ tr ∧
    resp = TokenJSON access (deriveSuccessorRefreshToken (JWTSecret cfg) refreshTok) (expires_in cfg) scopes.

Definition past_grace (tr : trace) (rt : RefreshToken) : Prop :=
  rt_RevokedReason rt ≠ "rotated" ∨
  ∃ now, OQuery QClock now ∈ tr ∧ rotationGraceWindow ≤ time_sub now (rt_RevokedAt rt).

Lemma grace_outcomes rt refreshTok clientID (Φ : trace → option token_response → Prop) tr :
  (∀ l resp, quiet l → in_grace (l ++ tr) rt → recovered (l ++ tr) refreshTok clientID rt resp →
     Φ (l ++ tr) (Some resp)) →
  (∀ l, quiet l → past_grace (l ++ tr) rt → Φ (l ++ tr) None) →
  outcomes Φ tr (attemptGraceRecovery cfg refreshTok (rt_RevokedReason rt) (rt_RevokedAt rt)
                   (rt_FamilyID rt) clientID).
Proof.
  intros Hsome Hnone. unfold attemptGraceRecovery. case_match eqn:Er; bool_to_Prop.
  { apply (Hnone []); [done | by left]. }
  cbn. intros now. case_match eqn:Ew; bool_to_Prop.
  { apply (Hnone [_]); [done | right; exists now; split; [by left | done]]. }
  assert (∀ l resp, quiet l → recovered (l ++ OQuery QClock now :: tr) refreshTok clientID rt resp →
    Φ (l ++ OQuery QClock now :: tr) (Some resp)) as Hin.
  { intros l resp Hl Hr. specialize (Hsome (l ++ [OQuery QClock now]) resp).
    rewrite <- (assoc_L (++)) in Hsome. apply Hsome; [by apply quiet_app | | done].
    split; [done |]. exists now. split; [| lia]. apply elem_of_app. right. by left. }
  clear Hsome Hnone. cbn. intros [child|[]]; try (by apply (Hin [_]); [| left]).
  intros later. case_match; [by apply (Hin [_; _]); [| left] |].
  apply outcomes_bind, regrant_outcomes. intros l [[tok scopes]|resp] Hl Hr; cbn.
  all: change (?l ++ ?x :: ?y :: ?k) with (l ++ [x; y] ++ k); rewrite (assoc_L (++)).
  all: apply Hin; [by apply quiet_app |].
  - right. eexists child, tok, scopes. split; [| done]. apply elem_of_app. left. apply elem_of_app. right.
    right. by left.
  - by left.
Qed.

(** C24: how a token that is already revoked when it is presented is answered.
    Superseded within the grace window: nothing is revoked, and the answer is an
    error or the one successor its derivation names, confirmed live by the
    store.  Otherwise its whole family is revoked, once, and the answer is an
    error. *)
Theorem replay_outcome refreshTok clientID :
  outcomes (λ tr resp, ∀ rt, found tr rt → Revoked rt = true →
      in_grace tr rt ∧ revocations tr = [] ∧ recovered tr refreshTok clientID rt resp ∨
      past_grace tr rt ∧ revocations tr = [(rt_FamilyID rt, "reuse_detected")] ∧ is_error resp)
    [] (handleTokenRefresh cfg refreshTok clientID).
Proof.
  unfold handleTokenRefresh. do 2 (case_match; [done |]). cbn -[reuse attemptGraceRecovery regrant rotate].
  intros cimd. match goal with |- outcomes ?Φ ?tr (match cimd with Some _ => _ | None => ?p end) =>
    cut (outcomes Φ tr p); [by destruct cimd as [[uris|e]|] |] end.
  cbn -[reuse attemptGraceRecovery regrant rotate].
  intros [rt|[]]; try done. case_match eqn:Erev.
  - apply outcomes_bind, grace_outcomes.
    + intros l resp Hl Hg Hr rt' Hf _. left. apply found_app in Hf; [| done]. injection Hf as <-.
      split_and!; [done | by rewrite revocations_app | done].
    + intros l Hl Hp. apply reuse_outcomes; [done |]. intros x r Hr rt' Hf _. right.
      apply (found_app (_ :: _)) in Hf; [| done]. injection Hf as <-. split_and!; [| | done].
      * destruct Hp as [Hp|(now & Hnow & Hp)]; [by left | right]. exists now. split; [by right | done].
      * change (revocations (?o :: ?k)) with ((rt_FamilyID rt, "reuse_detected") :: revocations k).
        by rewrite revocations_app.
  - apply outcomes_any. intros l r rt' Hf Hrev. apply found_app in Hf; [| done]. injection Hf as <-. congruence.
Qed.

(** ** The code exchange *)

(** Every scope a client can name is one the authorization asked for; a request
    without scopes asked for all. *)
Definition narrowed (entry : OAuthCode) (scopes : list string) : Prop :=
  Fields (oc_Scope entry) = [] ∨
  ∀ s, s ∈ scopes → s ∈ DCRNegotiableScopes → s ∈ Fields (oc_Scope entry).

Lemma narrowGrant_narrowed entry scopes : narrowed entry (narrowGrant scopes (oc_Scope entry)).
Proof.
  unfold narrowGrant. case_bool_decide; [by left |]. right.
  intros s [[Hs|Hs] _]%list_elem_of_filter; [done | auto].
Qed.

Lemma code_grant_outcomes entry client (Φ : trace → result string (string * list string) → Prop) tr :
  (∀ l r, match r with Ok (_, scopes) => narrowed entry scopes | Err _ => True end → Φ (l ++ tr) r) →
  outcomes Φ tr (code_grant cfg entry client).
Proof.
  intros HΦ. apply outcomes_mono with (Φ := λ _ r,
    match r with Ok (_, scopes) => narrowed entry scopes | Err _ => True end).
  { intros l r Hr. by apply HΦ. }
  unfold code_grant, ResolveScopes, isClientTier, mintAccessToken.
  outcomes_steps; try done; apply narrowGrant_narrowed.
Qed.

Lemma code_refused_None entry client redirect verifier :
  code_refused entry client redirect verifier = None →
  oc_ClientID entry = client ∧ oc_RedirectURI entry = redirect ∧
  base64_url (digest (bytes verifier)) = oc_CodeChallenge entry.
Proof.
  unfold code_refused, pkceVerify. intros Hc. repeat case_match; try done. by bool_to_Prop.
Qed.

(** C25: a code exchange answers a token only when the code it consumed was
    issued to this client for this redirect URI and its challenge is the hash of
    the verifier, a well-formed PKCE string; the scopes are narrowed to the
    authorization's request, and the refresh token is a fresh random one, stored
    under a fresh family with the lifetime counted from now, unless the account
    was deleted after the code was issued. *)
Theorem exchange_checked code clientID redirectURI verifier :
  outcomes (λ tr resp, ∀ access refresh ttl scopes, resp = TokenJSON access refresh ttl scopes →
      ∃ entry family uid name now,
        OCall (CConsumeCode code (CodeTTL cfg)) (Ok entry) ∈ tr ∧
        (oc_ClientID entry = clientID ∧ oc_RedirectURI entry = redirectURI ∧
         base64_url (digest (bytes verifier)) = oc_CodeChallenge entry) ∧
        validPKCEString verifier = None ∧ clientID ≠ ConnectClientID ∧ narrowed entry scopes ∧
        OQuery (QRandomToken 16) family ∈ tr ∧ OQuery (QRandomToken 32) refresh ∈ tr ∧
        OQuery QClock now ∈ tr ∧
        OCall (CSaveForGrant refresh
                 ((first_token family uid name entry clientID scopes) <|rt_ExpiresAt := now + RefreshTokenTTL cfg|>)
                 (oc_CreatedAt entry)) (Ok tt) ∈ tr)
    [] (handleTokenAuthCode cfg code clientID redirectURI verifier).
Proof.
  unfold handleTokenAuthCode. case_match eqn:E1; [done |]. case_match eqn:E2; [done |]. bool_to_Prop.
  destruct (validPKCEString verifier) as [err|] eqn:Hv; [done |]. cbn -[redeem]. intros cimd.
  apply outcomes_bind. apply outcomes_any. intros l0 [e|]; [by destruct e |]. cbn -[redeem].
  intros [entry|[]]; try done. generalize (l0 ++ [OQuery (QAuthenticateCIMD clientID "token_code") cimd]).
  intros tr. unfold redeem. destruct (code_refused entry _ _ _) eqn:Hc; [done |].
  apply code_refused_None in Hc. apply outcomes_bind, code_grant_outcomes.
  intros l [[tok scopes]|desc] Hn; [| done]. cbn. intros [uid|e]; [| done]. cbn. intros name family refresh now.
  intros [[]|[]]; cbn; try done. intros ? ? ? ? [= <- <- _ <-].
  exists entry, family, uid, name, now. split_and!; try done; try apply Hc.
  all: repeat (first [by left | right]); apply elem_of_app; right; by left.
Qed.
End theorems.

(** ** A run

    One request run to its end, with fixed answers. *)
Section drive.
Context `{UnicodeTables} (cfg : Config) (o : ∀ A, oauth_query A → A) (now newID : Z) (i : nat).
Definition serve (s : server) : server :=
  match s_requests s !! i with
  | Some (Call c k) =>
    match store_op now newID c (s_db s), od_users (s_db s) !! newID with
    | Ok (a, d), None => Build_server d (<[i := k (Ok a)]> (s_requests s)) (committed c (s_world s))
    | Err e, _ => Build_server (s_db s) (<[i := k (Err e)]> (s_requests s)) (s_world s)
    | _, _ => s
    end
  | Some (Query q k) => Build_server (s_db s) (<[i := k (o _ q)]> (s_requests s)) (asked q (o _ q) (s_world s))
  | _ => s
  end.
Lemma serve_step s : rtc (step cfg) s (serve s).
Proof.
  unfold serve. destruct (s_requests s !! i) as [[r|A c k|A q k|]|] eqn:Hi; try apply rtc_refl.
  - destruct (store_op now newID c (s_db s)) as [[a d]|e] eqn:Hop; [| by eapply rtc_once, step_error].
    destruct (od_users (s_db s) !! newID) eqn:Hu; [apply rtc_refl | by eapply rtc_once, step_call].
  - by eapply rtc_once, step_query.
Qed.
Lemma serve_steps n s : rtc (step cfg) s (Nat.iter n serve s).
Proof. induction n as [|n IH]; [apply rtc_refl |]. cbn. etrans; [exact IH | apply serve_step]. Qed.

Lemma request_steps n p s :
  request cfg p → rtc (step cfg) s (Nat.iter n serve (Build_server (s_db s) (s_requests s ++ [p]) (s_world s))).
Proof. intros Hp. etrans; [by apply rtc_once, step_start | apply serve_steps]. Qed.
End drive.

Module Witnesses.
#[local] Existing Instance ascii_tables.

Definition cfg : Config := {|
  JWTSecret := "secret"; JWTAudience := ""; AccessTokenTTL := Hour; RefreshTokenTTL := 720 * Hour;
  CodeTTL := 10 * Minute; AutoApproveClients := true; AdminTelegramIDs := ∅;
  BroadcastOperatorTelegramIDs := ∅; LookupAdminTelegramIDs := ∅; ClientTelegramIDs := ∅;
  ClientProfiles := {| ByClientID := ∅; ByRedirectURI := ∅ |} |}.

Definition at_ : time := 100 * Second.
Definition answers (A : Type) (q : oauth_query A) : A :=
  match q with
  | QClock => at_
  | QRandomToken n => if n =? 32 then "root" else "family"
  | QMint _ _ => Ok "jwt"
  | QAuthenticateCIMD _ _ => None
  | QRedirectAllowed _ _ => true
  | QClientDisplayName _ => "Claude"
  end.

Definition verifier : string := "verifier-verifier-verifier-verifier-verifier".
Definition challenge : string := Eval vm_compute in base64_url (digest (bytes verifier)).
Definition issued_code : OAuthCode := {|
  oc_Code := "code"; oc_ClientID := "claude"; oc_RedirectURI := "https://claude.example/cb";
  oc_CodeChallenge := challenge;
  oc_ChallengeMethod := "S256"; oc_TelegramID := 42; oc_TelegramUsername := "ann";
  oc_Scope := "telegram:messages:read"; oc_CreatedAt := at_ |}.
(** Ann deleted her account a minute before she signed in again. *)
Definition ann : user_row := {|
  us_github_login := "tg:42"; us_telegram_login_id := Some 42; us_telegram_username := None;
  us_telegram_display_name := None; us_access_tier := None; us_account_deleted_at := Some (at_ - Minute) |}.
Definition before : server := start {[1 := ann]} {["code" := issued_code]}.

Definition ask_server (p : handler token_response) (s : server) : server :=
  Nat.iter 20 (serve answers at_ 2 (length (s_requests s)))
    (Build_server (s_db s) (s_requests s ++ [p]) (s_world s)).
Definition exchange_request : handler token_response :=
  handleTokenAuthCode cfg "code" "claude" "https://claude.example/cb" verifier.

Definition exchanged : server := Eval vm_compute in ask_server exchange_request before.
Definition refreshed : server := Eval vm_compute in ask_server (handleTokenRefresh cfg "root" "claude") exchanged.

Definition form (grant code refresh : string) : token_form := {|
  tf_grant_type := grant; tf_code := code; tf_client_id := "claude";
  tf_redirect_uri := "https://claude.example/cb"; tf_code_verifier := verifier; tf_refresh_token := refresh |}.

Lemma exchanged_steps : rtc (step cfg) before exchanged.
Proof.
  assert (exchanged = ask_server exchange_request before) as -> by (vm_compute; reflexivity).
  apply request_steps. apply (request_token cfg (form "authorization_code" "code" "")).
Defined.
Lemma refreshed_steps : rtc (step cfg) exchanged refreshed.
Proof.
  assert (refreshed = ask_server (handleTokenRefresh cfg "root" "claude") exchanged) as ->
    by (vm_compute; reflexivity).
  apply request_steps. apply (request_token cfg (form "refresh_token" "" "root")).
Defined.
Lemma refreshed_reachable : reachable cfg refreshed.
Proof. do 2 eexists. etrans; [apply exchanged_steps | apply refreshed_steps]. Defined.

Definition successor_token : string := Eval vm_compute in deriveSuccessorRefreshToken "secret" "root".

(** The family is revoked, and then its newest token is presented. *)
Definition revoked : server :=
  Build_server (RevokeRefreshTokenFamily at_ "family" "explicit_revoke" (s_db refreshed)).2
    (s_requests refreshed) (s_world refreshed).
Definition afterwards : server := Eval vm_compute in ask_server (handleTokenRefresh cfg successor_token "claude") revoked.
Lemma afterwards_steps : rtc (step cfg) revoked afterwards.
Proof.
  assert (afterwards = ask_server (handleTokenRefresh cfg successor_token "claude") revoked) as ->
    by (vm_compute; reflexivity).
  apply request_steps. apply (request_token cfg (form "refresh_token" "" successor_token)).
Defined.

Lemma refreshed_fresh : fresh (s_world refreshed).
Proof. split; (apply (bool_decide_unpack _); vm_compute; exact I). Defined.
Lemma afterwards_fresh : fresh (s_world afterwards).
Proof. split; (apply (bool_decide_unpack _); vm_compute; exact I). Defined.

Lemma refresh_never_widens_witness :
  s_requests refreshed !! 1%nat = Some (Ret (TokenJSON "jwt" successor_token 3600 ["telegram:messages:read"])) ∧
  ∃ f g, within (s_world refreshed) (TokenJSON "jwt" successor_token 3600 ["telegram:messages:read"]) f g.
Proof.
  assert (s_requests refreshed !! 1%nat =
    Some (Ret (TokenJSON "jwt" successor_token 3600 ["telegram:messages:read"]))) as Hi by reflexivity.
  split; [exact Hi |].
  destruct (refresh_never_widens cfg _ _ _ _ _ _ refreshed_reachable refreshed_fresh Hi) as (f & g & Hw & _).
  by exists f, g.
Defined.

Lemma one_live_token_witness :
  size (od_tokens (s_db refreshed)) = 2%nat ∧
  ∀ h h' r r', od_tokens (s_db refreshed) !! h = Some r → od_tokens (s_db refreshed) !! h' = Some r' →
    tr_family_id r = tr_family_id r' → live r → live r' → h = h'.
Proof.
  split; [vm_compute; reflexivity |]. apply (one_live_token cfg refreshed refreshed_reachable refreshed_fresh).
Defined.

Lemma revocation_is_final_witness :
  s_requests afterwards !! 2%nat = Some (Ret (invalid_grant "refresh token already used")) ∧
  family_dead (s_db afterwards) "family".
Proof.
  split; [reflexivity |].
  apply (revocation_is_final cfg refreshed at_ "family" "explicit_revoke" afterwards refreshed_reachable).
  - by left.
  - apply afterwards_steps.
  - apply afterwards_fresh.
Defined.

Lemma no_token_after_deletion_witness :
  ∃ h r, od_tokens (s_db refreshed) !! h = Some r ∧ live r ∧
    ∃ g, (tr_family_id r, g) ∈ w_grants (s_world refreshed) ∧ at_ - Minute < g_issued g.
Proof.
  let x := eval vm_compute in (head (filter (λ kr, live kr.2) (map_to_list (od_tokens (s_db refreshed))))) in
  match x with Some (?h, ?r) =>
    exists h, r; assert (od_tokens (s_db refreshed) !! h = Some r) as Hr by (vm_compute; reflexivity);
    split; [exact Hr |]; split; [exact I |];
    apply (no_token_after_deletion cfg refreshed h r (ann <|us_telegram_username := Some "ann"|>) (at_ - Minute) refreshed_reachable refreshed_fresh Hr)
  end; [exact I | vm_compute; reflexivity | reflexivity].
Defined.

Lemma owner_revocation_witness :
  map cg_ClientID (ListActiveClientGrants at_ 1 (s_db refreshed)) = ["claude"] ∧
  match RevokeClientGrants at_ 1 "claude" (s_db refreshed) with
  | Ok (n, d) => "claude" ∉ map cg_ClientID (ListActiveClientGrants at_ 1 d)
  | Err _ => False
  end.
Proof.
  split; [vm_compute; reflexivity |].
  destruct (RevokeClientGrants at_ 1 "claude" (s_db refreshed)) as [[n d]|e] eqn:E; [| discriminate E].
  by apply (owner_revocation at_ at_ 1 "claude" n (s_db refreshed) d E).
Defined.
End Witnesses.

(** A code exchange refused because the account was deleted in between has
    written the username back that the deletion had cleared. *)
Example refused_exchange_refills_username :
  let ann := Witnesses.ann <|us_telegram_username := Some "ann"|> <|us_account_deleted_at := None|> in
  let signed_in := start {[1 := ann]} {["code" := Witnesses.issued_code]} in
  let deleted := HardDeleteAccount (Witnesses.at_ + Second) 1 (s_db signed_in) in
  let s := @Witnesses.ask_server Witnesses.exchange_request (Build_server deleted [] empty_world) in
  s_requests s = [Ret (invalid_grant "the account was deleted after this code was issued")] ∧
  od_users deleted !! 1 ≫= us_telegram_username = None ∧
  od_users (s_db s) !! 1 ≫= us_telegram_username = Some "ann".
Proof. vm_compute. done. Qed.
