(* ===== verification/Linear.v ===== *)
(** * Programs that own tokens

    [Program.safe] tracks what a program knows of a world that only grows.
    Some protocols also need what a program owns: a right it was given by one
    answer and uses up in a later call, which no other program has at the same
    time.  A ledger states, for each call and query, what must be owned before
    it and what is owned after each of its answers. *)

From S2P Require Import Prelude Program.

Class Ledger (E : Type) (C Q : Type → Type) (W T : Type) := {
  l_le : relation W;
  l_pre {A} : W → T → C A → Prop;
  l_post {A} : W → T → C A → result E A → T → Prop;
  l_qpre {A} : W → T → Q A → Prop;
  l_qpost {A} : W → T → Q A → A → T → Prop;
  l_preorder :: PreOrder l_le;
  l_pre_mono {A} w w' t (c : C A) : l_le w w' → l_pre w t c → l_pre w' t c;
  l_qpre_mono {A} w w' t (q : Q A) : l_le w w' → l_qpre w t q → l_qpre w' t q;
}.

Section owns.
Context `{Ledger E C Q W T}.

(** [owns w t p Φ]: started in [w] with the tokens [t], [p] keeps to the
    ledger, and its result satisfies [Φ] of the world and the tokens it ends
    with. *)
Fixpoint owns {R} (w : W) (t : T) (p : prog E C Q R) (Φ : W → T → R → Prop) : Prop :=
  match p with
  | Ret r => Φ w t r
  | Exit => True
  | Call c k => l_pre w t c ∧ ∀ w' x t', l_le w w' → l_post w' t c x t' → owns w' t' (k x) Φ
  | Query q k => l_qpre w t q ∧ ∀ w' x t', l_le w w' → l_qpost w' t q x t' → owns w' t' (k x) Φ
  end.

Lemma owns_mono {R} w w' t (p : prog E C Q R) (Φ Ψ : W → T → R → Prop) :
  l_le w w' → owns w t p Φ → (∀ w1 w2 t r, l_le w w1 → l_le w1 w2 → Φ w1 t r → Ψ w2 t r) → owns w' t p Ψ.
Proof.
  revert w w' t. induction p as [r|A c k IH|A q k IH|]; intros w w' t Hw Hp HΦ; cbn in *.
  - by apply (HΦ w w').
  - destruct Hp as [Hc Hk]. split; [by eapply l_pre_mono |]. intros w2 x t' Hw2 Hx.
    assert (l_le w w2) as Hw' by by etrans.
    apply (IH x w2 w2); [done | by apply Hk |]. intros w3 w4 t2 r H3. apply HΦ. by etrans.
  - destruct Hp as [Hq Hk]. split; [by eapply l_qpre_mono |]. intros w2 x t' Hw2 Hx.
    assert (l_le w w2) as Hw' by by etrans.
    apply (IH x w2 w2); [done | by apply Hk |]. intros w3 w4 t2 r H3. apply HΦ. by etrans.
  - done.
Qed.

Lemma owns_weaken {R} w w' t (p : prog E C Q R) :
  l_le w w' → owns w t p (λ _ _ _, True) → owns w' t p (λ _ _ _, True).
Proof. intros Hw Hp. by apply (owns_mono w w' t p (λ _ _ _, True)). Qed.

Lemma owns_then {R S} w t (p : prog E C Q R) (f : R → prog E C Q S) (Φ : W → T → R → Prop) Ψ :
  owns w t p Φ → (∀ w' t' r, l_le w w' → Φ w' t' r → owns w' t' (f r) Ψ) → owns w t (bind p f) Ψ.
Proof.
  revert w t. induction p as [r|A c k IH|A q k IH|]; intros w t Hp Hf; cbn in *; [by apply Hf | | | done].
  - destruct Hp as [Hc Hk]. split; [done |]. intros w' x t' Hw Hx. apply IH; [by apply Hk |].
    intros w2 t2 r Hw2. apply Hf. by etrans.
  - destruct Hp as [Hq Hk]. split; [done |]. intros w' x t' Hw Hx. apply IH; [by apply Hk |].
    intros w2 t2 r Hw2. apply Hf. by etrans.
Qed.

Lemma owns_forget {R} w t (p : prog E C Q R) Φ :
  owns w t p Φ → owns w t (forget p) (λ _ _ _, True).
Proof. intros Hp. by eapply owns_then. Qed.
End owns.

(** ** What was seen before a question *)
Section asks.
Context {E : Type} {C Q : Type → Type}.

(** [asks Ψ Φ tr p]: on every path of [p] each query satisfies [Ψ] of what the
    program saw before it, latest first, and the result [Φ] of all it saw. *)
Fixpoint asks {R} (Ψ : ∀ A, list (obs E C Q) → Q A → Prop) (Φ : list (obs E C Q) → R → Prop)
    (tr : list (obs E C Q)) (p : prog E C Q R) : Prop :=
  match p with
  | Ret r => Φ tr r
  | Exit => True
  | Call c k => ∀ x, asks Ψ Φ (OCall c x :: tr) (k x)
  | Query q k => Ψ _ tr q ∧ ∀ x, asks Ψ Φ (OQuery q x :: tr) (k x)
  end.

Lemma asks_bind {R S} Ψ Φ tr (p : prog E C Q R) (f : R → prog E C Q S) :
  asks Ψ (λ tr r, asks Ψ Φ tr (f r)) tr p → asks Ψ Φ tr (bind p f).
Proof. revert tr. induction p; intros tr; cbn; naive_solver. Qed.

Lemma asks_mono {R} Ψ (Φ Φ' : list (obs E C Q) → R → Prop) tr (p : prog E C Q R) :
  (∀ l r, Φ (l ++ tr) r → Φ' (l ++ tr) r) → asks Ψ Φ tr p → asks Ψ Φ' tr p.
Proof.
  revert tr. induction p as [r|A c k IH|A q k IH|]; intros tr HΦ; cbn; [apply (HΦ []) | | | done].
  - intros Hk x. apply IH; [| done]. intros l r. specialize (HΦ (l ++ [OCall c x]) r).
    by rewrite <- (assoc_L (++)) in HΦ.
  - intros [Hq Hk]. split; [done |]. intros x. apply IH; [| done]. intros l r.
    specialize (HΦ (l ++ [OQuery q x]) r). by rewrite <- (assoc_L (++)) in HΦ.
Qed.
End asks.
