(* ===== verification/Notifications.v ===== *)
(** * Notification preferences and bot reachability

    [src/internal/db/notification_prefs.go], [db/reachability.go] and
    [src/internal/notify/classify.go]: what a client consented to, and whether
    the login bot may write to them. *)

From S2P Require Import Prelude GoString.

(** ** Classification of a Bot API answer *)
Definition StateUnknown : string := "unknown".
Definition StateReachable : string := "reachable".
Definition StateBlocked : string := "blocked".
Definition StateCannotInitiate : string := "cannot_initiate".
Definition SourceOIDCBotAccess : string := "oidc_bot_access".
Definition SourceOIDCGetChat : string := "oidc_get_chat".

Record DeliveryOutcome := {
  do_State : string;
  do_ReasonCode : string;
  do_Conclusive : bool;
}.
Record APIError := {
  ae_StatusCode : Z;
  ae_Description : string;
  ae_RetryAfter : duration;
}.

Definition inconclusive : DeliveryOutcome := {| do_State := ""; do_ReasonCode := ""; do_Conclusive := false |}.
Definition conclusive (state reason : string) : DeliveryOutcome :=
  {| do_State := state; do_ReasonCode := reason; do_Conclusive := true |}.

Definition ClassifyDelivery `{UnicodeTables} (httpStatus : Z) (description : string) : DeliveryOutcome :=
  if httpStatus =? 200 then conclusive StateReachable "delivered"
  else
    let desc := ToLower description in
    if httpStatus =? 403 then
      if Contains desc "bot was blocked by the user" then conclusive StateBlocked "bot_blocked"
      else if Contains desc "user is deactivated" then conclusive StateBlocked "user_deactivated"
      else if Contains desc "bot can't initiate conversation"
      then conclusive StateCannotInitiate "cannot_initiate_conversation"
      else inconclusive
    else if httpStatus =? 400 then
      if Contains desc "chat not found" then conclusive StateCannotInitiate "chat_not_found"
      else inconclusive
    else inconclusive.

(** ** Categories *)
Definition CategoryProductUpdates : string := "product_updates".
Definition CategoryMaintenance : string := "maintenance".
Definition CategorySecurity : string := "security".
Definition NotificationCategories : list string :=
  [CategoryProductUpdates; CategoryMaintenance; CategorySecurity].
Definition isKnownCategory (c : string) : bool := bool_decide (c ∈ NotificationCategories).

Definition PrefSubscribed : string := "subscribed".
Definition PrefUnsubscribed : string := "unsubscribed".
Definition ClassificationMarketing : string := "marketing".
Definition ClassificationOperational : string := "operational".

Record ResolvedPref := {
  rp_Category : string;
  rp_State : string;
  rp_Explicit : bool;
  rp_Classification : string;
  rp_Source : string;
  rp_DecidedAt : option time;
}.

Definition implied_pref (category state classification : string) : ResolvedPref :=
  {| rp_Category := category; rp_State := state; rp_Explicit := false;
     rp_Classification := classification; rp_Source := ""; rp_DecidedAt := None |}.
Definition defaultPref (category : string) : ResolvedPref :=
  if bool_decide (category = CategoryProductUpdates)
  then implied_pref category PrefUnsubscribed ClassificationMarketing
  else if bool_decide (category = CategoryMaintenance) || bool_decide (category = CategorySecurity)
  then implied_pref category PrefSubscribed ClassificationOperational
  else implied_pref category PrefUnsubscribed "".

Definition ResolvePrefState (category : string) (explicit : gmap string string) : string :=
  default (rp_State (defaultPref category)) (explicit !! category).

(** ** The tables *)
Record pref_row := { pr_state : string; pr_source : string; pr_decided_at : time }.
Record reach_row := {
  rr_state : string;
  rr_reason_code : string;
  rr_observed_at : option time;
  rr_source : string;
}.
Record ndb := {
  nd_prefs : gmap (Z * string) pref_row;     (** by user and category *)
  nd_reach : gmap Z reach_row;               (** by user *)
}.
#[export] Instance ndb_eta : Eta ndb := λ d, Build_ndb (nd_prefs d) (nd_reach d).

Inductive notification_error :=
| ErrUnknownNotificationCategory (category : string)
| ErrUnknownNotificationState (state : string)
| ErrNotification (what : string).      (** a missing or malformed argument *)

(** ** Preferences *)
Definition explicit_pref (category : string) (r : pref_row) : ResolvedPref := {|
  rp_Category := category; rp_State := pr_state r; rp_Explicit := true;
  rp_Classification :=
    if bool_decide (category = CategoryMaintenance) || bool_decide (category = CategorySecurity)
    then ClassificationOperational else ClassificationMarketing;
  rp_Source := pr_source r; rp_DecidedAt := Some (pr_decided_at r) |}.

Definition ResolveNotificationPrefs (userID : Z) (d : ndb) : list ResolvedPref :=
  map (λ c, match nd_prefs d !! (userID, c) with
            | Some r => explicit_pref c r
            | None => defaultPref c
            end) NotificationCategories.

(** The changes are given in the order the validation visits the map. *)
Definition check_change (cs : string * string) : result notification_error unit :=
  if negb (isKnownCategory cs.1) then Err (ErrUnknownNotificationCategory cs.1)
  else if negb (bool_decide (cs.2 = PrefSubscribed)) && negb (bool_decide (cs.2 = PrefUnsubscribed))
  then Err (ErrUnknownNotificationState cs.2) else Ok tt.

Definition key_before (x y : string * string) : Prop := String.leb x.1 y.1 = true.
#[global] Instance key_before_dec x y : Decision (key_before x y).
Proof. unfold key_before. apply _. Defined.

Definition SetNotificationPrefs (now : time) (userID : Z) (changes : list (string * string))
    (source : string) (d : ndb) : result notification_error ndb :=
  if bool_decide (changes = []) then Ok d
  else if bool_decide (source = "") then Err (ErrNotification "source is required")
  else match rmapM check_change changes with
       | Err e => Err e
       | Ok _ =>
         Ok (d <|nd_prefs := foldl (λ m cs, <[(userID, cs.1) := {| pr_state := cs.2; pr_source := source;
                                pr_decided_at := now |}]> m) (nd_prefs d) (merge_sort key_before changes)|>)
       end.

Definition purgeNotificationState (userID : Z) (d : ndb) : ndb :=
  {| nd_prefs := filter (λ kr, kr.1.1 ≠ userID) (nd_prefs d); nd_reach := delete userID (nd_reach d) |}.

(** ** Reachability *)
Definition reach_of (outcome : DeliveryOutcome) (source : string) (observedAt : time) : reach_row :=
  {| rr_state := do_State outcome; rr_reason_code := do_ReasonCode outcome;
     rr_observed_at := Some observedAt; rr_source := source |}.
Definition set_reach (userID : Z) (r : reach_row) (d : ndb) : ndb :=
  d <|nd_reach := <[userID := r]> (nd_reach d)|>.

Definition RecordBotReachability (now : time) (userID : Z) (outcome : DeliveryOutcome) (source : string)
    (d : ndb) : result notification_error ndb :=
  if negb (do_Conclusive outcome) then Ok d
  else if userID <=? 0 then Err (ErrNotification "user id must be positive")
  else Ok (set_reach userID (reach_of outcome source now) d).

(** The stored observation is older than [at_], or there is none. *)
Definition older (at_ : time) (r : reach_row) : bool :=
  match rr_observed_at r with None => true | Some t => t <? at_ end.

Definition RecordInboundBotReachabilityTx (userID : Z) (outcome : DeliveryOutcome) (source : string)
    (observedAt : time) (d : ndb) : result notification_error (bool * ndb) :=
  if negb (do_Conclusive outcome) then Ok (false, d)
  else if userID <=? 0 then Err (ErrNotification "user id must be positive")
  else if IsZero observedAt then Err (ErrNotification "observed time must be set")
  else match nd_reach d !! userID with
       | Some r => if older observedAt r
                   then Ok (true, set_reach userID (reach_of outcome source observedAt) d) else Ok (false, d)
       | None => Ok (true, set_reach userID (reach_of outcome source observedAt) d)
       end.

Definition RecordOIDCBotAccessGrant (userID : Z) (observedAt : time) (source : string) (d : ndb)
    : result notification_error (bool * ndb) :=
  if userID <=? 0 then Err (ErrNotification "user id must be positive")
  else if IsZero observedAt then Err (ErrNotification "observed time must be set")
  else if negb (bool_decide (source = SourceOIDCBotAccess)) && negb (bool_decide (source = SourceOIDCGetChat))
  then Err (ErrNotification "unexpected oidc reachability source")
  else
    let row := reach_of (conclusive StateReachable source) source observedAt in
    match nd_reach d !! userID with
    | Some r => if negb (bool_decide (rr_state r = StateBlocked)) && older observedAt r
                then Ok (true, set_reach userID row d) else Ok (false, d)
    | None => Ok (true, set_reach userID row d)
    end.

Record BotReachability := {
  br_State : string;
  br_ReasonCode : string;
  br_ObservedAt : option time;
  br_Source : string;
}.
Definition GetBotReachability (userID : Z) (d : ndb) : option BotReachability :=
  (λ r, {| br_State := rr_state r; br_ReasonCode := rr_reason_code r; br_ObservedAt := rr_observed_at r;
           br_Source := rr_source r |}) <$> nd_reach d !! userID.
