(* ===== verification/BotUpdates.v ===== *)
(** * Updates of the login bot: [src/internal/db/bot_updates.go]

    The table that owns an update before Telegram is told that it may forget it,
    the transaction that runs a handler once, and the lookup of a user by
    Telegram id ([db/store.go]). *)

From S2P Require Import Prelude GoString Rows Tables Notifications.

(** ** Rows *)
Definition KindMessage : string := "message".
Definition KindStartCommand : string := "start_command".
Definition KindCallbackQuery : string := "callback_query".
Definition KindUnsupported : string := "unsupported".

Definition OutcomeHandled : string := "handled".
Definition OutcomeNoHandler : string := "no_handler".
Definition OutcomeUnknownChat : string := "unknown_chat".
Definition OutcomeUnsupported : string := "unsupported".
Definition OutcomeHandlerError : string := "handler_error".
Definition OutcomeReachabilityRecorded : string := "reachability_recorded".

Record bot_update := BotUpdate {
  ur_Kind : string;
  ur_ChatID : option Z;
  ur_ReceivedAt : time;
  ur_ClaimedAt : option time;
  ur_ProcessedAt : option time;
  ur_Outcome : option string;
}.
#[export] Instance bot_update_eta : Eta bot_update := λ r,
  BotUpdate (ur_Kind r) (ur_ChatID r) (ur_ReceivedAt r) (ur_ClaimedAt r) (ur_ProcessedAt r) (ur_Outcome r).

(** The updates by [update_id]; the notification tables; [users] with their
    [telegram_login_id], and the pairs of [telegram_accounts]. *)
Record bot_db := BotDB {
  bt_updates : gmap Z bot_update;
  bt_notify : ndb;
  bt_logins : gmap Z (option Z);
  bt_accounts : list (Z * Z);       (** user and Telegram id *)
}.
#[export] Instance bot_db_eta : Eta bot_db := λ d, BotDB (bt_updates d) (bt_notify d) (bt_logins d) (bt_accounts d).

Inductive bot_error :=
| ErrUserNotFound
| ErrTelegramIdentityAmbiguous
| ErrTelegramIDNotPositive
| ErrUpdateNotClaimable
| ErrNoSuchUpdate                  (** [sql.ErrNoRows] *)
| ErrRoutingMismatch
| ErrHandler (e : bot_error)       (** [handlerError] *)
| ErrNotify (e : notification_error)
| ErrTelegram (what : string)      (** a failed [getUpdates] *)
| ErrBotStore (what : string)
| ErrCancelled.                    (** [ctx.Err()] *)

#[global] Instance notification_error_eq_dec : EqDecision notification_error.
Proof. solve_decision. Defined.
#[global] Instance bot_error_eq_dec : EqDecision bot_error.
Proof. solve_decision. Defined.

(** [errors.Is] and [errors.As] look through [handlerError]. *)
Fixpoint is_error (target e : bot_error) : bool :=
  bool_decide (e = target) || match e with ErrHandler e => is_error target e | _ => false end.
Definition is_handler_error (e : bot_error) : bool := match e with ErrHandler _ => true | _ => false end.

Record PendingUpdate := MkPendingUpdate {
  pu_UpdateID : Z;
  pu_Kind : string;
  pu_ChatID : option Z;
}.

(** ** Statements *)
Definition AcceptUpdateAt (updateID : Z) (kind : string) (chatID : option Z) (receivedAt : time) (d : bot_db)
    : bool * bot_db :=
  match bt_updates d !! updateID with
  | Some _ => (false, d)
  | None => (true, d <|bt_updates := <[updateID := BotUpdate kind chatID receivedAt None None None]> (bt_updates d)|>)
  end.
Definition AcceptUpdate (now : time) (updateID : Z) (kind : string) (chatID : option Z) (d : bot_db) : bool * bot_db :=
  AcceptUpdateAt updateID kind chatID now d.

Definition UpdateReceivedAtTx (updateID : Z) (d : bot_db) : result bot_error time :=
  match bt_updates d !! updateID with
  | Some r => Ok (ur_ReceivedAt r)
  | None => Err ErrNoSuchUpdate
  end.

Definition updateRouting (updateID : Z) (d : bot_db) : result bot_error (string * option Z) :=
  match bt_updates d !! updateID with
  | Some r => Ok (ur_Kind r, ur_ChatID r)
  | None => Err ErrNoSuchUpdate
  end.

Definition NextOffset (d : bot_db) : Z :=
  match last (sorted_rows (bt_updates d)) with
  | Some (maxID, _) => maxID + 1
  | None => 0
  end.

Definition unprocessed (r : bot_update) : bool := bool_decide (ur_ProcessedAt r = None).
Definition pending_of (x : Z * bot_update) : PendingUpdate := MkPendingUpdate x.1 (ur_Kind x.2) (ur_ChatID x.2).

Definition ListPendingUpdates (afterID limit : Z) (d : bot_db) : list PendingUpdate :=
  let limit := if limit <=? 0 then 100 else limit in
  map pending_of (take (Z.to_nat limit)
    (filter (λ x : Z * bot_update, unprocessed x.2 && (afterID <? x.1) = true) (sorted_rows (bt_updates d)))).

(** What runs inside a transaction: its outcome and the tables it leaves. *)
Definition txn : Type := bot_db → result bot_error (string * bot_db).

(** [claimed] and [done] are the two clock readings. *)
Definition DispatchOnce (claimed done_ : time) (updateID : Z) (fn : txn) (d : bot_db) : result bot_error (string * bot_db) :=
  match update_row unprocessed (λ r, r <|ur_ClaimedAt := Some claimed|>) updateID (bt_updates d) with
  | None => Err ErrUpdateNotClaimable
  | Some t =>
    match fn (d <|bt_updates := t|>) with
    | Err e => Err e
    | Ok (outcome, d1) =>
      let stored := if bool_decide (outcome = "") then OutcomeHandled else outcome in
      Ok (outcome, d1 <|bt_updates := alter (λ r, r <|ur_ProcessedAt := Some done_|> <|ur_Outcome := Some stored|>)
                                         updateID (bt_updates d1)|>)
    end
  end.

Definition MarkUpdateFailed (now : time) (updateID : Z) (d : bot_db) : bot_db :=
  match update_row unprocessed (λ r, r <|ur_ProcessedAt := Some now|> <|ur_Outcome := Some OutcomeHandlerError|>)
          updateID (bt_updates d) with
  | Some t => d <|bt_updates := t|>
  | None => d
  end.

(** ** Users by Telegram id *)
Definition candidates (tgID : Z) (d : bot_db) : gset Z :=
  dom (filter (λ x : Z * option Z, x.2 = Some tgID) (bt_logins d))
  ∪ list_to_set (map fst (filter (λ x : Z * Z, x.2 = tgID) (bt_accounts d))).

Definition userIDByTelegramID (tgID : Z) (d : bot_db) : result bot_error Z :=
  if tgID <=? 0 then Err ErrTelegramIDNotPositive else
  match elements (candidates tgID d) with
  | [] => Err ErrUserNotFound
  | [u] => Ok u
  | _ => Err ErrTelegramIdentityAmbiguous
  end.
