(* ===== verification/Receiver.v ===== *)
(** * The update receiver: [src/internal/bot]

    The long-poll loop, the registry, the [/start] handler and the bridge that
    records a [/start] another service took off the bot's webhook, as programs
    over the statements of [BotUpdates] and the Bot API. *)

From S2P Require Import Prelude GoString Program Rows Tables Notifications BotUpdates.

(** ** Updates: [update.go] *)

(** [utf16.Encode] and [utf16.Decode] *)
Definition utf16_encode (rs : list Z) : list Z :=
  flat_map (λ r, if in_range 0 55295 r || in_range 57344 65535 r then [r]
                 else if in_range 65536 1114111 r then [55296 + (r - 65536) / 1024; 56320 + (r - 65536) mod 1024]
                 else [RuneError]) rs.
Fixpoint utf16_decode (us : list Z) : list Z :=
  match us with
  | [] => []
  | u :: us' =>
    if in_range 55296 57343 u then
      match us' with
      | v :: us'' =>
        if in_range 55296 56319 u && in_range 56320 57343 v
        then ((u - 55296) * 1024 + (v - 56320) + 65536) :: utf16_decode us''
        else RuneError :: utf16_decode us'
      | [] => [RuneError]
      end
    else u :: utf16_decode us'
  end.

Record entity := Entity { en_Type : string; en_Offset : Z; en_Length : Z }.

(** What [Message.UnmarshalJSON] derives from the text and the entities. *)
Definition StartCommand `{UnicodeTables} (text : string) (entities : list entity) : bool :=
  match entities with
  | [] => false
  | e :: _ =>
    if bool_decide (en_Type e = "bot_command") && (en_Offset e =? 0) && (0 <? en_Length e) then
      let u := utf16_encode (runes text) in
      if en_Length e <=? Z.of_nat (length u) then
        let token := string_of_runes (utf16_decode (take (Z.to_nat (en_Length e)) u)) in
        let token := match Cut token "@" with Some (before, _) => before | None => token end in
        EqualFold token "/start"
      else false
    else false
  end.

Record Message := MkMessage { ms_ChatID : Z; ms_StartCommand : bool }.
Record Update := MkUpdate {
  up_UpdateID : Z;
  up_Message : option Message;
  up_CallbackQuery : option (option Message);
}.

Definition Kind (u : Update) : string :=
  match up_CallbackQuery u, up_Message u with
  | Some _, _ => KindCallbackQuery
  | None, Some m => if ms_StartCommand m then KindStartCommand else KindMessage
  | None, None => KindUnsupported
  end.
Definition ChatID (u : Update) : option Z :=
  match up_CallbackQuery u, up_Message u with
  | Some (Some m), _ => Some (ms_ChatID m)
  | _, Some m => Some (ms_ChatID m)
  | _, None => None
  end.

(** ** Calls *)
Inductive bot_call : Type → Type :=
| CAcceptUpdate (id : Z) (kind : string) (chat : option Z) : bot_call bool
| CAcceptUpdateAt (id : Z) (kind : string) (chat : option Z) (at_ : time) : bot_call bool
| CNextOffset : bot_call Z
| CListPendingUpdates (after limit : Z) : bot_call (list PendingUpdate)
| CDispatchOnce (id : Z) (fn : txn) : bot_call string
| CUserIDByTelegramID (tgID : Z) : bot_call Z
| CUpdateRouting (id : Z) : bot_call (string * option Z)
| CGetUpdates (offset : Z) : bot_call (list Update).     (** the Bot API *)

(** Whether the context is cancelled. *)
Inductive bot_query : Type → Type :=
| QCancelled : bot_query bool.

Abbreviation bot := (prog bot_error bot_call bot_query) (only parsing).
Local Open Scope prog_scope.

(** ** Handlers: [registry.go], [start.go], [wiring.go] *)
Record Delivery := MkDelivery {
  dv_UpdateID : Z;
  dv_Kind : string;
  dv_ChatID : option Z;
}.

(** A nil [knownChat] admits every chat. *)
Record Registry := MkRegistry {
  rg_handlers : gmap string (Delivery → txn);
  rg_knownChat : option (Z → bot (result bot_error bool));
}.

Definition reasonBotStart : string := "bot_start".

Definition RecordBotStartTx (telegramID updateID : Z) : txn := λ d,
  if telegramID <=? 0 then Ok (OutcomeUnknownChat, d) else
  match userIDByTelegramID telegramID d with
  | Err ErrUserNotFound | Err ErrTelegramIdentityAmbiguous => Ok (OutcomeUnknownChat, d)
  | Err e => Err e
  | Ok userID =>
    match UpdateReceivedAtTx updateID d with
    | Err e => Err e
    | Ok observedAt =>
      match RecordInboundBotReachabilityTx userID (conclusive StateReachable reasonBotStart) reasonBotStart
              observedAt (bt_notify d) with
      | Err e => Err (ErrNotify e)
      | Ok (applied, n) => Ok (if applied then OutcomeReachabilityRecorded else OutcomeHandled, d <|bt_notify := n|>)
      end
    end
  end.

Definition StartHandler (dv : Delivery) : txn :=
  match dv_ChatID dv with
  | None => λ d, Ok (OutcomeUnknownChat, d)
  | Some chat => RecordBotStartTx chat (dv_UpdateID dv)
  end.

Definition KnownChatFunc (chatID : Z) : bot (result bot_error bool) :=
  if chatID <=? 0 then ok false else
  let* r := invoke (CUserIDByTelegramID chatID) in
  match r with
  | Ok _ => ok true
  | Err ErrUserNotFound | Err ErrTelegramIdentityAmbiguous => ok false
  | Err e => fail e
  end.

Definition isKnownChat (rg : Registry) (chatID : option Z) : bot (result bot_error bool) :=
  match rg_knownChat rg with
  | None => ok true
  | Some known => match chatID with None => ok false | Some id => known id end
  end.

(** ** The receiver: [receiver.go] *)
Definition OutcomeDuplicate : string := "duplicate".
Definition OutcomeDispatchError : string := "dispatch_error".

Section receiver.
Variable rg : Registry.
Variable batchLimit : Z.

Definition wrap_handler (h : txn) : txn := λ d,
  match h d with Ok r => Ok r | Err e => Err (ErrHandler e) end.

Definition complete (updateID : Z) (outcome : string) : bot (result bot_error string) :=
  let* r := invoke (CDispatchOnce updateID (λ d, Ok (outcome, d))) in
  match r with
  | Ok _ => ok outcome
  | Err e => if is_error ErrUpdateNotClaimable e then ok OutcomeDuplicate else fail e
  end.

Definition route (p : PendingUpdate) : bot (result bot_error string) :=
  if bool_decide (pu_Kind p = KindUnsupported) then complete (pu_UpdateID p) OutcomeUnsupported else
  let? known := isKnownChat rg (pu_ChatID p) in
  if negb known then complete (pu_UpdateID p) OutcomeUnknownChat else
  match rg_handlers rg !! pu_Kind p with
  | None => complete (pu_UpdateID p) OutcomeNoHandler
  | Some h =>
    let* r := invoke (CDispatchOnce (pu_UpdateID p)
                        (wrap_handler (h (MkDelivery (pu_UpdateID p) (pu_Kind p) (pu_ChatID p))))) in
    match r with
    | Ok outcome => ok (if bool_decide (outcome = "") then OutcomeHandled else outcome)
    | Err e => if is_error ErrUpdateNotClaimable e then ok OutcomeDuplicate else fail e
    end
  end.

(** The outcome that is counted. *)
Definition dispatch (p : PendingUpdate) : bot string :=
  let* r := route p in
  match r with
  | Ok outcome => Ret outcome
  | Err e => Ret (if is_handler_error e then OutcomeHandlerError else OutcomeDispatchError)
  end.

Definition accept (u : Update) : bot (result bot_error string) :=
  let? accepted := invoke (CAcceptUpdate (up_UpdateID u) (Kind u) (ChatID u)) in
  if negb accepted then ok OutcomeDuplicate else
  let* outcome := dispatch (MkPendingUpdate (up_UpdateID u) (Kind u) (ChatID u)) in ok outcome.

Fixpoint accept_batch (us : list Update) : bot (result bot_error unit) :=
  match us with
  | [] => ok tt
  | u :: us =>
    let* cancelled := ask QCancelled in
    if cancelled : bool then fail ErrCancelled else
    let? _ := accept u in accept_batch us
  end.

Definition pollOnce : bot (result bot_error unit) :=
  let? offset := invoke CNextOffset in
  let? updates := invoke (CGetUpdates offset) in
  accept_batch updates.

(** One page: the cursor behind it, and whether the context was cancelled. *)
Fixpoint sweep_page (ps : list PendingUpdate) (after : Z) : bot (Z * bool) :=
  match ps with
  | [] => Ret (after, false)
  | p :: ps =>
    let* cancelled := ask QCancelled in
    if cancelled : bool then Ret (after, true) else
    let* _ := dispatch p in
    sweep_page ps (if after <? pu_UpdateID p then pu_UpdateID p else after)
  end.

(** The pages, [fuel] of them at most: [false] when there are more. *)
Fixpoint sweep_pages (fuel : nat) (after : Z) : bot bool :=
  match fuel with
  | O => Ret false
  | S fuel =>
    let* cancelled := ask QCancelled in
    if cancelled : bool then Ret true else
    let* r := invoke (CListPendingUpdates after batchLimit) in
    match r with
    | Err _ | Ok [] => Ret true
    | Ok pending =>
      let* st := sweep_page pending after in
      if st.2 : bool then Ret true
      else if Z.of_nat (length pending) <? batchLimit then Ret true
      else sweep_pages fuel st.1
    end
  end.
Definition sweepPending (fuel : nat) : bot bool := sweep_pages fuel 0.

(** One round of [Start]. *)
Definition round (fuel : nat) : bot unit :=
  let* cancelled := ask QCancelled in
  if cancelled : bool then Ret tt else
  let* _ := sweepPending fuel in forget pollOnce.
End receiver.

(** ** The bridge: [bridge.go]

    The handler behind authentication and decoding: the observation has a
    positive update id and Telegram id and a time that is not zero. *)
Record botStartObservation := MkObservation {
  ob_UpdateID : Z;
  ob_TelegramID : Z;
  ob_ObservedAt : time;
}.
Definition maxObservationSkew : duration := 5 * Minute.
Definition valid_observation (now : time) (o : botStartObservation) : bool :=
  negb ((ob_UpdateID o <=? 0) || (ob_TelegramID o <=? 0) || IsZero (ob_ObservedAt o))
  && negb (now + maxObservationSkew <? ob_ObservedAt o).

Definition OutcomeRoutingMismatch : string := "routing_mismatch".
Definition routingMatches (kind : string) (stored chat : option Z) : bool :=
  bool_decide (kind = KindStartCommand) && bool_decide (stored = chat).

Definition observe (o : botStartObservation) : txn := λ d,
  match updateRouting (ob_UpdateID o) d with
  | Err e => Err e
  | Ok (kind, stored) =>
    if negb (routingMatches kind stored (Some (ob_TelegramID o))) then Err ErrRoutingMismatch
    else wrap_handler (RecordBotStartTx (ob_TelegramID o) (ob_UpdateID o)) d
  end.

Definition StatusAccepted : Z := 202.
Definition StatusServiceUnavailable : Z := 503.

(** The status and the outcome that is counted. *)
Definition BotStartObservation (o : botStartObservation) : bot (Z * string) :=
  let chat := Some (ob_TelegramID o) in
  let* a := invoke (CAcceptUpdateAt (ob_UpdateID o) KindStartCommand chat (ob_ObservedAt o)) in
  match a with
  | Err _ => Ret (StatusServiceUnavailable, OutcomeDispatchError)
  | Ok _ =>
    let* r := invoke (CDispatchOnce (ob_UpdateID o) (observe o)) in
    match r with
    | Ok outcome => Ret (StatusAccepted, outcome)
    | Err e =>
      if is_error ErrUpdateNotClaimable e then
        let* rr := invoke (CUpdateRouting (ob_UpdateID o)) in
        match rr with
        | Err _ => Ret (StatusServiceUnavailable, OutcomeDispatchError)
        | Ok (kind, stored) =>
          Ret (StatusAccepted, if routingMatches kind stored chat then OutcomeDuplicate else OutcomeRoutingMismatch)
        end
      else if is_error ErrRoutingMismatch e then Ret (StatusAccepted, OutcomeRoutingMismatch)
      else if is_handler_error e then Ret (StatusServiceUnavailable, OutcomeHandlerError)
      else Ret (StatusServiceUnavailable, OutcomeDispatchError)
    end
  end.

(** ** Meaning of the calls to the database *)
Definition bot_op {A} (now done_ : time) (c : bot_call A) (d : bot_db) : result bot_error (A * bot_db) :=
  match c in bot_call A return result bot_error (A * bot_db) with
  | CAcceptUpdate id kind chat => Ok (AcceptUpdate now id kind chat d)
  | CAcceptUpdateAt id kind chat at_ => Ok (AcceptUpdateAt id kind chat at_ d)
  | CNextOffset => Ok (NextOffset d, d)
  | CListPendingUpdates after limit => Ok (ListPendingUpdates after limit d, d)
  | CDispatchOnce id fn => DispatchOnce now done_ id fn d
  | CUserIDByTelegramID tg => match userIDByTelegramID tg d with Ok u => Ok (u, d) | Err e => Err e end
  | CUpdateRouting id => match updateRouting id d with Ok r => Ok (r, d) | Err e => Err e end
  | CGetUpdates _ => Err (ErrTelegram "not a call to the database")
  end.
