(* ===== verification/ReceiverProps.v ===== *)
(** * No update of the login bot is lost, and none is handled twice

    The rounds of the receiver and the requests of the bridge run side by side on
    one database, with lost answers, failed calls, crashes at any point, new
    updates at Telegram and accounts that change.  Telegram forgets an update
    once [getUpdates] was called with a higher offset; it numbers updates
    upwards, but may start anywhere again after a week without one. *)

From S2P Require Import Prelude GoString Program Rows Tables Notifications BotUpdates Receiver.

(** ** Telegram *)
Record telegram := Telegram {
  tg_sent : list Update;        (** every update ever, in order *)
  tg_confirmed : Z;             (** those below are forgotten *)
}.
Definition ids (us : list Update) : list Z := map up_UpdateID us.

(** [u] was sent with a larger id than every update before it.  Telegram numbers
    its updates upwards, except that after a week without any it chooses the next
    id at random; the updates it sends from there on may have smaller ids than
    earlier ones. *)
Fixpoint in_order (sent : list Update) (u : Update) : Prop :=
  match sent with
  | [] => False
  | x :: sent => x = u ∨ (up_UpdateID x < up_UpdateID u ∧ in_order sent u)
  end.
(** [v] was sent before [u]. *)
Fixpoint sent_before (sent : list Update) (v u : Update) : Prop :=
  match sent with
  | [] => False
  | x :: sent => (x = v ∧ u ∈ sent) ∨ sent_before sent v u
  end.

(** What [getUpdates] answers: unconfirmed updates, the earliest ones first.  All
    that is said of the order is that an update comes behind those that were sent
    before it and have a smaller id, so it may be the order of the ids as well as
    that of the sending. *)
Record tg_answer (sent : list Update) (confirmed : Z) (us : list Update) : Prop := {
  ans_sent : us ⊆ sent;
  ans_from u : u ∈ us → confirmed ≤ up_UpdateID u;
  ans_first k u v :
    us !! k = Some u → sent_before sent v u → confirmed ≤ up_UpdateID v < up_UpdateID u → v ∈ take k us;
}.

Lemma in_order_elem sent u : in_order sent u → u ∈ sent.
Proof. induction sent as [|x sent IH]; cbn; [done |]. intros [->|[_ Hu]]; [by left | right; auto]. Qed.
Lemma in_order_prefix sent sent' u : sent `prefix_of` sent' → in_order sent u → in_order sent' u.
Proof. intros [more ->]. induction sent as [|x sent IH]; cbn; naive_solver. Qed.
Lemma in_order_last sent u : (∀ x, x ∈ sent → up_UpdateID x < up_UpdateID u) → in_order (sent ++ [u]) u.
Proof.
  induction sent as [|x sent IH]; cbn; intros Hx; [by left |]. right. split; [apply Hx; by left | apply IH].
  intros y Hy. apply Hx. by right.
Qed.
(** What is in order among more updates was so before, or is above all those. *)
Lemma in_order_new sent sent' u :
  sent `prefix_of` sent' → in_order sent' u → in_order sent u ∨ ∀ x, x ∈ sent → up_UpdateID x < up_UpdateID u.
Proof.
  intros [more ->]. induction sent as [|y sent IH]; cbn; [by right; intros x ?%elem_of_nil |].
  intros [->|[Hlt [Hu|Hu]%IH]]; [by left; left | by left; right | right].
  intros x [->|Hx]%elem_of_cons; auto.
Qed.
Lemma in_order_before sent u v : in_order sent v → u ∈ sent → up_UpdateID v < up_UpdateID u → sent_before sent v u.
Proof.
  induction sent as [|x sent IH]; cbn; [done |]. intros [->|[Hlt Hv]] [->|Hu]%elem_of_cons Hid; [lia | by left | lia | right; auto].
Qed.

(** ** Transactions that leave the updates alone *)
Definition tame (fn : txn) : Prop := ∀ d o d', fn d = Ok (o, d') → bt_updates d' = bt_updates d.

Lemma tame_const o : tame (λ d, Ok (o, d)).
Proof. by intros d o' d' [= <- <-]. Qed.
Lemma tame_wrap h : tame h → tame (wrap_handler h).
Proof. intros Hh d o d'. unfold wrap_handler. destruct (h d) as [r|e] eqn:E; [| done]. intros [= ->]. by eapply Hh. Qed.
Lemma tame_record tg id : tame (RecordBotStartTx tg id).
Proof.
  intros d o d'. unfold RecordBotStartTx. destruct (tg <=? 0); [by intros [= <- <-] |].
  destruct (userIDByTelegramID tg d) as [u|[]]; try done; try by intros [= <- <-].
  destruct (UpdateReceivedAtTx id d) as [at_|]; [| done].
  destruct (RecordInboundBotReachabilityTx _ _ _ _ _) as [[applied n]|]; [| done]. by intros [= <- <-].
Qed.
Lemma tame_start dv : tame (StartHandler dv).
Proof. unfold StartHandler. case_match; [apply tame_record | apply tame_const]. Qed.
Lemma tame_observe o : tame (observe o).
Proof.
  intros d x d'. unfold observe. destruct (updateRouting _ d) as [[k c]|]; [| done]. case_match; [done |].
  apply (tame_wrap _ (tame_record _ _)).
Qed.
#[export] Hint Resolve tame_const tame_wrap tame_record tame_start tame_observe : tame.

(** ** What a dispatch does *)
Lemma DispatchOnce_Ok t1 t2 id fn d o d' :
  tame fn → DispatchOnce t1 t2 id fn d = Ok (o, d') →
  ∃ r, bt_updates d !! id = Some r ∧ ur_ProcessedAt r = None ∧
    bt_updates d' = <[id := BotUpdate (ur_Kind r) (ur_ChatID r) (ur_ReceivedAt r) (Some t1) (Some t2)
                       (Some (if bool_decide (o = "") then OutcomeHandled else o))]> (bt_updates d).
Proof.
  intros Hfn. unfold DispatchOnce. destruct (Tables.update_row _ _ _ _) as [t|] eqn:Ht; [| done].
  apply update_row_Some in Ht as (r & Hr & Hp & ->). destruct (fn _) as [[o1 d1]|] eqn:Hd; [| done].
  intros [= -> <-]. exists r. unfold unprocessed in Hp. apply bool_decide_eq_true in Hp. split_and!; [done.. |].
  apply Hfn in Hd. cbn in Hd |- *. rewrite Hd. apply map_eq. intros j.
  destruct (decide (j = id)) as [->|Hj]; [by rewrite lookup_alter_eq, !lookup_insert_eq |].
  by rewrite lookup_alter_ne, !lookup_insert_ne by done.
Qed.

Lemma AcceptUpdateAt_spec id kind chat at_ d :
  let '(a, d') := AcceptUpdateAt id kind chat at_ d in
  bt_updates d !! id = None ∧ a = true ∧
    bt_updates d' = <[id := BotUpdate kind chat at_ None None None]> (bt_updates d) ∨
  is_Some (bt_updates d !! id) ∧ a = false ∧ d' = d.
Proof. unfold AcceptUpdateAt. destruct (bt_updates d !! id) eqn:E; [right; split_and!; eauto | left; by split_and!]. Qed.

Lemma NextOffset_spec d :
  (bt_updates d = ∅ ∧ NextOffset d = 0) ∨
  (∃ i r, bt_updates d !! i = Some r ∧ NextOffset d = i + 1 ∧ ∀ j x, bt_updates d !! j = Some x → j ≤ i).
Proof.
  unfold NextOffset. destruct (last (sorted_rows (bt_updates d))) as [[i r]|] eqn:E.
  - right. exists i, r. apply last_Some in E as [l E]. split_and!; [| done |].
    + apply elem_of_sorted_rows. rewrite E, elem_of_app. right. by left.
    + intros j x Hj%elem_of_sorted_rows. pose proof (StronglySorted_merge_sort by_id (map_to_list (bt_updates d))) as Hs.
      fold (sorted_rows (bt_updates d)) in Hs. rewrite E in Hs, Hj.
      apply elem_of_app in Hj as [Hj|Hj%list_elem_of_singleton]; [| injection Hj as -> ->; lia].
      apply (StronglySorted_app_1_elem_of by_id _ _ _ (i, r) Hs Hj). by left.
  - left. split; [| done]. apply last_None in E. apply map_eq. intros j. rewrite lookup_empty.
    destruct (bt_updates d !! j) as [x|] eqn:Hj; [| done]. apply elem_of_sorted_rows in Hj. rewrite E in Hj. by apply elem_of_nil in Hj.
Qed.

(** ** The protocol *)

(** What the programs may rely on: the ids with a row, and what was sent. *)
Record bot_world := BotWorld {
  bw_rows : gset Z;
  bw_sent : list Update;
}.
Record bot_le (w w' : bot_world) : Prop := {
  ble_rows : bw_rows w ⊆ bw_rows w';
  ble_sent : bw_sent w `prefix_of` bw_sent w';
}.
#[global] Instance bot_le_preorder : PreOrder bot_le.
Proof. split; [by intros w; split |]. intros w1 w2 w3 [R1 S1] [R2 S2]. split; by etrans. Qed.
Lemma ble_elem w w' u : bot_le w w' → u ∈ bw_sent w → u ∈ bw_sent w'.
Proof. intros Hw Hu. eapply elem_of_prefix; [exact Hu | apply Hw]. Qed.

(** Every update below [id] that was sent in order has a row. *)
Definition owned_below (w : bot_world) (id : Z) : Prop :=
  ∀ u, in_order (bw_sent w) u → up_UpdateID u < id → up_UpdateID u ∈ bw_rows w.
(** An offset that may be passed on *)
Definition offset_ok (w : bot_world) (offset : Z) : Prop :=
  owned_below w offset ∧ ∃ u, u ∈ bw_sent w ∧ offset ≤ up_UpdateID u + 1.
Definition sent_as (w : bot_world) (id : Z) (kind : string) (chat : option Z) : Prop :=
  ∃ u, u ∈ bw_sent w ∧ up_UpdateID u = id ∧ Kind u = kind ∧ ChatID u = chat.
(** A batch that may be accepted in its order *)
Definition batch_ok (w : bot_world) (us : list Update) : Prop :=
  us ⊆ bw_sent w ∧
  ∀ k u v, us !! k = Some u → in_order (bw_sent w) v → up_UpdateID v < up_UpdateID u →
    up_UpdateID v ∈ bw_rows w ∨ v ∈ take k us.

Definition bot_pre {A} (w : bot_world) (c : bot_call A) : Prop :=
  match c with
  | CAcceptUpdate id kind chat => sent_as w id kind chat ∧ owned_below w id
  | CAcceptUpdateAt _ _ _ _ => False
  | CDispatchOnce _ fn => tame fn
  | CGetUpdates offset => offset ≤ 0 ∨ offset_ok w offset
  | _ => True
  end.
Definition bot_post {A} (w : bot_world) (c : bot_call A) (r : result bot_error A) : Prop :=
  match c, r with
  | CAcceptUpdate id _ _, Ok _ => id ∈ bw_rows w
  | CNextOffset, Ok offset => offset ≤ 0 ∨ offset_ok w offset
  | CGetUpdates _, Ok us => batch_ok w us
  | _, _ => True
  end.
Lemma owned_below_mono w w' u id :
  bot_le w w' → u ∈ bw_sent w → id ≤ up_UpdateID u + 1 → owned_below w id → owned_below w' id.
Proof.
  intros [Hr Hs] Hu Hid Ho v Hv Hlt. destruct (in_order_new _ _ _ Hs Hv) as [Hold|Hnew]; [by apply Hr, Ho |].
  specialize (Hnew u Hu). lia.
Qed.
Lemma bot_pre_mono {A} w w' (c : bot_call A) : bot_le w w' → bot_pre w c → bot_pre w' c.
Proof.
  intros Hw. destruct c; cbn; try done.
  - intros ((u & Hu & <- & Hk & Hc) & Ho). split; [exists u; split_and!; [by eapply ble_elem | done..] |].
    eapply owned_below_mono; [done.. | lia | done].
  - intros [?|(Ho & u & Hu & Hle)]; [by left |]. right. split; [by eapply owned_below_mono |].
    exists u. split; [by eapply ble_elem | done].
Qed.

#[global] Instance bot_protocol : Protocol bot_error bot_call bot_query bot_world := {
  p_le := bot_le;
  p_pre A := @bot_pre A;
  p_post A := @bot_post A;
  p_ans A w q x := True;
  p_preorder := bot_le_preorder;
  p_pre_mono A := @bot_pre_mono A;
}.

Lemma batch_mono w w' us : bot_le w w' → batch_ok w us → batch_ok w' us.
Proof.
  intros Hw (Hs & Hg). split; [intros x Hx; by eapply ble_elem, Hs |].
  intros k u v Hu Hv Hlt. destruct (in_order_new _ _ _ (ble_sent _ _ Hw) Hv) as [Hold|Hnew].
  - destruct (Hg k u v Hu Hold Hlt); [left; by apply Hw | by right].
  - specialize (Hnew u (Hs _ (list_elem_of_lookup_2 _ _ _ Hu))). lia.
Qed.
Lemma batch_tail w w' u us :
  bot_le w w' → up_UpdateID u ∈ bw_rows w' → batch_ok w (u :: us) → batch_ok w' us.
Proof.
  intros Hw Hrow [Hs Hg]%(batch_mono _ _ _ Hw). split; [intros x Hx; apply Hs; by right |].
  intros k x v Hx Hv Hlt. destruct (Hg (S k) x v Hx Hv Hlt) as [|[->|]%elem_of_cons]; [by left | by left | by right].
Qed.
Lemma batch_head w u us :
  batch_ok w (u :: us) → sent_as w (up_UpdateID u) (Kind u) (ChatID u) ∧ owned_below w (up_UpdateID u).
Proof.
  intros (Hs & Hg). split; [exists u; split_and!; [apply Hs; by left | done..] |].
  intros v Hv Hlt. by destruct (Hg 0%nat u v eq_refl Hv Hlt) as [|?%elem_of_nil].
Qed.

Section receiver.
Variable rg : Registry.
Variable batchLimit : Z.
Context (Htame : ∀ k h dv, rg_handlers rg !! k = Some h → tame (h dv))
        (Hknown : ∀ known w chat, rg_knownChat rg = Some known → safe w (known chat) (λ _ _, True)).

Lemma complete_safe w id o : safe w (complete id o) (λ _ _, True).
Proof. cbn. split; [apply tame_const |]. intros w' [x|e] _ _; cbn; [done |]. by case_match. Qed.

Lemma route_safe w p : safe w (route rg p) (λ _ _, True).
Proof.
  unfold route. case_bool_decide; [apply complete_safe |]. apply safe_then with (Φ := λ _ _, True).
  - unfold isKnownChat. destruct (rg_knownChat rg) as [known|] eqn:E; [| done]. case_match; [by apply (Hknown known) | done].
  - intros w1 [known|e] _ _; [| done]. case_match; [apply complete_safe |].
    destruct (rg_handlers rg !! pu_Kind p) as [h|] eqn:Hh; [| apply complete_safe].
    cbn. split; [eapply tame_wrap, Htame, Hh |]. intros w2 [x|e] _ _; cbn; [done |]. by case_match.
Qed.
Lemma dispatch_safe w p : safe w (dispatch rg p) (λ _ _, True).
Proof. eapply safe_then; [apply route_safe |]. by intros w' [o|e] _ _. Qed.

Lemma accept_batch_safe w us : batch_ok w us → safe w (accept_batch rg us) (λ _ _, True).
Proof.
  revert w. induction us as [|u us IH]; intros w Hus; cbn -[dispatch]; [done |].
  intros w1 [|] Hw1 _; cbn -[dispatch]; [done |].
  pose proof (batch_mono _ _ _ Hw1 Hus) as Hus1.
  destruct (batch_head _ _ _ Hus1) as [Hsent Howned]. split; [by split |].
  intros w2 [a|e] Hw2 Hrow; cbn -[dispatch]; [| done]. cbn in Hrow.
  assert (batch_ok w2 us) as Hus2 by by eapply batch_tail.
  destruct (negb a); cbn -[dispatch]; [by apply IH |]. unfold bind_ok. apply safe_seq.
  eapply safe_then; [apply dispatch_safe |]. intros w3 o Hw3 _. cbn. by apply IH, (batch_mono w2).
Qed.

Lemma pollOnce_safe w : safe w (pollOnce rg) (λ _ _, True).
Proof.
  unfold pollOnce. cbn -[accept_batch]. split; [done |]. intros w1 [offset|e] _ Hoff; cbn -[accept_batch]; [| done].
  split; [done |]. intros w2 [us|e] _ Hus; cbn -[accept_batch]; [| done]. by apply accept_batch_safe.
Qed.

Lemma sweep_page_safe w ps after : safe w (sweep_page rg ps after) (λ _ _, True).
Proof.
  revert w after. induction ps as [|p ps IH]; intros w after; cbn -[dispatch]; [done |].
  intros w1 [|] _ _; cbn -[dispatch]; [done |]. eapply safe_then; [apply dispatch_safe |]. intros w2 o _ _. apply IH.
Qed.
Lemma sweep_pages_safe w fuel after : safe w (sweep_pages rg batchLimit fuel after) (λ _ _, True).
Proof.
  revert w after. induction fuel as [|fuel IH]; intros w after; cbn -[sweep_page]; [done |].
  intros w1 [|] _ _; cbn -[sweep_page]; [done |]. split; [done |]. intros w2 [[|p ps]|e] _ _; try done.
  change (safe w2 (bind (sweep_page rg (p :: ps) after) (λ st, if st.2 then Ret true
     else if Z.of_nat (length (p :: ps)) <? batchLimit then Ret true else sweep_pages rg batchLimit fuel st.1)) (λ _ _, True)).
  eapply safe_then; [apply sweep_page_safe |]. intros w3 [after' stop] _ _. cbn [fst snd].
  do 2 (case_match; [done |]). apply IH.
Qed.
Lemma round_safe w fuel : safe w (round rg batchLimit fuel) (λ _ _, True).
Proof.
  unfold round. cbn -[sweepPending pollOnce]. intros w1 [|] _ _; [done |].
  eapply safe_then; [apply sweep_pages_safe |]. intros w2 _ _ _. unfold forget.
  eapply safe_then; [apply pollOnce_safe | done].
Qed.
End receiver.

(** The registry of the server ([cmd/server/main.go]) *)
Definition server_registry : Registry := MkRegistry {[ KindStartCommand := StartHandler ]} (Some KnownChatFunc).

Lemma server_registry_tame k h dv : rg_handlers server_registry !! k = Some h → tame (h dv).
Proof. cbn. intros [<- <-]%lookup_singleton_Some. apply tame_start. Qed.
Lemma KnownChatFunc_safe w chat : safe w (KnownChatFunc chat) (λ _ _, True).
Proof. unfold KnownChatFunc. case_match; [done |]. cbn. split; [done |]. by intros w' [u|[]] _ _. Qed.
