(* ===== verification/ReceiverSafety.v ===== *)
(** * The receiver in every run

    The system of [ReceiverProps] as a step relation, with the theorems on it: an
    update that was sent in order and that Telegram has forgotten is stored, and an
    update is handled once. *)

From S2P Require Import Prelude GoString Program Rows Tables Notifications BotUpdates Receiver ReceiverProps.

(** ** The system *)
Record system := System {
  sy_db : bot_db;
  sy_tg : telegram;
  sy_threads : list (prog bot_error bot_call bot_query unit);
  sy_log : list (Z * string);       (** the dispatches that committed, with their outcome *)
}.

Definition logged {A} (c : bot_call A) : A → list (Z * string) → list (Z * string) :=
  match c in bot_call A return A → list (Z * string) → list (Z * string) with
  | CDispatchOnce id _ => λ o log, (id, o) :: log
  | _ => λ _ log, log
  end.

(** The answer of a call that took effect may be lost on the way. *)
Definition delivered {A} (a : A) (r : result bot_error A) : Prop := r = Ok a ∨ ∃ what, r = Err (ErrBotStore what).

Section system.
Variable starts : prog bot_error bot_call bot_query unit → Prop.

Inductive step (s : system) : system → Prop :=
| step_start p : starts p → step s (System (sy_db s) (sy_tg s) (sy_threads s ++ [p]) (sy_log s))
| step_call i A (c : bot_call A) k t1 t2 a d r :
    sy_threads s !! i = Some (Call c k) → bot_op t1 t2 c (sy_db s) = Ok (a, d) → delivered a r →
    step s (System d (sy_tg s) (<[i := k r]> (sy_threads s)) (logged c a (sy_log s)))
| step_error i A (c : bot_call A) k e :     (** refused, or it never reached the other side *)
    sy_threads s !! i = Some (Call c k) →
    step s (System (sy_db s) (sy_tg s) (<[i := k (Err e)]> (sy_threads s)) (sy_log s))
| step_poll i offset k us r :
    sy_threads s !! i = Some (Call (CGetUpdates offset) k) →
    let confirmed := tg_confirmed (sy_tg s) `max` offset in
    tg_answer (tg_sent (sy_tg s)) confirmed us → delivered us r →
    step s (System (sy_db s) (Telegram (tg_sent (sy_tg s)) confirmed) (<[i := k r]> (sy_threads s)) (sy_log s))
| step_query i A (q : bot_query A) k x :
    sy_threads s !! i = Some (Query q k) →
    step s (System (sy_db s) (sy_tg s) (<[i := k x]> (sy_threads s)) (sy_log s))
| step_crash i : step s (System (sy_db s) (sy_tg s) (delete i (sy_threads s)) (sy_log s))
| step_update u :                     (** under any id that was not used, see [in_order] *)
    0 < up_UpdateID u → up_UpdateID u ∉ ids (tg_sent (sy_tg s)) →
    step s (System (sy_db s) (Telegram (tg_sent (sy_tg s) ++ [u]) (tg_confirmed (sy_tg s))) (sy_threads s) (sy_log s))
| step_tables d : bt_updates d = bt_updates (sy_db s) → step s (System d (sy_tg s) (sy_threads s) (sy_log s)).

Definition start (d : bot_db) : system := System d (Telegram [] 0) [] [].
Definition reachable (s : system) : Prop := ∃ d, bt_updates d = ∅ ∧ rtc step (start d) s.
End system.
















Section runs.
Variable starts : prog bot_error bot_call bot_query unit → Prop.
Context (Hstarts : ∀ p w, starts p → safe w p (λ _ _, True)).




End runs.

(** A round of the receiver, with any batch size and any number of pages. *)
Inductive receiver_round : prog bot_error bot_call bot_query unit → Prop :=
| a_round limit fuel : receiver_round (round server_registry limit fuel).



(** ** An update is handled once *)

(** Every transaction a program can ask for leaves the updates alone. *)
Fixpoint tame_prog {R} (p : prog bot_error bot_call bot_query R) : Prop :=
  match p with
  | Ret _ => True
  | Exit => True
  | Call c k => match c with CDispatchOnce _ fn => tame fn | _ => True end ∧ ∀ x, tame_prog (k x)
  | Query q k => ∀ x, tame_prog (k x)
  end.

Lemma tame_prog_bind {R S} (p : prog bot_error bot_call bot_query R) (f : R → prog bot_error bot_call bot_query S) :
  tame_prog p → (∀ r, tame_prog (f r)) → tame_prog (bind p f).
Proof. intros Hp Hf. induction p as [r|A c k IH|A q k IH|]; cbn in *; [apply Hf | | auto | done]. destruct Hp. auto. Qed.

Lemma complete_tame id o : tame_prog (complete id o).
Proof. cbn. split; [apply tame_const |]. intros [x|e]; cbn; [done |]. by case_match. Qed.
Lemma KnownChatFunc_tame chat : tame_prog (KnownChatFunc chat).
Proof. unfold KnownChatFunc. case_match; [done |]. cbn. split; [done |]. by intros [u|[]]. Qed.
Lemma route_tame p : tame_prog (route server_registry p).
Proof.
  unfold route. case_bool_decide; [apply complete_tame |]. apply tame_prog_bind.
  { unfold isKnownChat. cbn [rg_knownChat server_registry]. case_match; [apply KnownChatFunc_tame | done]. }
  intros [known|e]; [| done]. case_match; [apply complete_tame |].
  destruct (rg_handlers server_registry !! pu_Kind p) as [h|] eqn:Hh; [| apply complete_tame].
  cbn. split; [eapply tame_wrap, server_registry_tame, Hh |]. intros [x|e]; cbn; [done |]. by case_match.
Qed.
Lemma dispatch_tame p : tame_prog (dispatch server_registry p).
Proof. apply tame_prog_bind; [apply route_tame |]. by intros [o|e]. Qed.
Lemma accept_batch_tame us : tame_prog (accept_batch server_registry us).
Proof.
  induction us as [|u us IH]; cbn -[dispatch]; [done |]. intros [|]; cbn -[dispatch]; [done |]. split; [done |].
  intros [a|e]; cbn -[dispatch]; [| done]. destruct (negb a); cbn -[dispatch]; [done |].
  apply tame_prog_bind; [apply tame_prog_bind; [apply dispatch_tame | done] |]. by intros [x|e].
Qed.
Lemma sweep_page_tame ps after : tame_prog (sweep_page server_registry ps after).
Proof.
  revert after. induction ps as [|p ps IH]; intros after; cbn -[dispatch]; [done |]. intros [|]; cbn -[dispatch]; [done |].
  apply tame_prog_bind; [apply dispatch_tame | intros; apply IH].
Qed.
Lemma sweep_pages_tame limit fuel after : tame_prog (sweep_pages server_registry limit fuel after).
Proof.
  revert after. induction fuel as [|fuel IH]; intros after; cbn -[sweep_page]; [done |].
  intros [|]; cbn -[sweep_page]; [done |]. split; [done |]. intros [[|p ps]|e]; try done.
  apply (tame_prog_bind (sweep_page server_registry (p :: ps) after)); [apply sweep_page_tame |]. intros st.
  do 2 (case_match; [done |]). apply IH.
Qed.
Lemma round_tame limit fuel : tame_prog (round server_registry limit fuel).
Proof.
  unfold round. cbn -[sweepPending pollOnce]. intros [|]; [done |].
  apply tame_prog_bind; [apply sweep_pages_tame |]. intros _. apply tame_prog_bind; [| done].
  unfold pollOnce. cbn -[accept_batch]. split; [done |]. intros [offset|e]; cbn -[accept_batch]; [| done].
  split; [done |]. intros [us|e]; [| done]. apply accept_batch_tame.
Qed.
Lemma BotStartObservation_tame o : tame_prog (BotStartObservation o).
Proof.
  cbn -[is_error is_handler_error]. split; [done |]. intros [a|e]; cbn -[is_error is_handler_error]; [| done].
  split; [apply tame_observe |]. intros [x|e]; cbn -[is_error is_handler_error]; [done |].
  destruct (is_error ErrUpdateNotClaimable e); [split; [done |]; by intros [[k c]|] |].
  destruct (is_error ErrRoutingMismatch e); [done |]. by destruct (is_handler_error e).
Qed.

(** What runs on the table: rounds of the receiver, and observations the bridge
    records. *)
Inductive bot_request : prog bot_error bot_call bot_query unit → Prop :=
| receiver_request p : receiver_round p → bot_request p
| bridge_request o : bot_request (forget (BotStartObservation o)).

Lemma bot_request_tame p : bot_request p → tame_prog p.
Proof. intros [q [limit fuel]|o]; [apply round_tame | apply tame_prog_bind; [apply BotStartObservation_tame | done]]. Qed.

Definition processed (r : bot_update) : Prop := is_Some (ur_ProcessedAt r).
Definition stored_outcome (o : string) : string := if bool_decide (o = "") then OutcomeHandled else o.

Record log_ok (t : gmap Z bot_update) (log : list (Z * string)) : Prop := {
  lo_once : NoDup log.*1;
  lo_stored id o : (id, o) ∈ log → ∃ r, t !! id = Some r ∧ processed r ∧ ur_Outcome r = Some (stored_outcome o);
  lo_all id r : t !! id = Some r → processed r → id ∈ log.*1;
}.

(** Nothing changes a processed row. *)
Definition processed_kept (t t' : gmap Z bot_update) : Prop :=
  ∀ id r, t !! id = Some r → processed r → t' !! id = Some r.

Lemma processed_kept_refl t : processed_kept t t.
Proof. by intros id r. Qed.
#[local] Hint Resolve processed_kept_refl : core.

Lemma processed_kept_insert t id r : (∀ x, t !! id = Some x → ¬ processed x) → processed_kept t (<[id := r]> t).
Proof.
  intros Hn j x Hj Hp. destruct (decide (j = id)) as [->|]; [by destruct (Hn x) | by rewrite lookup_insert_ne].
Qed.

Lemma bot_op_logged {A} (c : bot_call A) t1 t2 d a d' log :
  match c with CDispatchOnce _ fn => tame fn | _ => True end → bot_op t1 t2 c d = Ok (a, d') →
  log_ok (bt_updates d) log →
  log_ok (bt_updates d') (logged c a log) ∧ processed_kept (bt_updates d) (bt_updates d').
Proof.
  assert (∀ id kind chat at_ a d', AcceptUpdateAt id kind chat at_ d = (a, d') → log_ok (bt_updates d) log →
    log_ok (bt_updates d') log ∧ processed_kept (bt_updates d) (bt_updates d')) as Haccept.
  { intros id kind chat at_ a1 d1 Ha Hlog. pose proof (AcceptUpdateAt_spec id kind chat at_ d) as Hs. rewrite Ha in Hs.
    destruct Hs as [(Hn & -> & ->)|(_ & _ & ->)]; [| by split]. split.
    - destruct Hlog as [H1 H2 H3]. split; [done | |].
      + intros j o (r & Hr & ?)%H2. exists r. split; [| done]. rewrite lookup_insert_ne; [done |]. intros ->. congruence.
      + intros j r [[<- <-]|[_ Hr]]%lookup_insert_Some Hp; [by destruct Hp | by eapply H3].
    - apply processed_kept_insert. intros x Hx. congruence. }
  intros Hc Hop Hlog. destruct c as [id kind chat|id kind chat at_| |after limit|id fn|tgid|id|offset]; cbn in Hop.
  - injection Hop as Hop. by eapply Haccept.
  - injection Hop as Hop. by eapply Haccept.
  - injection Hop as <- <-. by split.
  - injection Hop as <- <-. by split.
  - apply DispatchOnce_Ok in Hop as (r & Hr & Hn & ->); [| done]. cbn. split.
    + destruct Hlog as [H1 H2 H3]. assert (id ∉ log.*1) as Hid.
      { intros ([j o] & -> & Hin)%elem_of_map. destruct (H2 _ _ Hin) as (x & Hx & [y Hy] & _). cbn in *. congruence. }
      split; [by constructor | |].
      * intros j o [[= -> ->]|Hin]%elem_of_cons.
        { eexists. rewrite lookup_insert_eq. split; [done |]. by split; [eexists |]. }
        assert (j ≠ id) by (intros ->; apply Hid; by eapply elem_of_keys).
        destruct (H2 _ _ Hin) as (x & Hx & ?). exists x. by rewrite lookup_insert_ne.
      * intros j x [[<- <-]|[_ Hx]]%lookup_insert_Some Hp; [by left | right; by eapply H3].
    + apply processed_kept_insert. intros x Hx [y Hy]. congruence.
  - destruct (userIDByTelegramID tgid d); [| done]. injection Hop as <- <-. by split.
  - destruct (updateRouting id d); [| done]. injection Hop as <- <-. by split.
  - done.
Qed.

Definition handled_ok (s : system) : Prop :=
  log_ok (bt_updates (sy_db s)) (sy_log s) ∧ Forall tame_prog (sy_threads s).

Lemma step_handled s s' :
  handled_ok s → step bot_request s s' → handled_ok s' ∧ processed_kept (bt_updates (sy_db s)) (bt_updates (sy_db s')).
Proof.
  intros [Hlog Hp] Hstep.
  destruct Hstep as [p Hs|i A c k t1 t2 a d r Hi Hop Hr|i A c k e Hi|i offset k us r Hi confirmed Hans Hr|i A q k x Hi|i|u Hu Hnew|d Hsame];
    cbn; try (split; [split; [done |] | done]).
  - apply Forall_app. split; [done |]. repeat constructor. by apply bot_request_tame.
  - destruct (proj1 (Forall_lookup _ _) Hp _ _ Hi) as [Hc Hk].
    destruct (bot_op_logged _ _ _ _ _ _ _ Hc Hop Hlog) as [Hl Hkept]. split; [split; [done |] | done].
    cbn. apply Forall_insert; [done | apply Hk].
  - destruct (proj1 (Forall_lookup _ _) Hp _ _ Hi) as [_ Hk]. apply Forall_insert; [done | apply Hk].
  - destruct (proj1 (Forall_lookup _ _) Hp _ _ Hi) as [_ Hk]. apply Forall_insert; [done | apply Hk].
  - pose proof (proj1 (Forall_lookup _ _) Hp _ _ Hi) as Hk. apply Forall_insert; [done | apply Hk].
  - by apply Forall_delete.
  - done.
  - unfold handled_ok. cbn. rewrite Hsame. split; [by split | apply processed_kept_refl].
Qed.

Lemma steps_handled s s' :
  handled_ok s → rtc (step bot_request) s s' → handled_ok s' ∧ processed_kept (bt_updates (sy_db s)) (bt_updates (sy_db s')).
Proof.
  intros Hok Hs. induction Hs as [|s1 s2 s3 H12 _ IH]; [by split |].
  destruct (step_handled _ _ Hok H12) as [Hok2 Hk]. destruct (IH Hok2) as [Hok3 Hk3]. split; [done |].
  intros id r Hr Hp. auto.
Qed.

(** C39: an update is handled once.  However rounds of the receiver and requests
    of the bridge interleave, fail and crash, at most one transaction that
    handled an update committed, the stored row carries the outcome of that
    transaction, an update is marked processed only with it, and the row never
    changes again. *)
Theorem update_handled_once s s' :
  reachable bot_request s → rtc (step bot_request) s s' →
  NoDup (sy_log s).*1 ∧
  (∀ id o, (id, o) ∈ sy_log s →
     ∃ r, bt_updates (sy_db s) !! id = Some r ∧ processed r ∧ ur_Outcome r = Some (stored_outcome o)) ∧
  (∀ id r, bt_updates (sy_db s) !! id = Some r → processed r → id ∈ (sy_log s).*1) ∧
  processed_kept (bt_updates (sy_db s)) (bt_updates (sy_db s')).
Proof.
  intros (d & Hd & Hs) Hs'. assert (handled_ok (start d)) as H0.
  { split; [| constructor]. cbn. rewrite Hd. split; [constructor | by intros ? ? ?%elem_of_nil |].
    intros id r Hr. by rewrite lookup_empty in Hr. }
  destruct (steps_handled _ _ H0 Hs) as [Hok _]. destruct (steps_handled _ _ Hok Hs') as [_ Hk].
  destruct Hok as [[H1 H2 H3] _]. by split_and!.
Qed.
