(* ===== verification/ReceiverSweep.v ===== *)
(** * A sweep ends

    The recovery of updates that were acknowledged but not handled, when nobody
    disturbs it; and a run of the receiver by hand. *)

From S2P Require Import Prelude GoString Program Rows Tables Notifications BotUpdates Receiver ReceiverProps ReceiverSafety.

(** A run that nobody disturbs: the context is not cancelled, the clock shows
    anything. *)
#[global] Instance receiver_machine : Machine bot_error bot_call bot_query (time * time) bot_db := {
  m_op _ t c d := bot_op t.1 t.2 c d;
  m_answer _ q := match q with QCancelled => λ x, x = false end;
}.

(** Only the row [id] may have changed, and not its routing. *)
Record touches (id : Z) (d d' : bot_db) : Prop := {
  to_others j : j ≠ id → bt_updates d' !! j = bt_updates d !! j;
  to_logins : bt_logins d' = bt_logins d;
  to_accounts : bt_accounts d' = bt_accounts d;
}.

(** The updates have a time of receipt and users have positive ids: what the
    [/start] handler needs. *)
Definition healthy (d : bot_db) : Prop :=
  (∀ i r, bt_updates d !! i = Some r → IsZero (ur_ReceivedAt r) = false) ∧
  (∀ tg u, userIDByTelegramID tg d = Ok u → 0 < u).

Definition pending_row (d : bot_db) (p : PendingUpdate) : Prop :=
  ∃ r, bt_updates d !! pu_UpdateID p = Some r ∧ unprocessed r = true ∧ p = pending_of (pu_UpdateID p, r).

(** After a dispatch of [id] *)
Definition attempted (id : Z) (d d' : bot_db) : Prop :=
  touches id d d' ∧ ∃ r r', bt_updates d !! id = Some r ∧ bt_updates d' !! id = Some r' ∧
    ur_ReceivedAt r' = ur_ReceivedAt r ∧ (healthy d → processed r').

Definition quiet (fn : txn) : Prop :=
  ∀ d o d', fn d = Ok (o, d') → bt_updates d' = bt_updates d ∧ bt_logins d' = bt_logins d ∧ bt_accounts d' = bt_accounts d.

Lemma quiet_start dv : quiet (wrap_handler (StartHandler dv)).
Proof.
  intros d o d'. unfold wrap_handler, StartHandler, RecordBotStartTx. destruct (dv_ChatID dv) as [chat|]; [| by intros [= <- <-]].
  destruct (chat <=? 0); [by intros [= <- <-] |].
  destruct (userIDByTelegramID chat d) as [u|[]]; try done; try by intros [= <- <-].
  destruct (UpdateReceivedAtTx _ d) as [at_|]; [| done].
  destruct (RecordInboundBotReachabilityTx _ _ _ _ _) as [[applied n]|]; [| done]. by intros [= <- <-].
Qed.

Lemma DispatchOnce_attempted t1 t2 id fn d r :
  quiet fn → bt_updates d !! id = Some r → unprocessed r = true →
  (healthy d → is_ok (fn (d <|bt_updates := <[id := r <|ur_ClaimedAt := Some t1|>]> (bt_updates d)|>)) = true) →
  match DispatchOnce t1 t2 id fn d with Ok (_, d') => attempted id d d' | Err _ => attempted id d d end.
Proof.
  intros Hq Hr Hp Hok. unfold DispatchOnce. rewrite (proj2 (update_row_Some _ _ _ _ _)) by by exists r.
  destruct (fn _) as [[o d1]|e] eqn:E.
  - apply Hq in E as (E1 & E2 & E3). cbn in E1, E2, E3. split.
    + split; cbn; [| by rewrite E2 | by rewrite E3]. intros j Hj. rewrite E1, lookup_alter_ne, lookup_insert_ne by done. done.
    + cbn. rewrite E1, lookup_alter_eq, lookup_insert_eq. exists r. eexists. split_and!; [done | done | done | by intros; eexists].
  - split; [by split |]. exists r, r. split_and!; [done.. |]. intros Hh. specialize (Hok Hh). by cbn in Hok.
Qed.

Lemma complete_alone id o d r :
  bt_updates d !! id = Some r → unprocessed r = true → alone (complete id o) d (λ _ d', attempted id d d').
Proof.
  intros Hr Hp. cbn -[DispatchOnce is_error]. intros [t1 t2]. cbn -[DispatchOnce is_error].
  pose proof (DispatchOnce_attempted t1 t2 id (λ d, Ok (o, d)) d r ltac:(by intros ? ? ? [= <- <-]) Hr Hp ltac:(done)) as H.
  destruct (DispatchOnce _ _ _ _ _) as [[x d']|e]; cbn -[is_error]; [done |]. by destruct (is_error _ e).
Qed.

Lemma handler_succeeds dv d r t :
  healthy d → bt_updates d !! dv_UpdateID dv = Some r →
  is_ok (wrap_handler (StartHandler dv)
           (d <|bt_updates := <[dv_UpdateID dv := r <|ur_ClaimedAt := Some t|>]> (bt_updates d)|>)) = true.
Proof.
  intros [Hz Hpos] Hr. unfold wrap_handler, StartHandler, RecordBotStartTx. destruct (dv_ChatID dv) as [chat|]; [| done].
  destruct (chat <=? 0) eqn:Hc; [done |]. pose proof (Hpos chat) as Hp. unfold userIDByTelegramID, candidates in *.
  rewrite Hc in *. cbn [bt_logins bt_accounts] in *.
  destruct (elements _) as [|u [|]]; [done | | done]. specialize (Hp u eq_refl).
  unfold UpdateReceivedAtTx. cbn. rewrite lookup_insert_eq. unfold RecordInboundBotReachabilityTx. cbn.
  rewrite (proj2 (Z.leb_gt u 0) Hp), (Hz _ _ Hr). by repeat case_match.
Qed.

Lemma KnownChatFunc_alone chat d : alone (KnownChatFunc chat) d (λ r d', d' = d ∧ ∃ known, r = Ok known).
Proof.
  unfold KnownChatFunc. destruct (chat <=? 0) eqn:Hc; [cbn; eauto |]. cbn. intros _.
  unfold userIDByTelegramID. rewrite Hc. destruct (elements _) as [|u [|]]; cbn; eauto.
Qed.

Lemma dispatch_alone p d : pending_row d p → alone (dispatch server_registry p) d (λ _ d', attempted (pu_UpdateID p) d d').
Proof.
  intros (r & Hr & Hu & Hp). unfold dispatch. apply alone_bind.
  eapply alone_mono with (Φ := λ _ d', attempted (pu_UpdateID p) d d'); [by intros [x|e] d' | ].
  unfold route. case_bool_decide; [by eapply complete_alone |]. apply alone_bind.
  eapply alone_mono with (Φ := λ x d', d' = d ∧ ∃ known, x = Ok known).
  - intros x d' (-> & known & ->). destruct (negb known); [by eapply complete_alone |].
    cbn [rg_handlers server_registry]. destruct (decide (pu_Kind p = KindStartCommand)) as [->|Hk].
    + rewrite lookup_singleton_eq. cbn -[DispatchOnce is_error]. intros [t1 t2]. cbn -[DispatchOnce is_error].
      set (dv := MkDelivery (pu_UpdateID p) KindStartCommand (pu_ChatID p)).
      pose proof (DispatchOnce_attempted t1 t2 (pu_UpdateID p) _ d r (quiet_start dv) Hr Hu
        (λ Hh, handler_succeeds dv d r t1 Hh Hr)) as H'.
      destruct (DispatchOnce _ _ _ _ _) as [[y d']|e]; cbn -[is_error]; [done |]. by destruct (is_error _ e).
    + rewrite lookup_singleton_ne by done. by eapply complete_alone.
  - unfold isKnownChat. cbn [rg_knownChat server_registry]. destruct (pu_ChatID p); [apply KnownChatFunc_alone | cbn; eauto].
Qed.

Lemma healthy_attempted id d d' : attempted id d d' → healthy d → healthy d'.
Proof.
  intros ([Ho Hl Ha] & r & r' & Hr & Hr' & Hat & _) [Hz Hp]. split.
  - intros i x Hx. destruct (decide (i = id)) as [->|Hne]; [| rewrite Ho in Hx by done; by eapply Hz].
    rewrite Hr' in Hx. injection Hx as <-. rewrite Hat. by eapply Hz.
  - intros tg u. unfold userIDByTelegramID, candidates. rewrite Hl, Ha. apply Hp.
Qed.

(** After a dispatch of each of [S], once or more *)
Record attempted_all (S : gset Z) (d d' : bot_db) : Prop := {
  aa_others j : j ∉ S → bt_updates d' !! j = bt_updates d !! j;
  aa_done j : j ∈ S → healthy d → ∀ r, bt_updates d' !! j = Some r → processed r;
  aa_healthy : healthy d → healthy d';
}.

Lemma attempted_all_nil d : attempted_all ∅ d d.
Proof. by split. Qed.

Lemma attempted_all_step id S d d1 d' :
  attempted id d d1 → id ∉ S → attempted_all S d1 d' → attempted_all ({[id]} ∪ S) d d'.
Proof.
  intros Ha Hid [H1 H2 H3]. pose proof (healthy_attempted _ _ _ Ha) as Hh.
  destruct Ha as ([Ho _ _] & r & r' & Hr & Hr' & _ & Hp). split.
  - intros j Hj. rewrite H1 by set_solver. apply Ho. set_solver.
  - intros j Hj Hd x Hx. destruct (decide (j ∈ S)) as [HS|HS]; [by apply (H2 j HS); [apply Hh |] |].
    assert (j = id) as -> by set_solver. rewrite H1 in Hx by done. rewrite Hr' in Hx. injection Hx as <-. by apply Hp.
  - auto.
Qed.

Lemma attempted_all_trans S S' d d1 d' : attempted_all S d d1 → attempted_all S' d1 d' → attempted_all (S ∪ S') d d'.
Proof.
  intros [H1 H2 H3] [H1' H2' H3']. split.
  - intros j Hj. rewrite H1', H1 by set_solver. done.
  - intros j Hj Hd x Hx. destruct (decide (j ∈ S')) as [HS|HS]; [by apply (H2' j HS); [apply H3 |] |].
    rewrite H1' in Hx by done. apply (H2 j); [set_solver | done..].
  - auto.
Qed.

Definition cursor (ps : list PendingUpdate) (after : Z) : Z :=
  foldl (λ a p, if a <? pu_UpdateID p then pu_UpdateID p else a) after ps.
Definition pids (ps : list PendingUpdate) : list Z := map pu_UpdateID ps.

Lemma cursor_bounds ps after :
  after ≤ cursor ps after ∧ (∀ p, p ∈ ps → pu_UpdateID p ≤ cursor ps after) ∧
  (cursor ps after = after ∨ cursor ps after ∈ pids ps).
Proof.
  revert after. induction ps as [|p ps IH]; intros after; cbn; [split_and!; [lia | by intros p ?%elem_of_nil | by left] |].
  fold (cursor ps (if after <? pu_UpdateID p then pu_UpdateID p else after)).
  destruct (IH (if after <? pu_UpdateID p then pu_UpdateID p else after)) as (H1 & H2 & H3).
  destruct (Z.ltb_spec after (pu_UpdateID p)); split_and!; try lia.
  1,3: intros q [->|Hq]%elem_of_cons; [lia | auto].
  all: rewrite elem_of_cons; destruct H3; auto.
Qed.

Lemma sweep_page_alone ps after d :
  NoDup (pids ps) → (∀ p, p ∈ ps → pending_row d p) →
  alone (sweep_page server_registry ps after) d
    (λ st d', st = (cursor ps after, false) ∧ attempted_all (list_to_set (pids ps)) d d').
Proof.
  revert after d. induction ps as [|p ps IH]; intros after d Hnd Hps; [cbn; split; [done | apply attempted_all_nil] |].
  cbn -[dispatch]. intros ? ->. apply alone_bind. eapply alone_mono; [| apply dispatch_alone, Hps; by left].
  intros o d1 Ha. apply NoDup_cons in Hnd as [Hp Hnd]. eapply alone_mono; [| apply (IH _ d1 Hnd)].
  - intros st d' [-> Hall]. split; [done |]. cbn. eapply attempted_all_step; [exact Ha | by rewrite elem_of_list_to_set | done].
  - intros q Hq. destruct (Hps q ltac:(by right)) as (r & Hr & Hu & Hpq). exists r. split_and!; [| done..].
    destruct Ha as ([Ho _ _] & _). rewrite Ho; [done |]. intros E. apply Hp. rewrite <- E. apply elem_of_map. by exists q.
Qed.

(** *** The pages *)
Definition pending_ids (after : Z) (d : bot_db) : gset Z :=
  dom (filter (λ x : Z * bot_update, unprocessed x.2 && (after <? x.1) = true) (bt_updates d)).
Definition pending_rows (after : Z) (d : bot_db) : list (Z * bot_update) :=
  filter (λ x : Z * bot_update, unprocessed x.2 && (after <? x.1) = true) (sorted_rows (bt_updates d)).

Lemma elem_of_pending_ids after d i :
  i ∈ pending_ids after d ↔ ∃ r, bt_updates d !! i = Some r ∧ unprocessed r = true ∧ after < i.
Proof.
  unfold pending_ids. rewrite elem_of_dom. split.
  - intros [r [Hr Hx]%map_lookup_filter_Some]. cbn in Hx. apply andb_true_iff in Hx as [? ?%Z.ltb_lt]. by exists r.
  - intros (r & Hr & Hu & Hlt). exists r. apply map_lookup_filter_Some. split; [done |]. cbn. rewrite Hu. by apply Z.ltb_lt in Hlt as ->.
Qed.
Lemma elem_of_pending_rows after d i r :
  (i, r) ∈ pending_rows after d ↔ bt_updates d !! i = Some r ∧ unprocessed r = true ∧ after < i.
Proof.
  unfold pending_rows. rewrite list_elem_of_filter, elem_of_sorted_rows. cbn. rewrite andb_true_iff, Z.ltb_lt. tauto.
Qed.
Lemma pending_rows_order after d : StronglySorted (λ x y : Z * bot_update, x.1 < y.1) (pending_rows after d).
Proof.
  unfold pending_rows. pose proof (StronglySorted_merge_sort by_id (map_to_list (bt_updates d))) as Hs.
  fold (sorted_rows (bt_updates d)) in Hs.
  assert (NoDup (sorted_rows (bt_updates d)).*1) as Hnd.
  { unfold sorted_rows. rewrite merge_sort_Permutation. apply NoDup_fst_map_to_list. }
  induction Hs as [|x l Hs IH Hx]; [constructor |]. cbn in Hnd. apply NoDup_cons in Hnd as [Hn Hnd].
  rewrite filter_cons. case_decide; [| by apply IH]. constructor; [by apply IH |].
  rewrite Forall_forall in Hx |- *. intros y [_ Hy]%list_elem_of_filter. specialize (Hx y Hy). unfold by_id in Hx.
  assert (x.1 ≠ y.1); [| lia]. intros E. apply Hn. rewrite E. apply list_elem_of_fmap. by exists y.
Qed.

(** A page of the pending rows *)
Section page.
Variables (after : Z) (n : nat) (d : bot_db).
Let ps := map pending_of (take n (pending_rows after d)).

Lemma page_pending p : p ∈ ps → pending_row d p ∧ after < pu_UpdateID p.
Proof.
  intros ([i r] & -> & Hin)%elem_of_map. assert ((i, r) ∈ pending_rows after d) as Hi.
  { rewrite <- (take_drop n (pending_rows after d)). apply elem_of_app. by left. }
  apply elem_of_pending_rows in Hi as (Hr & Hu & Hlt). split; [by exists r | done].
Qed.

Lemma page_NoDup : NoDup (pids ps).
Proof.
  unfold ps, pids. rewrite map_map. cbn. pose proof (pending_rows_order after d) as Hs.
  revert Hs. generalize (pending_rows after d) as l. clear ps. intros l Hs. revert n.
  induction Hs as [|x l Hs IH Hx]; intros [|m]; cbn; try constructor; [| apply IH].
  intros ([i r] & E & Hin)%elem_of_map. cbn in E. rewrite Forall_forall in Hx.
  assert ((i, r) ∈ l) as Hl by (rewrite <- (take_drop m l); apply elem_of_app; by left).
  specialize (Hx _ Hl). cbn in Hx. lia.
Qed.

(** What is pending and not in the page is behind it. *)
Lemma page_rest i : i ∈ pending_ids after d → i ∉ pids ps → ∀ p, p ∈ ps → pu_UpdateID p < i.
Proof.
  intros (r & Hr & Hu & Hlt)%elem_of_pending_ids Hi p ([j x] & -> & Hin)%elem_of_map. cbn.
  assert ((i, r) ∈ pending_rows after d) as Hir by by apply elem_of_pending_rows.
  pose proof (pending_rows_order after d) as Hs. rewrite <- (take_drop n (pending_rows after d)) in Hs, Hir.
  apply elem_of_app in Hir as [Hir|Hir].
  - destruct Hi. apply elem_of_map. exists (pending_of (i, r)). split; [done |]. apply elem_of_map. by exists (i, r).
  - by apply (StronglySorted_app_1_elem_of _ _ _ (j, x) (i, r) Hs Hin Hir).
Qed.

Lemma page_short i : (length ps < n)%nat → i ∈ pending_ids after d → i ∈ pids ps.
Proof.
  intros Hn (r & Hr & Hu & Hlt)%elem_of_pending_ids. apply elem_of_map. exists (pending_of (i, r)). split; [done |].
  apply elem_of_map. exists (i, r). split; [done |]. unfold ps in Hn. rewrite length_map, length_take in Hn.
  rewrite take_ge by lia. by apply elem_of_pending_rows.
Qed.
End page.

Lemma sweep_pages_alone limit fuel after d :
  0 < limit → (size (pending_ids after d) < fuel)%nat →
  alone (sweep_pages server_registry limit fuel after) d
    (λ ended d', ended = true ∧ ∃ S, attempted_all S d d' ∧ pending_ids after d ⊆ S).
Proof.
  intros Hl. revert after d. induction fuel as [|fuel IH]; intros after d Hf; [lia |].
  cbn -[sweep_page]. intros ? -> t. cbn -[sweep_page]. clear t. unfold ListPendingUpdates. rewrite (proj2 (Z.leb_gt limit 0) Hl).
  fold (pending_rows after d). set (n := Z.to_nat limit).
  pose proof (page_pending after n d) as Hpend. pose proof (page_NoDup after n d) as Hnd.
  pose proof (page_rest after n d) as Hrest. pose proof (page_short after n d) as Hshort.
  set (ps := map pending_of (take n (pending_rows after d))) in *.
  destruct ps as [|p ps'] eqn:E.
  { cbn. split; [done |]. exists ∅. split; [apply attempted_all_nil |]. intros i Hi.
    assert (i ∈ pids []) as Hin by (apply Hshort; [cbn; lia | done]). by apply elem_of_nil in Hin. }
  rewrite <- E in *. clearbody ps.
  apply alone_bind. eapply alone_mono; [| apply sweep_page_alone; [done | by intros q [? _]%Hpend]].
  intros st d1 [-> Hall]. cbn [fst snd].
  destruct (Z.ltb_spec (Z.of_nat (length ps)) limit) as [Hlt|Hge].
  { cbn. split; [done |]. exists (list_to_set (pids ps)). split; [done |]. intros i Hi.
    apply elem_of_list_to_set, Hshort; [lia | done]. }
  destruct (cursor_bounds ps after) as (Hc1 & Hc2 & Hc3).
  assert (∀ i, i ∈ pending_ids (cursor ps after) d1 ↔ i ∈ pending_ids after d ∧ i ∉ pids ps) as Hnext.
  { intros i. rewrite !elem_of_pending_ids. split.
    - intros (r & Hr & Hu & Hi). assert (i ∉ pids ps) as Hnin.
      { intros (q & -> & Hq)%elem_of_map. specialize (Hc2 q Hq). lia. }
      rewrite (aa_others _ _ _ Hall) in Hr by by rewrite elem_of_list_to_set. split; [| done]. exists r. split_and!; [done.. | lia].
    - intros [(r & Hr & Hu & Hi) Hnin]. exists r. rewrite (aa_others _ _ _ Hall) by by rewrite elem_of_list_to_set.
      split_and!; [done.. |]. destruct Hc3 as [->|(q & Eq & Hq)%elem_of_map]; [done |]. rewrite Eq.
      apply Hrest; [| done..]. apply elem_of_pending_ids. by exists r. }
  assert (pu_UpdateID p ∈ pids ps) as Hp by (apply elem_of_map; exists p; rewrite E; split; [done | by left]).
  eapply alone_mono; [| apply IH].
  - intros ended d' (-> & S & Hs & Hsub). split; [done |]. exists (list_to_set (pids ps) ∪ S).
    split; [by eapply attempted_all_trans |]. intros i Hi. destruct (decide (i ∈ pids ps)); [set_solver |].
    apply elem_of_union. right. apply Hsub. by apply Hnext.
  - assert (pending_ids (cursor ps after) d1 ⊂ pending_ids after d) as Hlt%subset_size; [| lia].
    split; [by intros i [? _]%Hnext |]. intros Hsub. specialize (Hsub (pu_UpdateID p)).
    rewrite Hnext in Hsub. destruct Hsub as [_ Hn]; [| done]. apply elem_of_pending_ids.
    destruct (Hpend p) as [(r & Hr & Hu & _) Ha]; [rewrite E; by left |]. by exists r.
Qed.

(** C40: a sweep ends and leaves nothing behind.  With one more page than there
    are pending updates the loop of [sweepPending] comes to its end, whatever the
    handlers answer; and when the updates have a time of receipt and the users
    positive ids, no stored update is left unprocessed.  Nobody else runs
    meanwhile and no call fails on its way. *)
Theorem sweep_drains limit fuel d :
  0 < limit → (∀ i, is_Some (bt_updates d !! i) → 0 < i) → (size (pending_ids 0 d) < fuel)%nat →
  alone (sweepPending server_registry limit fuel) d
    (λ ended d', ended = true ∧ (healthy d → ∀ i r, bt_updates d' !! i = Some r → processed r)).
Proof.
  intros Hl Hpos Hf. eapply alone_mono; [| by apply sweep_pages_alone]. intros ended d' (-> & S & Hs & Hsub).
  split; [done |]. intros Hh i r Hr. destruct (decide (i ∈ S)) as [Hi|Hi]; [by eapply aa_done |].
  rewrite (aa_others _ _ _ Hs) in Hr by done. destruct (unprocessed r) eqn:Hu.
  - destruct Hi. apply Hsub, elem_of_pending_ids. exists r. split_and!; [done.. |]. apply Hpos. by eexists.
  - unfold unprocessed in Hu. apply bool_decide_eq_false in Hu. by apply not_eq_None_Some.
Qed.

(** ** A run by hand *)
#[global] Instance Message_eq_dec : EqDecision Message.
Proof. solve_decision. Defined.
#[global] Instance Update_eq_dec : EqDecision Update.
Proof. solve_decision. Defined.

#[global] Instance in_order_dec sent u : Decision (in_order sent u).
Proof. induction sent; cbn; apply _. Defined.
#[global] Instance sent_before_dec sent v u : Decision (sent_before sent v u).
Proof. induction sent; cbn; apply _. Defined.

(** The [k]th of [us] comes behind the earlier and lower updates. *)
Definition lower_first (sent : list Update) (confirmed : Z) (us : list Update) (k : nat) : bool :=
  match us !! k with
  | Some u => bool_decide (Forall (λ v, sent_before sent v u → confirmed ≤ up_UpdateID v < up_UpdateID u → v ∈ take k us) sent)
  | None => true
  end.
Definition answer_ok (sent : list Update) (confirmed : Z) (us : list Update) : bool :=
  bool_decide (Forall (λ u, u ∈ sent) us) && bool_decide (Forall (λ u, confirmed ≤ up_UpdateID u) us)
  && forallb (lower_first sent confirmed us) (seq 0 (length us)).

Lemma sent_before_elem sent v u : sent_before sent v u → v ∈ sent.
Proof. induction sent as [|x sent IH]; cbn; [done |]. intros [[-> _]|Hv]; [by left | right; auto]. Qed.

Lemma answer_ok_spec sent confirmed us : answer_ok sent confirmed us = true → tg_answer sent confirmed us.
Proof.
  unfold answer_ok. rewrite !andb_true_iff, !bool_decide_eq_true, !Forall_forall, forallb_forall. intros [[H1 H2] H3].
  split; [done.. |]. intros k u v Hu Hv Hlt. specialize (H3 k). unfold lower_first in H3.
  rewrite Hu, bool_decide_eq_true, Forall_forall in H3. apply H3; [| by eapply sent_before_elem | done | done].
  apply in_seq. apply lookup_lt_Some in Hu. lia.
Qed.

(** Runs the first thread to its end: calls succeed with the clock at [t], the
    polls get the given answers, nothing is cancelled. *)
Section polled.
Variable t : time.

Definition poll_call {A} (c : bot_call A) (answers : list (list Update)) (s : system)
    : option (A * list (list Update) * bot_db * telegram) :=
  match c in bot_call A return option (A * list (list Update) * bot_db * telegram) with
  | CGetUpdates offset =>
    match answers with
    | us :: answers =>
      let confirmed := tg_confirmed (sy_tg s) `max` offset in
      if answer_ok (tg_sent (sy_tg s)) confirmed us
      then Some (us, answers, sy_db s, Telegram (tg_sent (sy_tg s)) confirmed) else None
    | [] => None
    end
  | c => match bot_op t t c (sy_db s) with Ok (a, d) => Some (a, answers, d, sy_tg s) | Err _ => None end
  end.

Fixpoint polled (p : prog bot_error bot_call bot_query unit) (answers : list (list Update)) (s : system) : option system :=
  match p with
  | Ret _ => Some (System (sy_db s) (sy_tg s) [p] (sy_log s))
  | Exit => None
  | Query q k => polled (k (match q with QCancelled => false end)) answers s
  | Call c k =>
    match poll_call c answers s with
    | Some (a, answers, d, tg) => polled (k (Ok a)) answers (System d tg [] (logged c a (sy_log s)))
    | None => None
    end
  end.

Lemma polled_step starts A (c : bot_call A) k answers s a answers' d tg :
  sy_threads s = [Call c k] → poll_call c answers s = Some (a, answers', d, tg) →
  step starts s (System d tg [k (Ok a)] (logged c a (sy_log s))).
Proof.
  intros Hs Hc. assert (sy_threads s !! 0%nat = Some (Call c k)) as Hi by by rewrite Hs.
  replace [k (Ok a)] with (<[0%nat := k (Ok a)]> (sy_threads s)) by by rewrite Hs.
  assert (∀ (x : result bot_error (A * bot_db)),
    match x with Ok (a, d) => Some (a, answers, d, sy_tg s) | Err _ => None end = Some (a, answers', d, tg) →
    x = Ok (a, d) ∧ tg = sy_tg s) as Hop by by intros [[a0 d0]|] [= -> _ -> <-].
  destruct c as [id kind chat|id kind chat at_| |after limit|id fn|tgid|id|offset];
    try (apply Hop in Hc as [Hc ->]; eapply step_call; [exact Hi | exact Hc | by left]).
  cbn in Hc. destruct answers as [|us answers]; [done |].
  destruct (answer_ok _ _ us) eqn:E; [| done]. injection Hc as <- <- <- <-.
  eapply step_poll; [exact Hi | by apply answer_ok_spec | by left].
Qed.

Lemma polled_steps starts p answers s s' :
  polled p answers s = Some s' → rtc (step starts) (System (sy_db s) (sy_tg s) [p] (sy_log s)) s'.
Proof.
  revert answers s. induction p as [r|A c k IH|A q k IH|]; intros answers s; cbn [polled]; [by intros [= <-] | | | done].
  - destruct (poll_call c answers s) as [[[[a answers'] d] tg]|] eqn:E; [| done]. intros Hs.
    eapply rtc_l; [| by eapply IH].
    by eapply (polled_step starts A c k answers (System (sy_db s) (sy_tg s) [Call c k] (sy_log s))).
  - intros Hs. eapply rtc_l; [| by eapply IH].
    apply (step_query starts (System (sy_db s) (sy_tg s) [Query q k] (sy_log s)) 0 A q k). done.
Qed.

Lemma polled_finished p answers s s' : polled p answers s = Some s' → ∃ x, sy_threads s' = [Ret x].
Proof.
  revert answers s. induction p as [r|A c k IH|A q k IH|]; intros answers s; cbn [polled]; [| | by apply IH | done].
  - intros [= <-]. by exists r.
  - destruct (poll_call _ _ _) as [[[[a answers'] d] tg]|]; [by apply IH | done].
Qed.
End polled.

(** The client 3 presses Start while the receiver polls; the next poll tells
    Telegram so. *)
Definition client_db : bot_db := BotDB ∅ (Build_ndb ∅ ∅) {[ 3 := Some 77 ]} [].
Definition start_update : Update := MkUpdate 10 (Some (MkMessage 77 true)) None.
Definition a_round_of : prog bot_error bot_call bot_query unit := round server_registry 50 2.

Definition first_round : option system :=
  polled (5 * Second) a_round_of [[start_update]] (System client_db (Telegram [start_update] 0) [] []).
Definition two_rounds : option system :=
  s1 ← first_round; polled (6 * Second) a_round_of [[]] (System (sy_db s1) (sy_tg s1) [] (sy_log s1)).

(** A round of [p], the process killed behind it; and what more Telegram sent by
    the time of a second one. *)
Lemma served_once starts t p us d u s :
  starts p → bt_updates d = ∅ → 0 < up_UpdateID u →
  polled t p us (System d (Telegram [u] 0) [] []) = Some s →
  rtc (step starts) (start d) (System (sy_db s) (sy_tg s) [] (sy_log s)).
Proof.
  intros Hst Hd Hu E.
  eapply rtc_l; [apply (step_update starts (start d) u Hu), not_elem_of_nil |].
  eapply rtc_l; [by apply (step_start starts _ p) |].
  etrans; [apply (polled_steps _ starts _ _ _ _ E) |].
  destruct (polled_finished _ _ _ _ _ E) as [x Hx].
  apply rtc_once. pose proof (step_crash starts s 0) as Hc. rewrite Hx in Hc. exact Hc.
Qed.
Lemma served_again starts t p us s s' :
  starts p → polled t p us s = Some s' → rtc (step starts) (System (sy_db s) (sy_tg s) [] (sy_log s)) s'.
Proof.
  intros Hst E. eapply rtc_l; [by apply (step_start starts _ p) |]. apply (polled_steps _ starts _ _ _ _ E).
Qed.

Lemma rounds_reachable starts s :
  starts a_round_of → two_rounds = Some s → reachable starts s.
Proof.
  unfold two_rounds, first_round. generalize a_round_of. intros p Hst (s1 & E1 & E2)%bind_Some.
  exists client_db. split; [done |]. etrans; [exact (served_once starts _ p _ client_db start_update s1 Hst eq_refl eq_refl E1) |].
  exact (served_again starts _ p _ _ _ Hst E2).
Qed.

Lemma two_rounds_state :
  option_map (λ s, (tg_sent (sy_tg s), tg_confirmed (sy_tg s), sy_log s)) two_rounds
  = Some ([start_update], 11, [(10, OutcomeReachabilityRecorded)]).
Proof. vm_compute. reflexivity. Qed.

Lemma two_rounds_end : ∃ s, two_rounds = Some s ∧
  tg_sent (sy_tg s) = [start_update] ∧ tg_confirmed (sy_tg s) = 11 ∧ sy_log s = [(10, OutcomeReachabilityRecorded)].
Proof.
  pose proof two_rounds_state as H. destruct two_rounds as [s|]; [| done].
  exists s. cbn in H. by injection H as -> -> ->.
Qed.


(** A week later the next id is 5. *)
Definition renumbered_update : Update := MkUpdate 5 (Some (MkMessage 78 false)) None.

Definition renumbered_run : option system :=
  s1 ← first_round;
  polled (700000 * Second) a_round_of [[]]
    (System (sy_db s1) (Telegram (tg_sent (sy_tg s1) ++ [renumbered_update]) (tg_confirmed (sy_tg s1))) [] (sy_log s1)).

Lemma first_round_sent : (λ s, tg_sent (sy_tg s)) <$> first_round = Some [start_update].
Proof. vm_compute. reflexivity. Qed.
Lemma renumbered_run_state :
  (λ s, (tg_sent (sy_tg s), tg_confirmed (sy_tg s), bt_updates (sy_db s) !! 5)) <$> renumbered_run
  = Some ([start_update; renumbered_update], 11, None).
Proof. vm_compute. reflexivity. Qed.

Lemma renumbered_reachable s : renumbered_run = Some s → reachable receiver_round s.
Proof.
  pose proof first_round_sent as Hsent. assert (receiver_round a_round_of) as Hr by constructor.
  unfold renumbered_run, first_round in *. revert Hsent Hr. generalize a_round_of. intros p Hsent Hr (s1 & E1 & E2)%bind_Some.
  rewrite E1 in Hsent. injection Hsent as Hsent. exists client_db. split; [done |].
  etrans; [exact (served_once _ _ p _ client_db start_update s1 Hr eq_refl eq_refl E1) |]. eapply rtc_l; [apply (step_update _ _ renumbered_update) |].
  - done.
  - cbn [sy_tg]. rewrite Hsent. by apply not_elem_of_cons; split; [| apply not_elem_of_nil].
  - exact (served_again _ _ p _ _ _ Hr E2).
Qed.

(** The proviso of [no_update_lost] is needed: an update with an id below an
    earlier one is confirmed by the next poll and never stored. *)
Lemma renumbered_update_lost :
  ∃ s u, reachable receiver_round s ∧ u ∈ tg_sent (sy_tg s) ∧ ¬ in_order (tg_sent (sy_tg s)) u ∧
    up_UpdateID u < tg_confirmed (sy_tg s) ∧ bt_updates (sy_db s) !! up_UpdateID u = None.
Proof.
  pose proof renumbered_run_state as Hst. destruct renumbered_run as [s|] eqn:E; [| done].
  apply Some_inj in Hst. injection Hst as H1 H2 H3. exists s, renumbered_update. rewrite H1, H2.
  split_and!; [by apply renumbered_reachable | by right; left | | done | done].
  by eapply bool_decide_eq_false_1.
Qed.

Lemma update_handled_once_witness :
  ∃ s, reachable bot_request s ∧ sy_log s = [(10, OutcomeReachabilityRecorded)] ∧
    ∃ r, bt_updates (sy_db s) !! 10 = Some r ∧ processed r ∧ ur_Outcome r = Some OutcomeReachabilityRecorded.
Proof.
  destruct two_rounds_end as (s & E & _ & _ & H1).
  pose proof (rounds_reachable bot_request s ltac:(by repeat constructor) E) as Hs. exists s.
  split_and!; [done.. |]. destruct (update_handled_once s s Hs) as (_ & Hlog & _); [done |].
  destruct (Hlog 10 OutcomeReachabilityRecorded) as (r & Hr & Hp & Ho); [rewrite H1; by left |].
  exists r. split_and!; [done.. |]. rewrite Ho. by vm_compute.
Defined.

(** The update was acknowledged before the process died. *)
Definition stranded_db : bot_db :=
  client_db <|bt_updates := {[ 10 := BotUpdate KindStartCommand (Some 77) (4 * Second) None None None ]}|>.

Lemma stranded_row i r :
  bt_updates stranded_db !! i = Some r → i = 10 ∧ IsZero (ur_ReceivedAt r) = false.
Proof. change (bt_updates stranded_db) with ({[ 10 := BotUpdate KindStartCommand (Some 77) (4 * Second) None None None ]} : gmap Z bot_update). by intros [<- <-]%lookup_singleton_Some. Qed.

Lemma stranded_candidates tg x : x ∈ candidates tg stranded_db → x = 3.
Proof.
  unfold candidates. intros [Hx|Hx]%elem_of_union; [| set_solver].
  apply elem_of_dom in Hx as [y [Hy _]%map_lookup_filter_Some].
  change (bt_logins stranded_db) with ({[ 3 := Some 77 ]} : gmap Z (option Z)) in Hy.
  by apply lookup_singleton_Some in Hy as [<- _].
Qed.

Lemma sweep_drains_witness :
  alone (sweepPending server_registry 50 2) stranded_db
    (λ ended d', ended = true ∧ ∀ i r, bt_updates d' !! i = Some r → processed r).
Proof.
  assert (healthy stranded_db) as Hh.
  { split; [by intros i r [_ H]%stranded_row |]. intros tg u. unfold userIDByTelegramID.
    destruct (tg <=? 0); [done |]. destruct (elements _) as [|x [|]] eqn:E; try done. intros [= <-].
    assert (x ∈ candidates tg stranded_db) as ->%stranded_candidates; [| done].
    apply elem_of_elements. rewrite E. by left. }
  eapply alone_mono; [| apply (sweep_drains 50 2 stranded_db)].
  - intros ended d' [He Hd]. split; [done | by apply Hd].
  - done.
  - by intros i [r [-> _]%stranded_row].
  - vm_compute. lia.
Defined.
