(* ===== verification/Utf8.v ===== *)
(** * Encoded strings

    The strings that are the UTF-8 encoding of Unicode scalar values, how they
    decode, and that [strings.ToLower] and [strings.TrimSpace] end there: lower
    casing a trimmed string once is enough. *)

From S2P Require Import Prelude GoString.

Definition scalar (r : Z) : Prop := 0 ≤ r ≤ 55295 ∨ 57344 ≤ r ≤ 1114111.
Definition encode (rs : list Z) : list Z := concat (map encode_rune rs).
Lemma encode_cons r rs : encode (r :: rs) = encode_rune r ++ encode rs.
Proof. done. Qed.
(** The runes of a string when it is valid UTF-8 *)
Definition encodes (rs : list Z) (s : string) : Prop := Forall scalar rs ∧ bytes s = encode rs.

(** ** One rune *)

(** The four lengths of an encoding, with the digits named. *)
Inductive encoding : Z → list Z → Prop :=
| encoding1 r : 0 ≤ r < 128 → encoding r [r]
| encoding2 a b : 2 ≤ a < 32 → 0 ≤ b < 64 → encoding (a * 64 + b) [192 + a; 128 + b]
| encoding3 a b c : 0 ≤ a < 16 → 0 ≤ b < 64 → 0 ≤ c < 64 → 2048 ≤ (a * 64 + b) * 64 + c →
    ¬ 55296 ≤ (a * 64 + b) * 64 + c ≤ 57343 →
    encoding ((a * 64 + b) * 64 + c) [224 + a; 128 + b; 128 + c]
| encoding4 a b c e : 0 ≤ a ≤ 4 → 0 ≤ b < 64 → 0 ≤ c < 64 → 0 ≤ e < 64 →
    65536 ≤ ((a * 64 + b) * 64 + c) * 64 + e ≤ 1114111 →
    encoding (((a * 64 + b) * 64 + c) * 64 + e) [240 + a; 128 + b; 128 + c; 128 + e].

Lemma encode_rune_cases r : scalar r → encoding r (encode_rune r).
Proof.
  unfold scalar, encode_rune, in_range. intros Hr.
  repeat case_match; bool_to_Prop; try lia.
  - apply encoding1. lia.
  - pose proof (Z.div_mod r 64 ltac:(lia)). pose proof (Z.mod_pos_bound r 64 ltac:(lia)).
    assert (r = r / 64 * 64 + r mod 64) as Hd by lia. rewrite Hd at 1. apply encoding2; lia.
  - replace (r / 4096) with (r / 64 / 64) by (rewrite Z.div_div by lia; done). pose proof (Z.div_mod r 64 ltac:(lia)).
    pose proof (Z.mod_pos_bound r 64 ltac:(lia)). set (q := r / 64) in *. pose proof (Z.div_mod q 64 ltac:(lia)).
    pose proof (Z.mod_pos_bound q 64 ltac:(lia)).
    assert (r = (q / 64 * 64 + q mod 64) * 64 + r mod 64) as Hd by lia. rewrite Hd at 1. apply encoding3; lia.
  - replace (r / 262144) with (r / 64 / 64 / 64) by (rewrite !Z.div_div by lia; done).
    replace (r / 4096) with (r / 64 / 64) by (rewrite Z.div_div by lia; done). pose proof (Z.div_mod r 64 ltac:(lia)).
    pose proof (Z.mod_pos_bound r 64 ltac:(lia)). set (q := r / 64) in *. pose proof (Z.div_mod q 64 ltac:(lia)).
    pose proof (Z.mod_pos_bound q 64 ltac:(lia)). set (p := q / 64) in *. pose proof (Z.div_mod p 64 ltac:(lia)).
    pose proof (Z.mod_pos_bound p 64 ltac:(lia)).
    assert (r = ((p / 64 * 64 + p mod 64) * 64 + q mod 64) * 64 + r mod 64) as Hd by lia. rewrite Hd at 1.
    apply encoding4; lia.
Qed.

Lemma DecodeRune_encoding r e l : encoding r e → DecodeRune (e ++ l) = (r, None, length e).
Proof.
  intros []; unfold DecodeRune; cbn [nth app length]; unfold in_range, second_ok, cont, in_range;
    repeat case_match; bool_to_Prop; try lia; repeat f_equal; lia.
Qed.
Lemma DecodeRune_encode r l : scalar r → DecodeRune (encode_rune r ++ l) = (r, None, length (encode_rune r)).
Proof. intros. by apply DecodeRune_encoding, encode_rune_cases. Qed.

Lemma encode_rune_cons r : scalar r → ∃ b e, encode_rune r = b :: e ∧ Forall is_byte (b :: e).
Proof.
  intros Hr%encode_rune_cases. destruct Hr; do 2 eexists; (split; [done |]); repeat constructor; unfold is_byte; lia.
Qed.

Lemma encode_bytes rs : Forall scalar rs → Forall is_byte (encode rs).
Proof.
  induction 1 as [|r rs Hr _ IH]; [done |]. rewrite encode_cons.
  apply Forall_app. split; [| done]. destruct (encode_rune_cons r Hr) as (b & e & -> & H). done.
Qed.
Lemma encodes_of rs : Forall scalar rs → encodes rs (of_bytes (encode rs)).
Proof. intros Hrs. split; [done |]. by rewrite bytes_of_bytes by by apply encode_bytes. Qed.

(** ** Decoding *)
Lemma decode_encode rs l : Forall scalar rs → decode (encode rs ++ l) = map (λ r, (r, None)) rs ++ decode l.
Proof.
  induction 1 as [|r rs Hr _ IH]; [done |]. rewrite encode_cons, <- (assoc_L (++)).
  destruct (encode_rune_cons r Hr) as (b & e & He & _). pose proof (DecodeRune_encode r (encode rs ++ l) Hr) as HD.
  rewrite He in *. cbn [app]. rewrite decode_unfold. cbn [app] in HD. rewrite HD. cbn [fst snd].
  cbn [map app]. f_equal. rewrite <- IH. f_equal. rewrite app_comm_cons. apply drop_app_length.
Qed.
Lemma runes_encodes rs s : encodes rs s → runes s = rs.
Proof.
  intros [Hrs Hs]. unfold runes. rewrite Hs, <- (app_nil_r (encode rs)), decode_encode by done.
  cbn. rewrite app_nil_r, <- list_fmap_compose. apply list_fmap_id.
Qed.

Lemma chunks_encodes rs s : encodes rs s → chunks s = map (λ r, (r, encode_rune r)) rs.
Proof.
  intros [Hrs Hs]. unfold chunks. rewrite Hs. clear s Hs.
  enough (∀ n, (length (encode rs) ≤ n)%nat → chunks_fuel n (encode rs) = map (λ r, (r, encode_rune r)) rs) as Hn
    by by apply Hn.
  induction Hrs as [|r rs Hr _ IH]; intros n Hn; [by destruct n |]. rewrite encode_cons in *. cbn [map].
  destruct (encode_rune_cons r Hr) as (b & e & He & _).
  pose proof (DecodeRune_encode r (encode rs) Hr) as HD. rewrite He in *. cbn [app length] in Hn.
  destruct n as [|n]; [lia |]. cbn [app] in *. cbn [chunks_fuel]. rewrite HD. cbn [fst snd].
  rewrite app_comm_cons, take_app_length, drop_app_length. f_equal. apply IH. rewrite length_app in Hn. lia.
Qed.

(** Every rune read from bytes is a scalar value. *)
Lemma DecodeRune_scalar b l : is_byte b → scalar (DecodeRune (b :: l)).1.1.
Proof.
  unfold is_byte. intros Hb. unfold scalar, DecodeRune. cbn [nth].
  unfold in_range, second_ok, cont, in_range, RuneError. repeat case_match; cbn [fst]; bool_to_Prop; lia.
Qed.

Lemma runes_scalar s : Forall scalar (runes s).
Proof.
  unfold runes. pose proof (bytes_range s) as Hb. set (l := bytes s) in *. clearbody l. clear s.
  remember (length l) as n eqn:Hn. revert l Hn Hb. induction n as [n IH] using lt_wf_ind.
  intros [|b l] -> Hb; [constructor |]. rewrite decode_unfold. cbn [fmap list_fmap]. constructor.
  - apply DecodeRune_scalar. by inversion Hb.
  - pose proof (DecodeRune_width_pos (b :: l)). eapply IH; [| reflexivity |].
    + rewrite length_drop. cbn. lia.
    + by apply Forall_drop.
Qed.

(** A byte that is missing is no continuation byte. *)
Ltac short_list :=
  rewrite ?(second_ok_lead _ 0), ?andb_false_r by done; cbn [andb]; rewrite ?andb_false_r.

Lemma DecodeRune_valid l r w :
  Forall is_byte l → l ≠ [] → DecodeRune l = (r, None, w) → encoding r (take w l) ∧ (w ≤ length l)%nat.
Proof.
  intros Hl Hnil. assert (cont 0 = false) as H0 by done. unfold DecodeRune.
  destruct l as [|b0 l]; [done |]. cbn [nth]. apply Forall_cons in Hl as [Hb0 Hl]. unfold is_byte in *.
  case_match; [intros [= <- <-]; cbn; bool_to_Prop; split; [apply encoding1; lia | lia] |].
  destruct l as [|b1 l]; cbn [nth]; [by short_list |].
  apply Forall_cons in Hl as [Hb1 Hl]. case_match.
  { intros [= <- <-]. cbn [take length]. rewrite take_0. unfold cont, in_range in *. bool_to_Prop. split; [| lia].
    replace [b0; b1] with [192 + (b0 - 192); 128 + (b1 - 128)] by (repeat f_equal; lia). apply encoding2; lia. }
  destruct l as [|b2 l]; cbn [nth]; [by short_list |].
  apply Forall_cons in Hl as [Hb2 Hl]. case_match.
  { intros [= <- <-]. cbn [take length]. rewrite take_0. unfold second_ok, cont, in_range in *. bool_to_Prop. split; [| lia].
    replace [b0; b1; b2] with [224 + (b0 - 224); 128 + (b1 - 128); 128 + (b2 - 128)] by (repeat f_equal; lia).
    repeat case_match; bool_to_Prop; apply encoding3; lia. }
  destruct l as [|b3 l]; cbn [nth]; [by short_list |].
  apply Forall_cons in Hl as [Hb3 Hl]. case_match; [| done].
  intros [= <- <-]. cbn [take length]. rewrite take_0. unfold second_ok, cont, in_range in *. bool_to_Prop. split; [| lia].
  replace [b0; b1; b2; b3] with [240 + (b0 - 240); 128 + (b1 - 128); 128 + (b2 - 128); 128 + (b3 - 128)]
    by (repeat f_equal; lia).
  repeat case_match; bool_to_Prop; apply encoding4; lia.
Qed.

(** ** White space at the ends *)
Definition space_first (l : list Z) : bool :=
  match l with
  | b0 :: b1 :: b2 :: _ => space1 b0 || space2 b0 b1 || space3 b0 b1 b2
  | [b0; b1] => space1 b0 || space2 b0 b1
  | [b0] => space1 b0
  | [] => false
  end.
(** The same, read backwards *)
Definition space_last (l : list Z) : bool :=
  match l with
  | b0 :: b1 :: b2 :: _ => space1 b0 || space2 b1 b0 || space3 b2 b1 b0
  | [b0; b1] => space1 b0 || space2 b1 b0
  | [b0] => space1 b0
  | [] => false
  end.

Lemma trim_left_none l : space_first l = false → trim_left l = l.
Proof.
  destruct l as [|b0 [|b1 [|b2 l]]]; cbn; [done | ..]; intros; bool_to_Prop; repeat case_match; congruence.
Qed.
Lemma trim_left_rev_none l : space_last l = false → trim_left_rev l = l.
Proof.
  destruct l as [|b0 [|b1 [|b2 l]]]; cbn; [done | ..]; intros; bool_to_Prop; repeat case_match; congruence.
Qed.

Lemma trim_left_done l : space_first (trim_left l) = false.
Proof.
  remember (length l) as n eqn:Hn. revert l Hn. induction n as [n IH] using lt_wf_ind. intros [|b0 l] ->; [done |].
  cbn [trim_left]. destruct (space1 b0) eqn:H0; [by eapply IH; [| done]; cbn; lia |].
  destruct l as [|b1 l]; [done |]. destruct (space2 b0 b1) eqn:H1; [by eapply IH; [| done]; cbn; lia |].
  destruct l as [|b2 l]; [cbn; by rewrite H0, H1 |].
  destruct (space3 b0 b1 b2) eqn:H2; [by eapply IH; [| done]; cbn; lia | cbn; by rewrite H0, H1, H2].
Qed.
Lemma trim_left_rev_done l : space_last (trim_left_rev l) = false.
Proof.
  remember (length l) as n eqn:Hn. revert l Hn. induction n as [n IH] using lt_wf_ind. intros [|b0 l] ->; [done |].
  cbn [trim_left_rev]. destruct (space1 b0) eqn:H0; [by eapply IH; [| done]; cbn; lia |].
  destruct l as [|b1 l]; [done |]. destruct (space2 b1 b0) eqn:H1; [by eapply IH; [| done]; cbn; lia |].
  destruct l as [|b2 l]; [cbn; by rewrite H0, H1 |].
  destruct (space3 b2 b1 b0) eqn:H2; [by eapply IH; [| done]; cbn; lia | cbn; by rewrite H0, H1, H2].
Qed.
Lemma trim_left_rev_suffix l : ∃ k, l = k ++ trim_left_rev l.
Proof.
  remember (length l) as n eqn:Hn. revert l Hn. induction n as [n IH] using lt_wf_ind. intros [|b0 l] ->; [by exists [] |].
  assert (∀ k l', b0 :: l = k ++ l' → k ≠ [] → ∃ k, b0 :: l = k ++ trim_left_rev l') as Hstep.
  { intros k l' Hk Hnil. destruct (IH (length l')) with (l := l') as [k' Hk']; [| done |].
    - apply (f_equal length) in Hk. rewrite length_app in Hk. destruct k; [done |]. cbn in *. lia.
    - exists (k ++ k'). by rewrite Hk, <- (assoc_L (++)), <- Hk'. }
  cbn [trim_left_rev]. case_match; [by apply (Hstep [b0]) |]. destruct l as [|b1 l]; [by exists [] |].
  case_match; [by apply (Hstep [b0; b1]) |]. destruct l as [|b2 l]; [by exists [] |].
  case_match; [by apply (Hstep [b0; b1; b2]) | by exists []].
Qed.

Lemma trim_left_Forall (P : Z → Prop) l : Forall P l → Forall P (trim_left l).
Proof.
  remember (length l) as n eqn:Hn. revert l Hn. induction n as [n IH] using lt_wf_ind. intros [|b0 l] ->; [done |].
  intros [HP0 Hl]%Forall_cons. cbn [trim_left]. case_match; [eapply IH; [| done..]; cbn; lia |].
  destruct l as [|b1 l]; [by constructor |]. pose proof Hl as [HP1 Hl1]%Forall_cons.
  case_match; [eapply IH; [| done..]; cbn; lia |].
  destruct l as [|b2 l]; [by constructor |]. pose proof Hl1 as [HP2 Hl2]%Forall_cons.
  case_match; [eapply IH; [| done..]; cbn; lia | by constructor].
Qed.

Lemma space_first_app l k : space_first l = true → space_first (l ++ k) = true.
Proof.
  destruct l as [|b0 [|b1 [|b2 l]]]; [done | ..]; destruct k as [|c0 [|c1 k]]; cbn [app space_first]; intros H;
    repeat match goal with H : _ || _ = true |- _ => apply orb_true_iff in H as [H|H] end;
    by rewrite ?H, ?orb_true_r.
Qed.

Lemma TrimSpace_done s :
  space_first (bytes (TrimSpace s)) = false ∧ space_last (rev (bytes (TrimSpace s))) = false.
Proof.
  unfold TrimSpace. set (l := trim_left (bytes s)).
  assert (Forall is_byte l) as Hl by apply trim_left_Forall, bytes_range.
  destruct (trim_left_rev_suffix (rev l)) as [k Hk].
  assert (l = trim_right l ++ rev k) as Hpre by (unfold trim_right; by rewrite <- rev_app_distr, <- Hk, rev_involutive).
  rewrite bytes_of_bytes by (rewrite Hpre in Hl; by apply Forall_app in Hl as [Hl _]). split.
  - apply not_true_is_false. intros Hs. apply (space_first_app _ (rev k)) in Hs. rewrite <- Hpre in Hs.
    unfold l in Hs. by rewrite trim_left_done in Hs.
  - unfold trim_right. rewrite rev_involutive. apply trim_left_rev_done.
Qed.

(** The patterns are the encodings of the white space runes. *)
Ltac split_or :=
  repeat match goal with
  | H : _ || _ = true |- _ => apply orb_true_iff in H as [H|H]
  | H : (_ || _) && _ = true |- _ => apply andb_true_iff in H as [H ?]
  | H : _ && (_ || _) = true |- _ => apply andb_true_iff in H as [? H]
  end.

Lemma space1_high b : 128 ≤ b → space1 b = false.
Proof. unfold space1, in_range. lia. Qed.
Lemma space2_lead b0 b1 : b0 ≠ 194 → space2 b0 b1 = false.
Proof. unfold space2. lia. Qed.
Lemma space2_ascii b0 b1 : b1 < 128 → space2 b0 b1 = false.
Proof. unfold space2. lia. Qed.
Lemma space3_lead b0 b1 b2 : b0 < 225 ∨ 227 < b0 → space3 b0 b1 b2 = false.
Proof. intros. unfold space3. replace (b0 =? 225) with false by lia. replace (b0 =? 226) with false by lia. lia. Qed.
Lemma space3_mid b0 b1 b2 : 155 ≤ b1 → space3 b0 b1 b2 = false.
Proof.
  intros. unfold space3. replace (b1 =? 154) with false by lia. replace (b1 =? 128) with false by lia.
  replace (b1 =? 129) with false by lia. by rewrite !andb_false_r.
Qed.
Lemma space3_ascii b0 b1 b2 : b2 < 128 → space3 b0 b1 b2 = false.
Proof.
  intros. unfold space3, in_range. replace (b2 =? 128) with false by lia. replace (128 <=? b2) with false by lia.
  replace (168 <=? b2) with false by lia. replace (b2 =? 175) with false by lia. replace (b2 =? 159) with false by lia.
  by rewrite !andb_false_r.
Qed.

Lemma IsSpace_1 r : r < 128 → IsSpace r = space1 r.
Proof.
  intros. apply eq_true_iff_eq. unfold IsSpace, space1, in_range. split; intros Hs; split_or; bool_to_Prop; lia.
Qed.
Lemma IsSpace_2 a b : 2 ≤ a < 32 → 0 ≤ b < 64 → IsSpace (a * 64 + b) = space2 (192 + a) (128 + b).
Proof.
  intros. apply eq_true_iff_eq. unfold IsSpace, space2, in_range. split; intros Hs; split_or; bool_to_Prop; lia.
Qed.
Lemma IsSpace_3 a b c :
  0 ≤ a < 16 → 0 ≤ b < 64 → 0 ≤ c < 64 → 2048 ≤ (a * 64 + b) * 64 + c →
  IsSpace ((a * 64 + b) * 64 + c) = space3 (224 + a) (128 + b) (128 + c).
Proof.
  intros. apply eq_true_iff_eq. unfold IsSpace, space3, in_range. split; intros Hs; split_or; bool_to_Prop; lia.
Qed.
Lemma IsSpace_4 r : 65536 ≤ r → IsSpace r = false.
Proof. intros. apply not_true_is_false. unfold IsSpace, in_range. intros Hs; split_or; bool_to_Prop; lia. Qed.
Create Rewrite HintDb spaces.
#[local] Hint Rewrite space1_high space2_lead space2_ascii space3_lead space3_mid space3_ascii using lia : spaces.

Lemma space_first_encoding r e l : encoding r e → space_first (e ++ l) = IsSpace r.
Proof.
  intros []; cbn [app]; [rewrite IsSpace_1 by lia | rewrite IsSpace_2 by lia | rewrite IsSpace_3 by lia |
    rewrite IsSpace_4 by lia]; destruct l as [|b0 [|b1 l]]; cbn [space_first];
    autorewrite with spaces; by rewrite ?orb_false_r.
Qed.
Lemma space_last_encoding r e l : encoding r e → space_last (rev e ++ l) = IsSpace r.
Proof.
  intros []; cbn [app rev]; [rewrite IsSpace_1 by lia | rewrite IsSpace_2 by lia | rewrite IsSpace_3 by lia |
    rewrite IsSpace_4 by lia]; destruct l as [|b0 [|b1 l]]; cbn [space_last];
    autorewrite with spaces; by rewrite ?orb_false_r.
Qed.

(** ** Lower casing what is trimmed *)

(** What Go's case tables satisfy beyond ASCII: a lower case rune is a scalar
    value, is its own lower case, and is white space if and only if the rune is. *)
Class LowerTables `{UnicodeTables} : Prop := {
  lower_scalar r : scalar r → scalar (rune_lower r);
  lower_lower r : rune_lower (rune_lower r) = rune_lower r;
  lower_space r : IsSpace (rune_lower r) = IsSpace r;
}.
#[global] Instance ascii_lower_tables : @LowerTables ascii_tables.
Proof.
  split; cbn; unfold ascii_lower, in_range.
  - unfold scalar. intros r. case_match; bool_to_Prop; lia.
  - intros r. repeat case_match; bool_to_Prop; lia.
  - intros r. case_match; [| done]. bool_to_Prop. rewrite !IsSpace_1 by lia. unfold space1, in_range. lia.
Qed.

Lemma runes_ascii l : forallb (λ b, b <? 128) l = true → decode l = map (λ b, (b, None)) l.
Proof.
  induction l as [|b l IH]; [done |]. cbn [forallb]. intros Hl. bool_to_Prop. rewrite decode_unfold.
  assert (DecodeRune (b :: l) = (b, None, 1%nat)) as HD.
  { unfold DecodeRune. cbn [nth]. by replace (b <? 128) with true by lia. }
  rewrite HD. cbn [fst snd map]. change (drop 1 (b :: l)) with l. by rewrite IH.
Qed.

Lemma encode_ascii l : Forall (λ b, 0 ≤ b < 128) l → Forall scalar l ∧ encode l = l.
Proof.
  induction 1 as [|b l Hb _ [Hs He]]; [done |]. split; [constructor; [left; lia | done] |].
  rewrite encode_cons, He. unfold encode_rune. by replace (in_range 0 127 b) with true by (unfold in_range; lia).
Qed.
Lemma ascii_bytes s : ascii_only s = true → Forall (λ b, 0 ≤ b < 128) (bytes s).
Proof.
  unfold ascii_only. rewrite forallb_forall. intros Hs. apply List.Forall_forall. intros b Hb.
  pose proof (proj1 (List.Forall_forall _ _) (bytes_range s) b Hb) as [? _]. specialize (Hs b Hb). bool_to_Prop. lia.
Qed.
Lemma ascii_encodes s : ascii_only s = true → encodes (bytes s) s.
Proof. intros Hs. destruct (encode_ascii _ (ascii_bytes s Hs)) as [Hr He]. by split; rewrite ?He. Qed.

Section lower.
Context `{LowerTables}.

Lemma lower_bytes s : ascii_only s = true → Forall (λ b, 0 ≤ b < 128) (map rune_lower (bytes s)).
Proof.
  intros Ha%ascii_bytes. apply Forall_map. eapply Forall_impl; [exact Ha |]. intros b Hb. cbn in *.
  rewrite rune_lower_ascii by (unfold in_range; lia). unfold in_range. case_match; bool_to_Prop; lia.
Qed.
Lemma ToLower_encodes s : encodes (map rune_lower (runes s)) (ToLower s).
Proof.
  assert (Forall scalar (map rune_lower (runes s))) as Hs.
  { apply Forall_map. eapply Forall_impl; [apply runes_scalar | apply lower_scalar]. }
  unfold ToLower. destruct (ascii_only s) eqn:Ha.
  - assert (runes s = bytes s) as Hr.
    { unfold runes. rewrite (runes_ascii _ Ha), <- list_fmap_compose. apply list_fmap_id. }
    rewrite Hr in *. split; [done |]. pose proof (lower_bytes s Ha) as Hb. destruct (encode_ascii _ Hb) as [_ ->].
    apply bytes_of_bytes. eapply Forall_impl; [exact Hb |]. unfold is_byte. cbn. lia.
  - pose proof (encodes_of _ Hs) as Henc. unfold encode in Henc. by rewrite map_map in Henc.
Qed.

Lemma encodes_trimmed rs s :
  encodes rs s → (∀ r, head rs = Some r → IsSpace r = false) → (∀ r, last rs = Some r → IsSpace r = false) →
  TrimSpace s = s.
Proof.
  intros [Hrs Hs] Hh Hl. unfold TrimSpace. rewrite trim_left_none.
  - unfold trim_right. rewrite trim_left_rev_none, rev_involutive; [apply of_bytes_bytes |].
    rewrite Hs. destruct rs as [|r rs _] using rev_ind; [done |]. rewrite last_snoc in Hl.
    apply Forall_app in Hrs as [_ [Hr _]%Forall_cons]. unfold encode. rewrite map_app, concat_app. cbn [map concat].
    rewrite app_nil_r, rev_app_distr, (space_last_encoding r) by by apply encode_rune_cases. by apply Hl.
  - rewrite Hs. destruct rs as [|r rs]; [done |]. apply Forall_cons in Hrs as [Hr _].
    rewrite encode_cons, (space_first_encoding r) by by apply encode_rune_cases. by apply Hh.
Qed.

(** The first and the last rune of a trimmed string are no white space. *)
Lemma runes_head l r : Forall is_byte l → head (decode l).*1 = Some r → IsSpace r = true → space_first l = true.
Proof.
  destruct l as [|b l]; [done |]. intros Hb. rewrite decode_unfold. cbn [fmap list_fmap head]. intros [= <-] Hr.
  destruct (DecodeRune (b :: l)) as [[r v] w] eqn:HD. cbn [fst] in *. destruct v as [b'|].
  - unfold DecodeRune in HD. repeat case_match; by simplify_eq.
  - destruct (DecodeRune_valid _ _ _ Hb ltac:(done) HD) as [He _].
    rewrite <- (take_drop w (b :: l)), (space_first_encoding r); done.
Qed.
Lemma runes_last l r : Forall is_byte l → last (decode l).*1 = Some r → IsSpace r = true → space_last (rev l) = true.
Proof.
  remember (length l) as n eqn:Hn. revert l Hn. induction n as [n IH] using lt_wf_ind. intros [|b l] -> Hb; [done |].
  rewrite decode_unfold. cbn [fmap list_fmap]. destruct (DecodeRune (b :: l)) as [[r' v] w] eqn:HD. cbn [fst snd].
  change (list_fmap _ _ fst ?x) with x.*1. pose proof (DecodeRune_width_pos (b :: l)) as Hw. rewrite HD in Hw. cbn in Hw.
  destruct (decode (drop w (b :: l))) as [|x ds] eqn:Hd.
  - intros [= ->] Hr. destruct v as [b'|].
    { unfold DecodeRune in HD. repeat case_match; by simplify_eq. }
    destruct (DecodeRune_valid _ _ _ Hb ltac:(done) HD) as [He Hle].
    assert (drop w (b :: l) = []) as Hnil.
    { destruct (drop w (b :: l)) as [|b' l']; [done |]. by rewrite decode_unfold in Hd. }
    rewrite <- (take_drop w (b :: l)), Hnil, app_nil_r, <- (app_nil_r (rev _)), (space_last_encoding r); done.
  - intros Hlast Hr. assert (space_last (rev (drop w (b :: l))) = true) as Hs.
    { eapply IH; [| reflexivity | by apply Forall_drop | | done].
      - rewrite length_drop. cbn. lia.
      - by rewrite Hd. }
    rewrite <- (take_drop w (b :: l)), rev_app_distr.
    destruct (rev (drop w (b :: l))) as [|c0 [|c1 [|c2 k]]]; [done | ..]; cbn [app space_last] in *; [| | done];
      destruct (rev (take w (b :: l))) as [|d0 [|d1 k']]; cbn [app]; bool_to_Prop; split_or; by rewrite ?Hs, ?orb_true_r.
Qed.

(** What [canonicalSet] makes of an entry is fixed by doing it again. *)
Lemma lower_trim_twice s : ToLower (TrimSpace (ToLower (TrimSpace s))) = ToLower (TrimSpace s).
Proof.
  set (t := TrimSpace s). destruct (TrimSpace_done s) as [Hf Hl]. fold t in Hf, Hl.
  pose proof (ToLower_encodes t) as He. rewrite (encodes_trimmed _ _ He).
  - pose proof (ToLower_encodes (ToLower t)) as He2. rewrite (runes_encodes _ _ He), map_map in He2.
    apply (inj bytes). destruct He as [_ ->], He2 as [_ ->]. f_equal. apply map_ext. apply lower_lower.
  - intros r. destruct (runes t) as [|r' rs] eqn:Hr; [done |]. intros [= <-].
    assert (head (runes t) = Some r') as Hhd by by rewrite Hr. rewrite lower_space.
    apply not_true_is_false. intros Hs. by rewrite (runes_head _ _ (bytes_range t) Hhd Hs) in Hf.
  - intros r. rewrite fmap_last. intros (r' & Hr & ->)%fmap_Some. rewrite lower_space.
    apply not_true_is_false. intros Hs. by rewrite (runes_last _ _ (bytes_range t) Hr Hs) in Hl.
Qed.
End lower.
