(* ===== verification/Json.v ===== *)
(** * JSON as [encoding/json] reads and writes it

    The encoder of strings, integers and lists, and the parser with the
    validity rules of the standard library's scanner: white space, escapes,
    surrogate pairs, invalid UTF-8 read as U+FFFD, number literals and the
    nesting limit.  [Broadcast] campaigns store their audience selector as JSON. *)

From S2P Require Import Prelude GoString.

(** ** Encoding *)

(** The bytes [htmlSafeSet] leaves as they are. *)
Definition html_safe (b : Z) : bool :=
  (32 <=? b) && negb (bool_decide (b ∈ [34; 38; 60; 62; 92])).

Definition escape_byte (b : Z) : list Z :=
  if html_safe b then [b]
  else if (b =? 34) || (b =? 92) then [92; b]
  else if b =? 8 then [92; 98] else if b =? 12 then [92; 102]
  else if b =? 10 then [92; 110] else if b =? 13 then [92; 114]
  else if b =? 9 then [92; 116]
  else [92; 117; 48; 48] ++ hex_pad 2 b.

(** One rune of the string and the bytes it was read from. *)
Definition escape_chunk (c : Z * list Z) : list Z :=
  match c with
  | (_, [b]) => if b <? 128 then escape_byte b else bytes "\ufffd"
  | (r, bs) => if (r =? 8232) || (r =? 8233) then bytes "\u202" ++ [hex_digit (r mod 16)] else bs
  end.
Definition quote_json (s : string) : list Z := [34] ++ concat (map escape_chunk (chunks s)) ++ [34].

Fixpoint join_json (l : list (list Z)) : list Z :=
  match l with
  | [] => []
  | [x] => x
  | x :: l => x ++ [44] ++ join_json l
  end.
Definition array_json (l : list string) : list Z := [91] ++ join_json (map quote_json l) ++ [93].

(** ** Values *)
Inductive json :=
| JNull
| JBool (b : bool)
| JNum (literal : string)
| JStr (s : string)
| JArr (l : list json)
| JObj (l : list (string * json)).

(** ** Parsing *)
Definition json_space (b : Z) : bool := (b =? 32) || (b =? 9) || (b =? 13) || (b =? 10).
Definition skip_space (l : list Z) : list Z := drop_while json_space l.

Definition hex_value (b : Z) : option Z :=
  if in_range 48 57 b then Some (b - 48)
  else if in_range 97 102 b then Some (b - 87)
  else if in_range 65 70 b then Some (b - 55) else None.

(** [getu4], after the backslash and the [u] *)
Definition getu4 (l : list Z) : option (Z * list Z) :=
  match l with
  | a :: b :: c :: d :: l =>
    match hex_value a, hex_value b, hex_value c, hex_value d with
    | Some a, Some b, Some c, Some d => Some (((a * 16 + b) * 16 + c) * 16 + d, l)
    | _, _, _, _ => None
    end
  | _ => None
  end.

Definition is_surrogate (r : Z) : bool := in_range 55296 57343 r.
(** [utf16.DecodeRune] *)
Definition surrogate_pair (r1 r2 : Z) : option Z :=
  if in_range 55296 56319 r1 && in_range 56320 57343 r2
  then Some ((r1 - 55296) * 1024 + (r2 - 56320) + 65536) else None.

Definition simple_escape (c : Z) : option Z :=
  if (c =? 34) || (c =? 92) || (c =? 47) then Some c
  else if c =? 98 then Some 8 else if c =? 102 then Some 12
  else if c =? 110 then Some 10 else if c =? 114 then Some 13
  else if c =? 116 then Some 9 else None.

(** A [\u] escape after its first code unit [r]: its runes and what follows. *)
Definition unicode_escape (r : Z) (l : list Z) : list Z * list Z :=
  if is_surrogate r then
    match l with
    | 92 :: 117 :: l' =>
      match getu4 l' with
      | Some (r2, l2) =>
        match surrogate_pair r r2 with
        | Some r => (encode_rune r, l2)
        | None => (encode_rune RuneError, l)
        end
      | None => (encode_rune RuneError, l)
      end
    | _ => (encode_rune RuneError, l)
    end
  else (encode_rune r, l).

(** The content of a string literal after its opening quote, decoded, and what
    follows the closing one.  Every round consumes a byte. *)
Fixpoint parse_string (n : nat) (l : list Z) : option (list Z * list Z) :=
  match n with
  | O => None
  | S n =>
    let emit := λ bs l, (λ r, (bs ++ r.1, r.2)) <$> parse_string n l in
    match l with
    | [] => None
    | b :: l' =>
      if b =? 34 then Some ([], l')
      else if b <? 32 then None
      else if b =? 92 then
        match l' with
        | [] => None
        | c :: l2 =>
          match simple_escape c with
          | Some e => emit [e] l2
          | None =>
            if c =? 117 then
              match getu4 l2 with
              | Some (r, l3) => let '(bs, l4) := unicode_escape r l3 in emit bs l4
              | None => None
              end
            else None
          end
        end
      else let '(r, _, w) := DecodeRune l in emit (encode_rune r) (drop w l)
    end
  end.

Fixpoint digits_span (l : list Z) : list Z * list Z :=
  match l with
  | b :: l' => if is_digit b then let '(ds, r) := digits_span l' in (b :: ds, r) else ([], l)
  | [] => ([], [])
  end.

(** What follows a number literal, or [None] if there is none. *)
Definition after_digits (l : list Z) : option (list Z) :=
  match digits_span l with ([], _) => None | (_, r) => Some r end.
Definition number_rest (l : list Z) : option (list Z) :=
  let l := match l with 45 :: l => l | _ => l end in
  let int := match l with
             | 48 :: l => Some l
             | _ => after_digits l
             end in
  let frac := match int with
              | Some (46 :: l) => after_digits l
              | r => r
              end in
  match frac with
  | Some (e :: l) =>
    if (e =? 69) || (e =? 101) then
      after_digits (match l with s :: l' => if (s =? 43) || (s =? 45) then l' else l | [] => [] end)
    else frac
  | r => r
  end.
Definition parse_number (l : list Z) : option (json * list Z) :=
  (λ r, (JNum (of_bytes (take (length l - length r) l)), r)) <$> number_rest l.

Definition maxNestingDepth : Z := 10000.

(** A list takes two rounds for each of its elements, which is at least a byte:
    twice the length of the input is fuel enough. *)
Fixpoint parse_value (n : nat) (depth : Z) (l : list Z) : option (json * list Z) :=
  match n with
  | O => None
  | S n =>
    match skip_space l with
    | 34 :: l => (λ r, (JStr (of_bytes r.1), r.2)) <$> parse_string (length l) l
    | 123 :: l =>
      if maxNestingDepth <=? depth then None else
      match skip_space l with
      | 125 :: l => Some (JObj [], l)
      | l => (λ r, (JObj r.1, r.2)) <$> parse_members n (depth + 1) l
      end
    | 91 :: l =>
      if maxNestingDepth <=? depth then None else
      match skip_space l with
      | 93 :: l => Some (JArr [], l)
      | l => (λ r, (JArr r.1, r.2)) <$> parse_elems n (depth + 1) l
      end
    | 110 :: 117 :: 108 :: 108 :: l => Some (JNull, l)
    | 116 :: 114 :: 117 :: 101 :: l => Some (JBool true, l)
    | 102 :: 97 :: 108 :: 115 :: 101 :: l => Some (JBool false, l)
    | l => parse_number l
    end
  end
with parse_elems (n : nat) (depth : Z) (l : list Z) : option (list json * list Z) :=
  match n with
  | O => None
  | S n =>
    match parse_value n depth l with
    | Some (v, l) =>
      match skip_space l with
      | 44 :: l => (λ r, (v :: r.1, r.2)) <$> parse_elems n depth l
      | 93 :: l => Some ([v], l)
      | _ => None
      end
    | None => None
    end
  end
with parse_members (n : nat) (depth : Z) (l : list Z) : option (list (string * json) * list Z) :=
  match n with
  | O => None
  | S n =>
    match skip_space l with
    | 34 :: l =>
      match parse_string (length l) l with
      | Some (key, l) =>
        match skip_space l with
        | 58 :: l =>
          match parse_value n depth l with
          | Some (v, l) =>
            match skip_space l with
            | 44 :: l => (λ r, ((of_bytes key, v) :: r.1, r.2)) <$> parse_members n depth l
            | 125 :: l => Some ([(of_bytes key, v)], l)
            | _ => None
            end
          | None => None
          end
        | _ => None
        end
      | None => None
      end
    | _ => None
    end
  end.

Definition parse_json (s : string) : option json :=
  match parse_value (2 * length (bytes s) + 2) 0 (bytes s) with
  | Some (v, l) => if bool_decide (skip_space l = []) then Some v else None
  | None => None
  end.

(** Single quotes stand for double ones. *)
Definition json_text (s : string) : string := of_bytes (map (λ b, if b =? 39 then 34 else b) (bytes s)).

Example parse_sample :
  parse_json (json_text " {'a' : [1, -2.5e3, null, true], '\u0062': 'x\n\ud83d\ude00'} ")
  = Some (JObj [("a", JArr [JNum "1"; JNum "-2.5e3"; JNull; JBool true]);
                ("b", JStr (of_bytes ([120; 10] ++ encode_rune 128512)))]).
Proof. vm_compute. reflexivity. Qed.
