(* ===== verification/JsonProps.v ===== *)
(** * Reading back what was written

    The parser of [Json] returns the value an object of strings, lists of
    strings and integers was encoded from. *)

From S2P Require Import Prelude GoString Utf8 Json.

(** ** Strings *)
Definition emit (bs : list Z) (r : option (list Z * list Z)) : option (list Z * list Z) :=
  (λ r, (bs ++ r.1, r.2)) <$> r.

Lemma parse_string_plain n b l :
  b ≠ 34 → 32 ≤ b → b ≠ 92 →
  parse_string (S n) (b :: l) =
  let '(r, _, w) := DecodeRune (b :: l) in emit (encode_rune r) (parse_string n (drop w (b :: l))).
Proof.
  intros. cbn [parse_string]. replace (b =? 34) with false by lia. replace (b <? 32) with false by lia.
  by replace (b =? 92) with false by lia.
Qed.
Lemma parse_string_simple n c e l :
  simple_escape c = Some e → parse_string (S n) (92 :: c :: l) = emit [e] (parse_string n l).
Proof. intros Hc. cbn [parse_string]. cbn [Z.eqb Z.ltb Z.compare]. by rewrite Hc. Qed.
Lemma parse_string_u n r l l' :
  getu4 l = Some (r, l') → is_surrogate r = false →
  parse_string (S n) (92 :: 117 :: l) = emit (encode_rune r) (parse_string n l').
Proof. intros Hu Hs. cbn [parse_string]. cbn. rewrite Hu. unfold unicode_escape. by rewrite Hs. Qed.

Lemma hex_value_digit d : 0 ≤ d < 16 → hex_value (hex_digit d) = Some d.
Proof.
  intros Hd. unfold hex_digit. destruct (Z.ltb_spec d 10); unfold hex_value, in_range.
  - replace ((48 <=? 48 + d) && (48 + d <=? 57)) with true by lia. f_equal. lia.
  - replace ((48 <=? 87 + d) && (87 + d <=? 57)) with false by lia.
    replace ((97 <=? 87 + d) && (87 + d <=? 102)) with true by lia. f_equal. lia.
Qed.
Lemma getu4_byte b l : is_byte b → getu4 ([48; 48] ++ hex_pad 2 b ++ l) = Some (b, l).
Proof.
  unfold is_byte. intros Hb. cbn [hex_pad app]. pose proof (Z.div_mod b 16 ltac:(lia)).
  pose proof (Z.mod_pos_bound b 16 ltac:(lia)).
  assert (b / 16 mod 16 = b / 16) as Hm by (apply Z.mod_small; lia). cbn [getu4].
  rewrite Hm, !hex_value_digit by lia. cbn. do 2 f_equal. lia.
Qed.

Lemma encode_rune_ascii r : 0 ≤ r < 128 → encode_rune r = [r].
Proof. intros. unfold encode_rune. by replace (in_range 0 127 r) with true by (unfold in_range; lia). Qed.

Lemma parse_escape n b l : 0 ≤ b < 128 → parse_string (S n) (escape_byte b ++ l) = emit [b] (parse_string n l).
Proof.
  intros Hb. unfold escape_byte. destruct (html_safe b) eqn:Hs.
  - unfold html_safe in Hs. bool_to_Prop. rewrite !not_elem_of_cons in *. destruct_and!. cbn [app].
    rewrite parse_string_plain by done.
    pose proof (DecodeRune_encode b l ltac:(left; lia)) as HD. rewrite encode_rune_ascii in HD by done. cbn [app] in HD.
    rewrite HD, encode_rune_ascii by done. done.
  - clear Hs. destruct ((b =? 34) || (b =? 92)) eqn:Hq.
    { apply parse_string_simple. unfold simple_escape. by rewrite Hq. }
    do 5 (case_match; [bool_to_Prop; subst b; by apply parse_string_simple |]).
    rewrite <- (assoc_L (++)). cbn [app]. change (92 :: 117 :: 48 :: 48 :: ?x) with (92 :: 117 :: ([48; 48] ++ x)).
    rewrite (parse_string_u n b _ l), encode_rune_ascii; [done | done | apply getu4_byte; unfold is_byte; lia |].
    unfold is_surrogate, in_range. lia.
Qed.

Lemma parse_rune n r l :
  scalar r → parse_string (S n) (escape_chunk (r, encode_rune r) ++ l) = emit (encode_rune r) (parse_string n l).
Proof.
  intros Hr. destruct (decide (0 ≤ r < 128)) as [Hlow|Hhigh].
  - rewrite encode_rune_ascii by done. cbn [escape_chunk]. replace (r <? 128) with true by lia. by apply parse_escape.
  - assert (∃ b b' e, encode_rune r = b :: b' :: e ∧ 128 ≤ b) as (b & b' & e & He & Hb).
    { pose proof (encode_rune_cases r Hr) as Henc. destruct Henc; [destruct Hhigh; lia | ..];
        do 3 eexists; (split; [done | lia]). }
    rewrite He. cbn [escape_chunk]. destruct ((r =? 8232) || (r =? 8233)) eqn:Hsep.
    + bool_to_Prop. rewrite <- He. apply orb_true_iff in Hsep as [H|H]; bool_to_Prop; subst r;
        by apply (parse_string_u n _ _ l).
    + cbn [app]. rewrite parse_string_plain by lia. pose proof (DecodeRune_encode r l Hr) as HD. rewrite He in HD.
      cbn [app] in HD. rewrite HD, He. by rewrite 2!app_comm_cons, drop_app_length.
Qed.

Lemma parse_quoted n rs s rest :
  encodes rs s → (length rs < n)%nat →
  parse_string n (concat (map escape_chunk (chunks s)) ++ 34 :: rest) = Some (bytes s, rest).
Proof.
  intros Henc. rewrite (chunks_encodes _ _ Henc), map_map. destruct Henc as [Hrs ->]. revert n.
  induction Hrs as [|r rs Hr _ IH]; intros [|n] Hn; cbn in Hn; try lia; [done |].
  rewrite encode_cons. cbn [map concat]. rewrite <- (assoc_L (++)), parse_rune by done. by rewrite IH by lia.
Qed.

Lemma escape_chunk_length r : scalar r → (1 ≤ length (escape_chunk (r, encode_rune r)))%nat.
Proof.
  intros Hr. destruct (encode_rune_cases r Hr) as [r H|a b H H'|a b c H H' H'' H3 H4|a b c e];
    cbn [escape_chunk]; repeat case_match; try done; cbn; try lia.
  unfold escape_byte. repeat case_match; cbn; lia.
Qed.
Lemma quoted_length rs s (rest : list Z) :
  encodes rs s → (length rs < length (concat (map escape_chunk (chunks s)) ++ 34%Z :: rest))%nat.
Proof.
  intros Henc. rewrite (chunks_encodes _ _ Henc), map_map. destruct Henc as [Hrs _].
  induction Hrs as [|r rs Hr _ IH]; [cbn; lia |]. cbn [map concat length]. rewrite <- (assoc_L (++)), length_app.
  pose proof (escape_chunk_length r Hr). lia.
Qed.

(** ** Values *)

(** [e] is an encoding of [v]: with [k] rounds or more it is read as [v],
    whatever follows it in a list or an object. *)
Definition delimiter (rest : list Z) : Prop := ∃ b l, rest = b :: l ∧ (b = 44 ∨ b = 93 ∨ b = 125).
Definition reads_as (k : nat) (depth : Z) (e : list Z) (v : json) : Prop :=
  ∀ n rest, (k ≤ n)%nat → delimiter rest → parse_value n depth (e ++ rest) = Some (v, rest).

Lemma delimited b l : b = 44 ∨ b = 93 ∨ b = 125 → delimiter (b :: l).
Proof. intros Hb. by exists b, l. Qed.

Lemma string_reads_as depth rs s : encodes rs s → reads_as 1 depth (quote_json s) (JStr s).
Proof.
  intros Hs [|n] rest Hn _; [lia |]. unfold quote_json. rewrite <- !(assoc_L (++)). cbn [app parse_value skip_space].
  change (skip_space (34 :: ?l)) with (34 :: l). cbn [app].
  rewrite (parse_quoted _ rs) by (try done; by apply (quoted_length rs)). cbn. by rewrite of_bytes_bytes.
Qed.

Lemma elems_read_as k depth es vs n rest :
  Forall2 (reads_as k depth) es vs → es ≠ [] → (k + length es ≤ n)%nat →
  parse_elems n depth (join_json es ++ 93 :: rest) = Some (vs, rest).
Proof.
  intros Hes. revert n. induction Hes as [|e v es vs He Hes IH]; intros n Hnil Hn; [done |].
  destruct n as [|n]; [cbn in Hn; lia |]. cbn [length] in Hn. destruct es as [|e' es].
  - inversion Hes; subst. cbn [join_json parse_elems]. rewrite He; [done | lia |]. apply delimited. lia.
  - change (join_json (e :: e' :: es)) with (e ++ [44] ++ join_json (e' :: es)). rewrite <- !(assoc_L (++)).
    cbn [parse_elems app]. rewrite He; [| lia | apply delimited; lia]. change (skip_space (44 :: ?l)) with (44 :: l).
    cbn [app]. by rewrite IH by (done || cbn [length] in *; lia).
Qed.

Definition member_json (key : string) (e : list Z) : list Z := quote_json key ++ [58] ++ e.

(** A member: a key that is valid UTF-8 and an encoding of its value *)
Definition member_reads (k : nat) (depth : Z) (m : list Z) (kv : string * json) : Prop :=
  ∃ rs e, encodes rs kv.1 ∧ m = member_json kv.1 e ∧ reads_as k depth e kv.2.

Lemma members_read_as k depth ms kvs n rest :
  Forall2 (member_reads k depth) ms kvs → ms ≠ [] → (k + length ms ≤ n)%nat →
  parse_members n depth (join_json ms ++ 125 :: rest) = Some (kvs, rest).
Proof.
  intros Hms. revert n. induction Hms as [|m [key v] ms kvs (rs & e & Hk & -> & He) Hms IH]; intros n Hnil Hn; [done |].
  cbn [fst snd] in *. destruct n as [|n]; [cbn in Hn; lia |]. cbn [length] in Hn.
  assert (∀ l, delimiter l → parse_members (S n) depth (member_json key e ++ l) =
    match skip_space l with
    | 44 :: l => (λ r, ((key, v) :: r.1, r.2)) <$> parse_members n depth l
    | 125 :: l => Some ([(key, v)], l)
    | _ => None
    end) as Hm.
  { intros l Hl. unfold member_json, quote_json. rewrite <- !(assoc_L (++)). cbn [app].
    cbn [parse_members]. change (skip_space (34 :: ?l)) with (34 :: l). cbn match.
    rewrite (parse_quoted _ rs) by (try done; by apply (quoted_length rs)).
    change (skip_space (58 :: ?l)) with (58 :: l). cbn match. rewrite He by (done || lia). by rewrite of_bytes_bytes. }
  destruct ms as [|m ms].
  - inversion Hms; subst. cbn [join_json]. rewrite Hm by (apply delimited; lia). done.
  - change (join_json (?x :: m :: ms)) with (x ++ [44] ++ join_json (m :: ms)). rewrite <- (assoc_L (++)), <- (assoc_L (++)).
    rewrite Hm by (apply delimited; lia). cbn [app]. change (skip_space (44 :: ?l)) with (44 :: l). cbn iota.
    by rewrite IH by (done || cbn [length] in *; lia).
Qed.

Lemma array_reads_as depth l :
  l ≠ [] → Forall (λ s, ∃ rs, encodes rs s) l → depth < maxNestingDepth →
  reads_as (S (1 + length l)) depth (array_json l) (JArr (map JStr l)).
Proof.
  intros Hnil Hl Hd n rest Hn _. destruct n as [|n]; [lia |]. unfold array_json. rewrite <- !(assoc_L (++)).
  cbn [app parse_value]. change (skip_space (91 :: ?l)) with (91 :: l). cbn match.
  replace (maxNestingDepth <=? depth) with false by lia.
  assert (parse_elems n (depth + 1) (join_json (map quote_json l) ++ 93 :: rest) = Some (map JStr l, rest)) as Hes.
  { apply (elems_read_as 1); [| by destruct l | rewrite length_map; lia].
    clear -Hl. induction Hl as [|s l [rs Hs] _ IH]; constructor; [by apply (string_reads_as _ rs) | done]. }
  assert (∃ x, join_json (map quote_json l) ++ 93 :: rest = 34 :: x) as [x Hx].
  { destruct l as [|s [|s' l]]; [done | ..]; cbn [map join_json]; unfold quote_json at 1; by eexists. }
  rewrite Hx in *. change (skip_space (34 :: x)) with (34 :: x). cbn match. by rewrite Hes.
Qed.

(** ** Integers *)
Lemma digits_span_app ds rest :
  forallb is_digit ds → delimiter rest → digits_span (ds ++ rest) = (ds, rest).
Proof.
  intros Hds (b & l & -> & Hb). induction ds as [|d ds IH]; cbn [app digits_span].
  - assert (is_digit b = false) as -> by (unfold is_digit, in_range; lia). done.
  - cbn in Hds. apply Is_true_true in Hds. bool_to_Prop. rewrite H. by rewrite IH by by apply Is_true_true.
Qed.

(** A decimal literal without a sign or a leading zero *)
Definition literal (s : string) : Prop := ∃ b ds, bytes s = b :: ds ∧ 49 ≤ b ≤ 57 ∧ forallb is_digit ds.

Lemma literal_reads_as depth s : literal s → reads_as 1 depth (bytes s) (JNum s).
Proof.
  intros (b & ds & Hs & Hb & Hds) [|n] rest Hn Hrest; [lia |]. rewrite Hs. cbn [app parse_value].
  assert (number_rest (b :: ds ++ rest) = Some rest) as Hnum.
  { unfold number_rest, after_digits. pose proof (digits_span_app ds rest Hds Hrest) as Hspan.
    assert (digits_span (b :: ds ++ rest) = (b :: ds, rest)) as Hspan'.
    { cbn [digits_span]. assert (is_digit b = true) as -> by (unfold is_digit, in_range; lia). by rewrite Hspan. }
    destruct Hrest as (c & l & -> & Hc).
    assert (b = 49 ∨ b = 50 ∨ b = 51 ∨ b = 52 ∨ b = 53 ∨ b = 54 ∨ b = 55 ∨ b = 56 ∨ b = 57) as Hb' by lia.
    repeat destruct Hb' as [Hb'|Hb']; subst b; rewrite Hspan'; by repeat destruct Hc as [-> | Hc]; subst. }
  assert (parse_number (b :: ds ++ rest) = Some (JNum s, rest)) as Hp.
  { unfold parse_number. rewrite Hnum. cbn [fmap option_fmap option_map]. change (b :: ds ++ rest) with ((b :: ds) ++ rest). rewrite <- Hs, length_app.
    replace (length (bytes s) + length rest - length rest)%nat with (length (bytes s)) by lia.
    by rewrite take_app_length, of_bytes_bytes. }
  assert (json_space b = false) as Hsp by (unfold json_space; lia).
  unfold skip_space. cbn [drop_while]. rewrite Hsp.
  assert (b = 49 ∨ b = 50 ∨ b = 51 ∨ b = 52 ∨ b = 53 ∨ b = 54 ∨ b = 55 ∨ b = 56 ∨ b = 57) as Hb' by lia.
  by repeat destruct Hb' as [Hb'|Hb']; subst b.
Qed.

(** ** Documents *)

(** Whatever rounds its members need, an object is read back when its text is
    at least that long. *)
Lemma object_parses k ms kvs :
  Forall2 (member_reads k 1) ms kvs → ms ≠ [] → Forall is_byte (join_json ms) →
  (k + length ms ≤ 2 * length (join_json ms) + 4)%nat →
  parse_json (of_bytes ([123] ++ join_json ms ++ [125])) = Some (JObj kvs).
Proof.
  intros Hms Hnil Hb Hk. unfold parse_json. rewrite bytes_of_bytes.
  2:{ apply Forall_app. split; [repeat constructor; unfold is_byte; lia |]. apply Forall_app. split; [done |].
      repeat constructor; unfold is_byte; lia. }
  cbn [app length]. rewrite length_app. cbn [length].
  set (n := (2 * S (length (join_json ms) + 1) + 1)%nat).
  replace (2 * S (length (join_json ms) + 1) + 2)%nat with (S n) by lia.
  cbn [parse_value]. change (skip_space (123 :: ?l)) with (123 :: l). cbn match.
  pose proof (members_read_as k 1 ms kvs n [] Hms Hnil ltac:(lia)) as Hp.
  assert (∃ x, join_json ms ++ [125] = 34 :: x) as [x Hx].
  { destruct Hms as [|m kv ms kvs (rs & e & _ & -> & _) _]; [done |].
    destruct ms; cbn [join_json]; unfold member_json, quote_json; by eexists. }
  rewrite Hx in *. change (skip_space (34 :: x)) with (34 :: x). cbn match.
  change (maxNestingDepth <=? 0) with false. cbn match. change (0 + 1) with 1. rewrite Hp. done.
Qed.
