(* ===== verification/BroadcastPolicy.v ===== *)
(** * Broadcast audiences: [src/internal/broadcast/policy.go]

    The audience selector, its canonical form and its JSON encoding, the
    normalization of a text, and the decision whether a recipient is eligible. *)

From S2P Require Import Prelude GoString Sha256 Notifications Json.

Definition MaxTextUnits : Z := 4096.
Definition TierClient : string := "client".
Definition TierAdmin : string := "admin".
Definition TierNone : string := "none".

(** ** Skip reasons *)
Inductive SkipReason :=
| SkipNone            (** the empty reason of an eligible recipient *)
| SkipNoAccount | SkipPolicy | SkipUnsubscribed | SkipUnreachable | SkipOutOfAudience.
#[global] Instance SkipReason_eq_dec : EqDecision SkipReason.
Proof. solve_decision. Defined.
Definition skip_string (r : SkipReason) : string :=
  match r with
  | SkipNone => ""
  | SkipNoAccount => "no_account"
  | SkipPolicy => "policy"
  | SkipUnsubscribed => "unsubscribed"
  | SkipUnreachable => "unreachable"
  | SkipOutOfAudience => "out_of_audience"
  end.
Definition SkipReasons : list SkipReason := [SkipNoAccount; SkipPolicy; SkipUnsubscribed; SkipUnreachable].

(** ** Selectors *)
Record Selector := {
  sel_Category : string;
  sel_Tiers : list string;
  sel_ConnectedVia : list string;
  sel_ActiveWithinDays : Z;
}.
#[export] Instance Selector_eta : Eta Selector := λ r,
  Build_Selector (sel_Category r) (sel_Tiers r) (sel_ConnectedVia r) (sel_ActiveWithinDays r).
Definition MaxActiveWithinDays : Z := 3650.

Inductive selector_error :=
| UnknownCategory (category : string)
| UnknownTier (tier : string)
| EmptyConnectedVia
| BadActiveWindow
| DecodeSelector.        (** [json.Unmarshal] refused it *)

(** [sort.Strings] *)
Definition string_before (x y : string) : Prop := String.leb x y = true.
#[global] Instance string_before_dec x y : Decision (string_before x y).
Proof. unfold string_before. apply _. Defined.
Definition sort_strings (l : list string) : list string := merge_sort string_before l.

#[local] Open Scope result_scope.

Section policy.
Context `{UnicodeTables}.

Definition canonical_entry (v : string) : string := ToLower (TrimSpace v).
(** The loop; [seen] are the values of [out], the last one first. *)
Fixpoint canonical_loop (check : string → option selector_error) (seen : list string) (l : list string)
    : result selector_error (list string) :=
  match l with
  | [] => Ok (reverse seen)
  | v :: l =>
    let v := canonical_entry v in
    match check v with
    | Some e => Err e
    | None => canonical_loop check (if bool_decide (v ∈ seen) then seen else v :: seen) l
    end
  end.
Definition canonicalSet (l : list string) (check : string → option selector_error)
    : result selector_error (list string) :=
  rbind (canonical_loop check [] l) (λ out, Ok (sort_strings out)).

Definition check_tier (t : string) : option selector_error :=
  if negb (bool_decide (t = TierClient)) && negb (bool_decide (t = TierAdmin))
  then Some (UnknownTier t) else None.
Definition check_connected (c : string) : option selector_error :=
  if bool_decide (c = "") then Some EmptyConnectedVia else None.

Definition Normalize (sel : Selector) : result selector_error Selector :=
  let category := TrimSpace (sel_Category sel) in
  if negb (isKnownCategory category) then Err (UnknownCategory (sel_Category sel))
  else
    let tiers := if bool_decide (sel_Tiers sel = []) then [TierClient] else sel_Tiers sel in
    let! tiers := canonicalSet tiers check_tier in
    let! connected := canonicalSet (sel_ConnectedVia sel) check_connected in
    if (sel_ActiveWithinDays sel <? 0) || (MaxActiveWithinDays <? sel_ActiveWithinDays sel)
    then Err BadActiveWindow
    else Ok {| sel_Category := category; sel_Tiers := tiers; sel_ConnectedVia := connected;
               sel_ActiveWithinDays := sel_ActiveWithinDays sel |}.
End policy.

(** ** The JSON of a selector *)

(** [omitempty] leaves out an empty list and a zero. *)
Definition list_field (name : string) (l : list string) : list (list Z) :=
  if bool_decide (l = []) then [] else [quote_json name ++ [58] ++ array_json l].
Definition selector_fields (sel : Selector) : list (list Z) :=
  [quote_json "category" ++ [58] ++ quote_json (sel_Category sel)]
  ++ list_field "tiers" (sel_Tiers sel) ++ list_field "connected_via" (sel_ConnectedVia sel)
  ++ (if sel_ActiveWithinDays sel =? 0 then []
      else [quote_json "active_within_days" ++ [58] ++ bytes (FormatInt (sel_ActiveWithinDays sel))]).
Definition CanonicalJSON (sel : Selector) : string :=
  of_bytes ([123] ++ join_json (selector_fields sel) ++ [125]).

Inductive selector_field := FCategory | FTiers | FConnectedVia | FActiveWithinDays.
Definition field_names : list (string * selector_field) :=
  [("category", FCategory); ("tiers", FTiers); ("connected_via", FConnectedVia);
   ("active_within_days", FActiveWithinDays)].

(** A key names a field exactly or, failing that, up to case. *)
Definition field_of `{UnicodeTables} (key : string) : option selector_field :=
  match list_find (λ nf, nf.1 = key) field_names with
  | Some (_, nf) => Some nf.2
  | None => (λ inf, inf.2.2) <$> list_find (λ nf, EqualFold nf.1 key) field_names
  end.

(** Decoding into a field with the value [old]: null keeps a string or an
    integer and clears a slice; in a slice it keeps the element a previous
    occurrence of the key left there. *)
Definition string_value (old : string) (v : json) : option string :=
  match v with JStr s => Some s | JNull => Some old | _ => None end.
Fixpoint strings_value (old : list string) (l : list json) : option (list string) :=
  match l with
  | [] => Some []
  | v :: l =>
    match string_value (default "" (head old)) v, strings_value (tail old) l with
    | Some s, Some ss => Some (s :: ss)
    | _, _ => None
    end
  end.
Definition slice_value (old : list string) (v : json) : option (list string) :=
  match v with JArr l => strings_value old l | JNull => Some [] | _ => None end.
Definition int_value (old : Z) (v : json) : option Z :=
  match v with JNum lit => Atoi lit | JNull => Some old | _ => None end.

Definition decode_field (f : selector_field) (v : json) (sel : Selector) : option Selector :=
  match f with
  | FCategory => (λ x, sel <|sel_Category := x|>) <$> string_value (sel_Category sel) v
  | FTiers => (λ x, sel <|sel_Tiers := x|>) <$> slice_value (sel_Tiers sel) v
  | FConnectedVia => (λ x, sel <|sel_ConnectedVia := x|>) <$> slice_value (sel_ConnectedVia sel) v
  | FActiveWithinDays => (λ x, sel <|sel_ActiveWithinDays := x|>) <$> int_value (sel_ActiveWithinDays sel) v
  end.
Definition zero_selector : Selector :=
  {| sel_Category := ""; sel_Tiers := []; sel_ConnectedVia := []; sel_ActiveWithinDays := 0 |}.

(** [json.Unmarshal] into a zero [Selector]; unknown keys are skipped.  A value
    of the wrong type is reported after the whole object was read, which its
    caller treats as any other error. *)
Fixpoint decode_members `{UnicodeTables} (l : list (string * json)) (sel : Selector) : option Selector :=
  match l with
  | [] => Some sel
  | (key, v) :: l =>
    match field_of key with
    | Some f => match decode_field f v sel with Some sel => decode_members l sel | None => None end
    | None => decode_members l sel
    end
  end.
Definition Unmarshal `{UnicodeTables} (s : string) : option Selector :=
  match parse_json s with
  | Some (JObj l) => decode_members l zero_selector
  | Some JNull => Some zero_selector
  | _ => None
  end.

(** ** Texts *)
Inductive text_error := TextEmpty | TextNotUTF8 | TextTooLong (units : Z).

(** [strings.ReplaceAll] with a non-empty [old] *)
Definition ReplaceAll (s old new : string) : string := Join (Split s old) new.

(** [utf8.ValidString] *)
Definition ValidString (s : string) : bool := forallb (λ rv, bool_decide (rv.2 = None)) (decode (bytes s)).
(** The length of [utf16.Encode([]rune(s))]: a rune outside the Basic
    Multilingual Plane takes two units. *)
Definition utf16_units (s : string) : Z := foldr (λ r n, (if r <? 65536 then 1 else 2) + n) 0 (runes s).

Definition CR : string := chr (ascii_of_byte 13).
Definition LF : string := chr (ascii_of_byte 10).
Definition NormalizeText (text : string) : result text_error string :=
  let t := ReplaceAll text (CR +:+ LF) LF in
  let t := ReplaceAll t CR LF in
  let t := TrimSpace t in
  if bool_decide (t = "") then Err TextEmpty
  else if negb (ValidString t) then Err TextNotUTF8
  else let n := utf16_units t in
       if MaxTextUnits <? n then Err (TextTooLong n) else Ok t.

Definition Hash (s : string) : string := hex_encode (Sum256 s).
#[global] Arguments Hash : simpl never.

(** ** Recipients *)
Record Policy := {
  po_AdminTelegramIDs : gset Z;
  po_LookupAdminTelegramIDs : gset Z;
  po_ClientTelegramIDs : gset Z;
  po_AutoApproveClients : bool;
}.
Definition TierOf (p : Policy) (telegramID : Z) (rawAccessTier : string) : string :=
  if bool_decide (telegramID ∈ po_AdminTelegramIDs p) then TierAdmin
  else if bool_decide (telegramID ∈ po_LookupAdminTelegramIDs p) then ""
  else if bool_decide (rawAccessTier = TierClient) then TierClient
  else if bool_decide (rawAccessTier = TierNone) then ""
  else if po_AutoApproveClients p || bool_decide (telegramID ∈ po_ClientTelegramIDs p) then TierClient
  else "".

Record BroadcastRecipientFacts := {
  bf_UserID : Z;
  bf_TelegramID : Z;
  bf_AccessTier : string;
  bf_IdentityCapturedAt : option time;
  bf_LastSeenAt : option time;
  bf_Reachability : string;
  bf_Prefs : gmap string string;
  bf_ConnectedVia : list string;
}.
#[export] Instance facts_eta : Eta BroadcastRecipientFacts := λ r,
  Build_BroadcastRecipientFacts (bf_UserID r) (bf_TelegramID r) (bf_AccessTier r) (bf_IdentityCapturedAt r)
    (bf_LastSeenAt r) (bf_Reachability r) (bf_Prefs r) (bf_ConnectedVia r).

Record decision := {
  dc_InAudience : bool;
  dc_Eligible : bool;
  dc_Reason : SkipReason;
}.
Definition out_of_audience : decision :=
  {| dc_InAudience := false; dc_Eligible := false; dc_Reason := SkipOutOfAudience |}.
Definition skip (r : SkipReason) : decision := {| dc_InAudience := true; dc_Eligible := false; dc_Reason := r |}.
Definition eligible_decision : decision :=
  {| dc_InAudience := true; dc_Eligible := true; dc_Reason := SkipNone |}.

Definition Day : duration := 24 * Hour.

Section evaluate.
Context `{UnicodeTables}.

Definition anyConnected (want have : list string) : bool :=
  existsb (λ h, bool_decide (canonical_entry h ∈ want)) have.

Definition inactive (sel : Selector) (f : BroadcastRecipientFacts) (now : time) : bool :=
  (0 <? sel_ActiveWithinDays sel)
  && match bf_LastSeenAt f with None => true | Some t => t <? now + - sel_ActiveWithinDays sel * Day end.

Definition Evaluate (sel : Selector) (f : BroadcastRecipientFacts) (p : Policy) (now : time) : decision :=
  if negb (bool_decide (sel_ConnectedVia sel = [])) && negb (anyConnected (sel_ConnectedVia sel) (bf_ConnectedVia f))
  then out_of_audience
  else if inactive sel f now then out_of_audience
  else match bf_IdentityCapturedAt f with
  | None => skip SkipNoAccount
  | Some _ =>
    let tier := TierOf p (bf_TelegramID f) (bf_AccessTier f) in
    if bool_decide (tier = "") || negb (bool_decide (tier ∈ sel_Tiers sel)) then skip SkipPolicy
    else if negb (bool_decide (ResolvePrefState (sel_Category sel) (bf_Prefs f) = PrefSubscribed))
    then skip SkipUnsubscribed
    else if bool_decide (bf_Reachability f = StateBlocked) || bool_decide (bf_Reachability f = StateCannotInitiate)
    then skip SkipUnreachable
    else eligible_decision
  end.

(** ** [Resolve] of [service.go] *)
Record Counts := { ct_Eligible : Z; ct_Skipped : gmap string Z }.

Definition count_skip (m : gmap string Z) (d : decision) : gmap string Z :=
  if dc_InAudience d && negb (dc_Eligible d)
  then <[skip_string (dc_Reason d) := default 0 (m !! skip_string (dc_Reason d)) + 1]> m else m.
Definition Resolve (sel : Selector) (facts : list BroadcastRecipientFacts) (p : Policy) (now : time)
    : list BroadcastRecipientFacts * Counts :=
  let eligible := filter (λ f, dc_Eligible (Evaluate sel f p now) = true) facts in
  (eligible, {| ct_Eligible := Z.of_nat (length eligible);
                ct_Skipped := foldl count_skip (list_to_map (map (λ r, (skip_string r, 0)) SkipReasons))
                                (map (λ f, Evaluate sel f p now) facts) |}).
End evaluate.
