(* ===== verification/BroadcastCanonical.v ===== *)
(** * The canonical form of an audience

    Two selectors normalize to the same value exactly when they describe the
    same audience; normalizing is done once and for all; and the JSON a
    campaign stores is read back as the selector it was written from. *)

From S2P Require Import Prelude GoString Utf8 Json JsonProps Notifications BroadcastPolicy.

(** ** The order of [sort.Strings] *)
Lemma ascii_compare_spec a b : Ascii.compare a b = N.compare (Ascii.N_of_ascii a) (Ascii.N_of_ascii b).
Proof. done. Qed.
Lemma leb_cons a s b t :
  String.leb (String a s) (String b t) = true ↔
  (Ascii.N_of_ascii a < Ascii.N_of_ascii b)%N ∨ a = b ∧ String.leb s t = true.
Proof.
  unfold String.leb. cbn [String.compare]. rewrite ascii_compare_spec.
  destruct (N.compare_spec (Ascii.N_of_ascii a) (Ascii.N_of_ascii b)) as [He|Hlt|Hgt].
  - assert (a = b) as -> by (rewrite <- (Ascii.ascii_N_embedding a), He; apply Ascii.ascii_N_embedding).
    split; [by right | intros [?|[_ ?]]; [lia | done]].
  - split; [by left | done].
  - split; [done | intros [?|[-> _]]; lia].
Qed.

#[global] Instance string_before_total : Total string_before.
Proof. intros x y. apply String.leb_total. Qed.
#[global] Instance string_before_antisymm : AntiSymm (=) string_before.
Proof. intros x y. apply String.leb_antisym. Qed.
#[global] Instance string_before_transitive : Transitive string_before.
Proof.
  unfold string_before. intros x. induction x as [|a x IH]; intros [|b y] [|c z]; try done.
  rewrite !leb_cons. intros [?|[-> Hxy]] [?|[-> Hyz]]; [left; lia | by left | by left |].
  right. split; [done | by eapply IH].
Qed.

Lemma sort_strings_perm l : sort_strings l ≡ₚ l.
Proof. apply merge_sort_Permutation. Qed.
Lemma sort_strings_unique l k : NoDup l → NoDup k → (∀ x, x ∈ l ↔ x ∈ k) → sort_strings l = sort_strings k.
Proof.
  intros Hl Hk Hlk. apply (Sorted_unique string_before); try apply Sorted_merge_sort; try apply _.
  rewrite !sort_strings_perm. by apply NoDup_Permutation.
Qed.
Lemma sort_strings_twice l : sort_strings (sort_strings l) = sort_strings l.
Proof.
  apply (Sorted_unique string_before); try apply Sorted_merge_sort; try apply _. apply sort_strings_perm.
Qed.

Section canonical.
Context `{UnicodeTables}.

(** ** [canonicalSet] *)
Lemma canonical_loop_inv check seen l out :
  canonical_loop check seen l = Ok out → NoDup seen →
  NoDup out ∧ (∀ x, x ∈ out ↔ x ∈ seen ∨ x ∈ map canonical_entry l) ∧
  Forall (λ v, check (canonical_entry v) = None) l.
Proof.
  revert seen. induction l as [|v l IH]; cbn [canonical_loop]; intros seen.
  - intros [= <-] Hnd. split; [by rewrite reverse_Permutation |]. split; [| constructor].
    intros x. rewrite elem_of_reverse. cbn. set_solver.
  - destruct (check (canonical_entry v)) eqn:Hc; [done |]. case_bool_decide as Hv; intros Hl Hnd.
    + destruct (IH _ Hl Hnd) as (Ho & Hx & Hf). split; [done |]. split; [| by constructor].
      intros x. rewrite Hx. cbn [map]. rewrite elem_of_cons. naive_solver.
    + destruct (IH _ Hl ltac:(by constructor)) as (Ho & Hx & Hf). split; [done |]. split; [| by constructor].
      intros x. rewrite Hx. cbn [map]. rewrite !elem_of_cons. tauto.
Qed.

(** What [canonicalSet] returns *)
Record canonical (check : string → option selector_error) (out : list string) : Prop := {
  cn_sorted : sort_strings out = out;
  cn_nodup : NoDup out;
  cn_ok : Forall (λ v, check v = None) out;
}.

Lemma canonicalSet_inv check l out :
  canonicalSet l check = Ok out → canonical check out ∧ ∀ x, x ∈ out ↔ x ∈ map canonical_entry l.
Proof.
  unfold canonicalSet. intros (out' & Hl & [= <-])%rbind_Ok.
  destruct (canonical_loop_inv _ _ _ _ Hl (NoDup_nil_2)) as (Hnd & Hx & Hf).
  assert (∀ x, x ∈ sort_strings out' ↔ x ∈ map canonical_entry l) as Hin.
  { intros x. rewrite sort_strings_perm, Hx. rewrite elem_of_nil. tauto. }
  split; [| done]. split; [apply sort_strings_twice | by rewrite sort_strings_perm |].
  apply Forall_forall. intros x Hx'%Hin. apply list_elem_of_fmap in Hx' as (v & -> & Hv).
  rewrite Forall_forall in Hf. by apply Hf.
Qed.

(** The entries decide the result. *)
Lemma canonicalSet_unique check l l' out out' :
  canonicalSet l check = Ok out → canonicalSet l' check = Ok out' →
  (out = out' ↔ ∀ x, x ∈ map canonical_entry l ↔ x ∈ map canonical_entry l').
Proof.
  intros [[Hs Hnd _] Hx]%canonicalSet_inv [[Hs' Hnd' _] Hx']%canonicalSet_inv. split.
  - intros <- x. by rewrite <- Hx, Hx'.
  - intros Hll. rewrite <- Hs, <- Hs'. apply sort_strings_unique; [done.. |]. intros x. by rewrite Hx, Hx'.
Qed.

Lemma canonicalSet_fixed check out :
  canonical check out → Forall (λ v, canonical_entry v = v) out → canonicalSet out check = Ok out.
Proof.
  intros [Hs Hnd Hok] Hfix. unfold canonicalSet.
  enough (∀ seen, NoDup (reverse seen ++ out) → canonical_loop check seen out = Ok (reverse seen ++ out)) as Hl.
  { rewrite (Hl []) by done. cbn -[sort_strings]. by rewrite Hs. }
  clear Hs Hnd. induction out as [|v out IH]; intros seen Hnd; cbn [canonical_loop]; [by rewrite app_nil_r |].
  apply Forall_cons in Hfix as [Hv Hfix], Hok as [Hc Hok]. rewrite Hv, Hc.
  rewrite bool_decide_false.
  2:{ apply NoDup_app in Hnd as (_ & Hd & _). intros Hin. destruct (Hd v); [by apply elem_of_reverse | by left]. }
  rewrite IH; [| done.. |]; rewrite reverse_cons, <- (assoc_L (++)); done.
Qed.

(** ** [Normalize] *)

(** The audience a selector describes *)
Definition audience_tiers (sel : Selector) : list string :=
  map canonical_entry (if bool_decide (sel_Tiers sel = []) then [TierClient] else sel_Tiers sel).
Record same_audience (s s' : Selector) : Prop := {
  sa_category : TrimSpace (sel_Category s) = TrimSpace (sel_Category s');
  sa_tiers x : x ∈ audience_tiers s ↔ x ∈ audience_tiers s';
  sa_connected x : x ∈ map canonical_entry (sel_ConnectedVia s) ↔ x ∈ map canonical_entry (sel_ConnectedVia s');
  sa_days : sel_ActiveWithinDays s = sel_ActiveWithinDays s';
}.

Lemma Normalize_inv s n :
  Normalize s = Ok n →
  isKnownCategory (TrimSpace (sel_Category s)) ∧ sel_Category n = TrimSpace (sel_Category s) ∧
  canonicalSet (if bool_decide (sel_Tiers s = []) then [TierClient] else sel_Tiers s) check_tier = Ok (sel_Tiers n) ∧
  canonicalSet (sel_ConnectedVia s) check_connected = Ok (sel_ConnectedVia n) ∧
  sel_ActiveWithinDays n = sel_ActiveWithinDays s ∧ 0 ≤ sel_ActiveWithinDays n ≤ MaxActiveWithinDays.
Proof.
  unfold Normalize. case_match eqn:Hk; [done |]. apply negb_false_iff in Hk.
  intros (ts & Ht & (cs & Hc & Hn)%rbind_Ok)%rbind_Ok. case_match eqn:Hd; [done |]. injection Hn as <-.
  cbn. apply orb_false_iff in Hd as [??]. bool_to_Prop. split_and!; [by rewrite Hk | done.. | lia | lia].
Qed.

Lemma Normalize_unique s s' n n' :
  Normalize s = Ok n → Normalize s' = Ok n' → (n = n' ↔ same_audience s s').
Proof.
  intros (_ & Hc & Ht & Hv & Hd & _)%Normalize_inv (_ & Hc' & Ht' & Hv' & Hd' & _)%Normalize_inv. split.
  - intros <-. split; [congruence | | | congruence].
    + by apply (canonicalSet_unique _ _ _ _ _ Ht Ht').
    + by apply (canonicalSet_unique _ _ _ _ _ Hv Hv').
  - intros [Hsc Hst Hsv Hsd]. apply (canonicalSet_unique _ _ _ _ _ Ht Ht') in Hst.
    apply (canonicalSet_unique _ _ _ _ _ Hv Hv') in Hsv. destruct n, n'; cbn in *. congruence.
Qed.

(** ** The stored JSON *)
Lemma known_category_trimmed c : isKnownCategory c → TrimSpace c = c ∧ ∃ rs, encodes rs c.
Proof.
  unfold isKnownCategory. intros Hc%bool_decide_unpack. unfold NotificationCategories in Hc.
  rewrite !elem_of_cons, elem_of_nil in Hc. destruct Hc as [-> |[-> |[-> |[]]]]; (split; [by vm_compute |]);
    eexists; by apply ascii_encodes.
Qed.
Lemma tier_encodes t : check_tier t = None → canonical_entry t = t ∧ ∃ rs, encodes rs t.
Proof.
  unfold check_tier. case_match eqn:Hb; [done |]. intros _. apply andb_false_iff in Hb as [Hb|Hb]; bool_to_Prop; subst t;
    (split; [| eexists; by apply ascii_encodes]);
    unfold canonical_entry; by apply ToLower_id.
Qed.
End canonical.

Section stored.
Context `{LowerTables}.

(** A selector [Normalize] returned *)
Record normal (n : Selector) : Prop := {
  no_category : isKnownCategory (sel_Category n);
  no_tiers : canonical check_tier (sel_Tiers n);
  no_tiers_nonempty : sel_Tiers n ≠ [];
  no_connected : canonical check_connected (sel_ConnectedVia n);
  no_fixed : Forall (λ v, canonical_entry v = v) (sel_ConnectedVia n);
  no_days : 0 ≤ sel_ActiveWithinDays n ≤ MaxActiveWithinDays;
}.

Lemma canonicalSet_nonempty check l out : canonicalSet l check = Ok out → l ≠ [] → out ≠ [].
Proof.
  intros [_ Hx]%canonicalSet_inv Hl ->. destruct l as [|v l]; [done |].
  apply (not_elem_of_nil (canonical_entry v)), Hx. by left.
Qed.

Lemma Normalize_normal s n : Normalize s = Ok n → normal n.
Proof.
  intros (Hk & Hc & Ht & Hv & _ & Hd)%Normalize_inv. split; [by rewrite Hc | | | | | done].
  - by apply canonicalSet_inv in Ht as [].
  - eapply canonicalSet_nonempty; [exact Ht |]. by case_bool_decide.
  - by apply canonicalSet_inv in Hv as [].
  - apply canonicalSet_inv in Hv as [_ Hv]. apply Forall_forall. intros x (v & -> & _)%Hv%list_elem_of_fmap.
    apply lower_trim_twice.
Qed.

(** Normalizing again changes nothing. *)
Lemma Normalize_fixed n : normal n → Normalize n = Ok n.
Proof.
  intros [Hk Ht Hnil Hv Hfix Hd]. destruct (known_category_trimmed _ Hk) as [Htrim _]. unfold Normalize.
  rewrite Htrim. apply Is_true_true in Hk. rewrite Hk. cbn [negb]. rewrite bool_decide_false by done.
  rewrite (canonicalSet_fixed _ _ Ht).
  2:{ eapply Forall_impl; [apply (cn_ok _ _ Ht) |]. intros t. apply tier_encodes. }
  cbn [rbind]. rewrite (canonicalSet_fixed _ _ Hv Hfix). cbn [rbind].
  replace (_ || _) with false by (unfold MaxActiveWithinDays in *; lia). by destruct n.
Qed.

(** *** Its JSON *)
Lemma canonical_entry_encodes v : ∃ rs, encodes rs (canonical_entry v).
Proof. eexists. apply ToLower_encodes. Qed.

Lemma days_literal z : 0 < z ≤ MaxActiveWithinDays → literal (FormatInt z) ∧ Atoi (FormatInt z) = Some z.
Proof.
  intros Hz. set (ok := λ z, match bytes (FormatInt z) with
    | b :: ds => (49 <=? b) && (b <=? 57) && forallb is_digit ds && bool_decide (Atoi (FormatInt z) = Some z)
    | [] => false end).
  assert (forallb ok (map Z.of_nat (seq 1 3650)) = true) as Hall by (vm_compute; reflexivity).
  rewrite forallb_forall in Hall. specialize (Hall z). unfold ok in Hall.
  destruct (bytes (FormatInt z)) as [|b ds] eqn:Hb; [discriminate Hall |].
  { apply in_map_iff. exists (Z.to_nat z). unfold MaxActiveWithinDays in Hz. split; [lia | apply in_seq; lia]. }
  assert ((49 <=? b) && (b <=? 57) && forallb is_digit ds && bool_decide (Atoi (FormatInt z) = Some z) = true) as H1.
  { apply Hall, in_map_iff. exists (Z.to_nat z). unfold MaxActiveWithinDays in Hz. split; [lia | apply in_seq; lia]. }
  clear Hall. bool_to_Prop. split; [| done]. exists b, ds. split; [done |]. split; [lia | by apply Is_true_true].
Qed.

Definition list_member (name : string) (l : list string) : list (string * json) :=
  if bool_decide (l = []) then [] else [(name, JArr (map JStr l))].
Definition selector_members (sel : Selector) : list (string * json) :=
  [("category", JStr (sel_Category sel))] ++ list_member "tiers" (sel_Tiers sel)
  ++ list_member "connected_via" (sel_ConnectedVia sel)
  ++ (if sel_ActiveWithinDays sel =? 0 then []
      else [("active_within_days", JNum (FormatInt (sel_ActiveWithinDays sel)))]).

Lemma reads_as_mono k k' depth e v : (k ≤ k')%nat → reads_as k depth e v → reads_as k' depth e v.
Proof. intros Hk He n rest Hn. apply He. lia. Qed.
Lemma member_reads_intro k k' depth key e v :
  ascii_only key = true → (k ≤ k')%nat → reads_as k depth e v → member_reads k' depth (member_json key e) (key, v).
Proof. intros Hkey Hk He. exists (bytes key), e. split; [by apply ascii_encodes |]. split; [done | by eapply reads_as_mono]. Qed.

Definition rounds (sel : Selector) : nat := 2 + length (sel_Tiers sel) + length (sel_ConnectedVia sel).
Lemma list_field_reads name l k :
  ascii_only name = true → Forall (λ s, ∃ rs, encodes rs s) l → (2 + length l ≤ k)%nat →
  Forall2 (member_reads k 1) (list_field name l) (list_member name l).
Proof.
  intros Hname Hl Hk. unfold list_field, list_member. case_bool_decide; [constructor |].
  constructor; [| constructor]. eapply member_reads_intro; [done | exact Hk | by apply array_reads_as].
Qed.
Lemma selector_fields_read n :
  normal n → Forall2 (member_reads (rounds n) 1) (selector_fields n) (selector_members n).
Proof.
  intros [Hk Ht _ _ Hfix Hd]. unfold selector_fields, selector_members, rounds.
  apply Forall2_app; [| apply Forall2_app; [| apply Forall2_app]].
  - constructor; [| constructor]. destruct (known_category_trimmed _ Hk) as [_ [rs Hrs]].
    eapply member_reads_intro; [done | | by apply (string_reads_as _ rs)]. lia.
  - apply list_field_reads; [done | | lia]. eapply Forall_impl; [apply (cn_ok _ _ Ht) |]. intros t. apply tier_encodes.
  - apply list_field_reads; [done | | lia]. eapply Forall_impl; [exact Hfix |]. intros v <-.
    apply canonical_entry_encodes.
  - case_match; constructor; [| constructor]. bool_to_Prop.
    eapply member_reads_intro; [done | | apply literal_reads_as, days_literal; lia]. lia.
Qed.

(** The text is long enough for the rounds it takes. *)
Lemma join_json_length l : (sum_list_with length l ≤ length (join_json l))%nat.
Proof.
  induction l as [|x l IH]; [done |]. destruct l as [|y l]; [cbn; lia |].
  change (join_json (x :: y :: l)) with (x ++ [44] ++ join_json (y :: l)). rewrite !length_app.
  cbn [sum_list_with length] in *. lia.
Qed.
Lemma quote_json_length s : (2 ≤ length (quote_json s))%nat.
Proof. unfold quote_json. rewrite !length_app. cbn. lia. Qed.
Lemma array_json_length l : (length l + 2 ≤ length (array_json l))%nat.
Proof.
  unfold array_json. rewrite !length_app. cbn [length]. pose proof (join_json_length (map quote_json l)).
  assert (length l ≤ sum_list_with length (map quote_json l))%nat; [| lia].
  clear. induction l as [|s l IH]; cbn [map sum_list_with length]; [lia |]. pose proof (quote_json_length s). lia.
Qed.
Lemma list_field_length name l :
  (length l ≤ sum_list_with length (list_field name l))%nat ∧ (length (list_field name l) ≤ 1)%nat.
Proof.
  unfold list_field. case_bool_decide as Hl; [subst; cbn; lia |]. cbn [sum_list_with length]. rewrite !length_app.
  pose proof (array_json_length l). lia.
Qed.
Lemma selector_rounds n :
  (rounds n + length (selector_fields n) ≤ 2 * length (join_json (selector_fields n)) + 4)%nat.
Proof.
  pose proof (join_json_length (selector_fields n)) as Hj. unfold rounds.
  assert (2 + length (sel_Tiers n) + length (sel_ConnectedVia n) ≤ sum_list_with length (selector_fields n))%nat as Hs.
  { unfold selector_fields. rewrite !sum_list_with_app. cbn [sum_list_with]. rewrite !length_app.
    pose proof (list_field_length "tiers" (sel_Tiers n)). pose proof (list_field_length "connected_via" (sel_ConnectedVia n)).
    pose proof (quote_json_length (sel_Category n)). lia. }
  assert (length (selector_fields n) ≤ 4)%nat.
  { unfold selector_fields. rewrite !length_app. pose proof (list_field_length "tiers" (sel_Tiers n)).
    pose proof (list_field_length "connected_via" (sel_ConnectedVia n)). case_match; cbn [length]; lia. }
  lia.
Qed.

(** *** Bytes *)
Lemma hex_digit_byte d : 0 ≤ d < 16 → is_byte (hex_digit d).
Proof. unfold hex_digit, is_byte. case_match; lia. Qed.
Ltac is_bytes :=
  repeat lazymatch goal with
  | |- Forall _ (_ ++ _) => apply Forall_app; split
  | |- Forall _ (_ :: _) => apply Forall_cons; split
  | |- Forall _ [] => apply Forall_nil_2
  end; try (unfold is_byte; lia).
Lemma escape_byte_bytes b : is_byte b → Forall is_byte (escape_byte b).
Proof. intros Hb. unfold escape_byte. repeat case_match; cbn [hex_pad app]; is_bytes; try done; apply hex_digit_byte, Z.mod_pos_bound; lia. Qed.
Lemma quote_json_bytes s : Forall is_byte (quote_json s).
Proof.
  unfold quote_json. is_bytes. apply Forall_concat, Forall_map. eapply Forall_impl; [apply chunks_bytes |].
  intros [r [|b [|b' bs]]]; cbn [snd escape_chunk]; intros Hb; try case_match; try done; try apply bytes_range;
    try (apply escape_byte_bytes; by inversion Hb).
  all: is_bytes; first [apply bytes_range | apply hex_digit_byte, Z.mod_pos_bound; lia].
Qed.
Lemma join_json_bytes l : Forall (Forall is_byte) l → Forall is_byte (join_json l).
Proof.
  induction 1 as [|x l Hx Hl IH]; [constructor |]. destruct l as [|y l]; [done |].
  change (join_json (x :: y :: l)) with (x ++ [44] ++ join_json (y :: l)). is_bytes; done.
Qed.
Lemma list_field_bytes name l : Forall (Forall is_byte) (list_field name l).
Proof.
  unfold list_field. case_bool_decide; [constructor |]. constructor; [| constructor]. unfold array_json.
  is_bytes; [apply quote_json_bytes |]. apply join_json_bytes, Forall_map, Forall_true. intros s. apply quote_json_bytes.
Qed.
Lemma selector_bytes n : Forall is_byte (join_json (selector_fields n)).
Proof.
  apply join_json_bytes. unfold selector_fields. is_bytes; try apply quote_json_bytes; try apply list_field_bytes.
  case_match; [constructor |]. constructor; [| constructor]. is_bytes; [apply quote_json_bytes | apply bytes_range].
Qed.

(** *** Decoding *)
Lemma strings_value_strings l : strings_value [] (map JStr l) = Some l.
Proof. induction l as [|s l IH]; [done |]. cbn. by rewrite IH. Qed.

Lemma decode_tiers ts l c days :
  decode_members (list_member "tiers" ts ++ l) (Build_Selector c [] [] days) =
  decode_members l (Build_Selector c ts [] days).
Proof.
  unfold list_member. case_bool_decide; [by subst |]. cbn [app decode_members].
  assert (field_of "tiers" = Some FTiers) as -> by done. cbn. by rewrite strings_value_strings.
Qed.
Lemma decode_connected cs l c ts days :
  decode_members (list_member "connected_via" cs ++ l) (Build_Selector c ts [] days) =
  decode_members l (Build_Selector c ts cs days).
Proof.
  unfold list_member. case_bool_decide; [by subst |]. cbn [app decode_members].
  assert (field_of "connected_via" = Some FConnectedVia) as -> by done. cbn. by rewrite strings_value_strings.
Qed.

Lemma decode_selector n : normal n → decode_members (selector_members n) zero_selector = Some n.
Proof.
  intros [_ _ _ _ _ Hd]. unfold selector_members. cbn [app decode_members].
  assert (field_of "category" = Some FCategory) as -> by done. cbn [decode_field fmap option_fmap option_map string_value].
  change (zero_selector <|sel_Category := ?c|>) with (Build_Selector c [] [] 0).
  rewrite decode_tiers, decode_connected. destruct (Z.eqb_spec (sel_ActiveWithinDays n) 0) as [He|Hz].
  - cbn. rewrite <- He. by destruct n.
  - cbn [decode_members]. assert (field_of "active_within_days" = Some FActiveWithinDays) as -> by done.
    cbn [decode_field int_value]. destruct (days_literal (sel_ActiveWithinDays n)) as [_ ->]; [lia |]. by destruct n.
Qed.

(** The JSON of a normal selector is read back as the selector. *)
Lemma Unmarshal_CanonicalJSON n : normal n → Unmarshal (CanonicalJSON n) = Some n.
Proof.
  intros Hn. unfold Unmarshal, CanonicalJSON.
  rewrite (object_parses (rounds n) _ (selector_members n)).
  - by apply decode_selector.
  - by apply selector_fields_read.
  - done.
  - apply selector_bytes.
  - apply selector_rounds.
Qed.

(** C31: the canonical JSON of a selector, whose hash an approval is bound to,
    identifies the audience: two selectors that normalize have the same JSON
    exactly when they describe the same audience - the same category, the same
    effective tiers and clients as sets, up to case and surrounding white space,
    and the same activity window. *)
Theorem json_identifies_audience s s' n n' :
  Normalize s = Ok n → Normalize s' = Ok n' →
  (CanonicalJSON n = CanonicalJSON n' ↔ same_audience s s').
Proof.
  intros Hn Hn'. rewrite <- (Normalize_unique s s' n n') by done. split; [| by intros ->].
  intros Hj. apply (inj Some). rewrite <- (Unmarshal_CanonicalJSON n), Hj by by eapply Normalize_normal.
  apply Unmarshal_CanonicalJSON. by eapply Normalize_normal.
Qed.
End stored.

#[local] Existing Instance ascii_tables.

Lemma json_identifies_audience_witness :
  let s := {| sel_Category := " maintenance"; sel_Tiers := []; sel_ConnectedVia := ["Claude"; " chatgpt"; "CLAUDE"];
              sel_ActiveWithinDays := 30 |} in
  let s' := {| sel_Category := "maintenance"; sel_Tiers := ["Client"]; sel_ConnectedVia := ["ChatGPT"; "claude"];
               sel_ActiveWithinDays := 30 |} in
  ∃ n n', Normalize s = Ok n ∧ Normalize s' = Ok n' ∧ CanonicalJSON n = CanonicalJSON n' ∧ same_audience s s'.
Proof.
  cbv zeta. eexists _, _. split; [vm_compute; reflexivity |]. split; [vm_compute; reflexivity |].
  split; [vm_compute; reflexivity |].
  eapply json_identifies_audience; [vm_compute; reflexivity | vm_compute; reflexivity | vm_compute; reflexivity].
Defined.
