(* ===== verification/BroadcastStore.v ===== *)
(** * The tables of broadcasts: [src/internal/db/broadcast.go] and
    [broadcast_deliveries.go]

    Each definition is one statement, or one transaction where the code opens
    one; a failed one changes nothing.  The columns [updated_at] of deliveries
    and digests, which nothing reads, are left out; of [users] and
    [oauth_refresh_tokens] the model keeps what the audience is computed from. *)

From S2P Require Import Prelude GoString OAuthStore Notifications Json BroadcastPolicy.

(** ** Errors *)
Inductive bc_error :=
| ErrCampaignNotFound
| ErrCampaignExpired
| ErrCampaignNotPrepared
| ErrCampaignMismatch
| ErrCampaignTerminal
| ErrCampaignCategoryBusy
| ErrCampaignNotApproved
| ErrCampaignNotSending
| ErrCampaignSourceRefSet
| ErrCampaignSourceMismatch
| ErrDigestNotFound
| ErrDigestConflict
| ErrDigestEntryPublished
| ErrNotBroadcastAdmin
| ErrNoEligibleRecipients
| ErrRecipientLimit (eligible limit : Z)
| ErrInvalidSelector (e : selector_error)
| ErrInvalidText (e : text_error)
| errLeaseExhausted
| ErrStatement (what : string).   (** a constraint, an argument or a failed statement *)

(** ** Rows *)
Inductive CampaignState :=
| CampaignPrepared | CampaignApproved | CampaignSending
| CampaignCompleted | CampaignCancelled | CampaignExpired.
#[global] Instance CampaignState_eq_dec : EqDecision CampaignState.
Proof. solve_decision. Defined.
Inductive DeliveryStatus :=
| DeliveryPending | DeliverySending | DeliveryDelivered | DeliverySkipped | DeliveryFailed.
#[global] Instance DeliveryStatus_eq_dec : EqDecision DeliveryStatus.
Proof. solve_decision. Defined.

Record CampaignSourceRef := {
  sr_DigestID : string;
  sr_DigestVersion : Z;
  sr_ContentHash : string;
}.
#[global] Instance CampaignSourceRef_eq_dec : EqDecision CampaignSourceRef.
Proof. solve_decision. Defined.

Record BroadcastCampaign := {
  c_ID : string;
  c_State : CampaignState;
  c_Category : string;
  c_SelectorJSON : string;
  c_SelectorHash : string;
  c_Content : string;
  c_ContentHash : string;
  c_CreatedBy : Z;
  c_Surface : string;
  c_RecipientLimit : Z;
  c_PreviewCounts : string;
  c_ExpiresAt : time;
  c_ApprovedBy : option Z;
  c_ApprovedAt : option time;
  c_CancelledBy : option Z;
  c_CancelledAt : option time;
  c_CompletedAt : option time;
  c_EndReason : string;
  c_SourceRef : option CampaignSourceRef;
  c_CreatedAt : time;
  c_UpdatedAt : time;
}.
#[export] Instance campaign_eta : Eta BroadcastCampaign := λ c,
  Build_BroadcastCampaign (c_ID c) (c_State c) (c_Category c) (c_SelectorJSON c) (c_SelectorHash c)
    (c_Content c) (c_ContentHash c) (c_CreatedBy c) (c_Surface c) (c_RecipientLimit c) (c_PreviewCounts c)
    (c_ExpiresAt c) (c_ApprovedBy c) (c_ApprovedAt c) (c_CancelledBy c) (c_CancelledAt c) (c_CompletedAt c)
    (c_EndReason c) (c_SourceRef c) (c_CreatedAt c) (c_UpdatedAt c).

Record delivery_row := {
  dl_telegram_id : Z;
  dl_status : DeliveryStatus;
  dl_reason : string;
  dl_attempts : Z;
  dl_next_attempt_at : time;
  dl_claimed_at : option time;
  dl_finished_at : option time;
  dl_created_at : time;
}.
#[export] Instance delivery_eta : Eta delivery_row := λ r,
  Build_delivery_row (dl_telegram_id r) (dl_status r) (dl_reason r) (dl_attempts r) (dl_next_attempt_at r)
    (dl_claimed_at r) (dl_finished_at r) (dl_created_at r).

Record BroadcastRecipient := { br_UserID : Z; br_TelegramID : Z }.
Record BroadcastDelivery := {
  bd_CampaignID : string;
  bd_UserID : Z;
  bd_TelegramID : Z;
  bd_Attempts : Z;
}.
(** The primary key of [broadcast_deliveries]. *)
Abbreviation key := (string * Z)%type (only parsing).
Definition bd_key (d : BroadcastDelivery) : string * Z := (bd_CampaignID d, bd_UserID d).

Record audience_user := {
  au_telegram_login_id : option Z;
  au_access_tier : option string;
  au_identity_captured_at : option time;
  au_last_seen_at : option time;
}.
Record digest_row := {
  dg_category : string;
  dg_content_hash : string;
  dg_source_refs : string;      (** a JSON array *)
  dg_created_by : Z;
  dg_created_at : time;
}.

Record bdb := {
  b_campaigns : gmap string BroadcastCampaign;         (** by id *)
  b_deliveries : gmap (string * Z) delivery_row;       (** by campaign and user *)
  b_digests : gmap (string * Z) digest_row;            (** by id and version *)
  b_publications : gset (string * Z * string);         (** digest, version, entry *)
  b_owners : gmap string string;                       (** entry to digest *)
  b_users : gmap Z audience_user;
  b_notify : ndb;
  b_tokens : gmap string token_row;
}.
#[export] Instance bdb_eta : Eta bdb := λ d,
  Build_bdb (b_campaigns d) (b_deliveries d) (b_digests d) (b_publications d) (b_owners d) (b_users d)
    (b_notify d) (b_tokens d).

(** A statement returns the rows it read or touched, and the tables after it. *)
Abbreviation stmt A := (bdb → result bc_error (A * bdb)) (only parsing).
Definition known_user (u : Z) (d : bdb) : bool := bool_decide (is_Some (b_users d !! u)).

(** ** Campaigns *)
Definition active (s : CampaignState) : bool :=
  bool_decide (s = CampaignPrepared) || bool_decide (s = CampaignApproved) || bool_decide (s = CampaignSending).

(** The row an INSERT writes: the columns it does not name have their defaults. *)
Definition prepared_row (c : BroadcastCampaign) (ref : option CampaignSourceRef) (now : time) : BroadcastCampaign := {|
  c_ID := c_ID c; c_State := CampaignPrepared; c_Category := c_Category c; c_SelectorJSON := c_SelectorJSON c;
  c_SelectorHash := c_SelectorHash c; c_Content := c_Content c; c_ContentHash := c_ContentHash c;
  c_CreatedBy := c_CreatedBy c; c_Surface := c_Surface c; c_RecipientLimit := c_RecipientLimit c;
  c_PreviewCounts := c_PreviewCounts c; c_ExpiresAt := c_ExpiresAt c; c_ApprovedBy := None; c_ApprovedAt := None;
  c_CancelledBy := None; c_CancelledAt := None; c_CompletedAt := None; c_EndReason := "";
  c_SourceRef := ref; c_CreatedAt := now; c_UpdatedAt := now |}.

Definition put_campaign (c : BroadcastCampaign) (d : bdb) : bdb :=
  d <|b_campaigns := <[c_ID c := c]> (b_campaigns d)|>.

(** The INSERT of a manual campaign *)
Definition insert_manual (c : BroadcastCampaign) (now : time) : stmt unit := λ d,
  match b_campaigns d !! c_ID c with
  | None => if known_user (c_CreatedBy c) d then Ok (tt, put_campaign (prepared_row c None now) d)
            else Err (ErrStatement "create broadcast campaign")
  | Some _ => Err (ErrStatement "create broadcast campaign")
  end.

Definition digest_matches (ref : CampaignSourceRef) (category : string) (d : bdb) : bool :=
  match b_digests d !! (sr_DigestID ref, sr_DigestVersion ref) with
  | Some g => bool_decide (dg_content_hash g = sr_ContentHash ref) && bool_decide (dg_category g = category)
  | None => false
  end.
Definition category_busy (category : string) (d : bdb) : bool :=
  existsb (λ kc, bool_decide (c_Category kc.2 = category) && active (c_State kc.2)) (map_to_list (b_campaigns d)).

(** The INSERT of a digest campaign, with its rows affected: the EXISTS and NOT
    EXISTS predicates, ON CONFLICT DO NOTHING, and the reference to [users]. *)
Definition insert_sourced (c : BroadcastCampaign) (ref : CampaignSourceRef) (now : time) : stmt Z := λ d,
  if digest_matches ref (c_Category c) d && negb (category_busy (c_Category c) d) then
    match b_campaigns d !! c_ID c with
    | None => if known_user (c_CreatedBy c) d then Ok (1, put_campaign (prepared_row c (Some ref) now) d)
              else Err (ErrStatement "create broadcast campaign")
    | Some _ => Ok (0, d)
    end
  else Ok (0, d).

Definition GetBroadcastCampaign (id : string) : stmt BroadcastCampaign := λ d,
  match b_campaigns d !! id with Some c => Ok (c, d) | None => Err ErrCampaignNotFound end.

Definition MaxCampaignListLimit : Z := 200.
(** [ORDER BY created_at DESC, id DESC] *)
Definition newer (x y : BroadcastCampaign) : Prop :=
  c_CreatedAt y < c_CreatedAt x ∨ c_CreatedAt x = c_CreatedAt y ∧ String.leb (c_ID y) (c_ID x) = true.
#[global] Instance newer_dec x y : Decision (newer x y).
Proof. unfold newer. apply _. Defined.
Definition campaigns_where (p : BroadcastCampaign → bool) (d : bdb) : list BroadcastCampaign :=
  filter (λ c, p c = true) (map snd (map_to_list (b_campaigns d))).
Definition ListBroadcastCampaigns (limit : Z) (states : list CampaignState) : stmt (list BroadcastCampaign) := λ d,
  let limit := if limit <=? 0 then 50 else if MaxCampaignListLimit <? limit then MaxCampaignListLimit else limit in
  let sel := λ c, bool_decide (states = []) || bool_decide (c_State c ∈ states) in
  Ok (take (Z.to_nat limit) (merge_sort newer (campaigns_where sel d)), d).

Definition ActiveBroadcastCampaign (category : string) : stmt BroadcastCampaign := λ d,
  match merge_sort newer (campaigns_where (λ c, bool_decide (c_Category c = category) && active (c_State c)) d) with
  | c :: _ => Ok (c, d)
  | [] => Err ErrCampaignNotFound
  end.

(** [UPDATE broadcast_campaigns SET ... WHERE id = $1 AND p]: the rows affected. *)
Definition update_campaign (id : string) (p : BroadcastCampaign → bool) (f : BroadcastCampaign → BroadcastCampaign)
    (d : bdb) : Z * bdb :=
  match b_campaigns d !! id with
  | Some c => if p c then (1, d <|b_campaigns := <[id := f c]> (b_campaigns d)|>) else (0, d)
  | None => (0, d)
  end.
Definition in_state (s : CampaignState) (c : BroadcastCampaign) : bool := bool_decide (c_State c = s).

Definition approvable (now : time) (contentHash selectorHash : string) (c : BroadcastCampaign) : bool :=
  in_state CampaignPrepared c && (now <? c_ExpiresAt c)
  && bool_decide (c_ContentHash c = contentHash) && bool_decide (c_SelectorHash c = selectorHash).
(** The UPDATE of [ApproveBroadcastCampaign] *)
Definition approve_row (id : string) (approver : Z) (contentHash selectorHash : string) (now : time) : stmt Z := λ d,
  let r := update_campaign id (approvable now contentHash selectorHash)
    (λ c, c <|c_State := CampaignApproved|> <|c_ApprovedBy := Some approver|> <|c_ApprovedAt := Some now|>
            <|c_UpdatedAt := now|>) d in
  if (r.1 =? 1) && negb (known_user approver d) then Err (ErrStatement "approve broadcast campaign") else Ok r.

(** The UPDATE that expires one campaign an approval came too late for *)
Definition expire_row (id : string) (now : time) : stmt unit := λ d,
  Ok (tt, (update_campaign id (in_state CampaignPrepared)
    (λ c, c <|c_State := CampaignExpired|> <|c_UpdatedAt := now|>) d).2).

(** The UPDATE of [CancelBroadcastCampaign] *)
Definition cancel_row (id : string) (actor : Z) (now : time) : stmt Z := λ d,
  let r := update_campaign id (λ c, active (c_State c))
    (λ c, c <|c_State := CampaignCancelled|> <|c_CancelledBy := Some actor|> <|c_CancelledAt := Some now|>
            <|c_UpdatedAt := now|>) d in
  if (r.1 =? 1) && negb (known_user actor d) then Err (ErrStatement "cancel broadcast campaign") else Ok r.

(** [UPDATE ... WHERE p] over a table: the number of rows and the table after. *)
Definition update_where `{Countable K} {A} (p : K → A → bool) (f : A → A) (m : gmap K A) : Z * gmap K A :=
  (Z.of_nat (size (filter (λ kr, p kr.1 kr.2 = true) m)), map_imap (λ k r, Some (if p k r then f r else r)) m).

Definition lapsed (now : time) (c : BroadcastCampaign) : bool :=
  in_state CampaignPrepared c && (c_ExpiresAt c <=? now).
Definition ExpireBroadcastCampaigns (now : time) : stmt Z := λ d,
  let '(n, m) := update_where (λ _, lapsed now) (λ c, c <|c_State := CampaignExpired|> <|c_UpdatedAt := now|>)
    (b_campaigns d) in
  Ok (n, d <|b_campaigns := m|>).

(** ** Deliveries *)
Definition pending_row (now : time) (r : BroadcastRecipient) : delivery_row := {|
  dl_telegram_id := br_TelegramID r; dl_status := DeliveryPending; dl_reason := ""; dl_attempts := 0;
  dl_next_attempt_at := now; dl_claimed_at := None; dl_finished_at := None; dl_created_at := now |}.
(** [ON CONFLICT (campaign_id, user_id) DO NOTHING] *)
Definition queue_recipient (id : string) (now : time) (m : gmap (string * Z) delivery_row) (r : BroadcastRecipient) :=
  match m !! (id, br_UserID r) with
  | None => <[(id, br_UserID r) := pending_row now r]> m
  | Some _ => m
  end.
Definition StartBroadcastCampaign (id : string) (recipients : list BroadcastRecipient) (now : time) : stmt unit := λ d,
  let '(n, d) := update_campaign id (in_state CampaignApproved)
    (λ c, c <|c_State := CampaignSending|> <|c_UpdatedAt := now|>) d in
  if negb (n =? 1) then Err ErrCampaignNotApproved
  else if forallb (λ r, known_user (br_UserID r) d) recipients
  then Ok (tt, d <|b_deliveries := foldl (queue_recipient id now) (b_deliveries d) recipients|>)
  else Err (ErrStatement "start broadcast campaign: queue recipient").

Definition ended (to : CampaignState) (reason : string) (now : time) (c : BroadcastCampaign) : BroadcastCampaign :=
  c <|c_State := to|> <|c_EndReason := reason|> <|c_CompletedAt := Some now|> <|c_UpdatedAt := now|>.
Definition EndBroadcastCampaign (id : string) (toState : CampaignState) (endReason : string) (now : time)
    : stmt unit := λ d,
  if negb (bool_decide (toState = CampaignCompleted)) && negb (bool_decide (toState = CampaignCancelled))
  then Err (ErrStatement "end broadcast campaign: invalid target state")
  else let '(n, d) := update_campaign id (in_state CampaignApproved) (ended toState endReason now) d in
       if n =? 1 then Ok (tt, d) else Err ErrCampaignNotApproved.
Definition HaltBroadcastCampaign (id : string) (endReason : string) (now : time) : stmt unit := λ d,
  let '(n, d) := update_campaign id (in_state CampaignSending) (ended CampaignCancelled endReason now) d in
  if n =? 1 then Ok (tt, d) else Err ErrCampaignNotSending.

Definition campaign_in (s : CampaignState) (id : string) (d : bdb) : bool :=
  match b_campaigns d !! id with Some c => in_state s c | None => false end.

(** [ORDER BY next_attempt_at, created_at, user_id] *)
Definition due_before (x y : string * Z * delivery_row) : Prop :=
  let '(_, ux, rx) := x in let '(_, uy, ry) := y in
  dl_next_attempt_at rx < dl_next_attempt_at ry ∨
  dl_next_attempt_at rx = dl_next_attempt_at ry ∧
  (dl_created_at rx < dl_created_at ry ∨ dl_created_at rx = dl_created_at ry ∧ ux ≤ uy).
#[global] Instance due_before_dec x y : Decision (due_before x y).
Proof. destruct x as [[] ?], y as [[] ?]. apply _. Defined.

Definition due (now : time) (locked : gset (string * Z)) (d : bdb) (k : string * Z) (r : delivery_row) : bool :=
  bool_decide (dl_status r = DeliveryPending) && (dl_next_attempt_at r <=? now)
  && campaign_in CampaignSending k.1 d && negb (bool_decide (k ∈ locked)).
Definition claim_delivery (now : time) (r : delivery_row) : delivery_row :=
  r <|dl_status := DeliverySending|> <|dl_attempts := dl_attempts r + 1|> <|dl_claimed_at := Some now|>.
Definition claimed_of (kr : string * Z * delivery_row) : BroadcastDelivery := {|
  bd_CampaignID := kr.1.1; bd_UserID := kr.1.2; bd_TelegramID := dl_telegram_id kr.2;
  bd_Attempts := dl_attempts kr.2 |}.

(** [locked] are the rows other transactions hold, which SKIP LOCKED passes
    over.  The rows are returned in the order they were picked. *)
Definition ClaimBroadcastDeliveries (locked : gset (string * Z)) (limit : Z) (now : time)
    : stmt (list BroadcastDelivery) := λ d,
  let limit := if limit <=? 0 then 1 else limit in
  let rows := take (Z.to_nat limit) (merge_sort due_before
    (map_to_list (filter (λ kr, due now locked d kr.1 kr.2 = true) (b_deliveries d)))) in
  let taken := map (λ kr, (kr.1, claim_delivery now kr.2)) rows in
  Ok (map claimed_of taken, d <|b_deliveries := list_to_map taken ∪ b_deliveries d|>).

(** [UPDATE broadcast_deliveries SET ... WHERE campaign_id AND user_id AND
    status = 'sending'] *)
Definition update_sending (k : string * Z) (f : delivery_row → delivery_row) (d : bdb) : bdb :=
  match b_deliveries d !! k with
  | Some r => if bool_decide (dl_status r = DeliverySending)
              then d <|b_deliveries := <[k := f r]> (b_deliveries d)|> else d
  | None => d
  end.
Definition final (s : DeliveryStatus) : bool :=
  bool_decide (s = DeliveryDelivered) || bool_decide (s = DeliverySkipped) || bool_decide (s = DeliveryFailed).
Definition close_row (status : DeliveryStatus) (reason : string) (now : time) (r : delivery_row) : delivery_row :=
  r <|dl_status := status|> <|dl_reason := reason|> <|dl_finished_at := Some now|>.

Definition FinishBroadcastDelivery (campaignID : string) (userID : Z) (status : DeliveryStatus) (reason : string)
    (now : time) : stmt unit := λ d,
  if final status then Ok (tt, update_sending (campaignID, userID) (close_row status reason now) d)
  else Err (ErrStatement "finish broadcast delivery: invalid status").
Definition RetryBroadcastDelivery (campaignID : string) (userID : Z) (reason : string) (nextAttempt : time)
    : stmt unit := λ d,
  Ok (tt, update_sending (campaignID, userID) (λ r, r <|dl_status := DeliveryPending|> <|dl_reason := reason|>
    <|dl_next_attempt_at := nextAttempt|> <|dl_claimed_at := None|>) d).
Definition ReleaseBroadcastDelivery (campaignID : string) (userID : Z) : stmt unit := λ d,
  Ok (tt, update_sending (campaignID, userID) (λ r, r <|dl_status := DeliveryPending|>
    <|dl_attempts := dl_attempts r - 1|> <|dl_claimed_at := None|>) d).

Definition ReasonCancelled : string := "cancelled".
Definition ReasonOutcomeUnknown : string := "outcome_unknown".

(** [claimed_at < now - lease] *)
Definition stale (before : time) (r : delivery_row) : bool :=
  bool_decide (dl_status r = DeliverySending)
  && match dl_claimed_at r with Some t => t <? before | None => false end.
Definition FailStaleBroadcastDeliveries (lease : duration) (now : time) : stmt Z := λ d,
  let '(n, m) := update_where (λ _, stale (now - lease)) (close_row DeliveryFailed ReasonOutcomeUnknown now)
    (b_deliveries d) in
  Ok (n, d <|b_deliveries := m|>).
Definition SkipCancelledBroadcastDeliveries (now : time) : stmt Z := λ d,
  let '(n, m) := update_where
    (λ k r, bool_decide (dl_status r = DeliveryPending) && campaign_in CampaignCancelled k.1 d)
    (close_row DeliverySkipped ReasonCancelled now) (b_deliveries d) in
  Ok (n, d <|b_deliveries := m|>).

(** A delivery of the campaign that is pending or in flight *)
Definition unfinished (id : string) (d : bdb) : bool :=
  existsb (λ kr, bool_decide (kr.1.1 = id) && negb (final (dl_status kr.2))) (map_to_list (b_deliveries d)).
Definition completes (d : bdb) (c : BroadcastCampaign) : bool :=
  in_state CampaignSending c && negb (unfinished (c_ID c) d).
Definition CompleteBroadcastCampaigns (now : time) : stmt (list string) := λ d,
  Ok (map c_ID (campaigns_where (completes d) d),
      d <|b_campaigns := (update_where (λ _, completes d) (λ c, c <|c_State := CampaignCompleted|>
            <|c_CompletedAt := Some now|> <|c_UpdatedAt := now|>) (b_campaigns d)).2|>).

(** ** Reports *)
Record DeliveryCount := { dn_Status : DeliveryStatus; dn_Reason : string; dn_Count : Z }.
Definition status_string (s : DeliveryStatus) : string :=
  match s with
  | DeliveryPending => "pending" | DeliverySending => "sending" | DeliveryDelivered => "delivered"
  | DeliverySkipped => "skipped" | DeliveryFailed => "failed"
  end.
Definition bucket_before (x y : DeliveryStatus * string) : Prop :=
  String.leb (status_string x.1) (status_string y.1) = true ∧
  (status_string x.1 = status_string y.1 → String.leb x.2 y.2 = true).
#[global] Instance bucket_before_dec x y : Decision (bucket_before x y).
Proof. unfold bucket_before. apply _. Defined.

(** [GROUP BY status, reason ORDER BY status, reason] *)
Definition BroadcastDeliveryCounts (campaignID : string) : stmt (list DeliveryCount) := λ d,
  let buckets := map (λ kr, (dl_status kr.2, dl_reason kr.2))
    (filter (λ kr, kr.1.1 = campaignID) (map_to_list (b_deliveries d))) in
  Ok (map (λ b, {| dn_Status := b.1; dn_Reason := b.2;
                   dn_Count := Z.of_nat (length (filter (λ b', b' = b) buckets)) |})
        (merge_sort bucket_before (remove_dups buckets)), d).

(** ** Facts about recipients: the three queries of [broadcastFacts] *)
Definition wanted (onlyUser u : Z) : bool := negb (0 <? onlyUser) || (u =? onlyUser).

Definition user_facts (reach : gmap Z reach_row) (u : Z) (r : audience_user) : option BroadcastRecipientFacts :=
  (λ tg, {| bf_UserID := u; bf_TelegramID := tg; bf_AccessTier := null_string (au_access_tier r);
            bf_IdentityCapturedAt := au_identity_captured_at r; bf_LastSeenAt := au_last_seen_at r;
            bf_Reachability := from_option rr_state "" (reach !! u); bf_Prefs := ∅; bf_ConnectedVia := [] |})
  <$> au_telegram_login_id r.
Definition user_before (x y : BroadcastRecipientFacts) : Prop := bf_UserID x ≤ bf_UserID y.
#[global] Instance user_before_dec x y : Decision (user_before x y).
Proof. unfold user_before. apply _. Defined.

Definition select_users (onlyUser : Z) : stmt (list BroadcastRecipientFacts) := λ d,
  Ok (merge_sort user_before (map snd (map_to_list
        (map_imap (λ u r, if wanted onlyUser u then user_facts (nd_reach (b_notify d)) u r else None) (b_users d)))), d).
Definition select_prefs (onlyUser : Z) : stmt (list (Z * string * string)) := λ d,
  Ok (map (λ kr, (kr.1.1, kr.1.2, pr_state kr.2))
        (filter (λ kr, wanted onlyUser kr.1.1 = true) (map_to_list (nd_prefs (b_notify d)))), d).
Definition select_clients (onlyUser : Z) (now : time) : stmt (list (Z * string)) := λ d,
  Ok (remove_dups (map (λ kr, (tr_user_id kr.2, tr_client_name kr.2))
        (filter (λ kr, wanted onlyUser (tr_user_id kr.2) && negb (bool_decide (tr_client_name kr.2 = ""))
                       && live kr.2 && (now <? tr_expires_at kr.2) = true) (map_to_list (b_tokens d)))), d).

(** The scan loops over the second and the third query. *)
Definition add_pref (fs : list BroadcastRecipientFacts) (row : Z * string * string) : list BroadcastRecipientFacts :=
  let '(u, category, state) := row in
  map (λ f, if bf_UserID f =? u then f <|bf_Prefs := <[category := state]> (bf_Prefs f)|> else f) fs.
Definition add_client (fs : list BroadcastRecipientFacts) (row : Z * string) : list BroadcastRecipientFacts :=
  map (λ f, if bf_UserID f =? row.1 then f <|bf_ConnectedVia := bf_ConnectedVia f ++ [row.2]|> else f) fs.

(** ** What the rest of the server does to these tables *)

(** The part of [HardDeleteAccount] the audience depends on *)
Definition delete_account (u : Z) (d : bdb) : bdb :=
  d <|b_notify := purgeNotificationState u (b_notify d)|>
    <|b_users := alter (λ r, {| au_telegram_login_id := au_telegram_login_id r; au_access_tier := au_access_tier r;
                                au_identity_captured_at := None; au_last_seen_at := None |}) u (b_users d)|>.
