(* ===== verification/ProductUpdates.v ===== *)
(** * Frozen product-update digests: [src/internal/db/product_updates.go]

    What was frozen from the feed and handed to a broadcast: digests that are
    written once, the entries each of their versions carried, and the one digest
    that may carry an entry.  Saving and discarding are one transaction each,
    serialised by a table lock or the single SQLite connection. *)

From S2P Require Import Prelude GoString Notifications Json BroadcastPolicy BroadcastStore.

Record ProductUpdateDigest := {
  pd_ID : string;
  pd_Version : Z;
  pd_Category : string;
  pd_ContentHash : string;
  pd_SourceRefs : list string;
  pd_EntryIDs : list string;
  pd_CreatedBy : Z;
  pd_CreatedAt : time;
}.
#[export] Instance pd_eta : Eta ProductUpdateDigest := λ d,
  Build_ProductUpdateDigest (pd_ID d) (pd_Version d) (pd_Category d) (pd_ContentHash d) (pd_SourceRefs d)
    (pd_EntryIDs d) (pd_CreatedBy d) (pd_CreatedAt d).

#[local] Open Scope result_scope.

(** The loop over the entry ids: none is empty or repeated. *)
Fixpoint entries_ok (seen l : list string) : bool :=
  match l with
  | [] => true
  | id :: l => negb (bool_decide (id = "") || bool_decide (id ∈ seen)) && entries_ok (id :: seen) l
  end.
Definition validate (d : ProductUpdateDigest) : option string :=
  if bool_decide (pd_ID d = "") then Some "digest id is required"
  else if pd_Version d <? 1 then Some "digest version must be at least 1"
  else if negb (isKnownCategory (pd_Category d)) then Some "unknown notification category"
  else if bool_decide (pd_ContentHash d = "") then Some "digest content hash is required"
  else if pd_CreatedBy d <=? 0 then Some "digest creator must be a known user"
  else if bool_decide (pd_EntryIDs d = []) then Some "digest carries no entries"
  else if negb (bool_decide (length (pd_SourceRefs d) = length (pd_EntryIDs d)))
  then Some "digest has source refs for other entries"
  else if negb (entries_ok [] (pd_EntryIDs d)) then Some "digest entry id is empty or repeated"
  else None.

(** [json.Marshal] and [json.Unmarshal] of the source refs *)
Definition marshal_refs (refs : list string) : string := of_bytes (array_json refs).
Definition unmarshal_refs (s : string) : option (list string) :=
  match parse_json s with Some v => slice_value [] v | None => None end.

Definition entries_of (id : string) (version : Z) (d : bdb) : list string :=
  map snd (filter (λ p, p.1 = (id, version)) (elements (b_publications d))).
Definition GetProductUpdateDigest (id : string) (version : Z) (d : bdb) : result bc_error ProductUpdateDigest :=
  match b_digests d !! (id, version) with
  | None => Err ErrDigestNotFound
  | Some g =>
    match unmarshal_refs (dg_source_refs g) with
    | None => Err (ErrStatement "get product update digest: source refs")
    | Some refs => Ok {| pd_ID := id; pd_Version := version; pd_Category := dg_category g;
        pd_ContentHash := dg_content_hash g; pd_SourceRefs := refs;
        pd_EntryIDs := sort_strings (entries_of id version d); pd_CreatedBy := dg_created_by g;
        pd_CreatedAt := dg_created_at g |}
    end
  end.

Definition sameAs (d stored : ProductUpdateDigest) : result bc_error bool :=
  if bool_decide (pd_Category stored = pd_Category d) && bool_decide (pd_ContentHash stored = pd_ContentHash d)
     && bool_decide (pd_SourceRefs stored = pd_SourceRefs d) && bool_decide (pd_EntryIDs stored = pd_EntryIDs d)
  then Ok false else Err ErrDigestConflict.

(** One round of the loop that publishes the entries *)
Definition publish_entry (id : string) (version : Z) (d : bdb) (entry : string) : result bc_error bdb :=
  let owner := default id (b_owners d !! entry) in
  if bool_decide (owner = id) then
    Ok (d <|b_publications := {[(id, version, entry)]} ∪ b_publications d|> <|b_owners := <[entry := id]> (b_owners d)|>)
  else Err ErrDigestEntryPublished.
Fixpoint publish_entries (id : string) (version : Z) (entries : list string) (d : bdb) : result bc_error bdb :=
  match entries with
  | [] => Ok d
  | e :: entries => let! d := publish_entry id version d e in publish_entries id version entries d
  end.

Definition carried_elsewhere (id : string) (entries : list string) (d : bdb) : bool :=
  existsb (λ e, match b_owners d !! e with Some o => negb (bool_decide (o = id)) | None => false end) entries.

Definition digest_of (d : ProductUpdateDigest) (now : time) : digest_row :=
  {| dg_category := pd_Category d; dg_content_hash := pd_ContentHash d;
     dg_source_refs := marshal_refs (pd_SourceRefs d); dg_created_by := pd_CreatedBy d; dg_created_at := now |}.

(** Whether the digest was written, and the tables after it *)
Definition SaveProductUpdateDigest (dig : ProductUpdateDigest) (now : time) (d : bdb)
    : result bc_error (bool * bdb) :=
  match validate dig with
  | Some what => Err (ErrStatement what)
  | None =>
    let dig := dig <|pd_EntryIDs := sort_strings (pd_EntryIDs dig)|> in
    match GetProductUpdateDigest (pd_ID dig) (pd_Version dig) d with
    | Ok existing => let! w := sameAs dig existing in Ok (w, d)
    | Err ErrDigestNotFound =>
      if carried_elsewhere (pd_ID dig) (pd_EntryIDs dig) d then Err ErrDigestEntryPublished
      else if negb (known_user (pd_CreatedBy dig) d) then Err (ErrStatement "save product update digest")
      else
        let! d := publish_entries (pd_ID dig) (pd_Version dig) (pd_EntryIDs dig)
          (d <|b_digests := <[(pd_ID dig, pd_Version dig) := digest_of dig now]> (b_digests d)|>) in
        Ok (true, d)
    | Err e => Err e
    end
  end.

Definition names_digest (id : string) (version : Z) (c : BroadcastCampaign) : bool :=
  match c_SourceRef c with
  | Some ref => bool_decide (sr_DigestID ref = id) && bool_decide (sr_DigestVersion ref = version)
  | None => false
  end.
Definition published_by (id entry : string) (d : bdb) : bool :=
  existsb (λ p, bool_decide (p.1.1 = id) && bool_decide (p.2 = entry)) (elements (b_publications d)).

Definition DiscardUnusedProductUpdateDigest (id : string) (version : Z) (contentHash : string) (d : bdb)
    : result bc_error bdb :=
  match b_digests d !! (id, version) with
  | None => Err ErrDigestNotFound
  | Some g =>
    if negb (bool_decide (dg_content_hash g = contentHash)) then Err ErrDigestConflict
    else if existsb (λ kc, names_digest id version kc.2) (map_to_list (b_campaigns d)) then Err ErrCampaignSourceRefSet
    else
      let d := d <|b_publications := filter (λ p, p.1 ≠ (id, version)) (b_publications d)|>
                 <|b_digests := delete (id, version) (b_digests d)|> in
      Ok (d <|b_owners := filter (λ eo, ¬ (eo.2 = id ∧ published_by id eo.1 d = false)) (b_owners d)|>)
  end.

(** The entries some digest other than [exceptDigestID] carries *)
Definition PublishedProductUpdateEntries (exceptDigestID : string) (d : bdb) : gset string :=
  dom (filter (λ eo, eo.2 ≠ exceptDigestID) (b_owners d)).

(** ** The source of a campaign *)
Definition ref_complete (ref : CampaignSourceRef) : bool :=
  negb (bool_decide (sr_DigestID ref = "")) && negb (sr_DigestVersion ref <? 1)
  && negb (bool_decide (sr_ContentHash ref = "")).

(** Another active digest campaign of the category: the partial unique index
    [idx_broadcast_campaigns_digest_category_active]. *)
Definition index_taken (c : BroadcastCampaign) (d : bdb) : bool :=
  existsb (λ kc, bool_decide (c_Category kc.2 = c_Category c) && bool_decide (is_Some (c_SourceRef kc.2))
                 && active (c_State kc.2)) (map_to_list (b_campaigns d)).

(** The UPDATE of [SetBroadcastCampaignSourceRef], with its rows affected *)
Definition set_source_row (id : string) (ref : CampaignSourceRef) (now : time) : stmt Z := λ d,
  match b_campaigns d !! id with
  | Some c =>
    if in_state CampaignPrepared c && bool_decide (c_SourceRef c = None) && digest_matches ref (c_Category c) d
    then if index_taken c d then Err (ErrStatement "set broadcast campaign source_ref")
         else Ok (1, d <|b_campaigns := <[id := c <|c_SourceRef := Some ref|> <|c_UpdatedAt := now|>]> (b_campaigns d)|>)
    else Ok (0, d)
  | None => Ok (0, d)
  end.
