(* ===== verification/Broadcast.v ===== *)
(** * The broadcast service and its delivery worker

    [src/internal/broadcast/service.go], [worker.go] and [report.go], and the
    methods of [db/broadcast.go] and [product_updates.go] that take several
    statements, as programs over the statements of [BroadcastStore] and queries
    to the clock, the rate limiter, the random source and the Bot API. *)

From S2P Require Import Prelude GoString Sha256 Program OAuthStore Notifications Json BroadcastPolicy BroadcastStore ProductUpdates.

#[local] Open Scope prog_scope.

(** ** Statements *)

(** The last argument of [CApproveRow] is not part of the statement: it names
    the Telegram id the approval was checked for. *)
Inductive bcall : Type → Type :=
| CInsertManual (c : BroadcastCampaign) (now : time) : bcall unit
| CInsertSourced (c : BroadcastCampaign) (ref : CampaignSourceRef) (now : time) : bcall Z
| CDigestMatches (ref : CampaignSourceRef) (category : string) : bcall bool
| CGetCampaign (id : string) : bcall BroadcastCampaign
| CListCampaigns (limit : Z) (states : list CampaignState) : bcall (list BroadcastCampaign)
| CApproveRow (id : string) (approver : Z) (contentHash selectorHash : string) (now : time) (tg : Z) : bcall Z
| CExpireRow (id : string) (now : time) : bcall unit
| CCancelRow (id : string) (actor : Z) (now : time) : bcall Z
| CExpire (now : time) : bcall Z
| CSetSource (id : string) (ref : CampaignSourceRef) (now : time) : bcall Z
| CGetDigest (id : string) (version : Z) : bcall ProductUpdateDigest
| CStart (id : string) (recipients : list BroadcastRecipient) (now : time) : bcall unit
| CEnd (id : string) (to : CampaignState) (reason : string) (now : time) : bcall unit
| CHalt (id reason : string) (now : time) : bcall unit
| CClaim (limit : Z) (now : time) : bcall (list BroadcastDelivery)
| CFinish (id : string) (u : Z) (status : DeliveryStatus) (reason : string) (now : time) : bcall unit
| CRetry (id : string) (u : Z) (reason : string) (nextAttempt : time) : bcall unit
| CRelease (id : string) (u : Z) : bcall unit
| CFailStale (lease : duration) (now : time) : bcall Z
| CSkipCancelled (now : time) : bcall Z
| CComplete (now : time) : bcall (list string)
| CCounts (id : string) : bcall (list DeliveryCount)
| CSelectUsers (onlyUser : Z) : bcall (list BroadcastRecipientFacts)
| CSelectPrefs (onlyUser : Z) : bcall (list (Z * string * string))
| CSelectClients (onlyUser : Z) (now : time) : bcall (list (Z * string))
| CRecordReach (u : Z) (outcome : DeliveryOutcome) (source : string) : bcall unit.

Definition reading {A} (r : result bc_error A) (d : bdb) : result bc_error (A * bdb) :=
  match r with Ok a => Ok (a, d) | Err e => Err e end.

(** What the database does on a statement: [now] is the clock of
    [RecordBotReachability], [locked] the rows other transactions hold. *)
Definition bcall_op (now : time) (locked : gset (string * Z)) {A} (c : bcall A)
    : bdb → result bc_error (A * bdb) :=
  match c in bcall A return bdb → result bc_error (A * bdb) with
  | CInsertManual c now => insert_manual c now
  | CInsertSourced c ref now => insert_sourced c ref now
  | CDigestMatches ref category => λ d, Ok (digest_matches ref category d, d)
  | CGetCampaign id => GetBroadcastCampaign id
  | CListCampaigns limit states => ListBroadcastCampaigns limit states
  | CApproveRow id approver ch sh now _ => approve_row id approver ch sh now
  | CExpireRow id now => expire_row id now
  | CCancelRow id actor now => cancel_row id actor now
  | CExpire now => ExpireBroadcastCampaigns now
  | CSetSource id ref now => set_source_row id ref now
  | CGetDigest id version => λ d, reading (GetProductUpdateDigest id version d) d
  | CStart id recipients now => StartBroadcastCampaign id recipients now
  | CEnd id to reason now => EndBroadcastCampaign id to reason now
  | CHalt id reason now => HaltBroadcastCampaign id reason now
  | CClaim limit now => ClaimBroadcastDeliveries locked limit now
  | CFinish id u status reason now => FinishBroadcastDelivery id u status reason now
  | CRetry id u reason next => RetryBroadcastDelivery id u reason next
  | CRelease id u => ReleaseBroadcastDelivery id u
  | CFailStale lease now => FailStaleBroadcastDeliveries lease now
  | CSkipCancelled now => SkipCancelledBroadcastDeliveries now
  | CComplete now => CompleteBroadcastCampaigns now
  | CCounts id => BroadcastDeliveryCounts id
  | CSelectUsers onlyUser => select_users onlyUser
  | CSelectPrefs onlyUser => select_prefs onlyUser
  | CSelectClients onlyUser now => select_clients onlyUser now
  | CRecordReach u outcome source => λ d,
      match RecordBotReachability now u outcome source (b_notify d) with
      | Ok n => Ok (tt, d <|b_notify := n|>)
      | Err _ => Err (ErrStatement "record bot reachability")
      end
  end.

(** ** Collaborators *)
Inductive send_error :=
| SendAPIError (e : APIError)          (** Telegram answered with a refusal *)
| SendDialError                        (** the connection was never made *)
| SendTransport (what : string).       (** anything else: it may have been delivered *)

(** [QSend] posts [text] to [chat]; its first two arguments only name the
    campaign as it was read and the delivery the message is sent for. *)
Inductive bquery : Type → Type :=
| QNow : bquery time
| QCancelled : bquery bool                       (** [ctx.Err() != nil] *)
| QWait : bquery (result unit unit)              (** the rate limiter *)
| QRandom : bquery (result unit string)          (** 16 random bytes *)
| QSend (c : BroadcastCampaign) (d : BroadcastDelivery) (chat : Z) (text : string)
    : bquery (result send_error unit).

Abbreviation prog := (Program.prog bc_error bcall bquery).
Abbreviation handler A := (prog (result bc_error A)) (only parsing).

(** ** Methods of the store that take several statements *)
Definition broadcastFacts (now : time) (onlyUser : Z) : handler (list BroadcastRecipientFacts) :=
  let? fs := invoke (CSelectUsers onlyUser) in
  if bool_decide (fs = []) then ok fs else
  let? prefs := invoke (CSelectPrefs onlyUser) in
  let fs := foldl add_pref fs prefs in
  let? clients := invoke (CSelectClients onlyUser now) in
  ok (foldl add_client fs clients).
Definition ListBroadcastRecipientFacts (now : time) : handler (list BroadcastRecipientFacts) :=
  broadcastFacts now 0.
Definition GetBroadcastRecipientFacts (userID : Z) (now : time) : handler (option BroadcastRecipientFacts) :=
  if userID <=? 0 then fail (ErrStatement "user id must be positive")
  else let? fs := broadcastFacts now userID in ok (head fs).

Definition CreateBroadcastCampaign (c : BroadcastCampaign) (now : time) : handler unit :=
  if bool_decide (c_ID c = "") || bool_decide (c_ContentHash c = "") || bool_decide (c_SelectorHash c = "")
     || (c_CreatedBy c <=? 0)
  then fail (ErrStatement "create broadcast campaign: id, hashes and creator are required")
  else match c_SourceRef c with
  | None => invoke (CInsertManual c now)
  | Some ref =>
    if negb (ref_complete ref)
    then fail (ErrStatement "create broadcast campaign: source ref digest id, version and content hash are required")
    else
      let? n := invoke (CInsertSourced c ref now) in
      if negb (n =? 0) then ok tt else
      let? exists_ := invoke (CDigestMatches ref (c_Category c)) in
      if exists_ : bool then fail ErrCampaignCategoryBusy else fail ErrCampaignSourceMismatch
  end.

Definition ApproveBroadcastCampaign (id : string) (approver : Z) (contentHash selectorHash : string) (now : time)
    (tg : Z) : handler unit :=
  if approver <=? 0 then fail (ErrStatement "approver must be a known user") else
  let? n := invoke (CApproveRow id approver contentHash selectorHash now tg) in
  if n =? 1 then ok tt else
  let? c := invoke (CGetCampaign id) in
  if negb (in_state CampaignPrepared c) then
    if in_state CampaignExpired c then fail ErrCampaignExpired else fail ErrCampaignNotPrepared
  else if negb (now <? c_ExpiresAt c) then
    let? _ := invoke (CExpireRow id now) in fail ErrCampaignExpired
  else fail ErrCampaignMismatch.

Definition CancelBroadcastCampaign (id : string) (actor : Z) (now : time) : handler unit :=
  if actor <=? 0 then fail (ErrStatement "cancelling actor must be a known user") else
  let? n := invoke (CCancelRow id actor now) in
  if n =? 1 then ok tt else
  let? _ := invoke (CGetCampaign id) in fail ErrCampaignTerminal.

Definition SetBroadcastCampaignSourceRef (id : string) (ref : CampaignSourceRef) (now : time) : handler unit :=
  if negb (ref_complete ref)
  then fail (ErrStatement "set broadcast campaign source_ref: digest id, version and content hash are required")
  else
    let? n := invoke (CSetSource id ref now) in
    if n =? 1 then ok tt else
    let? c := invoke (CGetCampaign id) in
    match c_SourceRef c with
    | Some ref' => if bool_decide (ref' = ref) then ok tt else fail ErrCampaignSourceRefSet
    | None =>
      if negb (in_state CampaignPrepared c) then fail ErrCampaignNotPrepared else
      let? d := invoke (CGetDigest (sr_DigestID ref) (sr_DigestVersion ref)) in
      if negb (bool_decide (pd_ContentHash d = sr_ContentHash ref)) || negb (bool_decide (pd_Category d = c_Category c))
      then fail ErrCampaignSourceMismatch
      else fail (ErrStatement "set broadcast campaign source_ref: campaign changed concurrently; retry")
    end.

Section broadcast.
Context `{UnicodeTables}.

(** ** The service *)
Definition DefaultApprovalTTL : duration := 30 * Minute.
Definition DefaultRecipientLimit : Z := 1000.
Definition DefaultBatchSize : Z := 20.
Definition sampleSize : nat := 5.

Record Config := {
  cf_Operators : gset Z;
  cf_ApprovalTTL : duration;
  cf_RecipientLimit : Z;
  cf_BatchSize : Z;
  cf_Policy : Policy;
}.
Definition Config_withDefaults (c : Config) : Config := {|
  cf_Operators := cf_Operators c;
  cf_ApprovalTTL := if cf_ApprovalTTL c <=? 0 then DefaultApprovalTTL else cf_ApprovalTTL c;
  cf_RecipientLimit := if cf_RecipientLimit c <=? 0 then DefaultRecipientLimit else cf_RecipientLimit c;
  cf_BatchSize := if cf_BatchSize c <=? 0 then DefaultBatchSize else cf_BatchSize c;
  cf_Policy := cf_Policy c |}.

Record Actor := { ac_UserID : Z; ac_TelegramID : Z; ac_Surface : string }.
Definition IsOperator (cfg : Config) (telegramID : Z) : bool := bool_decide (telegramID ∈ cf_Operators cfg).

Record PrepareRequest := { pq_Selector : Selector; pq_Text : string; pq_SourceRef : option CampaignSourceRef }.
Record SampleRecipient := { sp_TelegramID : string; sp_Tier : string }.
Record Preview := {
  pv_CampaignID : string;
  pv_Text : string;
  pv_ContentHash : string;
  pv_Selector : Selector;
  pv_SelectorHash : string;
  pv_Counts : Counts;
  pv_Sample : list SampleRecipient;
  pv_EstimatedBatches : Z;
  pv_ExpiresAt : time;
}.

Definition RedactID (id : Z) : string :=
  let s := FormatInt id in
  if (String.length s <=? 4)%nat then "****"
  else str_prefix 2 s +:+ of_bytes (encode_rune 8230) +:+ str_drop (String.length s - 2) s.
Definition newCampaignID (random : string) : string := "bc_" +:+ hex_encode random.

(** [json.Marshal(counts)]: the keys of a map are sorted. *)
Definition int_field (name : string) (n : Z) : list Z := quote_json name ++ [58] ++ bytes (FormatInt n).
Definition counts_key_before (x y : string * Z) : Prop := String.leb x.1 y.1 = true.
#[local] Instance counts_key_before_dec x y : Decision (counts_key_before x y).
Proof. unfold counts_key_before. apply _. Defined.
Definition counts_json (c : Counts) : string :=
  of_bytes ([123] ++ int_field "eligible" (ct_Eligible c) ++ [44] ++ quote_json "skipped" ++ [58; 123]
    ++ join_json (map (λ kn, int_field kn.1 kn.2) (merge_sort counts_key_before (map_to_list (ct_Skipped c))))
    ++ [125; 125]).

Definition sample_of (p : Policy) (f : BroadcastRecipientFacts) : SampleRecipient :=
  {| sp_TelegramID := RedactID (bf_TelegramID f); sp_Tier := TierOf p (bf_TelegramID f) (bf_AccessTier f) |}.

(** The campaign [Prepare] hands to the store; the columns it leaves zero are
    set by the INSERT. *)
Definition new_campaign (cfg : Config) (actor : Actor) (req : PrepareRequest) (id : string) (sel : Selector)
    (text : string) (counts : Counts) (expires : time) : BroadcastCampaign := {|
  c_ID := id; c_State := CampaignPrepared; c_Category := sel_Category sel; c_SelectorJSON := CanonicalJSON sel;
  c_SelectorHash := Hash (CanonicalJSON sel); c_Content := text; c_ContentHash := Hash text;
  c_CreatedBy := ac_UserID actor; c_Surface := ac_Surface actor; c_RecipientLimit := cf_RecipientLimit cfg;
  c_PreviewCounts := counts_json counts; c_ExpiresAt := expires; c_ApprovedBy := None; c_ApprovedAt := None;
  c_CancelledBy := None; c_CancelledAt := None; c_CompletedAt := None; c_EndReason := "";
  c_SourceRef := pq_SourceRef req; c_CreatedAt := time_zero; c_UpdatedAt := time_zero |}.

Definition Prepare (cfg : Config) (actor : Actor) (req : PrepareRequest) : handler Preview :=
  if negb (IsOperator cfg (ac_TelegramID actor)) then fail ErrNotBroadcastAdmin else
  match Normalize (pq_Selector req), NormalizeText (pq_Text req) with
  | Err e, _ => fail (ErrInvalidSelector e)
  | _, Err e => fail (ErrInvalidText e)
  | Ok sel, Ok text =>
    let* now := ask QNow in
    let? facts := ListBroadcastRecipientFacts now in
    let '(eligible, counts) := Resolve sel facts (cf_Policy cfg) now in
    if ct_Eligible counts =? 0 then fail ErrNoEligibleRecipients
    else if cf_RecipientLimit cfg <? ct_Eligible counts
    then fail (ErrRecipientLimit (ct_Eligible counts) (cf_RecipientLimit cfg))
    else
      let* random := ask QRandom in
      match random with
      | Err _ => fail (ErrStatement "campaign id")
      | Ok bytes =>
        let id := newCampaignID bytes in
        let expires := now + cf_ApprovalTTL cfg in
        let? _ := CreateBroadcastCampaign (new_campaign cfg actor req id sel text counts expires) now in
        ok {| pv_CampaignID := id; pv_Text := text; pv_ContentHash := Hash text; pv_Selector := sel;
              pv_SelectorHash := Hash (CanonicalJSON sel); pv_Counts := counts;
              pv_Sample := map (sample_of (cf_Policy cfg)) (take sampleSize eligible);
              pv_EstimatedBatches := Z.quot (ct_Eligible counts + cf_BatchSize cfg - 1) (cf_BatchSize cfg);
              pv_ExpiresAt := expires |}
      end
  end.

Definition intact (c : BroadcastCampaign) : bool :=
  bool_decide (Hash (c_Content c) = c_ContentHash c) && bool_decide (Hash (c_SelectorJSON c) = c_SelectorHash c).

Definition Approve (cfg : Config) (actor : Actor) (id contentHash selectorHash : string) : handler unit :=
  if negb (IsOperator cfg (ac_TelegramID actor)) then fail ErrNotBroadcastAdmin else
  let? c := invoke (CGetCampaign id) in
  if negb (intact c) then fail ErrCampaignMismatch else
  let* now := ask QNow in
  ApproveBroadcastCampaign id (ac_UserID actor) contentHash selectorHash now (ac_TelegramID actor).

Definition Cancel (cfg : Config) (actor : Actor) (id : string) : handler unit :=
  if negb (IsOperator cfg (ac_TelegramID actor)) then fail ErrNotBroadcastAdmin else
  let* now := ask QNow in CancelBroadcastCampaign id (ac_UserID actor) now.
End broadcast.
