(* ===== verification/BroadcastWorker.v ===== *)
(** * The delivery worker: [src/internal/broadcast/worker.go] and [report.go]

    The only code that sends a broadcast message.  Logging is left out; the
    rate limiter is a query that may fail, and the batch size that fits a lease,
    which the code computes in floating point, is an argument. *)

From S2P Require Import Prelude GoString Program OAuthStore Notifications Json BroadcastPolicy BroadcastStore ProductUpdates Broadcast.

#[local] Open Scope prog_scope.

(** ** Configuration *)
Definition DefaultMaxAttempts : Z := 5.
Definition DefaultBaseBackoff : duration := 30 * Second.
Definition DefaultMaxBackoff : duration := 30 * Minute.
Definition DefaultLease : duration := 2 * Minute.
Definition sendTimeout : duration := 15 * Second.
Definition minLease : duration := 2 * sendTimeout.

Definition EndNoEligibleRecipients : string := "no_eligible_recipients_at_send".
Definition EndRecipientLimit : string := "recipient_limit_exceeded_at_send".
Definition EndIntegrity : string := "content_or_selector_integrity_mismatch".
Definition ReasonRetriesExhausted : string := "retries_exhausted".
Definition ReasonTransient : string := "transient".
Definition ReasonRejected : string := "rejected".

Record WorkerConfig := {
  wc_Policy : Policy;
  wc_BatchSize : Z;
  wc_MaxAttempts : Z;
  wc_BaseBackoff : duration;
  wc_MaxBackoff : duration;
  wc_Lease : duration;
}.
Definition or_default (z default_ : Z) : Z := if z <=? 0 then default_ else z.

(** [fit] is [int(c.RatePerSecond * d.Seconds())] for the rate in force. *)
Definition WorkerConfig_withDefaults (fit : duration → Z) (c : WorkerConfig) : WorkerConfig :=
  let lease := or_default (wc_Lease c) DefaultLease in
  let lease := if lease <? minLease then minLease else lease in
  let batch := or_default (wc_BatchSize c) DefaultBatchSize in
  let fit := fit (lease - sendTimeout) in
  {| wc_Policy := wc_Policy c;
     wc_BatchSize := if fit <? batch then Z.max fit 1 else batch;
     wc_MaxAttempts := or_default (wc_MaxAttempts c) DefaultMaxAttempts;
     wc_BaseBackoff := or_default (wc_BaseBackoff c) DefaultBaseBackoff;
     wc_MaxBackoff := or_default (wc_MaxBackoff c) DefaultMaxBackoff;
     wc_Lease := lease |}.

Section worker.
Context `{UnicodeTables} (cfg : WorkerConfig).

(** [for i := 1; i < attempts && b < MaxBackoff; i++ { b *= 2 }] *)
Fixpoint double_up (n : nat) (b : duration) : duration :=
  match n with
  | O => b
  | S n => if b <? wc_MaxBackoff cfg then double_up n (b * 2) else b
  end.
Definition backoff (attempts : Z) (retryAfter : duration) : duration :=
  let b := double_up (Z.to_nat (attempts - 1)) (wc_BaseBackoff cfg) in
  let b := if wc_MaxBackoff cfg <? b then wc_MaxBackoff cfg else b in
  if b <? retryAfter then retryAfter else b.

Definition retry (d : BroadcastDelivery) (retryAfter : duration) (now : time) : handler unit :=
  if wc_MaxAttempts cfg <=? bd_Attempts d
  then invoke (CFinish (bd_CampaignID d) (bd_UserID d) DeliveryFailed ReasonRetriesExhausted now)
  else invoke (CRetry (bd_CampaignID d) (bd_UserID d) ReasonTransient (now + backoff (bd_Attempts d) retryAfter)).

Definition finish (d : BroadcastDelivery) (status : DeliveryStatus) (reason : string) : handler unit :=
  let* now := ask QNow in invoke (CFinish (bd_CampaignID d) (bd_UserID d) status reason now).

(** [errors.Is] on the error of a loop: a row that cannot be released is left
    to the stale sweep. *)
Fixpoint release (rows : list BroadcastDelivery) : prog unit :=
  match rows with
  | [] => Ret tt
  | d :: rows => let* _ := invoke (CRelease (bd_CampaignID d) (bd_UserID d)) in release rows
  end.

Definition preSend {A} (d : BroadcastDelivery) (e : bc_error) : handler A :=
  let* _ := release [d] in fail e.
Definition storeFault {A} (d : BroadcastDelivery) (e : bc_error) : handler A :=
  let* now := ask QNow in let* _ := retry d 0 now in fail e.

Definition campaignSelector (c : BroadcastCampaign) : result bc_error Selector :=
  if negb (intact c) then Err ErrCampaignMismatch
  else match Unmarshal (c_SelectorJSON c) with
       | None => Err (ErrInvalidSelector DecodeSelector)
       | Some sel => map_err ErrInvalidSelector (Normalize sel)
       end.

Definition leaseExhausted (claimedAt : time) : prog bool :=
  let* now := ask QNow in Ret (wc_Lease cfg - sendTimeout <? time_sub now claimedAt).

Definition record_reach (d : BroadcastDelivery) (outcome : DeliveryOutcome) : prog unit :=
  forget (invoke (CRecordReach (bd_UserID d) outcome "broadcast_delivery")).
Definition record (d : BroadcastDelivery) (sent : result send_error unit) : handler unit :=
  let* now := ask QNow in
  let close := λ status reason, invoke (CFinish (bd_CampaignID d) (bd_UserID d) status reason now) in
  match sent with
  | Ok _ => let* _ := record_reach d (ClassifyDelivery 200 "") in close DeliveryDelivered ""
  | Err (SendAPIError e) =>
    let outcome := ClassifyDelivery (ae_StatusCode e) (ae_Description e) in
    if do_Conclusive outcome then
      let* _ := record_reach d outcome in close DeliveryFailed (do_ReasonCode outcome)
    else if (ae_StatusCode e =? 429) || (500 <=? ae_StatusCode e) then retry d (ae_RetryAfter e) now
    else close DeliveryFailed (ReasonRejected +:+ "_" +:+ FormatInt (ae_StatusCode e))
  | Err SendDialError => retry d 0 now
  | Err (SendTransport _) => close DeliveryFailed ReasonOutcomeUnknown
  end.

(** The checks that do not depend on the recipient: the campaign is still
    sending and is what was approved. *)
Definition open_campaign (d : BroadcastDelivery) (k : BroadcastCampaign → Selector → handler unit) : handler unit :=
  let* r := invoke (CGetCampaign (bd_CampaignID d)) in
  match r with
  | Err e => let* cancelled := ask QCancelled in if cancelled : bool then preSend d e else storeFault d e
  | Ok c =>
    if negb (in_state CampaignSending c) then finish d DeliverySkipped ReasonCancelled
    else match campaignSelector c with
    | Err _ =>
      let* now := ask QNow in
      let* halted := invoke (CHalt (c_ID c) EndIntegrity now) in
      match halted with
      | Err e => match e with
                 | ErrCampaignNotSending => finish d DeliverySkipped ReasonCancelled
                 | _ => storeFault d e
                 end
      | Ok _ => finish d DeliverySkipped ReasonCancelled
      end
    | Ok sel => k c sel
    end
  end.

(** The recipient is still eligible. *)
Definition open_recipient (d : BroadcastDelivery) (sel : Selector) (k : BroadcastRecipientFacts → handler unit)
    : handler unit :=
  let* now := ask QNow in
  let* r := GetBroadcastRecipientFacts (bd_UserID d) now in
  match r with
  | Err e => let* cancelled := ask QCancelled in if cancelled : bool then preSend d e else storeFault d e
  | Ok None => finish d DeliverySkipped (skip_string SkipNoAccount)
  | Ok (Some f) =>
    let* now := ask QNow in
    let dec := Evaluate sel f (wc_Policy cfg) now in
    if negb (dc_Eligible dec) then finish d DeliverySkipped (skip_string (dc_Reason dec)) else k f
  end.

Definition send_slot (d : BroadcastDelivery) (claimedAt : time) (k : handler unit) : handler unit :=
  let* exhausted := leaseExhausted claimedAt in
  if exhausted : bool then preSend d errLeaseExhausted else
  let* waited := ask QWait in
  match waited with
  | Err _ => preSend d (ErrStatement "rate limiter: context cancelled")
  | Ok _ =>
    let* exhausted := leaseExhausted claimedAt in
    if exhausted : bool then preSend d errLeaseExhausted else k
  end.

Definition deliver (d : BroadcastDelivery) (claimedAt : time) : handler unit :=
  open_campaign d (λ c sel,
  open_recipient d sel (λ f,
  send_slot d claimedAt (
    let* sent := ask (QSend c d (bf_TelegramID f) (c_Content c)) in record d sent))).

(** ** Starting approved campaigns *)
Definition unless_raced (r : result bc_error unit) : result bc_error unit :=
  match r with Err ErrCampaignNotApproved => Ok tt | _ => r end.

Definition startOne (facts : list BroadcastRecipientFacts) (now : time) (c : BroadcastCampaign) : handler unit :=
  match campaignSelector c with
  | Err _ => let* r := invoke (CEnd (c_ID c) CampaignCancelled EndIntegrity now) in Ret (unless_raced r)
  | Ok sel =>
    let '(eligible, counts) := Resolve sel facts (wc_Policy cfg) now in
    if ct_Eligible counts =? 0 then
      let* r := invoke (CEnd (c_ID c) CampaignCompleted EndNoEligibleRecipients now) in Ret (unless_raced r)
    else if c_RecipientLimit c <? ct_Eligible counts then
      let* r := invoke (CEnd (c_ID c) CampaignCancelled EndRecipientLimit now) in Ret (unless_raced r)
    else
      let recipients := map (λ f, {| br_UserID := bf_UserID f; br_TelegramID := bf_TelegramID f |}) eligible in
      let* r := invoke (CStart (c_ID c) recipients now) in Ret (unless_raced r)
  end.
Fixpoint start_all (facts : list BroadcastRecipientFacts) (now : time) (l : list BroadcastCampaign) : handler unit :=
  match l with
  | [] => ok tt
  | c :: l => let? _ := startOne facts now c in start_all facts now l
  end.
Definition startApproved (now : time) : handler unit :=
  let? approved := invoke (CListCampaigns 200 [CampaignApproved]) in
  if bool_decide (approved = []) then ok tt else
  let? facts := ListBroadcastRecipientFacts now in
  start_all facts now approved.

(** ** A pass *)
Fixpoint deliver_batch (claimedAt : time) (l : list BroadcastDelivery) : handler unit :=
  match l with
  | [] => ok tt
  | d :: l =>
    let* r := deliver d claimedAt in
    match r with
    | Ok _ => deliver_batch claimedAt l
    | Err e =>
      let* _ := release l in
      match e with errLeaseExhausted => ok tt | _ => fail e end
    end
  end.

Definition Tick : handler (list string) :=
  let* now := ask QNow in
  let? _ := invoke (CFailStale (wc_Lease cfg) now) in
  let? _ := invoke (CExpire now) in
  let? _ := startApproved now in
  let? _ := invoke (CSkipCancelled now) in
  let* claimAt := ask QNow in
  let? claimed := invoke (CClaim (wc_BatchSize cfg) claimAt) in
  let? _ := deliver_batch claimAt claimed in
  let* now := ask QNow in
  invoke (CComplete now).
End worker.

(** ** Reports *)
Record Report := {
  re_CampaignID : string;
  re_State : CampaignState;
  re_EndReason : string;
  re_Category : string;
  re_CreatedBy : Z;
  re_ApprovedBy : option Z;
  re_ApprovedAt : option time;
  re_Queued : Z;
  re_Delivered : Z;
  re_Skipped : gmap string Z;
  re_TransientFailure : Z;
  re_PermanentFailure : gmap string Z;
  re_OutcomeUnknown : Z;
  re_Pending : Z;
}.
#[export] Instance report_eta : Eta Report := λ r,
  Build_Report (re_CampaignID r) (re_State r) (re_EndReason r) (re_Category r) (re_CreatedBy r) (re_ApprovedBy r)
    (re_ApprovedAt r) (re_Queued r) (re_Delivered r) (re_Skipped r) (re_TransientFailure r)
    (re_PermanentFailure r) (re_OutcomeUnknown r) (re_Pending r).

Definition bump (reason : string) (n : Z) (m : gmap string Z) : gmap string Z :=
  <[reason := default 0 (m !! reason) + n]> m.
Definition tally (r : Report) (n : DeliveryCount) : Report :=
  let c := dn_Count n in
  let r := r <|re_Queued := re_Queued r + c|> in
  match dn_Status n with
  | DeliveryDelivered => r <|re_Delivered := re_Delivered r + c|>
  | DeliverySkipped => r <|re_Skipped := bump (dn_Reason n) c (re_Skipped r)|>
  | DeliveryPending | DeliverySending => r <|re_Pending := re_Pending r + c|>
  | DeliveryFailed =>
    if bool_decide (dn_Reason n = ReasonRetriesExhausted) then r <|re_TransientFailure := re_TransientFailure r + c|>
    else if bool_decide (dn_Reason n = ReasonOutcomeUnknown) then r <|re_OutcomeUnknown := re_OutcomeUnknown r + c|>
    else r <|re_PermanentFailure := bump (dn_Reason n) c (re_PermanentFailure r)|>
  end.
Definition empty_report (c : BroadcastCampaign) : Report := {|
  re_CampaignID := c_ID c; re_State := c_State c; re_EndReason := c_EndReason c; re_Category := c_Category c;
  re_CreatedBy := c_CreatedBy c; re_ApprovedBy := c_ApprovedBy c; re_ApprovedAt := c_ApprovedAt c;
  re_Queued := 0; re_Delivered := 0; re_Skipped := ∅; re_TransientFailure := 0; re_PermanentFailure := ∅;
  re_OutcomeUnknown := 0; re_Pending := 0 |}.
Definition BuildReport (id : string) : handler Report :=
  let? c := invoke (CGetCampaign id) in
  let? counts := invoke (CCounts id) in
  ok (foldl tally (empty_report c) counts).
