(* ===== verification/BroadcastProps.v ===== *)
(** * The tables of broadcasts stay consistent

    What has been created and approved in a run, the invariant of campaigns and
    deliveries, and that every statement keeps it. *)

From S2P Require Import Prelude GoString Program Linear OAuthStore Notifications Json BroadcastPolicy BroadcastStore ProductUpdates Broadcast.

(** ** The history of a run *)
Record approval := {
  ap_campaign : string;
  ap_by : Z;            (** the user *)
  ap_operator : Z;      (** the Telegram id the operator check passed for *)
  ap_content : string;  (** the hashes the approver was shown *)
  ap_selector : string;
}.
Record world := {
  w_created : list (string * Z);      (** campaigns with their recipient limits *)
  w_approved : list approval;
}.
#[export] Instance world_eta : Eta world := λ w, Build_world (w_created w) (w_approved w).

Record world_le (w w' : world) : Prop := {
  wl_created : w_created w ⊆ w_created w';
  wl_approved : w_approved w ⊆ w_approved w';
}.
#[global] Instance world_le_preorder : PreOrder world_le.
Proof. split; [by split | intros w1 w2 w3 [] []; split; by etrans]. Qed.

Definition note_created (c : BroadcastCampaign) (w : world) : world :=
  w <|w_created := (c_ID c, c_RecipientLimit c) :: w_created w|>.
Definition committed {A} (c : bcall A) : A → world → world :=
  match c in bcall A return A → world → world with
  | CInsertManual c _ => λ _, note_created c
  | CInsertSourced c _ _ => λ n, if n =? 1 then note_created c else id
  | CApproveRow id approver ch sh _ tg => λ n w,
      if n =? 1
      then w <|w_approved := {| ap_campaign := id; ap_by := approver; ap_operator := tg; ap_content := ch;
                                ap_selector := sh |} :: w_approved w|>
      else w
  | _ => λ _ w, w
  end.

(** The approval the campaign was released by *)
Definition approved_by (w : world) (c : BroadcastCampaign) (ap : approval) : Prop :=
  ap ∈ w_approved w ∧ ap_campaign ap = c_ID c ∧ ap_content ap = c_ContentHash c ∧
  ap_selector ap = c_SelectorHash c ∧ c_ApprovedBy c = Some (ap_by ap).
Definition approved (w : world) (c : BroadcastCampaign) : Prop := ∃ ap, approved_by w c ap.
Definition approved_ids (w : world) : list string := map ap_campaign (w_approved w).

Lemma approved_mono w w' c : world_le w w' → approved w c → approved w' c.
Proof. intros [_ Ha] (ap & ? & ?). exists ap. split; [by apply Ha | done]. Qed.

(** ** The life of a campaign *)
Definition terminal (s : CampaignState) : bool :=
  bool_decide (s = CampaignCompleted) || bool_decide (s = CampaignCancelled) || bool_decide (s = CampaignExpired).
(** The states a campaign can still reach *)
Definition state_le (s s' : CampaignState) : bool :=
  match s with
  | CampaignPrepared => true
  | CampaignApproved => negb (bool_decide (s' = CampaignPrepared)) && negb (bool_decide (s' = CampaignExpired))
  | CampaignSending => bool_decide (s' = CampaignSending) || bool_decide (s' = CampaignCompleted)
                       || bool_decide (s' = CampaignCancelled)
  | _ => bool_decide (s' = s)
  end.
#[global] Instance state_le_preorder : PreOrder (λ s s', state_le s s' = true).
Proof. split; [by intros [] | by intros [] [] []]. Qed.

(** The columns no statement writes after the INSERT. *)
Record static (c c' : BroadcastCampaign) : Prop := {
  st_id : c_ID c' = c_ID c;
  st_category : c_Category c' = c_Category c;
  st_selector : c_SelectorHash c' = c_SelectorHash c;
  st_content : c_ContentHash c' = c_ContentHash c;
  st_creator : c_CreatedBy c' = c_CreatedBy c;
  st_limit : c_RecipientLimit c' = c_RecipientLimit c;
  st_expires : c_ExpiresAt c' = c_ExpiresAt c;
}.
#[global] Instance static_preorder : PreOrder static.
Proof. split; [by split | intros c1 c2 c3 [] []; split; congruence]. Qed.

Record campaign_le (c c' : BroadcastCampaign) : Prop := {
  cl_static : static c c';
  cl_state : state_le (c_State c) (c_State c') = true;
  cl_approver : c_State c ≠ CampaignPrepared → c_ApprovedBy c' = c_ApprovedBy c;
}.
#[global] Instance campaign_le_preorder : PreOrder campaign_le.
Proof.
  split; [intros c; split; [done | by apply state_le_preorder | done] |]. intros c1 c2 c3 [S1 L1 A1] [S2 L2 A2].
  split; [by etrans | by eapply (state_le_preorder.(PreOrder_Transitive)) |].
  intros H1. rewrite A2, A1; [done.. |]. intros H2. rewrite H2 in L1. by destruct (c_State c1).
Qed.

(** A delivery that is closed stays as it is. *)
Definition row_le (r r' : delivery_row) : Prop := final (dl_status r) → r' = r.

Record tables_le (d d' : bdb) : Prop := {
  tl_campaign id c : b_campaigns d !! id = Some c → ∃ c', b_campaigns d' !! id = Some c' ∧ campaign_le c c';
  tl_delivery k r : b_deliveries d !! k = Some r → ∃ r', b_deliveries d' !! k = Some r' ∧ row_le r r';
}.
#[global] Instance tables_le_preorder : PreOrder tables_le.
Proof.
  split.
  - intros d. split; [intros id c Hc; exists c; by split | intros k r Hr; by exists r].
  - intros d1 d2 d3 [C1 R1] [C2 R2]. split.
    + intros id c (c2 & H2 & L2)%C1. destruct (C2 _ _ H2) as (c3 & H3 & L3). exists c3. split; [done | by etrans].
    + intros k r (r2 & H2 & L2)%R1. destruct (R2 _ _ H2) as (r3 & H3 & L3). exists r3. split; [done |].
      intros Hf. pose proof (L2 Hf) as ->. auto.
Qed.

(** ** The invariant *)
Definition started (s : CampaignState) : bool :=
  bool_decide (s = CampaignSending) || bool_decide (s = CampaignCompleted) || bool_decide (s = CampaignCancelled).

Record campaign_ok (w : world) (id : string) (c : BroadcastCampaign) : Prop := {
  co_id : c_ID c = id;
  co_created : (id, c_RecipientLimit c) ∈ w_created w;
  co_prepared : c_State c = CampaignPrepared → id ∉ approved_ids w;
  co_approved : c_State c = CampaignApproved ∨ c_State c = CampaignSending → approved w c;
}.

(** A delivery belongs to a campaign that was started; when the campaign is
    completed it is closed. *)
Definition home (c : BroadcastCampaign) (r : delivery_row) : Prop :=
  started (c_State c) ∧ (c_State c = CampaignCompleted → final (dl_status r)).

Definition rows_of (id : string) (m : gmap (string * Z) delivery_row) : gmap (string * Z) delivery_row :=
  filter (λ kr, kr.1.1 = id) m.

Record db_ok (w : world) (d : bdb) : Prop := {
  ok_campaign id c : b_campaigns d !! id = Some c → campaign_ok w id c;
  ok_home k r : b_deliveries d !! k = Some r → ∃ c, b_campaigns d !! k.1 = Some c ∧ home c r;
  ok_limit id c : b_campaigns d !! id = Some c →
    Z.of_nat (size (rows_of id (b_deliveries d))) ≤ Z.max 0 (c_RecipientLimit c);
  ok_known id : id ∈ approved_ids w → is_Some (b_campaigns d !! id);
  ok_created id : id ∈ (w_created w).*1 → is_Some (b_campaigns d !! id);
  ok_single : NoDup (approved_ids w);
  ok_unique : NoDup (w_created w).*1;
}.

Definition empty_world : world := {| w_created := []; w_approved := [] |}.
Lemma empty_ok d : b_campaigns d = ∅ → b_deliveries d = ∅ → db_ok empty_world d.
Proof.
  intros Hc Hd.
  split; rewrite ?Hc, ?Hd; try (by intros *; rewrite ?lookup_empty, ?elem_of_nil); apply NoDup_nil_2.
Qed.

(** ** Sizes *)
Lemma rows_of_dom (id : string) (m m' : gmap (string * Z) delivery_row) :
  dom m' = dom m → size (rows_of id m') = size (rows_of id m).
Proof.
  intros Hd. rewrite <- !size_dom. f_equal. apply set_eq. intros k.
  rewrite !elem_of_dom. unfold rows_of.
  assert (∀ m : gmap (string * Z) delivery_row,
    is_Some (filter (λ kr, kr.1.1 = id) m !! k) ↔ k ∈ dom m ∧ k.1 = id) as Hf.
  { intros m0. rewrite elem_of_dom. unfold is_Some. setoid_rewrite map_lookup_filter_Some. cbn. naive_solver. }
  by rewrite !Hf, Hd.
Qed.

Lemma rows_of_insert (id : string) (k : string * Z) (r : delivery_row) (m : gmap (string * Z) delivery_row) :
  (size (rows_of id (<[k := r]> m)) ≤ S (size (rows_of id m)))%nat.
Proof.
  unfold rows_of. destruct (decide (k.1 = id)) as [He|Hne].
  - rewrite map_filter_insert_True by done. rewrite map_size_insert. case_match; cbn; lia.
  - rewrite map_filter_insert_False by done. etrans; [| apply Nat.le_succ_diag_r].
    apply map_subseteq_size, map_filter_subseteq_mono, delete_subseteq.
Qed.

(** ** Statements on campaigns *)

(** A new campaign *)
Lemma insert_ok w d c ref now :
  db_ok w d → b_campaigns d !! c_ID c = None →
  db_ok (note_created c w) (put_campaign (prepared_row c ref now) d).
Proof.
  intros Hd Hn. assert (c_ID c ∉ (w_created w).*1) as Hfresh by (intros [? Hc]%(ok_created _ _ Hd); congruence).
  split; cbn.
  - intros id c' [[<- <-]|[Hne Hc']]%lookup_insert_Some.
    + split; cbn; [done | by left | | by intros [?|?]].
      intros _ [? Ha]%(ok_known _ _ Hd). congruence.
    + destruct (ok_campaign _ _ Hd _ _ Hc') as [Hid Hcr Hp Ha]. split; [done | by right | done |].
      intros Hs. destruct (Ha Hs) as (ap & Hap). by exists ap.
  - intros k r Hr. destruct (ok_home _ _ Hd _ _ Hr) as (c' & Hc' & Hh). exists c'. split; [| done].
    rewrite lookup_insert_ne; [done |]. congruence.
  - intros id c' [[<- <-]|[Hne Hc']]%lookup_insert_Some; [| by apply (ok_limit _ _ Hd)]. cbn.
    replace (rows_of (c_ID c) (b_deliveries d)) with (∅ : gmap (string * Z) delivery_row).
    { rewrite map_size_empty. lia. }
    symmetry. apply map_empty_filter_2. intros k r Hr Hk. cbn in Hk.
    destruct (ok_home _ _ Hd _ _ Hr) as (c' & Hc' & _). congruence.
  - intros id Hid. apply lookup_insert_is_Some'. right. by apply (ok_known _ _ Hd).
  - intros id Hid. apply lookup_insert_is_Some'. apply elem_of_cons in Hid as [->|Hid]; [by left | right].
    by apply (ok_created _ _ Hd).
  - apply (ok_single _ _ Hd).
  - constructor; [done | apply (ok_unique _ _ Hd)].
Qed.

(** What an UPDATE of a campaign may do to a row without a new approval: the
    static columns stay, and the state stays or becomes terminal.  Only an
    expiry leads to expired, and only a campaign with no open delivery is
    completed. *)
Record campaign_move (d : bdb) (c c' : BroadcastCampaign) : Prop := {
  cm_static : static c c';
  cm_approver : c_ApprovedBy c' = c_ApprovedBy c;
  cm_state : c_State c' = c_State c ∨
    terminal (c_State c') ∧ state_le (c_State c) (c_State c') ∧
    (c_State c' = CampaignExpired → c_State c = CampaignPrepared) ∧
    (c_State c' = CampaignCompleted →
       c_State c = CampaignApproved ∨ c_State c = CampaignSending ∧ unfinished (c_ID c) d = false);
}.

Definition moves (d : bdb) (m : gmap string BroadcastCampaign) : Prop :=
  ∀ id, match b_campaigns d !! id, m !! id with
        | Some c, Some c' => campaign_move d c c'
        | None, None => True
        | _, _ => False
        end.

Lemma campaign_move_refl d c : campaign_move d c c.
Proof. split; [done | done | by left]. Qed.

Lemma moves_refl d : moves d (b_campaigns d).
Proof. intros id. destruct (b_campaigns d !! id); [apply campaign_move_refl | done]. Qed.

Lemma static_ok w id c c' :
  campaign_ok w id c → static c c' → c_ApprovedBy c' = c_ApprovedBy c → c_State c' = c_State c →
  campaign_ok w id c'.
Proof.
  intros [Hid Hcr Hp Ha] [Si _ Ss Sc _ Sl _] Sa Hs. split; rewrite ?Si, ?Sl, ?Hs; try done.
  intros H. destruct (Ha H) as (ap & Hap & H1 & H2 & H3 & H4). exists ap.
  unfold approved_by. by rewrite Si, Ss, Sc, Sa.
Qed.

Lemma move_ok w d id c c' : campaign_ok w id c → campaign_move d c c' → campaign_ok w id c'.
Proof.
  intros Hc [Hs Ha Hst]. destruct Hst as [Hst|(Ht & _)]; [by eapply static_ok |].
  destruct Hc as [Hid Hcr _ _], Hs as [Si _ _ _ _ Sl _].
  split; rewrite ?Si, ?Sl; try done.
  - intros E. by rewrite E in Ht.
  - intros [E|E]; by rewrite E in Ht.
Qed.

Lemma unfinished_false id d k r :
  unfinished id d = false → b_deliveries d !! k = Some r → k.1 = id → final (dl_status r).
Proof.
  intros Hu Hr Hk. destruct (final (dl_status r)) eqn:Ef; [done |].
  assert (unfinished id d = true) as Hc; [| congruence]. apply existsb_elem_of. exists (k, r).
  split; [by apply elem_of_map_to_list |]. cbn. by rewrite Ef, (bool_decide_true _ Hk).
Qed.

Lemma move_home w d k c c' r :
  db_ok w d → b_campaigns d !! k.1 = Some c → b_deliveries d !! k = Some r → campaign_move d c c' →
  home c r → home c' r.
Proof.
  intros Hd Hc Hr [Hs _ Hst] [Hh Hf]. destruct Hst as [Hst|(Ht & Hle & He & Hco)].
  - unfold home. by rewrite Hst.
  - split.
    + destruct (c_State c') eqn:E', (c_State c) eqn:E; try done; by specialize (He eq_refl).
    + intros E. destruct (Hco E) as [Ha|[Hse Hu]]; [by rewrite Ha in Hh |].
      eapply unfinished_false; [exact Hu | exact Hr |]. by rewrite (co_id _ _ _ (ok_campaign _ _ Hd _ _ Hc)).
Qed.

Lemma moves_ok w d m : db_ok w d → moves d m → db_ok w (d <|b_campaigns := m|>).
Proof.
  intros Hd Hm.
  assert (∀ id c', m !! id = Some c' → ∃ c, b_campaigns d !! id = Some c ∧ campaign_move d c c') as Hback.
  { intros id c' Hc'. specialize (Hm id). rewrite Hc' in Hm. case_match; [eauto | done]. }
  assert (∀ id, is_Some (b_campaigns d !! id) → is_Some (m !! id)) as Hkeep.
  { intros id [c Hc]. specialize (Hm id). rewrite Hc in Hm. case_match; [by eexists | done]. }
  split; cbn; try (by destruct Hd).
  - intros id c' (c & Hc & Hcm)%Hback. eapply move_ok; [by apply (ok_campaign _ _ Hd) | done].
  - intros k r Hr. destruct (ok_home _ _ Hd _ _ Hr) as (c & Hc & Hh). specialize (Hm k.1).
    rewrite Hc in Hm. destruct (m !! k.1) as [c'|]; [| done]. exists c'. split; [done |]. by eapply move_home.
  - intros id c' (c & Hc & [[_ _ _ _ _ Hl _] _ _])%Hback. rewrite Hl. by apply (ok_limit _ _ Hd).
  - intros id Hid. by apply Hkeep, (ok_known _ _ Hd).
  - intros id Hid. by apply Hkeep, (ok_created _ _ Hd).
Qed.

Lemma moves_le d m : moves d m → tables_le d (d <|b_campaigns := m|>).
Proof.
  intros Hm. split; cbn; [| intros k r Hr; by exists r].
  intros id c Hc. specialize (Hm id). rewrite Hc in Hm. destruct (m !! id) as [c'|]; [| done].
  exists c'. split; [done |]. destruct Hm as [Hs Ha Hst]. split; [done | | done].
  destruct Hst as [->|(_ & Hle & _)]; [apply state_le_preorder | by destruct (state_le _ _)].
Qed.

Lemma update_campaign_moves id p f d n d' :
  update_campaign id p f d = (n, d') → (∀ c, p c = true → campaign_move d c (f c)) →
  ∃ m, d' = d <|b_campaigns := m|> ∧ moves d m.
Proof.
  intros Hu Hf. unfold update_campaign in Hu.
  pose proof (moves_refl d) as Hid. destruct (b_campaigns d !! id) as [c|] eqn:Hc.
  - destruct (p c) eqn:Hp; injection Hu as <- <-.
    + eexists. split; [done |]. intros i. destruct (decide (id = i)) as [<-|Hne].
      * rewrite Hc, lookup_insert_eq. auto.
      * rewrite lookup_insert_ne by done. apply Hid.
    + exists (b_campaigns d). split; [by destruct d | done].
  - injection Hu as <- <-. exists (b_campaigns d). split; [by destruct d | done].
Qed.

Lemma update_where_moves (p : BroadcastCampaign → bool) (f : BroadcastCampaign → BroadcastCampaign) d :
  (∀ c, p c = true → campaign_move d c (f c)) → moves d (update_where (λ _, p) f (b_campaigns d)).2.
Proof.
  intros Hf id. unfold update_where; cbn. rewrite map_lookup_imap.
  destruct (b_campaigns d !! id) as [c|]; cbn; [| done].
  destruct (p c) eqn:Hp; [by apply Hf | apply campaign_move_refl].
Qed.

(** ** Statements on deliveries *)

(** The same rows are there, and the closed ones are unchanged. *)
Definition rows_kept (m m' : gmap (string * Z) delivery_row) : Prop :=
  ∀ k, match m !! k, m' !! k with
       | Some r, Some r' => row_le r r'
       | None, None => True
       | _, _ => False
       end.

Lemma rows_kept_refl m : rows_kept m m.
Proof. intros k. by destruct (m !! k). Qed.

Lemma rows_kept_dom (m m' : gmap (string * Z) delivery_row) : rows_kept m m' → dom m' = dom m.
Proof.
  intros Hm. apply set_eq. intros k. rewrite !elem_of_dom. specialize (Hm k).
  destruct (m !! k), (m' !! k); try done; split; try by intros [? [=]]; by eexists.
Qed.

Lemma rows_kept_ok w d m :
  db_ok w d → rows_kept (b_deliveries d) m → db_ok w (d <|b_deliveries := m|>).
Proof.
  intros Hd Hm. split; cbn; try (by destruct Hd).
  - intros k r' Hr'. pose proof (Hm k) as Hk. rewrite Hr' in Hk. destruct (b_deliveries d !! k) as [r|] eqn:Hr; [| done].
    destruct (ok_home _ _ Hd _ _ Hr) as (c & Hc & Hs & Hf). exists c. split; [done |]. split; [done |].
    intros E. rewrite Hk by auto. auto.
  - intros id c Hc. rewrite (rows_of_dom id (b_deliveries d) m) by by apply rows_kept_dom.
    by apply (ok_limit _ _ Hd).
Qed.

Lemma rows_kept_le d m : rows_kept (b_deliveries d) m → tables_le d (d <|b_deliveries := m|>).
Proof.
  intros Hm. split; cbn; [intros id c Hc; by exists c |].
  intros k r Hr. specialize (Hm k). rewrite Hr in Hm. destruct (m !! k) as [r'|]; [by exists r' | done].
Qed.

Lemma update_where_kept (p : string * Z → delivery_row → bool) f m :
  (∀ k r, p k r = true → final (dl_status r) = false) → rows_kept m (update_where p f m).2.
Proof.
  intros Hp k. unfold update_where; cbn. rewrite map_lookup_imap. destruct (m !! k) as [r|]; cbn; [| done].
  destruct (p k r) eqn:E; [| done]. intros Hf. by rewrite (Hp _ _ E) in Hf.
Qed.

Lemma update_sending_rows k f d :
  ∃ m, update_sending k f d = d <|b_deliveries := m|> ∧ rows_kept (b_deliveries d) m.
Proof.
  unfold update_sending. destruct (b_deliveries d !! k) as [r|] eqn:Hr; [case_bool_decide as Hs |].
  - eexists. split; [done |]. intros k'. destruct (decide (k = k')) as [<-|Hne].
    + rewrite Hr, lookup_insert_eq. intros Hf. by rewrite Hs in Hf.
    + rewrite lookup_insert_ne by done. apply rows_kept_refl.
  - exists (b_deliveries d). split; [by destruct d | apply rows_kept_refl].
  - exists (b_deliveries d). split; [by destruct d | apply rows_kept_refl].
Qed.

Lemma lookup_update_sending k f d k' :
  b_deliveries (update_sending k f d) !! k' =
  match b_deliveries d !! k' with
  | Some r => Some (if bool_decide (k' = k) && bool_decide (dl_status r = DeliverySending) then f r else r)
  | None => None
  end.
Proof.
  unfold update_sending. destruct (b_deliveries d !! k) as [r|] eqn:Hr; [case_bool_decide as Hs |]; cbn.
  - destruct (decide (k' = k)) as [->|Hne].
    + by rewrite lookup_insert_eq, Hr, !bool_decide_true.
    + rewrite lookup_insert_ne, (bool_decide_false (k' = k)) by done. by destruct (b_deliveries d !! k').
  - destruct (decide (k' = k)) as [->|Hne].
    + by rewrite Hr, (bool_decide_true (k = k)), bool_decide_false.
    + rewrite (bool_decide_false (k' = k)) by done. by destruct (b_deliveries d !! k').
  - destruct (decide (k' = k)) as [->|Hne]; [by rewrite Hr |].
    rewrite (bool_decide_false (k' = k)) by done. by destruct (b_deliveries d !! k').
Qed.

(** ** The start of a campaign *)
Lemma lookup_queue id now l m k :
  foldl (queue_recipient id now) m l !! k = m !! k ∨
  m !! k = None ∧ k.1 = id ∧ ∃ r, r ∈ l ∧ foldl (queue_recipient id now) m l !! k = Some (pending_row now r).
Proof.
  revert m. induction l as [|r l IH]; intros m; cbn; [by left |].
  destruct (IH (queue_recipient id now m r)) as [Hk|(Hn & Hid & r' & Hr & Hk)]; rewrite Hk.
  - unfold queue_recipient. destruct (m !! (id, br_UserID r)) eqn:E; [by left |].
    destruct (decide ((id, br_UserID r) = k)) as [<-|Hne]; [| rewrite lookup_insert_ne by done; by left].
    right. split_and!; [done | done |]. exists r. rewrite lookup_insert_eq. split; [by left | done].
  - assert (m !! k = None) as Hm.
    { unfold queue_recipient in Hn. destruct (m !! (id, br_UserID r)); [done |]. by apply lookup_insert_None in Hn as []. }
    right. split_and!; [done | done |]. exists r'. split; [by right | done].
Qed.

Lemma queue_size id now l m :
  (size (rows_of id (foldl (queue_recipient id now) m l)) ≤ size (rows_of id m) + length l)%nat.
Proof.
  revert m. induction l as [|r l IH]; intros m; cbn; [lia |]. etrans; [apply IH |].
  assert (size (rows_of id (queue_recipient id now m r)) ≤ S (size (rows_of id m)))%nat; [| lia].
  unfold queue_recipient. case_match; [lia | apply rows_of_insert].
Qed.

Lemma queue_other id id' now l m :
  id ≠ id' → rows_of id' (foldl (queue_recipient id now) m l) = rows_of id' m.
Proof.
  intros Hne. apply map_eq. intros k. unfold rows_of. rewrite !map_lookup_filter.
  destruct (lookup_queue id now l m k) as [->|(Hn & Hk & r & _ & ->)]; [done |]. rewrite Hn. cbn.
  rewrite option_guard_False; [done | by rewrite Hk].
Qed.

Lemma created_limit w d id c limit :
  db_ok w d → b_campaigns d !! id = Some c → (id, limit) ∈ w_created w → limit = c_RecipientLimit c.
Proof.
  intros Hd Hc Hl. pose proof (co_created _ _ _ (ok_campaign _ _ Hd _ _ Hc)) as Hl'.
  eapply NoDup_keys_inj; [apply (ok_unique _ _ Hd) | exact Hl | exact Hl'].
Qed.

Lemma start_keeps w d id recipients now d' limit :
  db_ok w d → (id, limit) ∈ w_created w → Z.of_nat (length recipients) ≤ limit →
  StartBroadcastCampaign id recipients now d = Ok (tt, d') → db_ok w d' ∧ tables_le d d'.
Proof.
  intros Hd Hl Hlen Hs. unfold StartBroadcastCampaign, update_campaign in Hs.
  destruct (b_campaigns d !! id) as [c|] eqn:Hc; [| done]. unfold in_state in Hs.
  case_bool_decide as Hst; cbn in Hs; [| done]. case_match; [| done]. injection Hs as <-.
  set (c' := c <|c_State := CampaignSending|> <|c_UpdatedAt := now|>).
  assert (static c c') as Hstat by done.
  pose proof (ok_campaign _ _ Hd _ _ Hc) as Hok. pose proof (created_limit _ _ _ _ _ Hd Hc Hl) as ->.
  assert (rows_of id (b_deliveries d) = ∅) as Hnone.
  { apply map_empty_filter_2. intros k r Hr Hk. cbn in Hk. subst id.
    destruct (ok_home _ _ Hd _ _ Hr) as (c0 & Hc0 & Hh & _). rewrite Hc in Hc0. injection Hc0 as <-.
    by rewrite Hst in Hh. }
  split; [split; cbn; try (by destruct Hd) |].
  - intros i c0 [[<- <-]|[Hne Hc0]]%lookup_insert_Some; [| by apply (ok_campaign _ _ Hd)].
    destruct Hok as [Hid Hcr _ Ha]. split; try done. intros _. destruct (Ha (or_introl Hst)) as (ap & Hap).
    by exists ap.
  - intros k r Hr. destruct (lookup_queue id now recipients (b_deliveries d) k) as [Hk|(Hn & Hk & r0 & _ & Hr0)].
    + rewrite Hk in Hr. destruct (ok_home _ _ Hd _ _ Hr) as (c0 & Hc0 & Hh). exists c0. split; [| done].
      rewrite lookup_insert_ne; [done |]. intros ->. rewrite Hc in Hc0. injection Hc0 as <-.
      destruct Hh as [Hh _]. by rewrite Hst in Hh.
    + exists c'. rewrite Hk, lookup_insert_eq. split; [done |]. by split.
  - intros i c0 [[<- <-]|[Hne Hc0]]%lookup_insert_Some.
    + pose proof (queue_size id now recipients (b_deliveries d)) as Hq.
      rewrite Hnone, map_size_empty in Hq. cbn. lia.
    + rewrite queue_other by done. by apply (ok_limit _ _ Hd).
  - intros i Hi. apply lookup_insert_is_Some'. right. by apply (ok_known _ _ Hd).
  - intros i Hi. apply lookup_insert_is_Some'. right. by apply (ok_created _ _ Hd).
  - split; cbn.
    + intros i c0 Hc0. destruct (decide (id = i)) as [<-|Hne].
      * rewrite Hc in Hc0. injection Hc0 as <-. exists c'. rewrite lookup_insert_eq. split; [done |].
        split; [done | by rewrite Hst | done].
      * exists c0. by rewrite lookup_insert_ne.
    + intros k r Hr. exists r. split; [| done].
      destruct (lookup_queue id now recipients (b_deliveries d) k) as [->|(Hn & _)]; [done | congruence].
Qed.

(** ** Claims *)

(** The rows [rows] of a claim: distinct, due, and marked as sending in [m]. *)
Record claimed (now : time) (d : bdb) (rows : list (string * Z * delivery_row)) (m : gmap (string * Z) delivery_row)
    : Prop := {
  cr_nodup : NoDup rows.*1;
  cr_due k r : (k, r) ∈ rows → b_deliveries d !! k = Some r ∧ dl_status r = DeliveryPending;
  cr_taken k r : (k, r) ∈ rows → m !! k = Some (claim_delivery now r);
  cr_same k : k ∉ rows.*1 → m !! k = b_deliveries d !! k;
}.

Lemma claim_rows locked limit now d ds d' :
  ClaimBroadcastDeliveries locked limit now d = Ok (ds, d') →
  ∃ rows m, claimed now d rows m ∧ d' = d <|b_deliveries := m|> ∧
    ds = map (λ kr, claimed_of (kr.1, claim_delivery now kr.2)) rows.
Proof.
  intros Hcl. unfold ClaimBroadcastDeliveries in Hcl.
  set (lim := if limit <=? 0 then 1 else limit) in Hcl.
  set (l := map_to_list (filter (λ kr, due now locked d kr.1 kr.2 = true) (b_deliveries d))) in Hcl.
  set (rows := take (Z.to_nat lim) (merge_sort due_before l)) in Hcl. injection Hcl as <- <-.
  assert (NoDup rows.*1) as Hnd.
  { unfold rows. rewrite fmap_take. eapply sublist_NoDup; [| apply sublist_take].
    rewrite (fmap_Permutation _ _ l) by apply merge_sort_Permutation. apply NoDup_fst_map_to_list. }
  assert (∀ k r, (k, r) ∈ rows → b_deliveries d !! k = Some r ∧ dl_status r = DeliveryPending) as Hdue.
  { intros k r (i & Hkr%list_elem_of_lookup_2 & _)%elem_of_take. rewrite merge_sort_Permutation in Hkr.
    apply elem_of_map_to_list, map_lookup_filter_Some in Hkr as [Hr Hp]. split; [done |].
    unfold due in Hp; cbn in Hp. bool_to_Prop. done. }
  set (taken := map (λ kr, (kr.1, claim_delivery now kr.2)) rows).
  assert (taken.*1 = rows.*1) as Hkeys by (unfold taken; change (map fst (map (λ kr, (kr.1, claim_delivery now kr.2)) rows) = map fst rows); by rewrite map_map).
  exists rows. eexists. split; [| split; [reflexivity |]].
  - split; [done | done | |].
    + intros k r Hkr. apply lookup_union_Some_l, elem_of_list_to_map; [by rewrite Hkeys |].
      apply elem_of_map. by exists (k, r).
    + intros k Hk. apply lookup_union_r, not_elem_of_list_to_map_1. by rewrite Hkeys.
  - unfold taken. by rewrite map_map.
Qed.

Lemma claimed_kept now d rows m : claimed now d rows m → rows_kept (b_deliveries d) m.
Proof.
  intros [Hnd Hdue Htk Hsame] k. destruct (decide (k ∈ rows.*1)) as [Hk|Hk].
  - apply elem_of_map in Hk as ([k' r] & -> & Hk). cbn. destruct (Hdue _ _ Hk) as [-> Hp]. rewrite (Htk _ _ Hk).
    intros Hf. by rewrite Hp in Hf.
  - rewrite Hsame by done. apply rows_kept_refl.
Qed.

(** ** Approvals *)
Definition approve (id : string) (approver : Z) (contentHash selectorHash : string) (tg : Z) (w : world) : world :=
  w <|w_approved := {| ap_campaign := id; ap_by := approver; ap_operator := tg; ap_content := contentHash;
                       ap_selector := selectorHash |} :: w_approved w|>.

Lemma insert_le d c ref now :
  b_campaigns d !! c_ID c = None → tables_le d (put_campaign (prepared_row c ref now) d).
Proof.
  intros Hn. split; cbn; [| intros k r Hr; by exists r].
  intros i c' Hc'. exists c'. rewrite lookup_insert_ne by congruence. done.
Qed.

Lemma same_ok w d d' :
  b_campaigns d' = b_campaigns d → b_deliveries d' = b_deliveries d → db_ok w d → db_ok w d' ∧ tables_le d d'.
Proof.
  intros Hc Hd [H1 H2 H3 H4 H5 H6 H7]. rewrite <- Hc in H1, H2, H3, H4, H5. rewrite <- Hd in H2, H3.
  split; [by split |].
  split; [intros i c Hi; exists c | intros k r Hk; exists r]; split; congruence || done.
Qed.

Lemma approve_ok w d id approver ch sh now tg n d' :
  db_ok w d → approve_row id approver ch sh now d = Ok (n, d') →
  db_ok (if n =? 1 then approve id approver ch sh tg w else w) d' ∧ tables_le d d'.
Proof.
  intros Hd Ha. unfold approve_row, update_campaign in Ha.
  destruct (b_campaigns d !! id) as [c|] eqn:Hc; [| injection Ha as <- <-; by apply same_ok].
  destruct (approvable now ch sh c) eqn:Hap; cbn in Ha; [| injection Ha as <- <-; by apply same_ok].
  case_match; [done |]. injection Ha as <- <-. cbn [Z.eqb Pos.eqb].
  unfold approvable, in_state in Hap. bool_to_Prop.
  match goal with Hs : c_State c = CampaignPrepared |- _ => rename Hs into Hst end.
  pose proof (ok_campaign _ _ Hd _ _ Hc) as [Hid Hcr Hp _].
  set (c' := c <|c_State := CampaignApproved|> <|c_ApprovedBy := Some approver|> <|c_ApprovedAt := Some now|>
               <|c_UpdatedAt := now|>).
  assert (∀ w' : world, w_approved w ⊆ w_approved w' → ∀ c0, approved w c0 → approved w' c0) as Hmono.
  { intros w' Hw c0 (ap & ? & ?). exists ap. split; [by apply Hw | done]. }
  split; [split; cbn |].
  - intros i c0 [[<- <-]|[Hne Hc0]]%lookup_insert_Some.
    + split; cbn; try done. intros _. eexists. split_and!; [by left | done..].
    + destruct (ok_campaign _ _ Hd _ _ Hc0) as [Hi0 Hcr0 Hp0 Ha0]. split; cbn; [done | done | |].
      * intros E [->|Hin]%elem_of_cons; [done | by apply Hp0].
      * intros E. apply (Hmono (approve id approver ch sh tg w)); [by intros x Hx; right | auto].
  - intros k r Hr. destruct (ok_home _ _ Hd _ _ Hr) as (c0 & Hc0 & Hh). exists c0. split; [| done].
    rewrite lookup_insert_ne; [done |]. intros ->. rewrite Hc in Hc0. injection Hc0 as <-.
    destruct Hh as [Hh _]. by rewrite Hst in Hh.
  - intros i c0 [[<- <-]|[Hne Hc0]]%lookup_insert_Some; [by apply (ok_limit _ _ Hd id c) | by apply (ok_limit _ _ Hd)].
  - intros i [->|Hi]%elem_of_cons; apply lookup_insert_is_Some'; [by left | right; by apply (ok_known _ _ Hd)].
  - intros i Hi. apply lookup_insert_is_Some'. right. by apply (ok_created _ _ Hd).
  - constructor; [by apply Hp | apply (ok_single _ _ Hd)].
  - apply (ok_unique _ _ Hd).
  - split; cbn; [| intros k r Hr; by exists r]. intros i c0 Hc0. destruct (decide (id = i)) as [<-|Hne].
    + rewrite Hc in Hc0. injection Hc0 as <-. exists c'. rewrite lookup_insert_eq. split; [done |].
      split; [done | by rewrite Hst | done].
    + exists c0. by rewrite lookup_insert_ne.
Qed.

(** ** The other updates of campaigns are moves *)
Lemma expired_move d c now :
  in_state CampaignPrepared c → campaign_move d c (c <|c_State := CampaignExpired|> <|c_UpdatedAt := now|>).
Proof.
  unfold in_state. rewrite bool_decide_spec. intros Hs. split; [done | done |]. right. cbn. by rewrite Hs.
Qed.

Lemma update_ok w d id p f n d' :
  db_ok w d → update_campaign id p f d = (n, d') → (∀ c, p c = true → campaign_move d c (f c)) →
  db_ok w d' ∧ tables_le d d'.
Proof.
  intros Hd Hu Hf. destruct (update_campaign_moves _ _ _ _ _ _ Hu Hf) as (m & -> & Hm).
  split; [by apply moves_ok | by apply moves_le].
Qed.

Lemma cancel_move d c actor now :
  active (c_State c) →
  campaign_move d c (c <|c_State := CampaignCancelled|> <|c_CancelledBy := Some actor|> <|c_CancelledAt := Some now|>
                       <|c_UpdatedAt := now|>).
Proof. intros Ha. split; [done | done |]. right. cbn. by destruct (c_State c). Qed.

Lemma ended_move d c s to reason now :
  in_state s c → s = CampaignApproved ∧ (to = CampaignCompleted ∨ to = CampaignCancelled) ∨
                 s = CampaignSending ∧ to = CampaignCancelled →
  campaign_move d c (ended to reason now c).
Proof.
  unfold in_state. rewrite bool_decide_spec. intros <- Hto. split; [done | done |]. right. cbn.
  destruct Hto as [[-> [-> | ->]] | [-> ->]]; split_and!; try done; by left.
Qed.

Lemma complete_move d c now :
  completes d c → campaign_move d c (c <|c_State := CampaignCompleted|> <|c_CompletedAt := Some now|>
                                       <|c_UpdatedAt := now|>).
Proof.
  unfold completes, in_state. intros [Hs Hu]%andb_prop_elim. apply bool_decide_spec in Hs.
  split; [done | done |]. right. cbn. rewrite Hs. split_and!; try done. intros _. right. split; [done |].
  by destruct (unfinished (c_ID c) d).
Qed.
