(* ===== verification/BroadcastFacts.v ===== *)
(** * What the parts of a broadcast compute

    A prepared campaign opens again, the report counts every delivery once, and
    the closed form of the backoff. *)

From S2P Require Import Prelude GoString Utf8 Sha256 Program OAuthStore Notifications Json BroadcastPolicy BroadcastCanonical BroadcastStore ProductUpdates Broadcast BroadcastWorker BroadcastProps.

(** ** The selector of a campaign *)

(** A campaign that is as [Prepare] wrote it always passes the integrity
    check of the worker, which reads back exactly the audience that was
    previewed: whatever states it goes through, as long as its content and
    selector text are untouched. *)
Theorem prepared_campaign_opens `{LowerTables} cfg actor req id sel text counts expires ref now c :
  Normalize (pq_Selector req) = Ok sel →
  let row := prepared_row (new_campaign cfg actor req id sel text counts expires) ref now in
  static row c → c_Content c = c_Content row → c_SelectorJSON c = c_SelectorJSON row →
  campaignSelector c = Ok sel.
Proof.
  intros Hn%Normalize_normal row [_ _ Hs Hc _ _ _] Htext Hjson. unfold campaignSelector, intact.
  rewrite Htext, Hjson, Hs, Hc. change (c_ContentHash row) with (Hash (c_Content row)).
  change (c_SelectorHash row) with (Hash (c_SelectorJSON row)). rewrite !(bool_decide_true _ eq_refl).
  cbn [andb negb]. change (c_SelectorJSON row) with (CanonicalJSON sel).
  rewrite Unmarshal_CanonicalJSON, Normalize_fixed by done. done.
Qed.

(** ** The report *)

(** The deliveries of a campaign with a status and a reason *)
Definition deliveries_with (p : DeliveryStatus * string → bool) (id : string) (d : bdb) : Z :=
  Z.of_nat (length (filter (λ b, p b = true)
    (map (λ kr, (dl_status kr.2, dl_reason kr.2))
       (filter (λ kr, kr.1.1 = id) (map_to_list (b_deliveries d)))))).

(** Counting by buckets *)
Definition bucket_sum (p : DeliveryStatus * string → bool) (l bs : list (DeliveryStatus * string)) : Z :=
  foldr (λ b n, (if p b then Z.of_nat (length (filter (λ b', b' = b) l)) else 0) + n) 0 bs.
Definition matching (p : DeliveryStatus * string → bool) (l : list (DeliveryStatus * string)) : Z :=
  Z.of_nat (length (filter (λ b, p b = true) l)).

Lemma bucket_sum_cons p x l bs :
  NoDup bs →
  bucket_sum p (x :: l) bs = (if bool_decide (x ∈ bs) && p x then 1 else 0) + bucket_sum p l bs.
Proof.
  induction 1 as [|b bs Hb Hnd IH]; [done |]. unfold bucket_sum in *. cbn [foldr]. rewrite IH, filter_cons.
  destruct (decide (x = b)) as [->|Hne].
  - rewrite (bool_decide_false (b ∈ bs)), (bool_decide_true (b ∈ b :: bs)) by (done || by left).
    cbn [andb length]. destruct (p b); lia.
  - assert (bool_decide (x ∈ b :: bs) = bool_decide (x ∈ bs)) as ->; [| lia].
    apply bool_decide_ext. rewrite elem_of_cons. naive_solver.
Qed.
Lemma bucket_sum_matching p l bs : NoDup bs → (∀ b, b ∈ l → b ∈ bs) → bucket_sum p l bs = matching p l.
Proof.
  intros Hnd. unfold matching. induction l as [|x l IH]; intros Hl.
  - clear. unfold bucket_sum. induction bs as [|b bs IH]; [done |]. cbn [foldr]. rewrite IH. by destruct (p b).
  - rewrite bucket_sum_cons, IH by (done || intros b Hb; apply Hl; by right).
    rewrite bool_decide_true by (apply Hl; by left). cbn [andb]. rewrite filter_cons.
    destruct (p x) eqn:Hp; [rewrite decide_True by done; cbn [length]; lia |]. by rewrite decide_False by (by intros ?).
Qed.

(** What one field of a report sums up *)
Lemma tally_sum (field : Report → Z) (p : DeliveryStatus * string → bool) l bs r :
  (∀ r n, field (tally r n) = field r + (if p (dn_Status n, dn_Reason n) then dn_Count n else 0)) →
  field (foldl tally r (map (λ b : DeliveryStatus * string, {| dn_Status := b.1; dn_Reason := b.2;
    dn_Count := Z.of_nat (length (filter (λ b', b' = b) l)) |}) bs)) = field r + bucket_sum p l bs.
Proof.
  intros Hf. revert r. induction bs as [|b bs IH]; intros r; cbn [map foldl bucket_sum foldr]; [unfold bucket_sum; cbn; lia |].
  rewrite IH, Hf. unfold bucket_sum. cbn [foldr dn_Status dn_Reason dn_Count]. destruct b as [s reason]. cbn [fst snd]. lia.
Qed.

Definition is_status (s : DeliveryStatus) (b : DeliveryStatus * string) : bool := bool_decide (b.1 = s).
Definition is_bucket (s : DeliveryStatus) (reason : string) (b : DeliveryStatus * string) : bool :=
  bool_decide (b = (s, reason)).

Lemma bump_lookup reason reason' n m :
  default 0 (bump reason n m !! reason') = default 0 (m !! reason') + (if bool_decide (reason = reason') then n else 0).
Proof.
  unfold bump. case_bool_decide as Hr; [subst; by rewrite lookup_insert_eq |]. rewrite lookup_insert_ne by done. cbn. lia.
Qed.

#[local] Ltac tally_field :=
  intros r [st rs n]; unfold tally; cbn [dn_Status dn_Reason dn_Count]; destruct st; cbn;
  unfold is_status, is_bucket; cbn [fst snd]; repeat case_bool_decide; cbn; rewrite ?bump_lookup;
  repeat case_bool_decide; simplify_eq; try lia.

(** Each number of a report is the number of deliveries with that outcome: every
    delivery is counted in one place. *)
Definition exact_report (id : string) (d : bdb) (r : Report) : Prop :=
  let n := λ p, deliveries_with p id d in
  re_Queued r = n (λ _, true) ∧
  re_Delivered r = n (is_status DeliveryDelivered) ∧
  re_Pending r = n (λ b, is_status DeliveryPending b || is_status DeliverySending b) ∧
  re_TransientFailure r = n (is_bucket DeliveryFailed ReasonRetriesExhausted) ∧
  re_OutcomeUnknown r = n (is_bucket DeliveryFailed ReasonOutcomeUnknown) ∧
  (∀ reason, default 0 (re_Skipped r !! reason) = n (is_bucket DeliverySkipped reason)) ∧
  (∀ reason, default 0 (re_PermanentFailure r !! reason) =
     if bool_decide (reason ∈ [ReasonRetriesExhausted; ReasonOutcomeUnknown]) then 0
     else n (is_bucket DeliveryFailed reason)).

Lemma counts_exact id c d :
  ∃ counts, BroadcastDeliveryCounts id d = Ok (counts, d) ∧ exact_report id d (foldl tally (empty_report c) counts).
Proof.
  eexists. split; [reflexivity |]. unfold exact_report.
  match goal with |- context [remove_dups ?x] => set (l := x) end.
  set (bs := merge_sort bucket_before (remove_dups l)).
  assert (NoDup bs) as Hnd by (unfold bs; rewrite merge_sort_Permutation; apply NoDup_remove_dups).
  assert (∀ b, b ∈ l → b ∈ bs) as Hbs.
  { intros b Hb. unfold bs. by rewrite merge_sort_Permutation, elem_of_remove_dups. }
  assert (∀ p, deliveries_with p id d = bucket_sum p l bs) as Hn.
  { intros p. by rewrite bucket_sum_matching. }
  assert (∀ (field : Report → Z) (p : DeliveryStatus * string → bool), field (empty_report c) = 0 →
    (∀ r n, field (tally r n) = field r + (if p (dn_Status n, dn_Reason n) then dn_Count n else 0)) →
    field (foldl tally (empty_report c) (map (λ b : DeliveryStatus * string, {| dn_Status := b.1; dn_Reason := b.2;
      dn_Count := Z.of_nat (length (filter (λ b', b' = b) l)) |}) bs)) = deliveries_with p id d) as Hsum.
  { intros field p H0 Hf. rewrite Hn, (tally_sum field p) by done. lia. }
  split_and!; [apply Hsum; [done |]; tally_field .. | |]; intros reason.
  - apply (Hsum (λ r, default 0 (re_Skipped r !! reason))); [done |]. tally_field.
  - case_bool_decide as Hr.
    + pose proof (Hsum (λ r, default 0 (re_PermanentFailure r !! reason)) (λ _, false) eq_refl) as Hp. cbv beta in Hp.
      rewrite Hp.
      * rewrite Hn, bucket_sum_matching by done. unfold matching. generalize l. clear. intros l.
        induction l as [|x l IH]; [done |]. by rewrite filter_cons_False.
      * rewrite !elem_of_cons, elem_of_nil in Hr. tally_field; naive_solver.
    + apply (Hsum (λ r, default 0 (re_PermanentFailure r !! reason))); [done |].
      rewrite !elem_of_cons, elem_of_nil in Hr. tally_field; naive_solver.
Qed.

(** ** The backoff *)
Section backoff.
Context (cfg : WorkerConfig).

Lemma double_up_spec n b :
  0 < b → ∃ k, (k ≤ n)%nat ∧ double_up cfg n b = b * 2 ^ Z.of_nat k ∧
    (k = n ∨ wc_MaxBackoff cfg ≤ double_up cfg n b) ∧ (double_up cfg n b = b ∨ double_up cfg n b < 2 * wc_MaxBackoff cfg).
Proof.
  revert b. induction n as [|n IH]; intros b Hb; cbn [double_up]; [exists O; repeat split; lia |].
  destruct (Z.ltb_spec b (wc_MaxBackoff cfg)) as [Hlt|Hge].
  - destruct (IH (b * 2) ltac:(lia)) as (k & Hk & He & Hs & Hbound). exists (S k). split; [lia |]. split.
    + rewrite He, Nat2Z.inj_succ, Z.pow_succ_r by lia. ring.
    + split; [destruct Hs; [left; lia | by right] | right; lia].
  - exists O. repeat split; lia.
Qed.
End backoff.

(** The pause before the next attempt is the base pause doubled for every
    attempt after the first, at most [MaxBackoff], and never shorter than what
    Telegram asked for; no intermediate value reaches twice the larger of the
    two bounds, so that it does not overflow for a [MaxBackoff] below a quarter
    of the range of 64 bits. *)
Theorem backoff_closed cfg attempts retryAfter :
  0 < wc_BaseBackoff cfg → 1 ≤ attempts →
  backoff cfg attempts retryAfter =
    Z.max retryAfter (Z.min (wc_MaxBackoff cfg) (wc_BaseBackoff cfg * 2 ^ (attempts - 1))) ∧
  ∀ n, double_up cfg n (wc_BaseBackoff cfg) ≤ Z.max (wc_BaseBackoff cfg) (2 * wc_MaxBackoff cfg).
Proof.
  intros Hb Ha. split.
  - unfold backoff. destruct (double_up_spec cfg (Z.to_nat (attempts - 1)) (wc_BaseBackoff cfg) Hb)
      as (k & Hk & He & Hs & _). set (x := double_up _ _ _) in *.
    assert (Z.min (wc_MaxBackoff cfg) (wc_BaseBackoff cfg * 2 ^ (attempts - 1)) = Z.min (wc_MaxBackoff cfg) x) as ->.
    { destruct Hs as [->|Hs]; [rewrite He, Z2Nat.id by lia; done |].
      assert (2 ^ Z.of_nat k ≤ 2 ^ (attempts - 1)) by (apply Z.pow_le_mono_r; lia). nia. }
    repeat case_match; bool_to_Prop; lia.
  - intros n. destruct (double_up_spec cfg n (wc_BaseBackoff cfg) Hb) as (k & _ & _ & _ & Hx). lia.
Qed.

Lemma backoff_closed_witness :
  let cfg := {| wc_Policy := {| po_AdminTelegramIDs := ∅; po_LookupAdminTelegramIDs := ∅; po_ClientTelegramIDs := ∅;
                                po_AutoApproveClients := false |};
                wc_BatchSize := 1; wc_MaxAttempts := 5; wc_BaseBackoff := 30; wc_MaxBackoff := 100; wc_Lease := 0 |} in
  backoff cfg 2 0 = 60 ∧ backoff cfg 4 0 = 100 ∧ backoff cfg 2 70 = Z.max 70 (Z.min 100 (30 * 2 ^ 1)).
Proof.
  cbv zeta. split; [done |]. split; [done |]. by apply backoff_closed.
Defined.

(** ** Witnesses *)
#[local] Existing Instance ascii_tables.

Lemma prepared_campaign_opens_witness :
  let cfg := {| cf_Operators := ∅; cf_ApprovalTTL := 0; cf_RecipientLimit := 1; cf_BatchSize := 1;
                cf_Policy := {| po_AdminTelegramIDs := ∅; po_LookupAdminTelegramIDs := ∅; po_ClientTelegramIDs := ∅;
                                po_AutoApproveClients := false |} |} in
  let actor := {| ac_UserID := 1; ac_TelegramID := 2; ac_Surface := "" |} in
  let req := {| pq_Selector := {| sel_Category := "security"; sel_Tiers := ["Admin"; "client"];
                                  sel_ConnectedVia := [" Claude"]; sel_ActiveWithinDays := 90 |};
                pq_Text := "x"; pq_SourceRef := None |} in
  let sel := {| sel_Category := "security"; sel_Tiers := ["admin"; "client"]; sel_ConnectedVia := ["claude"];
                sel_ActiveWithinDays := 90 |} in
  let counts := {| ct_Eligible := 1; ct_Skipped := ∅ |} in
  Normalize (pq_Selector req) = Ok sel ∧
  campaignSelector (prepared_row (new_campaign cfg actor req "bc_1" sel "x" counts 10) None 0) = Ok sel.
Proof.
  intros cfg actor req sel counts. assert (Normalize (pq_Selector req) = Ok sel) as Hn by (vm_compute; reflexivity).
  split; [exact Hn |].
  apply (prepared_campaign_opens cfg actor req "bc_1" sel "x" counts 10 None 0 _ Hn (reflexivity _) eq_refl eq_refl).
Defined.
