(* ===== verification/BroadcastLedger.v ===== *)
(** * The ledger of deliveries

    A worker that claimed a delivery holds a token for it: the right to send its
    message once and to close it.  The token is used up when the delivery is
    closed, handed back or put off; a message that may have been delivered can
    only be followed by closing.  This file states that protocol and shows that
    the tables keep it. *)

From S2P Require Import Prelude GoString Program Linear OAuthStore Notifications Json BroadcastPolicy BroadcastStore ProductUpdates Broadcast BroadcastProps.

(** ** Messages handed to the Bot API *)
Record send := Send {
  sd_campaign : BroadcastCampaign;     (** as the worker read it *)
  sd_delivery : BroadcastDelivery;
  sd_chat : Z;
  sd_text : string;
  sd_result : result send_error unit;
}.
(** Telegram took the message, or nobody knows. *)
Definition maybe_delivered (r : result send_error unit) : bool :=
  match r with
  | Ok _ => true
  | Err (SendAPIError _) | Err SendDialError => false
  | Err (SendTransport _) => true
  end.
Definition sends_of (k : string * Z) (L : list send) : list send :=
  filter (λ m, bd_key (sd_delivery m) = k) L.
Definition deliveries_of (k : string * Z) (L : list send) : list send :=
  filter (λ m, maybe_delivered (sd_result m) = true) (sends_of k L).
Definition count {A} (l : list A) : Z := Z.of_nat (length l).

(** ** Tokens *)
Inductive tok :=
| Unsent (attempts : Z)
| Tried (attempts : Z) (r : result send_error unit).
Definition tok_attempts (t : tok) : Z := match t with Unsent a | Tried a _ => a end.
Definition retryable (t : tok) : bool :=
  match t with Unsent _ => true | Tried _ r => negb (maybe_delivered r) end.
Abbreviation tokens := (gmap (string * Z) tok) (only parsing).
Definition claim_tokens (ds : list BroadcastDelivery) : tokens :=
  list_to_map (map (λ d, (bd_key d, Unsent (bd_Attempts d))) ds).

(** The tokens of the system, each with the program that holds it. *)
Abbreviation purse := (gmap (string * Z) (nat * tok)) (only parsing).
Definition held (i : nat) (P : purse) : tokens :=
  omap (λ jt : nat * tok, if bool_decide (jt.1 = i) then Some jt.2 else None) P.

Lemma lookup_held (i : nat) (P : purse) (k : string * Z) (t : tok) : held i P !! k = Some t ↔ P !! k = Some (i, t).
Proof.
  unfold held. rewrite lookup_omap. destruct (P !! k) as [[j t']|]; cbn; [| done].
  case_bool_decide; naive_solver.
Qed.
Lemma lookup_held_None (i : nat) (P : purse) (k : string * Z) : P !! k = None → held i P !! k = None.
Proof. intros HP. unfold held. by rewrite lookup_omap, HP. Qed.

Lemma held_eq (i : nat) (P : purse) (T : tokens) :
  (∀ k t, T !! k = Some t ↔ P !! k = Some (i, t)) → held i P = T.
Proof.
  intros HT. apply map_eq. intros k. apply option_eq. intros t. by rewrite lookup_held, HT.
Qed.

Section purse.
Context (i : nat) (P : purse) (k : string * Z).

Lemma held_delete (t : tok) : P !! k = Some (i, t) →
  ∀ j, held j (delete k P) = if decide (j = i) then delete k (held j P) else held j P.
Proof.
  intros Hk j. apply held_eq. intros k' t'. destruct (decide (j = i)) as [->|Hne].
  - by rewrite !lookup_delete_Some, lookup_held.
  - rewrite lookup_delete_Some, lookup_held. split; [intros Hp; split; [| done] | by intros [_ ?]].
    intros <-. congruence.
Qed.

Lemma held_insert (t t' : tok) : P !! k = Some (i, t) →
  ∀ j, held j (<[k := (i, t')]> P) = if decide (j = i) then <[k := t']> (held j P) else held j P.
Proof.
  intros Hk j. apply held_eq. intros k' t0. destruct (decide (j = i)) as [->|Hne].
  - rewrite !lookup_insert_Some, lookup_held. naive_solver.
  - rewrite lookup_insert_Some, lookup_held. naive_solver.
Qed.

Lemma held_claim (C : tokens) : (∀ k t, C !! k = Some t → P !! k = None) →
  ∀ j, held j ((pair i <$> C) ∪ P) = if decide (j = i) then C ∪ held j P else held j P.
Proof.
  intros HC j. apply held_eq. intros k' t0.
  rewrite lookup_union_Some_raw, lookup_fmap, fmap_None.
  destruct (decide (j = i)) as [->|Hne].
  - rewrite lookup_union_Some_raw, lookup_held. destruct (C !! k') eqn:E; cbn; naive_solver.
  - rewrite lookup_held. destruct (C !! k') eqn:E; cbn; [| naive_solver].
    apply HC in E. naive_solver.
Qed.
End purse.

Section ledger.
Context (max : Z) (ops : gset Z).

(** ** The protocol *)
Definition call_pre {A : Type} (w : world) (T : tokens) (c : bcall A) : Prop :=
  match c with
  | CApproveRow _ _ _ _ _ tg => tg ∈ ops
  | CStart id recipients _ => ∃ limit, (id, limit) ∈ w_created w ∧ Z.of_nat (length recipients) ≤ limit
  | CFinish id u _ _ _ => is_Some (T !! (id, u))
  | CRetry id u _ _ => ∃ t, T !! (id, u) = Some t ∧ retryable t ∧ tok_attempts t < max
  | CRelease id u => ∃ a, T !! (id, u) = Some (Unsent a)
  | _ => True
  end.
Definition call_post {A : Type} (w : world) (T : tokens) (c : bcall A) : result bc_error A → tokens → Prop :=
  match c in bcall A return result bc_error A → tokens → Prop with
  | CGetCampaign id => λ r T', T' = T ∧
      ∀ c, r = Ok c → c_ID c = id ∧ (c_State c = CampaignSending → approved w c)
  | CListCampaigns _ _ => λ r T', T' = T ∧
      ∀ l c, r = Ok l → c ∈ l → (c_ID c, c_RecipientLimit c) ∈ w_created w
  | CClaim _ _ => λ r T',
      match r with
      | Ok ds => NoDup (map bd_key ds) ∧ T' = claim_tokens ds ∪ T
      | Err _ => T' = T
      end
  | CFinish id u _ _ _ => λ _ T', T' = delete (id, u) T
  | CRetry id u _ _ => λ _ T', T' = delete (id, u) T
  | CRelease id u => λ _ T', T' = delete (id, u) T
  | _ => λ _ T', T' = T
  end.
Definition query_pre {A : Type} (w : world) (T : tokens) (q : bquery A) : Prop :=
  match q with
  | QSend c d _ text => T !! bd_key d = Some (Unsent (bd_Attempts d)) ∧ text = c_Content c ∧
      c_ID c = bd_CampaignID d ∧ intact c ∧ approved w c
  | _ => True
  end.
Definition query_post {A : Type} (T : tokens) (q : bquery A) : A → tokens → Prop :=
  match q in bquery A return A → tokens → Prop with
  | QSend _ d _ _ => λ r T', T' = <[bd_key d := Tried (bd_Attempts d) r]> T
  | _ => λ _ T', T' = T
  end.

#[global, refine] Instance delivery_ledger : Ledger bc_error bcall bquery world (gmap (string * Z) tok) := {
  l_le := world_le;
  l_pre := @call_pre;
  l_post := @call_post;
  l_qpre := @query_pre;
  l_qpost A w T q := query_post T q;
}.
Proof.
  - intros A w w' T c Hw. destruct c; cbn; try done. intros (limit & Hl & Hn). exists limit.
    split; [by apply Hw | done].
  - intros A w w' T q Hw. destruct q; cbn; try done. intros (Ht & Hx & Hi & Hin & Ha).
    split_and!; [done.. | by eapply approved_mono].
Defined.

(** ** What the tokens say of the tables *)

(** A delivery, its token, the messages sent for it, and those of them that may
    have been delivered. *)
Definition key_ok (row : option delivery_row) (t : option tok) (sent delivered : Z) : Prop :=
  match row with
  | None => t = None ∧ sent = 0 ∧ delivered = 0
  | Some r =>
    0 ≤ sent ≤ dl_attempts r ∧ dl_attempts r ≤ max ∧ 0 ≤ delivered ≤ 1 ∧
    (dl_status r = DeliveryPending → t = None ∧ delivered = 0 ∧ dl_attempts r < max) ∧
    match t with
    | None => True
    | Some (Unsent a) => a = dl_attempts r ∧ sent + 1 ≤ a ∧ delivered = 0
    | Some (Tried a res) => a = dl_attempts r ∧ (maybe_delivered res = false → delivered = 0)
    end
  end.
Definition keys_ok (m : gmap (string * Z) delivery_row) (P : purse) (L : list send) : Prop :=
  ∀ k, key_ok (m !! k) (snd <$> P !! k) (count (sends_of k L)) (count (deliveries_of k L)).

Lemma key_drop row t n m : key_ok row t n m → key_ok row None n m.
Proof. destruct row; cbn; naive_solver. Qed.

(** What a statement without a token may do to a delivery *)
Definition quiet (row row' : option delivery_row) : Prop :=
  match row, row' with
  | Some r, Some r' => r' = r ∨ final (dl_status r') ∧ dl_attempts r' = dl_attempts r
  | None, None => True
  | None, Some r' => dl_status r' = DeliveryPending ∧ dl_attempts r' = 0
  | Some _, None => False
  end.
Lemma key_quiet row row' t n m : 0 < max → quiet row row' → key_ok row t n m → key_ok row' t n m.
Proof.
  intros Hmax. destruct row as [r|], row' as [r'|]; cbn; try done.
  - intros [->|[Hf Ha]]; [done |]. rewrite Ha. intros (? & ? & ? & Hp & Ht). split_and!; try done; try lia.
    intros E. by rewrite E in Hf.
  - intros [_ Ha]. rewrite Ha. intros (-> & -> & ->). split_and!; try done; lia.
Qed.

(** Claiming, closing, putting off, handing back, sending *)
Lemma key_claim now r n m :
  dl_status r = DeliveryPending → ∀ t, key_ok (Some r) t n m →
  t = None ∧ key_ok (Some (claim_delivery now r)) (Some (Unsent (dl_attempts r + 1))) n m.
Proof. cbn. intros Hs t (? & ? & ? & Hp & _). destruct (Hp Hs) as (-> & -> & ?). split_and!; try done; lia. Qed.

Lemma key_close status reason now r t n m :
  final status → key_ok (Some r) t n m → key_ok (Some (close_row status reason now r)) None n m.
Proof. cbn. intros Hf (? & ? & ? & _ & _). split_and!; try done; try lia. intros ->. done. Qed.

Lemma key_retry r r' t n m :
  key_ok (Some r) (Some t) n m → retryable t → tok_attempts t < max → dl_attempts r' = dl_attempts r →
  key_ok (Some r') None n m.
Proof.
  cbn. intros (? & ? & ? & _ & Ht) Hr Ha ->. assert (tok_attempts t = dl_attempts r ∧ m = 0) as [? ->].
  { destruct t as [a|a res]; cbn in *; [naive_solver |]. destruct Ht as [-> Ht]. split; [done |].
    apply Ht. by destruct (maybe_delivered res). }
  split_and!; try done; try lia; intros _; split_and!; [done.. | lia].
Qed.

Lemma key_release r r' a n m :
  key_ok (Some r) (Some (Unsent a)) n m → dl_attempts r' = dl_attempts r - 1 → key_ok (Some r') None n m.
Proof.
  cbn. intros (? & ? & ? & _ & -> & ? & ->) ->.
  split_and!; try done; try lia; intros _; split_and!; [done.. | lia].
Qed.

Lemma key_send row a res n m :
  key_ok row (Some (Unsent a)) n m →
  key_ok row (Some (Tried a res)) (n + 1) (m + if maybe_delivered res then 1 else 0).
Proof.
  destruct row as [r|]; cbn; [| naive_solver]. intros (? & ? & ? & Hp & -> & ? & ->).
  destruct (maybe_delivered res); split_and!; try done; try lia; intros E; by destruct (Hp E).
Qed.

#[local] Arguments key_ok : simpl never.

(** ** The tables keep the protocol *)
Lemma set_source_ok w d id ref now n d' :
  db_ok w d → set_source_row id ref now d = Ok (n, d') → db_ok w d' ∧ tables_le d d'.
Proof.
  intros Hd Hs. unfold set_source_row in Hs.
  destruct (b_campaigns d !! id) as [c|] eqn:Hc; [| injection Hs as <- <-; by apply same_ok].
  case_match; [| injection Hs as <- <-; by apply same_ok]. case_match; [done |]. injection Hs as <- <-.
  assert (moves d (<[id := c <|c_SourceRef := Some ref|> <|c_UpdatedAt := now|>]> (b_campaigns d))) as Hm.
  { intros i. destruct (decide (id = i)) as [<-|Hne]; [rewrite Hc, lookup_insert_eq | rewrite lookup_insert_ne by done].
    - split; [done | done | by left].
    - apply moves_refl. }
  split; [by apply moves_ok | by apply moves_le].
Qed.

Lemma sending_ok w d k f : db_ok w d → db_ok w (update_sending k f d) ∧ tables_le d (update_sending k f d).
Proof.
  intros Hd. destruct (update_sending_rows k f d) as (m & -> & Hm).
  split; [by apply rows_kept_ok | by apply rows_kept_le].
Qed.

Lemma where_ok w d p f :
  db_ok w d → (∀ k r, p k r = true → final (dl_status r) = false) →
  let d' := d <|b_deliveries := (update_where p f (b_deliveries d)).2|> in db_ok w d' ∧ tables_le d d'.
Proof.
  intros Hd Hp. pose proof (update_where_kept p f (b_deliveries d) Hp) as Hk.
  split; [by apply rows_kept_ok | by apply rows_kept_le].
Qed.

Lemma campaigns_where_ok w d p f :
  db_ok w d → (∀ c, p c = true → campaign_move d c (f c)) →
  let d' := d <|b_campaigns := (update_where (λ _, p) f (b_campaigns d)).2|> in db_ok w d' ∧ tables_le d d'.
Proof.
  intros Hd Hp. pose proof (update_where_moves p f d Hp) as Hm. split; [by apply moves_ok | by apply moves_le].
Qed.

Lemma not_final_pending r : dl_status r = DeliveryPending → final (dl_status r) = false.
Proof. by intros ->. Qed.
Lemma not_final_sending r : dl_status r = DeliverySending → final (dl_status r) = false.
Proof. by intros ->. Qed.

Lemma db_call A (c : bcall A) w T d now locked a d' :
  db_ok w d → call_pre w T c → bcall_op now locked c d = Ok (a, d') →
  db_ok (committed c a w) d' ∧ tables_le d d'.
Proof.
  intros Hd Hpre Hop. destruct c; cbn in Hop, Hpre |- *;
    try (cbv beta delta [reading GetBroadcastCampaign ListBroadcastCampaigns BroadcastDeliveryCounts select_users
           select_prefs select_clients] in Hop; repeat (injection Hop as <- <- || case_match); simplify_eq; by apply same_ok).
  - unfold insert_manual in Hop. destruct (b_campaigns d !! c_ID c) eqn:Hc; [done |]. case_match; [| done].
    injection Hop as <- <-. split; [by apply insert_ok | by apply insert_le].
  - unfold insert_sourced in Hop. case_match; [| injection Hop as <- <-; by apply same_ok].
    destruct (b_campaigns d !! c_ID c) eqn:Hc; [injection Hop as <- <-; by apply same_ok |].
    case_match; [| done]. injection Hop as <- <-. split; [by apply insert_ok | by apply insert_le].
  - by eapply approve_ok.
  - unfold expire_row in Hop. injection Hop as <- <-. destruct (update_campaign _ _ _ _) as [n d2] eqn:Hu.
    eapply update_ok; [done | exact Hu |]. intros c Hc. by apply expired_move; rewrite Hc.
  - unfold cancel_row in Hop. destruct (update_campaign _ _ _ _) as [n d2] eqn:Hu. case_match; [done |].
    injection Hop as <- <-. eapply update_ok; [done | exact Hu |]. intros c Hc. by apply cancel_move; rewrite Hc.
  - injection Hop as <- <-. apply (campaigns_where_ok w d (lapsed now0)); [done |]. intros c Hc.
    unfold lapsed in Hc. bool_to_Prop. apply expired_move. by apply Is_true_true.
  - by eapply set_source_ok.
  - destruct a, Hpre as (limit & Hl & Hn). by eapply start_keeps.
  - unfold EndBroadcastCampaign in Hop. case_match eqn:Hto; [done |].
    destruct (update_campaign _ _ _ _) as [n d2] eqn:Hu. case_match; [| done]. injection Hop as <- <-.
    eapply update_ok; [done | exact Hu |]. intros c Hc. eapply ended_move; [by rewrite Hc |]. left. split; [done |].
    destruct to; cbn in Hto; auto; done.
  - unfold HaltBroadcastCampaign in Hop. destruct (update_campaign _ _ _ _) as [n d2] eqn:Hu.
    case_match; [| done]. injection Hop as <- <-. eapply update_ok; [done | exact Hu |].
    intros c Hc. eapply ended_move; [by rewrite Hc | by right].
  - destruct (claim_rows _ _ _ _ _ _ Hop) as (rows & m & Hcl & -> & _). pose proof (claimed_kept _ _ _ _ Hcl) as Hk.
    split; [by apply rows_kept_ok | by apply rows_kept_le].
  - unfold FinishBroadcastDelivery in Hop. case_match; [| done]. injection Hop as <- <-. by apply sending_ok.
  - injection Hop as <- <-. by apply sending_ok.
  - injection Hop as <- <-. by apply sending_ok.
  - injection Hop as <- <-. apply where_ok; [done |]. intros k r Hp. unfold stale in Hp. bool_to_Prop.
    by apply not_final_sending.
  - injection Hop as <- <-. apply (where_ok w d (λ k r, _) _ Hd). intros k r Hp. bool_to_Prop.
    by apply not_final_pending.
  - injection Hop as <- <-. apply (campaigns_where_ok w d (completes d)); [done |]. intros c Hc.
    by apply complete_move; rewrite Hc.
Qed.

(** A statement that neither gives nor takes a token *)
Definition plain {A : Type} (c : bcall A) : bool :=
  match c with CClaim _ _ | CFinish _ _ _ _ _ | CRetry _ _ _ _ | CRelease _ _ => false | _ => true end.

Lemma quiet_refl row : quiet row row.
Proof. destruct row; cbn; auto. Qed.

Lemma quiet_where (p : string * Z → delivery_row → bool) (status : DeliveryStatus) (reason : string) (now : time)
    (m : gmap (string * Z) delivery_row) (k : string * Z) :
  final status → quiet (m !! k) ((update_where p (close_row status reason now) m).2 !! k).
Proof.
  intros Hf. unfold update_where; cbn. rewrite map_lookup_imap. destruct (m !! k) as [r|]; cbn; [| done].
  destruct (p k r); [right | left]; by cbn.
Qed.

Lemma quiet_campaigns d m k : quiet (b_deliveries d !! k) (b_deliveries (d <|b_campaigns := m|>) !! k).
Proof. apply quiet_refl. Qed.

Lemma update_campaign_deliveries id p f d : b_deliveries (update_campaign id p f d).2 = b_deliveries d.
Proof. unfold update_campaign. destruct (b_campaigns d !! id); [case_match |]; done. Qed.

Lemma plain_quiet A (c : bcall A) d now locked a d' k :
  plain c → bcall_op now locked c d = Ok (a, d') → quiet (b_deliveries d !! k) (b_deliveries d' !! k).
Proof.
  intros Hp Hop. destruct c; try done;
    cbv beta delta [bcall_op reading insert_manual insert_sourced GetBroadcastCampaign ListBroadcastCampaigns
      approve_row expire_row cancel_row set_source_row EndBroadcastCampaign HaltBroadcastCampaign
      BroadcastDeliveryCounts select_users select_prefs select_clients] in Hop; cbv iota beta in Hop;
    try (match type of Hop with context [update_campaign ?i ?p ?f ?d] =>
           pose proof (update_campaign_deliveries i p f d) as Hu; destruct (update_campaign i p f d) as [n d2];
           cbn in Hop, Hu end);
    try (repeat (injection Hop as <- <- || case_match); simplify_eq; rewrite ?Hu; apply quiet_refl).
  - unfold StartBroadcastCampaign in Hop.
    match type of Hop with context [update_campaign ?i ?p ?f ?d] =>
      pose proof (update_campaign_deliveries i p f d) as Hu; destruct (update_campaign i p f d) as [n d2] end.
    cbn in Hu. case_match; [done |]. case_match; [| done]. injection Hop as <- <-. cbn. rewrite Hu.
    destruct (lookup_queue id now0 recipients (b_deliveries d) k) as [->|(-> & _ & r & _ & ->)]; [apply quiet_refl | done].
  - injection Hop as <- <-. by apply quiet_where.
  - injection Hop as <- <-. apply (quiet_where (λ k r, _) DeliverySkipped). done.
Qed.

Lemma keys_drop (m : gmap (string * Z) delivery_row) (P : purse) L (k : string * Z) : keys_ok m P L → keys_ok m (delete k P) L.
Proof.
  intros Hk k'. destruct (decide (k = k')) as [<-|Hne].
  - rewrite lookup_delete_eq. eapply key_drop, Hk.
  - by rewrite lookup_delete_ne.
Qed.

(** A program other than [i] has what it had, and the new tokens are of [i]. *)
Definition others_kept (i : nat) (P P' : purse) : Prop :=
  (∀ j, j ≠ i → held j P' = held j P) ∧ (∀ k jt, P' !! k = Some jt → P !! k = Some jt ∨ jt.1 = i).

Lemma others_refl (i : nat) (P : purse) : others_kept i P P.
Proof. split; auto. Qed.

Lemma others_delete (i : nat) (P : purse) (k : string * Z) (t : tok) : P !! k = Some (i, t) → others_kept i P (delete k P).
Proof.
  intros Hk. split; [intros j Hj; by rewrite (held_delete i P k t Hk), decide_False |].
  intros k' jt [_ H]%lookup_delete_Some. by left.
Qed.

(** Closing, putting off and handing back give up the token, whatever the answer. *)
Definition spends {A : Type} (c : bcall A) : option (string * Z) :=
  match c with
  | CFinish id u _ _ _ | CRetry id u _ _ | CRelease id u => Some (id, u)
  | _ => None
  end.

Lemma spend_post A (c : bcall A) (w : world) (T : tokens) (r : result bc_error A) (k : string * Z) : spends c = Some k → call_post w T c r (delete k T).
Proof. destruct c; cbn; try done; by intros [= <-]. Qed.
Lemma spend_pre A (c : bcall A) (w : world) (T : tokens) (k : string * Z) : spends c = Some k → call_pre w T c → is_Some (T !! k).
Proof. destruct c; cbn; try done; intros [= <-]; naive_solver. Qed.

Lemma spend_keys A (c : bcall A) (w : world) (T : tokens) (d : bdb) (P : purse) (L : list send) (i : nat)
    (now : time) locked (a : A) d' (k : string * Z) :
  spends c = Some k → T = held i P → call_pre w T c → bcall_op now locked c d = Ok (a, d') →
  keys_ok (b_deliveries d) P L → keys_ok (b_deliveries d') (delete k P) L.
Proof.
  intros Hs -> Hpre Hop Hk k'. destruct (decide (k' = k)) as [->|Hne].
  2:{ rewrite lookup_delete_ne by done. specialize (Hk k').
      destruct c; try done; cbn in Hs; injection Hs as <-; cbn in Hop; [unfold FinishBroadcastDelivery in Hop;
        case_match; [| done] | |]; injection Hop as <- <-; cbn; rewrite lookup_update_sending;
        rewrite (bool_decide_false (k' = _)) by done; by destruct (b_deliveries d !! k'). }
  rewrite lookup_delete_eq. cbn. specialize (Hk k).
  destruct c; try done; cbn in Hs; injection Hs as <-; cbn in Hop, Hpre.
  - unfold FinishBroadcastDelivery in Hop. case_match eqn:Hf; [| done]. injection Hop as <- <-. cbn.
    rewrite lookup_update_sending, (bool_decide_true _ eq_refl). destruct (b_deliveries d !! _) as [r|]; [| eapply key_drop, Hk].
    rewrite andb_true_l. case_bool_decide; [| eapply key_drop, Hk]. eapply key_close; [by rewrite Hf | exact Hk].
  - injection Hop as <- <-. destruct Hpre as (t & Ht & Hr & Ha). apply lookup_held in Ht. rewrite Ht in Hk. cbn in *.
    rewrite lookup_update_sending, (bool_decide_true _ eq_refl). destruct (b_deliveries d !! _) as [r|]; [| eapply key_drop, Hk].
    rewrite andb_true_l. case_bool_decide; [| eapply key_drop, Hk]. eapply key_retry; [exact Hk | done..].
  - injection Hop as <- <-. destruct Hpre as (a0 & Ht). apply lookup_held in Ht. rewrite Ht in Hk. cbn in *.
    rewrite lookup_update_sending, (bool_decide_true _ eq_refl). destruct (b_deliveries d !! _) as [r|]; [| eapply key_drop, Hk].
    rewrite andb_true_l. case_bool_decide; [| eapply key_drop, Hk]. eapply key_release; [exact Hk | done].
Qed.

(** ** Answers *)
Lemma plain_post A (c : bcall A) (w : world) (T : tokens) (d : bdb) (now : time) locked (a : A) (d' : bdb) :
  plain c → db_ok w d → bcall_op now locked c d = Ok (a, d') → call_post (committed c a w) T c (Ok a) T.
Proof.
  intros Hp Hd Hop. destruct c; try done; cbn in Hop |- *.
  - unfold GetBroadcastCampaign in Hop. destruct (b_campaigns d !! id) as [c|] eqn:Hc; [| done].
    injection Hop as <- <-. split; [done |]. intros c0 [= <-].
    pose proof (ok_campaign _ _ Hd _ _ Hc) as [Hid _ _ Ha]. split; [done |]. auto.
  - unfold ListBroadcastCampaigns in Hop. injection Hop as <- <-. split; [done |]. intros l c0 [= <-].
    intros (i & Hc0%list_elem_of_lookup_2 & _)%elem_of_take. rewrite merge_sort_Permutation in Hc0.
    apply list_elem_of_filter in Hc0 as [_ Hc0]. apply elem_of_map in Hc0 as ([id c1] & -> & Hc0).
    apply elem_of_map_to_list in Hc0. pose proof (ok_campaign _ _ Hd _ _ Hc0) as [Hid Hcr _ _]. cbn. by rewrite Hid.
Qed.

Lemma error_outcome A (c : bcall A) (w : world) (T : tokens) (e : bc_error) :
  call_post w T c (Err e) (match spends c with Some k => delete k T | None => T end).
Proof. destruct c; cbn; try done; naive_solver. Qed.

(** A claim gives its program the tokens of the rows it took. *)
Lemma claim_keys (now : time) (d : bdb) (rows : list (string * Z * delivery_row)) (m : gmap (string * Z) delivery_row) (P : purse) L (i : nat) :
  claimed now d rows m → keys_ok (b_deliveries d) P L →
  let C := claim_tokens (map (λ kr, claimed_of (kr.1, claim_delivery now kr.2)) rows) in
  keys_ok m ((pair i <$> C) ∪ P) L ∧ keys_ok m P L ∧ (∀ k t, C !! k = Some t → P !! k = None).
Proof.
  intros [Hnd Hdue Htk Hsame] Hk C.
  assert (∀ kr, bd_key (claimed_of (kr.1, claim_delivery now kr.2)) = kr.1) as Hkey by by intros [[] ?].
  assert (C = list_to_map (map (λ kr, (kr.1, Unsent (dl_attempts kr.2 + 1))) rows)) as HC.
  { unfold C, claim_tokens. rewrite map_map. f_equal. apply map_ext. intros kr. by rewrite Hkey. }
  assert (∀ k t, C !! k = Some t → ∃ r, (k, r) ∈ rows ∧ t = Unsent (dl_attempts r + 1)) as Hin.
  { intros k t Ht. rewrite HC in Ht. apply elem_of_list_to_map_2, elem_of_map in Ht as ([k' r] & [= -> ->] & Hr). eauto. }
  assert (∀ k r, (k, r) ∈ rows → C !! k = Some (Unsent (dl_attempts r + 1))) as Hget.
  { intros k r Hr. rewrite HC. apply elem_of_list_to_map.
    - change (NoDup (map fst (map (λ kr, (kr.1, Unsent (dl_attempts kr.2 + 1))) rows))). by rewrite map_map.
    - apply elem_of_map. by exists (k, r). }
  assert (∀ k r, (k, r) ∈ rows → snd <$> P !! k = None ∧
    key_ok (m !! k) (Some (Unsent (dl_attempts r + 1))) (count (sends_of k L)) (count (deliveries_of k L))) as Hclaim.
  { intros k r Hr. destruct (Hdue _ _ Hr) as [Hd Hp]. specialize (Hk k). rewrite Hd in Hk.
    destruct (key_claim now r _ _ Hp _ Hk) as [Hn Hk']. by rewrite (Htk _ _ Hr). }
  split_and!.
  - intros k. rewrite lookup_union, lookup_fmap. destruct (C !! k) as [t|] eqn:Ht; cbn.
    + destruct (Hin _ _ Ht) as (r & Hr & ->). destruct (Hclaim _ _ Hr) as [Hn Hk']. by destruct (P !! k).
    + rewrite (left_id_L None (∪)), Hsame; [apply Hk |].
      intros ([k' r] & -> & Hr)%elem_of_map. cbn in Ht. by rewrite (Hget _ _ Hr) in Ht.
  - intros k. destruct (C !! k) as [t|] eqn:Ht.
    + destruct (Hin _ _ Ht) as (r & Hr & ->). destruct (Hclaim _ _ Hr) as [Hn Hk']. rewrite Hn. eapply key_drop, Hk'.
    + rewrite Hsame; [apply Hk |]. intros ([k' r] & -> & Hr)%elem_of_map. cbn in Ht. by rewrite (Hget _ _ Hr) in Ht.
  - intros k t Ht. destruct (Hin _ _ Ht) as (r & Hr & _). destruct (Hclaim _ _ Hr) as [Hn _].
    by destruct (P !! k).
Qed.

Lemma others_claim (i : nat) (P : purse) (C : tokens) :
  (∀ k t, C !! k = Some t → P !! k = None) → others_kept i P ((pair i <$> C) ∪ P).
Proof.
  intros HC. split; [intros j Hj; by rewrite (held_claim i P C HC), decide_False |].
  intros k jt [Hk|[_ Hk]]%lookup_union_Some_raw; [| by left].
  rewrite lookup_fmap in Hk. apply fmap_Some in Hk as (t & _ & ->). by right.
Qed.

(** A statement that committed at a program, whether its answer arrived or not *)
Lemma call_commits A (c : bcall A) (w : world) (d : bdb) (P : purse) L (i : nat) (now : time) locked (a : A)
    (d' : bdb) (r : result bc_error A) :
  0 < max → db_ok w d → keys_ok (b_deliveries d) P L → call_pre w (held i P) c →
  bcall_op now locked c d = Ok (a, d') → r = Ok a ∨ (∃ e, r = Err e) →
  ∃ P' : purse, keys_ok (b_deliveries d') P' L ∧ call_post (committed c a w) (held i P) c r (held i P') ∧
    others_kept i P P'.
Proof.
  intros Hmax Hd Hk Hpre Hop Hr. destruct (spends c) as [k|] eqn:Hs.
  { destruct (spend_pre _ _ _ _ _ Hs Hpre) as [t Ht%lookup_held]. exists (delete k P). split_and!.
    - by eapply spend_keys.
    - rewrite (held_delete i P k t Ht), decide_True by done. by apply spend_post.
    - by eapply others_delete. }
  destruct (plain c) eqn:Hp.
  - exists P. split_and!; [| | apply others_refl].
    + intros k. eapply key_quiet; [done | | apply Hk]. eapply plain_quiet; [by rewrite Hp | exact Hop].
    + destruct Hr as [->|[e ->]]; [eapply plain_post; [by rewrite Hp | exact Hd | exact Hop] |].
      pose proof (error_outcome _ c (committed c a w) (held i P) e) as He. by rewrite Hs in He.
  - destruct c; try done. destruct (claim_rows _ _ _ _ _ _ Hop) as (rows & m & Hcl & -> & Ha). cbn in a. subst a.
    destruct (claim_keys _ _ _ _ _ _ i Hcl Hk) as (Hk1 & Hk2 & HC).
    destruct Hr as [->|[e ->]].
    + eexists. split_and!; [exact Hk1 | | by apply others_claim]. cbn. split.
      * rewrite map_map. destruct Hcl as [Hnd _ _ _]. erewrite map_ext; [exact Hnd |]. by intros [[] ?].
      * by rewrite (held_claim i P _ HC), decide_True.
    + exists P. split_and!; [done | done | apply others_refl].
Qed.

(** An error that changed nothing *)
Lemma call_fails A (c : bcall A) (w : world) (m : gmap (string * Z) delivery_row) (P : purse) L (i : nat)
    (e : bc_error) :
  keys_ok m P L → call_pre w (held i P) c →
  ∃ P' : purse, keys_ok m P' L ∧ call_post w (held i P) c (Err e) (held i P') ∧ others_kept i P P'.
Proof.
  intros Hk Hpre. pose proof (error_outcome _ c w (held i P) e) as He. destruct (spends c) as [k|] eqn:Hs.
  - destruct (spend_pre _ _ _ _ _ Hs Hpre) as [t Ht%lookup_held]. exists (delete k P). split_and!.
    + by apply keys_drop.
    + by rewrite (held_delete i P k t Ht), decide_True.
    + by eapply others_delete.
  - exists P. split_and!; [done.. | apply others_refl].
Qed.

(** A message *)
Lemma send_keys (m : gmap (string * Z) delivery_row) (P : purse) (L : list send) (i : nat) (a : Z) (x : send) :
  P !! bd_key (sd_delivery x) = Some (i, Unsent a) → keys_ok m P L →
  keys_ok m (<[bd_key (sd_delivery x) := (i, Tried a (sd_result x))]> P) (x :: L).
Proof.
  intros Hx Hk k. specialize (Hk k). unfold sends_of, deliveries_of in *.
  destruct (decide (bd_key (sd_delivery x) = k)) as [<-|Hne].
  - rewrite Hx in Hk. apply (key_send _ _ (sd_result x)) in Hk. rewrite lookup_insert_eq.
    unfold count, sends_of, deliveries_of in *. rewrite !filter_cons_True by done. cbn [length fmap option_fmap option_map snd].
    rewrite Nat2Z.inj_succ, <- Z.add_1_r, filter_cons. case_decide as Hm.
    + rewrite Hm in Hk. cbn [length]. by rewrite Nat2Z.inj_succ, <- Z.add_1_r.
    + apply not_true_is_false in Hm. by rewrite Hm, Z.add_0_r in Hk.
  - rewrite lookup_insert_ne by done. unfold sends_of, deliveries_of. by rewrite filter_cons_False.
Qed.
End ledger.
