(* ===== verification/BroadcastPass.v ===== *)
(** * A pass of the worker on its own

    What one pass does to the tables when no other program runs meanwhile:
    every delivery it claims is closed, put off or handed back, and what has no
    work left is completed.  (With other programs and lost answers the stale
    sweep of a later pass closes what a pass left in flight.) *)

From S2P Require Import Prelude GoString Program OAuthStore Notifications Json BroadcastPolicy BroadcastStore ProductUpdates Broadcast BroadcastWorker BroadcastProps BroadcastLedger.

Section alone.
Context `{UnicodeTables}.

(** The clock, the limiter and the Bot API answer anything. *)
#[global] Instance broadcast_machine : Machine bc_error bcall bquery time bdb := {
  m_op _ now c d := bcall_op now ∅ c d;
  m_answer _ _ _ := True;
}.

(** ** Deliveries in flight *)
Definition in_flight (d : bdb) (k : string * Z) : Prop :=
  ∃ r, b_deliveries d !! k = Some r ∧ dl_status r = DeliverySending.
Definition ids_ok (d : bdb) : Prop := ∀ id c, b_campaigns d !! id = Some c → c_ID c = id.
Record shrinks (d d' : bdb) : Prop := {
  sh_flight k : in_flight d' k → in_flight d k;
  sh_ids : ids_ok d → ids_ok d';
}.
Definition settled (d d' : bdb) (k : string * Z) : Prop := shrinks d d' ∧ ¬ in_flight d' k.
#[local] Instance shrinks_preorder : PreOrder shrinks.
Proof. split; [by split | intros d1 d2 d3 [] []; split; auto]. Qed.

Lemma ids_update id p f d : (∀ c, c_ID (f c) = c_ID c) → ids_ok d → ids_ok (update_campaign id p f d).2.
Proof.
  intros Hf Hd. unfold update_campaign. destruct (b_campaigns d !! id) as [c|] eqn:Hc; [| done]. case_match; [| done].
  intros id' c'. cbn. intros [[<- <-]|[_ Hc']]%lookup_insert_Some; [rewrite Hf; auto | auto].
Qed.
Lemma ids_where p f d :
  (∀ c, c_ID (f c) = c_ID c) → ids_ok d → ids_ok (d <|b_campaigns := (update_where p f (b_campaigns d)).2|>).
Proof.
  intros Hf Hd id c. cbn. rewrite map_lookup_imap. destruct (b_campaigns d !! id) as [c0|] eqn:Hc; [| done]. cbn.
  intros [= <-]. case_match; [rewrite Hf |]; auto.
Qed.
Lemma ids_put c d : ids_ok d → ids_ok (put_campaign c d).
Proof.
  intros Hd id c'. cbn. intros [[<- <-]|[_ Hc']]%lookup_insert_Some; [done | auto].
Qed.
Lemma ids_sending k f d : ids_ok d → ids_ok (update_sending k f d).
Proof. intros Hd. unfold update_sending. by repeat case_match. Qed.

Lemma op_ids A (c : bcall A) now locked d a d' : bcall_op now locked c d = Ok (a, d') → ids_ok d → ids_ok d'.
Proof.
  intros Hop Hd. destruct c;
    cbv beta delta [bcall_op reading insert_manual insert_sourced GetBroadcastCampaign ListBroadcastCampaigns
      approve_row expire_row cancel_row EndBroadcastCampaign HaltBroadcastCampaign StartBroadcastCampaign
      FinishBroadcastDelivery BroadcastDeliveryCounts select_users select_prefs select_clients] in Hop;
    cbv iota beta in Hop;
    try (match type of Hop with context [update_campaign ?i ?p ?f ?d] =>
           pose proof (ids_update i p f d (λ _, eq_refl) Hd) as Hu; destruct (update_campaign i p f d) as [n d2];
           cbn in Hop, Hu end);
    try (repeat (injection Hop as <- <- || case_match); simplify_eq; by auto using ids_put).
  - injection Hop as _ <-. by apply ids_where.
  - unfold set_source_row in Hop. destruct (b_campaigns d !! id) as [c|] eqn:Hc; [| by simplify_eq].
    repeat case_match; simplify_eq; [| done]. intros id' c'. cbn.
    intros [[<- <-]|[_ Hc']]%lookup_insert_Some; [by apply (Hd _ _ Hc) | auto].
  - case_match; [| done]. injection Hop as <- <-. by apply ids_sending.
  - injection Hop as <- <-. by apply ids_sending.
  - injection Hop as <- <-. by apply ids_sending.
  - injection Hop as _ <-. by apply ids_where.
Qed.

Lemma plain_shrinks A (c : bcall A) now d a d' : plain c → bcall_op now ∅ c d = Ok (a, d') → shrinks d d'.
Proof.
  intros Hp Hop. split; [| by eapply op_ids]. intros k (r' & Hr' & Hs). pose proof (plain_quiet _ c d now ∅ a d' k Hp Hop) as Hq. rewrite Hr' in Hq.
  destruct (b_deliveries d !! k) as [r|] eqn:Hr; cbn in Hq.
  - destruct Hq as [->|[Hf _]]; [by exists r |]. by rewrite Hs in Hf.
  - destruct Hq as [Hq _]. congruence.
Qed.
Lemma close_settled A (c : bcall A) now d a d' k : spends c = Some k → bcall_op now ∅ c d = Ok (a, d') → settled d d' k.
Proof.
  intros Hs Hop. pose proof (op_ids _ _ _ _ _ _ _ Hop) as Hids.
  assert (∃ f, (∀ r, dl_status r = DeliverySending → dl_status (f r) ≠ DeliverySending) ∧ d' = update_sending k f d) as (f & Hf & ->).
  { destruct c; try done; cbn in Hs; injection Hs as <-; cbn in Hop;
      [unfold FinishBroadcastDelivery in Hop; case_match eqn:Hst; [| done] | |]; injection Hop as <- <-;
      eexists; (split; [| done]); intros r _; cbn; try done. by intros ->. }
  split; [split; [| done] |].
  - intros k' (r' & Hr' & Hst). rewrite lookup_update_sending in Hr'.
    destruct (b_deliveries d !! k') as [r|] eqn:Hr; [| done]. cbn in Hr'. case_match eqn:Hb.
    + bool_to_Prop. exists r. split; [done |]. done.
    + injection Hr' as <-. by exists r.
  - intros (r' & Hr' & Hst). rewrite lookup_update_sending, (bool_decide_true _ eq_refl) in Hr'.
    destruct (b_deliveries d !! k) as [r|]; [| done]. cbn in Hr'. case_bool_decide as Hb; injection Hr' as <-; [| done].
    by apply (Hf r Hb).
Qed.

(** ** Programs that claim nothing *)
Fixpoint plain_prog {R} (p : prog R) : Prop :=
  match p with
  | Ret _ | Exit => True
  | Call c k => plain c ∧ ∀ x, plain_prog (k x)
  | Query q k => ∀ x, plain_prog (k x)
  end.
Lemma plain_bind {R S} (p : prog R) (f : R → prog S) : plain_prog p → (∀ r, plain_prog (f r)) → plain_prog (bind p f).
Proof. induction p; cbn; naive_solver. Qed.
Lemma plain_ok {A B} (p : handler A) (f : A → handler B) :
  plain_prog p → (∀ r, plain_prog (f r)) → plain_prog (bind_ok p f).
Proof. intros Hp Hf. apply plain_bind; [done |]. by intros [a|e]. Qed.
Lemma plain_alone {R} (p : prog R) d : plain_prog p → alone p d (λ _ d', shrinks d d').
Proof.
  revert d. induction p as [r|A c k IH|A q k IH|]; intros d; cbn -[bcall_op]; [done | | auto | done].
  intros [Hc Hk] now. destruct (bcall_op now ∅ c d) as [[a d']|e] eqn:Hop; [| by apply IH].
  eapply alone_mono; [| by apply IH]. cbv beta. intros r d2 Hd2. by etrans; [eapply plain_shrinks |].
Qed.

(** ** Programs that settle a delivery *)
Definition settles (k : string * Z) {R} (p : prog R) : Prop := ∀ d, alone p d (λ _ d', settled d d' k).

Lemma plain_then k {R S} (p : prog R) (f : R → prog S) :
  plain_prog p → (∀ r, settles k (f r)) → settles k (bind p f).
Proof.
  intros Hp Hf d. apply alone_bind. eapply alone_mono; [| by apply plain_alone]. cbv beta. intros r d1 H1.
  eapply alone_mono; [| apply Hf]. intros r' d2 [H2 Hk]. split; [by etrans | done].
Qed.
Lemma then_plain k {R S} (p : prog R) (f : R → prog S) :
  settles k p → (∀ r, plain_prog (f r)) → settles k (bind p f).
Proof.
  intros Hp Hf d. apply alone_bind. eapply alone_mono; [| apply Hp]. intros r d1 [H1 Hk].
  eapply alone_mono; [| by apply plain_alone]. cbv beta. intros r' d2 H2. split; [by etrans | by intros ?%(sh_flight _ _ H2)].
Qed.
Lemma close_leaves {A} (c : bcall A) k :
  spends c = Some k → (∀ now d, ∃ x, bcall_op now ∅ c d = Ok x) → settles k (invoke c).
Proof.
  intros Hc Hok d now. destruct (Hok now d) as [[a d'] Hop]. cbn [m_op broadcast_machine]. rewrite Hop. by eapply close_settled.
Qed.
Lemma query_settles k {A R} (q : bquery A) (f : A → prog R) : (∀ x, settles k (f x)) → settles k (bind (ask q) f).
Proof. intros Hf. by apply plain_then. Qed.

Section worker.
Context (cfg : WorkerConfig).

Lemma finish_row_settles d status reason now :
  final status → settles (bd_key d) (invoke (CFinish (bd_CampaignID d) (bd_UserID d) status reason now)).
Proof.
  intros Hf. apply close_leaves; [done |]. intros t db. cbn. unfold FinishBroadcastDelivery.
  apply Is_true_true in Hf. rewrite Hf. by eexists.
Qed.
Lemma retry_leaves d after now : settles (bd_key d) (retry cfg d after now).
Proof.
  unfold retry. case_match; [by apply finish_row_settles |]. apply close_leaves; [done |]. intros. by eexists.
Qed.
Lemma finish_leaves d status reason : final status → settles (bd_key d) (finish d status reason).
Proof. intros Hf. apply query_settles. intros now. by apply finish_row_settles. Qed.
Lemma release_settles d : settles (bd_key d) (release [d]).
Proof. apply then_plain; [| done]. apply close_leaves; [done |]. intros. by eexists. Qed.
Lemma preSend_leaves A d e : settles (bd_key d) (preSend (A:=A) d e).
Proof. apply then_plain; [apply release_settles | done]. Qed.
Lemma storeFault_leaves A d e : settles (bd_key d) (storeFault (A:=A) cfg d e).
Proof. apply query_settles. intros now. apply then_plain; [apply retry_leaves | done]. Qed.
Lemma fault_leaves d e :
  settles (bd_key d) (let* cancelled := ask QCancelled in
    if cancelled : bool then preSend (A:=unit) d e else storeFault cfg d e)%prog.
Proof. apply query_settles. intros [|]; [apply preSend_leaves | apply storeFault_leaves]. Qed.

Lemma record_leaves d r : settles (bd_key d) (record cfg d r).
Proof.
  apply query_settles. intros now. destruct r as [[]|[e| |what]].
  - apply plain_then; [done |]. intros _. by apply finish_row_settles.
  - cbv zeta. case_match; [apply plain_then; [done |]; intros _; by apply finish_row_settles |].
    case_match; [apply retry_leaves | by apply finish_row_settles].
  - apply retry_leaves.
  - by apply finish_row_settles.
Qed.

Lemma send_slot_leaves d at_ k : settles (bd_key d) k → settles (bd_key d) (send_slot cfg d at_ k).
Proof.
  intros Hk. apply plain_then; [done |]. intros [|]; [apply preSend_leaves |]. apply query_settles.
  intros [[]|e]; [| apply preSend_leaves]. apply plain_then; [done |]. intros [|]; [apply preSend_leaves | done].
Qed.
Lemma facts_plain now u : plain_prog (broadcastFacts now u).
Proof.
  apply plain_ok; [done |]. intros fs. case_match; [done |]. apply plain_ok; [done |]. intros ps. by apply plain_ok.
Qed.
Lemma recipient_plain u now : plain_prog (GetBroadcastRecipientFacts u now).
Proof. unfold GetBroadcastRecipientFacts. case_match; [done |]. by apply plain_ok; [apply facts_plain |]. Qed.
Lemma open_recipient_leaves d sel k :
  (∀ f, settles (bd_key d) (k f)) → settles (bd_key d) (open_recipient cfg d sel k).
Proof.
  intros Hk. apply query_settles. intros now. apply plain_then; [apply recipient_plain |].
  intros [[f|]|e]; [| by apply finish_leaves | apply fault_leaves]. apply query_settles. intros te.
  cbv zeta. case_match; [by apply finish_leaves | apply Hk].
Qed.
Lemma open_campaign_leaves d k :
  (∀ c sel, settles (bd_key d) (k c sel)) → settles (bd_key d) (open_campaign cfg d k).
Proof.
  intros Hk. apply plain_then; [done |]. intros [c|e]; [| apply fault_leaves].
  case_match; [by apply finish_leaves |]. case_match; [apply Hk |]. apply query_settles. intros now.
  apply plain_then; [done |]. intros [[]|e']; [by apply finish_leaves |].
  destruct e'; try apply storeFault_leaves; by apply finish_leaves.
Qed.
Lemma deliver_leaves d at_ : settles (bd_key d) (deliver cfg d at_).
Proof.
  apply open_campaign_leaves. intros c sel. apply open_recipient_leaves. intros f. apply send_slot_leaves.
  apply query_settles. intros sent. apply record_leaves.
Qed.

(** ** The batch *)
Definition settles_all (l : list BroadcastDelivery) {R} (p : prog R) : Prop :=
  ∀ d, alone p d (λ _ d', shrinks d d' ∧ ∀ x, x ∈ l → ¬ in_flight d' (bd_key x)).

Lemma settles_cons d l {R S} (p : prog R) (f : R → prog S) :
  settles (bd_key d) p → (∀ r, settles_all l (f r)) → settles_all (d :: l) (bind p f).
Proof.
  intros Hp Hf db. apply alone_bind. eapply alone_mono; [| apply Hp]. intros r d1 [H1 Hd].
  eapply alone_mono; [| apply Hf]. intros r' d2 [H2 Hl]. split; [by etrans |].
  intros x [->|Hx]%elem_of_cons; [by intros ?%(sh_flight _ _ H2) | auto].
Qed.
Lemma release_all l : settles_all l (release l).
Proof.
  induction l as [|d l IH]; [intros db; by split; [| intros x ?%elem_of_nil] |].
  apply settles_cons; [| intros _; exact IH]. apply close_leaves; [done |]. intros. by eexists.
Qed.
Lemma batch_settles at_ l : settles_all l (deliver_batch cfg at_ l).
Proof.
  induction l as [|d l IH]; [intros db; by split; [| intros x ?%elem_of_nil] |].
  apply settles_cons; [apply deliver_leaves |]. intros [[]|e]; [exact IH |].
  intros db. apply alone_bind. eapply alone_mono; [| apply release_all]. cbv beta. intros _ d1 Hd1. by destruct e.
Qed.

(** ** The pass *)
Lemma startApproved_plain now : plain_prog (startApproved cfg now).
Proof.
  unfold startApproved. apply plain_ok; [done |]. intros l. case_match; [done |].
  apply plain_ok; [apply facts_plain |]. intros facts. clear. induction l as [|c l IH]; [done |]. cbn [start_all].
  apply plain_ok; [| intros _; exact IH]. unfold startOne. destruct (campaignSelector c); [| done].
  destruct (Resolve _ _ _ _). by repeat case_match.
Qed.

(** What is in flight after a claim was before, or was claimed. *)
Lemma claim_in_flight limit now t d ds d' k :
  bcall_op t ∅ (CClaim limit now) d = Ok (ds, d') → in_flight d' k → in_flight d k ∨ ∃ x, x ∈ ds ∧ k = bd_key x.
Proof.
  cbn. unfold ClaimBroadcastDeliveries. set (rows := take _ _). intros [= <- <-] (r & Hr & Hs). cbn in Hr.
  apply lookup_union_Some_raw in Hr as [Hr|[_ Hr]]; [right | left; by exists r].
  apply elem_of_list_to_map_2, list_elem_of_fmap in Hr as ([k' r'] & [= -> ->] & Hin).
  eexists. split; [apply elem_of_map; eexists; split; [reflexivity |];
    apply elem_of_map; eexists; split; [reflexivity | exact Hin] | by destruct k' as [??]].
Qed.

(** A sending campaign that is left after the last statement has work left. *)
Lemma complete_unfinished now t d ids d' id c :
  (∀ id c, b_campaigns d !! id = Some c → c_ID c = id) →
  bcall_op t ∅ (CComplete now) d = Ok (ids, d') → b_campaigns d' !! id = Some c → c_State c = CampaignSending →
  b_deliveries d' = b_deliveries d ∧ ∃ k r, b_deliveries d !! k = Some r ∧ k.1 = id ∧ ¬ final (dl_status r).
Proof.
  intros Hids. cbn. intros [= _ <-]. cbn. unfold update_where. cbn. rewrite map_lookup_imap.
  destruct (b_campaigns d !! id) as [c0|] eqn:Hc; [| done]. cbn. intros [= <-] Hst. split; [done |].
  destruct (completes d c0) eqn:Hcomp; [done |]. unfold completes, in_state in Hcomp.
  rewrite (bool_decide_true _ Hst) in Hcomp. cbn in Hcomp. apply negb_false_iff in Hcomp. unfold unfinished in Hcomp.
  apply existsb_exists in Hcomp as ([k r] & Hin%list_elem_of_In%elem_of_map_to_list & Hk). bool_to_Prop.
  exists k, r. split; [done |]. cbn in *. rewrite (Hids _ _ Hc) in *. split; [done |]. intros Hf. apply Is_true_true in Hf. congruence.
Qed.

(** What is left after a pass *)
Definition pass_done (d : bdb) (r : result bc_error (list string)) (d' : bdb) : Prop :=
  shrinks d d' ∧
  ((∃ ids, r = Ok ids) → ∀ id c, b_campaigns d' !! id = Some c → c_State c = CampaignSending →
     ∃ k row, b_deliveries d' !! k = Some row ∧ k.1 = id ∧
       (dl_status row = DeliveryPending ∨ dl_status row = DeliverySending ∧ in_flight d k)).
Lemma pass_failed d e d' : shrinks d d' → pass_done d (Err e) d'.
Proof. split; [done |]. by intros [? [=]]. Qed.
Lemma pass_alone d : ids_ok d → alone (Tick cfg) d (pass_done d).
Proof.
  intros Hids.
  assert (∀ {A} (p : handler A) f d0, plain_prog p → shrinks d d0 →
    (∀ d1 a, shrinks d d1 → alone (f a) d1 (pass_done d)) → alone (bind_ok p f) d0 (pass_done d)) as Hstep.
  { intros A p f d0 Hp H0 Hf. apply alone_bind. eapply alone_mono; [| by apply plain_alone]. cbv beta.
    intros [a|e] d1 H1; [apply Hf; by etrans |]. apply pass_failed. by etrans. }
  unfold Tick. intros now _. apply Hstep; [by split | done |]. intros d1 _ H1. apply Hstep; [by split | done |].
  intros d2 _ H2. apply Hstep; [apply startApproved_plain | done |]. intros d3 _ H3.
  apply Hstep; [by split | done |]. intros d4 _ H4 claimAt _ t. cbn [m_op broadcast_machine].
  destruct (bcall_op t ∅ (CClaim (wc_BatchSize cfg) claimAt) d4) as [[ds d5]|e] eqn:Hclaim; [| by apply pass_failed].
  cbn [bind]. apply alone_bind. eapply alone_mono; [| apply batch_settles]. cbv beta. intros r d6 [H6 Hds].
  assert (shrinks d d6) as Hshrink.
  { split; [| intros _; apply H6; by eapply op_ids; [| apply H4]]. intros k Hk. pose proof (sh_flight _ _ H6 _ Hk) as Hk5.
    destruct (claim_in_flight _ _ _ _ _ _ _ Hclaim Hk5) as [Hk4|(x & Hx & ->)]; [by apply H4 |].
    by destruct (Hds x Hx). }
  destruct r as [[]|e]; [| by apply pass_failed]. intros now' _ t'. cbn [m_op broadcast_machine].
  destruct (bcall_op t' ∅ (CComplete now') d6) as [[ids d7]|e] eqn:Hc; [| by apply pass_failed].
  pose proof (plain_shrinks _ (CComplete now') t' d6 ids d7 I Hc) as H7.
  split; [by etrans |]. intros _ id c Hid Hst.
  destruct (complete_unfinished _ _ _ _ _ _ _ (sh_ids _ _ Hshrink Hids) Hc Hid Hst) as (Hd & k & row & Hrow & Hk & Hf).
  exists k, row. rewrite Hd. split_and!; [done.. |].
  destruct (dl_status row) eqn:Hs; try (by destruct Hf); [by left | right]. split; [done |].
  apply Hshrink. by exists row.
Qed.
End worker.
End alone.
