(* ===== verification/AudienceProps.v ===== *)
(** * The audience and the preferences page agree

    What the worker reads about a recipient is what the preference and
    reachability tables hold, so the broadcast policy and the page on which a
    client manages notifications never disagree, defaults included. *)

From S2P Require Import Prelude GoString Program OAuthStore Notifications Json BroadcastPolicy BroadcastStore ProductUpdates Broadcast BroadcastLedger BroadcastPass.

Section audience.
Context `{UnicodeTables}.

(** ** The scan loops *)
Definition set_pref (u : Z) (m : gmap string string) (row : Z * string * string) : gmap string string :=
  if u =? row.1.1 then <[row.1.2 := row.2]> m else m.

(** The columns the scan loops do not touch *)
Definition same_user (f f' : BroadcastRecipientFacts) : Prop :=
  bf_UserID f' = bf_UserID f ∧ bf_TelegramID f' = bf_TelegramID f ∧ bf_AccessTier f' = bf_AccessTier f ∧
  bf_IdentityCapturedAt f' = bf_IdentityCapturedAt f ∧ bf_LastSeenAt f' = bf_LastSeenAt f ∧
  bf_Reachability f' = bf_Reachability f.

Lemma add_prefs_inv rows fs f' :
  f' ∈ foldl add_pref fs rows →
  ∃ f, f ∈ fs ∧ same_user f f' ∧ bf_ConnectedVia f' = bf_ConnectedVia f ∧
       bf_Prefs f' = foldl (set_pref (bf_UserID f)) (bf_Prefs f) rows.
Proof.
  revert fs. induction rows as [|[[u c] st] rows IH]; intros fs; cbn [foldl]; [intros Hf; by exists f' |].
  intros (f1 & (f & -> & Hf)%elem_of_map & (H1 & H2 & H3 & H4 & H5 & H6) & Hc & Hp)%IH. exists f. split; [done |].
  unfold same_user, set_pref. cbn [fst snd]. destruct (bf_UserID f =? u); cbn in *; by split_and!.
Qed.
Lemma add_clients_inv rows fs f' :
  f' ∈ foldl add_client fs rows → ∃ f, f ∈ fs ∧ same_user f f' ∧ bf_Prefs f' = bf_Prefs f.
Proof.
  revert fs. induction rows as [|row rows IH]; intros fs; cbn [foldl]; [intros Hf; by exists f' |].
  intros (f1 & (f & -> & Hf)%elem_of_map & (H1 & H2 & H3 & H4 & H5 & H6) & Hp)%IH. exists f. split; [done |].
  unfold same_user. destruct (bf_UserID f =? row.1); cbn in *; by split_and!.
Qed.

Lemma set_prefs_lookup u rows m c :
  NoDup (map fst rows) →
  foldl (set_pref u) m rows !! c =
  match list_find (λ r, r.1 = (u, c)) rows with Some (_, r) => Some r.2 | None => m !! c end.
Proof.
  intros Hnd. revert m. induction rows as [|[[u' c'] st] rows IH]; intros m; [done |]. cbn [map] in Hnd.
  apply NoDup_cons in Hnd as [Hx Hnd]. cbn [foldl list_find]. rewrite IH by done. cbn [fst].
  destruct (decide ((u', c') = (u, c))) as [[= -> ->]|Hne].
  - assert (list_find (λ r : Z * string * string, r.1 = (u, c)) rows = None) as ->.
    { apply list_find_None, Forall_forall. intros r Hr Heq. apply Hx. apply elem_of_map. by exists r. }
    unfold set_pref. cbn. by rewrite Z.eqb_refl, lookup_insert_eq.
  - destruct (list_find _ rows) as [[i r]|] eqn:Hf; cbn; [done |]. unfold set_pref. cbn.
    destruct (Z.eqb_spec u u') as [<-|]; [| done]. rewrite lookup_insert_ne; [done | congruence].
Qed.

(** ** What is read about one user *)
Record facts_of (d : bdb) (u : Z) (f : BroadcastRecipientFacts) : Prop := {
  fo_user : bf_UserID f = u;
  fo_account : ∃ r, b_users d !! u = Some r ∧ au_telegram_login_id r = Some (bf_TelegramID f) ∧
    bf_AccessTier f = null_string (au_access_tier r) ∧ bf_IdentityCapturedAt f = au_identity_captured_at r ∧
    bf_LastSeenAt f = au_last_seen_at r;
  fo_reach : bf_Reachability f = from_option rr_state "" (nd_reach (b_notify d) !! u);
  fo_prefs c : bf_Prefs f !! c = pr_state <$> nd_prefs (b_notify d) !! (u, c);
}.

Lemma select_prefs_lookup u d c ps :
  0 < u → select_prefs u d = Ok (ps, d) →
  foldl (set_pref u) ∅ ps !! c = pr_state <$> nd_prefs (b_notify d) !! (u, c).
Proof.
  intros Hu [= <-]. rewrite set_prefs_lookup.
  - destruct (list_find _ _) as [[i r]|] eqn:Hf.
    + apply list_find_Some in Hf as (Hi & Hr & _). apply list_elem_of_lookup_2, elem_of_map in Hi as ([k row] & -> & Hin).
      apply list_elem_of_filter in Hin as [_ Hin%elem_of_map_to_list]. cbn in *. destruct k as [u' c']. cbn in Hr. injection Hr as -> ->.
      by rewrite Hin.
    + apply list_find_None in Hf. destruct (nd_prefs (b_notify d) !! (u, c)) as [row|] eqn:Hrow; [| done].
      rewrite Forall_forall in Hf. destruct (Hf (u, c, pr_state row)); [| done]. apply elem_of_map. exists ((u, c), row).
      split; [done |]. apply list_elem_of_filter. split; [| by apply elem_of_map_to_list]. cbn. unfold wanted.
      rewrite Z.eqb_refl. by rewrite orb_true_r.
  - rewrite map_map. set (l := filter _ _).
    assert (map (λ x : Z * string * pref_row, (x.1.1, x.1.2, pr_state x.2).1) l = l.*1) as ->.
    { apply map_ext. by intros [[] ]. }
    assert (NoDup (map_to_list (nd_prefs (b_notify d))).*1) as Hnd by apply NoDup_fst_map_to_list.
    apply NoDup_fmap_fst.
    + intros x y1 y2 [_ H1]%list_elem_of_filter [_ H2]%list_elem_of_filter.
      apply elem_of_map_to_list in H1, H2. congruence.
    + apply NoDup_filter, NoDup_map_to_list.
Qed.

Lemma select_users_inv u d fs d' f :
  0 < u → select_users u d = Ok (fs, d') → f ∈ fs →
  d' = d ∧ facts_of (d <|b_notify := {| nd_prefs := ∅; nd_reach := nd_reach (b_notify d) |}|>) u f ∧ bf_Prefs f = ∅.
Proof.
  intros Hu [= <- <-]. rewrite merge_sort_Permutation. intros ([u' f'] & -> & Hin%elem_of_map_to_list)%elem_of_map.
  rewrite map_lookup_imap in Hin. apply bind_Some in Hin as (r & Hr & Hf). cbn [snd].
  destruct (wanted u u') eqn:Hw; [| done]. unfold wanted in Hw. replace (0 <? u) with true in Hw by lia. cbn in Hw.
  apply Z.eqb_eq in Hw as ->. unfold user_facts in Hf. apply fmap_Some in Hf as (tg & Htg & ->).
  split; [done |]. split; [| done]. split; cbn; [done | by exists r | done |]. intros c. by rewrite !lookup_empty.
Qed.

Lemma read_facts u now d : alone (GetBroadcastRecipientFacts u now) d (λ r d', d' = d ∧
  ∀ f, r = Ok (Some f) → 0 < u ∧ facts_of d u f).
Proof.
  unfold GetBroadcastRecipientFacts. case_match eqn:Hu; [by split |]. bool_to_Prop. assert (0 < u) as Hpos by lia.
  intros t. cbn [m_op broadcast_machine bcall_op]. destruct (select_users u d) as [[fs d1]|e] eqn:Hus; [| by split].
  assert (d1 = d) as -> by by injection Hus. cbn [bind]. case_match eqn:Hnil; [bool_to_Prop; subst fs; by split |].
  intros t1. cbn [m_op broadcast_machine bcall_op]. destruct (select_prefs u d) as [[ps d1]|e] eqn:Hps; [| by split].
  assert (d1 = d) as -> by by injection Hps. intros t2. cbn [m_op broadcast_machine bcall_op].
  destruct (select_clients u now d) as [[cs d1]|e] eqn:Hcs; [| by split].
  assert (d1 = d) as -> by by injection Hcs. split; [done |]. intros f. intros [= Hf]. split; [done |].
  apply head_Some_elem_of, add_clients_inv in Hf as (f1 & Hf1 & (U1 & T1 & A1 & I1 & L1 & R1) & P1).
  apply add_prefs_inv in Hf1 as (f0 & Hf0 & (U0 & T0 & A0 & I0 & L0 & R0) & _ & P0).
  destruct (select_users_inv _ _ _ _ _ Hpos Hus Hf0) as (_ & [Huser (r & Hr & Htg & Ht & Hi & Hl) Hreach _] & Hp).
  split.
  - congruence.
  - exists r. split; [done |]. split_and!; congruence.
  - rewrite R1, R0, Hreach. done.
  - intros c. rewrite P1, P0, Hp, Huser. by apply select_prefs_lookup.
Qed.

Lemma resolved_state u c q d :
  q ∈ ResolveNotificationPrefs u d → rp_Category q = c →
  rp_State q = default (rp_State (defaultPref c)) (pr_state <$> nd_prefs d !! (u, c)).
Proof.
  unfold ResolveNotificationPrefs. intros (c' & -> & Hc)%elem_of_map Heq.
  destruct (nd_prefs d !! (u, c')) as [r|] eqn:Hr; cbn in Heq; [subst; by rewrite Hr |].
  assert (rp_Category (defaultPref c') = c') as Hc' by by (unfold defaultPref; repeat case_bool_decide).
  rewrite Hc' in Heq. subst. by rewrite Hr.
Qed.

(** C32: the worker and the pages of a client agree: the facts read about a user
    just before a send resolve every category, defaults included, to the state
    the preferences page shows; and a recipient the policy calls eligible is
    shown as subscribed to the category of the campaign, has an account that was
    not deleted, has an effective tier the campaign targets, and is not recorded
    as having blocked the bot or as unreachable. *)
Theorem audience_agrees sel p t u now d :
  isKnownCategory (sel_Category sel) →
  alone (GetBroadcastRecipientFacts u now) d (λ r d', d' = d ∧ ∀ f, r = Ok (Some f) →
    (∀ q, q ∈ ResolveNotificationPrefs u (b_notify d) →
       ResolvePrefState (rp_Category q) (bf_Prefs f) = rp_State q) ∧
    (dc_Eligible (Evaluate sel f p t) = true →
       (∃ q, q ∈ ResolveNotificationPrefs u (b_notify d) ∧ rp_Category q = sel_Category sel ∧
             rp_State q = PrefSubscribed) ∧
       (∃ acc tg, b_users d !! u = Some acc ∧ is_Some (au_identity_captured_at acc) ∧
             au_telegram_login_id acc = Some tg ∧ TierOf p tg (null_string (au_access_tier acc)) ∈ sel_Tiers sel) ∧
       (∀ br, GetBotReachability u (b_notify d) = Some br → br_State br ∉ [StateBlocked; StateCannotInitiate]))).
Proof.
  intros Hk. eapply alone_mono; [| apply read_facts]. intros r d' [-> Hf]. split; [done |].
  intros f [_ [Hu (acc & Hacc & Htg & Htier & Hcap & _) Hreach Hprefs]]%Hf.
  assert (∀ q, q ∈ ResolveNotificationPrefs u (b_notify d) →
    ResolvePrefState (rp_Category q) (bf_Prefs f) = rp_State q) as Hagree.
  { intros q Hq. unfold ResolvePrefState. rewrite Hprefs. by rewrite (resolved_state u (rp_Category q) q (b_notify d)). }
  split; [exact Hagree |]. unfold Evaluate. do 2 (case_match; [done |]).
  destruct (bf_IdentityCapturedAt f) as [cap|] eqn:Hc; [| done].
  case_match eqn:Ht; [done |]. case_match eqn:Hs; [done |]. case_match eqn:Hr; [done |]. intros _.
  apply orb_false_iff in Ht as [_ Ht]. apply orb_false_iff in Hr as [Hr1 Hr2]. bool_to_Prop. split_and!.
  - assert (∃ q, q ∈ ResolveNotificationPrefs u (b_notify d) ∧ rp_Category q = sel_Category sel) as (q & Hq & Hcat).
    { apply bool_decide_unpack in Hk. unfold ResolveNotificationPrefs. eexists. split; [by apply elem_of_map; eexists |].
      destruct (nd_prefs _ !! _); [done |]. unfold defaultPref. by repeat case_bool_decide. }
    exists q. split_and!; [done.. |]. rewrite <- (Hagree q Hq). by rewrite Hcat.
  - exists acc, (bf_TelegramID f). split_and!; [done | by eexists | done | by rewrite <- Htier].
  - intros br. unfold GetBotReachability. intros (row & Hrow & ->)%fmap_Some. cbn. rewrite Hrow in Hreach. cbn in Hreach.
    rewrite !elem_of_cons, elem_of_nil, <- Hreach. naive_solver.
Qed.
End audience.

#[local] Existing Instance ascii_tables.

Lemma audience_agrees_witness :
  let sel := {| sel_Category := "product_updates"; sel_Tiers := [TierClient]; sel_ConnectedVia := [];
                sel_ActiveWithinDays := 0 |} in
  let p := {| po_AdminTelegramIDs := ∅; po_LookupAdminTelegramIDs := ∅; po_ClientTelegramIDs := ∅;
              po_AutoApproveClients := true |} in
  let acc := {| au_telegram_login_id := Some 5; au_access_tier := None; au_identity_captured_at := Some 1;
                au_last_seen_at := None |} in
  let row := {| pr_state := PrefSubscribed; pr_source := "web"; pr_decided_at := 3 |} in
  let d := {| b_campaigns := ∅; b_deliveries := ∅; b_digests := ∅; b_publications := ∅; b_owners := ∅;
              b_users := {[ 7 := acc ]}; b_notify := {| nd_prefs := {[ (7, "product_updates") := row ]}; nd_reach := ∅ |};
              b_tokens := ∅ |} in
  alone (GetBroadcastRecipientFacts 7 9) d (λ r d', ∀ f, r = Ok (Some f) →
    ResolvePrefState "product_updates" (bf_Prefs f) = PrefSubscribed).
Proof.
  intros sel p acc row d. eapply alone_mono; [| apply (audience_agrees sel p 9 7 9 d); vm_compute; exact I].
  intros r d' [_ Hf] f [Hagree _]%Hf.
  assert (∃ q, q ∈ ResolveNotificationPrefs 7 (b_notify d) ∧ rp_Category q = "product_updates" ∧
    rp_State q = PrefSubscribed) as (q & Hq & Hc & Hs).
  { eexists. split; [by left |]. split; by vm_compute. }
  specialize (Hagree q Hq). rewrite Hc, Hs in Hagree. exact Hagree.
Defined.
