(* ===== verification/BroadcastSafety.v ===== *)
(** * Broadcasts over every interleaving

    Any number of workers, operators and readers run at once on one database,
    with lost answers, failed statements and crashes, while accounts change,
    digests are saved and discarded, and somebody tampers with the content of
    campaigns.  The programs keep to the ledger of [BroadcastLedger], so its
    invariant holds in every state the server reaches. *)

From S2P Require Import Prelude GoString Program Linear OAuthStore Notifications Json BroadcastPolicy BroadcastStore ProductUpdates Broadcast BroadcastWorker BroadcastProps BroadcastLedger.

(** Keys of the maps are counted as pairs. *)
#[local] Remove Hints finite.finite_countable : typeclass_instances.

Section safety.
Context `{UnicodeTables} (max : Z) (ops : gset Z).

#[local] Existing Instance delivery_ledger.
#[local] Abbreviation owns := (Linear.owns (H := delivery_ledger max ops)).
#[local] Abbreviation tokens := (gmap (string * Z) tok) (only parsing).

(** Every answer of a program that holds no token leaves it without one. *)
Definition idle (w : world) (T : tokens) {R} (p : prog R) : Prop := owns w T p (λ _ T' _, T' = T).

(** ** Programs without tokens *)
Lemma idle_then {R S} w T (p : prog R) (f : R → prog S) (Φ : world → tokens → S → Prop) :
  idle w T p → (∀ w' r, world_le w w' → owns w' T (f r) Φ) → owns w T (bind p f) Φ.
Proof. intros Hp Hf. eapply owns_then; [exact Hp |]. intros w' T' r Hw ->. by apply Hf. Qed.

Lemma idle_ok_then {A B} w T (p : handler A) (f : A → handler B) :
  idle w T p → (∀ w' r, world_le w w' → idle w' T (f r)) → idle w T (bind_ok p f).
Proof. intros Hp Hf. apply idle_then; [done |]. intros w' [a|e] Hw; [by apply Hf | done]. Qed.

Definition not_send {A} (q : bquery A) : Prop := match q with QSend _ _ _ _ => False | _ => True end.
Lemma ask_then {A R} w T (q : bquery A) (f : A → prog R) (Φ : world → tokens → R → Prop) :
  not_send q → (∀ w' x, world_le w w' → owns w' T (f x) Φ) → owns w T (bind (ask q) f) Φ.
Proof. intros Hq Hf. cbn. split; [by destruct q |]. intros w' x T' Hw HT. destruct q; try done; rewrite HT; by apply Hf. Qed.

Lemma facts_idle w T now u : idle w T (broadcastFacts now u).
Proof.
  cbn. split; [done |]. intros w1 [fs|e] T1 _ ->; cbn; [| done]. case_match; [done |]. cbn.
  split; [done |]. intros w2 [ps|e] T2 _ ->; cbn; [| done]. split; [done |]. by intros w3 [cs|e] T3 _ ->.
Qed.
Lemma user_facts_idle w T now u : idle w T (GetBroadcastRecipientFacts u now).
Proof.
  unfold GetBroadcastRecipientFacts. case_match; [done |]. apply idle_ok_then; [apply facts_idle | done].
Qed.

Lemma create_idle w T c now : idle w T (CreateBroadcastCampaign c now).
Proof.
  unfold CreateBroadcastCampaign. case_match; [done |]. destruct (c_SourceRef c) as [ref|].
  - case_match; [done |]. cbn. split; [done |]. intros w1 [n|e] T1 _ ->; cbn; [| done]. case_match; [done |].
    cbn. split; [done |]. intros w2 [[]|e] T2 _ ->; done.
  - cbn. split; [done |]. by intros w1 r T1 _ ->.
Qed.

Lemma prepare_idle w T cfg actor req : idle w T (Prepare cfg actor req).
Proof.
  unfold Prepare. case_match; [done |]. destruct (Normalize _) as [sel|]; [| done].
  destruct (NormalizeText _) as [text|]; [| done]. apply ask_then; [done |]. intros w1 now _.
  apply idle_ok_then; [apply facts_idle |]. intros w2 facts _.
  destruct (Resolve _ _ _ _) as [eligible counts]. do 2 (case_match; [done |]).
  apply ask_then; [done |]. intros w3 [random|e] _; [| done]. by apply idle_ok_then; [apply create_idle |].
Qed.

Lemma approve_idle w T cfg actor id ch sh :
  cf_Operators cfg = ops → idle w T (Approve cfg actor id ch sh).
Proof.
  intros Hops. unfold Approve. case_match eqn:Hop; [done |]. unfold IsOperator in Hop. bool_to_Prop.
  rewrite Hops in Hop. cbn -[ApproveBroadcastCampaign]. split; [done |].
  intros w1 [c|e] T1 _ [-> _]; [| done]. cbn -[ApproveBroadcastCampaign]. case_match; [done |].
  split; [done |]. intros w2 now T2 _ ->. unfold ApproveBroadcastCampaign. case_match; [done |].
  cbn. split; [done |]. intros w3 [n|e] T3 _ ->; cbn; [| done]. case_match; [done |]. cbn.
  split; [done |]. intros w4 [c4|e] T4 _ [-> _]; cbn; [| done]. case_match; [by case_match |]. case_match; [| done].
  cbn. split; [done |]. by intros w5 [[]|e] T5 _ ->.
Qed.

Lemma cancel_idle w T cfg actor id : idle w T (Cancel cfg actor id).
Proof.
  unfold Cancel. case_match; [done |]. cbn -[CancelBroadcastCampaign]. split; [done |].
  intros w1 now T1 _ ->. unfold CancelBroadcastCampaign. case_match; [done |]. cbn. split; [done |].
  intros w2 [n|e] T2 _ ->; cbn; [| done]. case_match; [done |]. cbn. split; [done |].
  by intros w3 [c|e] T3 _ [-> _].
Qed.

Lemma source_idle w T id ref now : idle w T (SetBroadcastCampaignSourceRef id ref now).
Proof.
  unfold SetBroadcastCampaignSourceRef. case_match; [done |]. cbn. split; [done |].
  intros w1 [n|e] T1 _ ->; cbn; [| done]. case_match; [done |]. cbn. split; [done |].
  intros w2 [c|e] T2 _ [-> _]; cbn; [| done]. case_match; [by case_match |]. case_match; [done |]. cbn.
  split; [done |]. intros w3 [d|e] T3 _ ->; cbn; [| done]. by case_match.
Qed.

Lemma report_idle w T id : idle w T (BuildReport id).
Proof.
  cbn. split; [done |]. intros w1 [c|e] T1 _ [-> _]; cbn; [| done]. split; [done |].
  by intros w2 [l|e] T2 _ ->.
Qed.

(** ** The worker *)
Section worker.
Context (cfg : WorkerConfig) (Hmax : wc_MaxAttempts cfg ≤ max).

(** The program gives up the token of [d], and no other. *)
Definition settles (w : world) (T : tokens) (d : BroadcastDelivery) {R} (p : prog R) : Prop :=
  owns w T p (λ _ T' _, T' = delete (bd_key d) T).

Lemma finish_settles w T d status reason :
  is_Some (T !! bd_key d) → settles w T d (finish d status reason).
Proof. intros Ht. cbn. split; [done |]. intros w1 now T1 _ ->. split; [done |]. by intros w2 r T2 _ ->. Qed.

Lemma retry_settles w T d t after now :
  T !! bd_key d = Some t → retryable t → tok_attempts t = bd_Attempts d → settles w T d (retry cfg d after now).
Proof.
  intros Ht Hr Ha. unfold retry. case_match; cbn; (split; [| by intros w1 r T1 _ ->]); [by eexists |].
  exists t. bool_to_Prop. split_and!; [done.. | lia].
Qed.

Lemma preSend_settles {A} w T d e a : T !! bd_key d = Some (Unsent a) → settles w T d (preSend (A:=A) d e).
Proof. intros Ht. cbn. split; [by eexists |]. by intros w1 r T1 _ ->. Qed.

Lemma storeFault_settles {A} w T d e :
  T !! bd_key d = Some (Unsent (bd_Attempts d)) → settles w T d (storeFault (A:=A) cfg d e).
Proof.
  intros Ht. cbn -[retry]. split; [done |]. intros w1 now T1 _ ->.
  eapply owns_then; [by eapply retry_settles |]. by intros w2 T2 r _ ->.
Qed.

Lemma reach_idle w T d outcome : idle w T (record_reach d outcome).
Proof. cbn. split; [done |]. by intros w1 r T1 _ ->. Qed.

Lemma close_settles w T d status reason now :
  is_Some (T !! bd_key d) → settles w T d (invoke (CFinish (bd_CampaignID d) (bd_UserID d) status reason now) : prog _).
Proof. intros Ht. cbn. split; [done |]. by intros w1 r T1 _ ->. Qed.

Lemma record_settles w T d r :
  T !! bd_key d = Some (Tried (bd_Attempts d) r) → settles w T d (record cfg d r).
Proof.
  intros Ht. assert (is_Some (T !! bd_key d)) as Hs by by eexists.
  cbn -[record_reach retry]. split; [done |]. intros w1 now T1 _ ->.
  destruct r as [[]|[e| |what]].
  - apply idle_then; [apply reach_idle |]. intros. by apply close_settles.
  - case_match; [apply idle_then; [apply reach_idle |]; intros; by apply close_settles |].
    case_match; [by eapply retry_settles | by apply close_settles].
  - by eapply retry_settles.
  - by apply close_settles.
Qed.

(** A failed check of the store: shutting down or not. *)
Lemma fault_settles w T d e :
  T !! bd_key d = Some (Unsent (bd_Attempts d)) →
  settles w T d (let* cancelled := ask QCancelled in if cancelled : bool then preSend (A:=unit) d e else storeFault cfg d e)%prog.
Proof.
  intros Ht. cbn -[preSend storeFault]. split; [done |]. intros w1 [|] T1 _ ->.
  - change (settles w1 T d (preSend (A:=unit) d e)). by eapply preSend_settles.
  - by apply storeFault_settles.
Qed.

Lemma open_campaign_settles w T d k :
  T !! bd_key d = Some (Unsent (bd_Attempts d)) →
  (∀ w' c sel, world_le w w' → c_ID c = bd_CampaignID d → intact c → approved w' c → settles w' T d (k c sel)) →
  settles w T d (open_campaign cfg d k).
Proof.
  intros Ht Hk. assert (is_Some (T !! bd_key d)) as Hs by by eexists.
  unfold open_campaign. cbn -[finish storeFault preSend campaignSelector].
  split; [done |]. intros w1 r T1 Hw1 [-> Hr]. destruct r as [c|e]; [| by apply fault_settles].
  destruct (in_state CampaignSending c) eqn:Hst; cbn -[finish storeFault campaignSelector]; [| by apply finish_settles].
  unfold in_state in Hst. bool_to_Prop. destruct (Hr _ eq_refl) as [Hid Ha].
  destruct (campaignSelector c) as [sel|e] eqn:Hsel.
  - apply Hk; [done | done | | by apply Ha]. unfold campaignSelector in Hsel. by destruct (intact c).
  - cbn -[finish storeFault]. split; [done |]. intros w2 now T2 _ ->. split; [done |].
    intros w3 [[]|e'] T3 _ ->; [by apply finish_settles |].
    destruct e'; try (by apply storeFault_settles); by apply finish_settles.
Qed.

Lemma open_recipient_settles w T d sel k :
  T !! bd_key d = Some (Unsent (bd_Attempts d)) →
  (∀ w' f, world_le w w' → settles w' T d (k f)) → settles w T d (open_recipient cfg d sel k).
Proof.
  intros Ht Hk. assert (is_Some (T !! bd_key d)) as Hs by by eexists.
  unfold open_recipient. cbn -[finish storeFault preSend GetBroadcastRecipientFacts].
  split; [done |]. intros w1 now T1 Hw1 ->. apply idle_then; [apply user_facts_idle |].
  intros w2 [[f|]|e] Hw2; [| by apply finish_settles | by apply fault_settles].
  cbn -[finish]. split; [done |]. intros w3 now' T3 Hw3 ->. case_match; [by apply finish_settles |].
  apply Hk. etrans; [exact Hw1 |]. by etrans.
Qed.

Lemma send_slot_settles w T d at_ k :
  T !! bd_key d = Some (Unsent (bd_Attempts d)) →
  (∀ w', world_le w w' → settles w' T d k) → settles w T d (send_slot cfg d at_ k).
Proof.
  intros Ht Hk. unfold send_slot, leaseExhausted. cbn -[preSend].
  split; [done |]. intros w1 t1 T1 Hw1 ->. case_match; [by eapply preSend_settles |].
  split; [done |]. intros w2 [[]|e] T2 Hw2 ->; [| by eapply preSend_settles].
  split; [done |]. intros w3 t3 T3 Hw3 ->. case_match; [by eapply preSend_settles |].
  apply Hk. etrans; [exact Hw1 |]. by etrans.
Qed.

Lemma deliver_settles w T d at_ :
  T !! bd_key d = Some (Unsent (bd_Attempts d)) → settles w T d (deliver cfg d at_).
Proof.
  intros Ht. apply open_campaign_settles; [done |]. intros w1 c sel _ Hid Hin Ha.
  apply open_recipient_settles; [done |]. intros w2 f Hw2.
  apply send_slot_settles; [done |]. intros w3 Hw3. cbn -[record].
  split; [split_and!; [done.. |]; eapply approved_mono, approved_mono, Ha; done |].
  intros w4 r T4 _ ->. pose proof (record_settles w4 (<[bd_key d := Tried (bd_Attempts d) r]> T) d r) as Hr.
  rewrite lookup_insert_eq in Hr. specialize (Hr eq_refl). unfold settles in Hr. by rewrite delete_insert_eq in Hr.
Qed.

(** ** A batch *)
Definition claims_held (T : tokens) (l : list BroadcastDelivery) : Prop :=
  NoDup (map bd_key l) ∧ ∀ d, d ∈ l → T !! bd_key d = Some (Unsent (bd_Attempts d)).

Lemma claims_tail T d l : claims_held T (d :: l) → claims_held (delete (bd_key d) T) l.
Proof.
  intros [[Hn Hnd]%NoDup_cons Ht]. split; [done |]. intros d' Hd'. rewrite lookup_delete_ne; [apply Ht; by right |].
  intros He. apply Hn. rewrite He. apply elem_of_map. by exists d'.
Qed.

Lemma release_owns w T l : claims_held T l → owns w T (release l) (λ _ _ _, True).
Proof.
  revert w T. induction l as [|d l IH]; intros w T Hl; [done |]. cbn -[release].
  split; [exists (bd_Attempts d); apply Hl; by left |]. intros w1 r T1 _ ->. apply IH, (claims_tail _ _ _ Hl).
Qed.

Lemma batch_owns w T at_ l : claims_held T l → owns w T (deliver_batch cfg at_ l) (λ _ _ _, True).
Proof.
  revert w T. induction l as [|d l IH]; intros w T Hl; [done |]. cbn [deliver_batch].
  eapply owns_then; [apply deliver_settles, Hl; by left |]. intros w1 T1 [[]|e] _ ->; [by apply IH, claims_tail |].
  eapply owns_then; [apply release_owns; by apply claims_tail |]. intros w2 T2 [] _ _. by destruct e.
Qed.

Lemma claim_tokens_held ds : NoDup (map bd_key ds) → claims_held (claim_tokens ds ∪ ∅) ds.
Proof.
  intros Hnd. split; [done |]. intros d Hd. rewrite (right_id_L ∅ (∪)). apply elem_of_list_to_map.
  - change (NoDup (map fst (map (λ d, (bd_key d, Unsent (bd_Attempts d))) ds))). by rewrite map_map.
  - apply elem_of_map. by exists d.
Qed.

(** ** Starting campaigns *)
Lemma startOne_idle w T facts now c :
  (c_ID c, c_RecipientLimit c) ∈ w_created w → idle w T (startOne cfg facts now c).
Proof.
  intros Hl. unfold startOne. destruct (campaignSelector c) as [sel|e]; [| cbn; split; [done |]; by intros w1 r T1 _ ->].
  destruct (Resolve _ _ _ _) as [eligible counts] eqn:Hr.
  case_match; [cbn; split; [done |]; by intros w1 r T1 _ -> |].
  case_match eqn:Hn; [cbn; split; [done |]; by intros w1 r T1 _ -> |]. cbn. split; [| by intros w1 r T1 _ ->].
  exists (c_RecipientLimit c). split; [done |]. rewrite length_map. unfold Resolve in Hr. injection Hr as <- <-.
  cbn in Hn. bool_to_Prop. lia.
Qed.

Lemma start_all_idle w T facts now l :
  (∀ c, c ∈ l → (c_ID c, c_RecipientLimit c) ∈ w_created w) → idle w T (start_all cfg facts now l).
Proof.
  revert w. induction l as [|c l IH]; intros w Hl; [done |]. cbn [start_all].
  apply idle_ok_then; [apply startOne_idle, Hl; by left |]. intros w1 _ [Hw _].
  apply IH. intros c' Hc'. apply Hw, Hl. by right.
Qed.

Lemma startApproved_idle w T now : idle w T (startApproved cfg now).
Proof.
  unfold startApproved. cbn -[broadcastFacts start_all]. split; [done |]. intros w1 [l|e] T1 _ [-> Hl]; [| done].
  cbn -[broadcastFacts start_all]. case_match; [done |]. apply idle_ok_then; [apply facts_idle |].
  intros w2 facts [Hw _]. apply start_all_idle. intros c Hc. apply Hw. by eapply Hl.
Qed.

(** A step of the pass whose failure ends it *)
Lemma call_idle A (c : bcall A) w T :
  call_pre max ops w T c → plain c → idle w T (invoke c : prog (result bc_error A)).
Proof. intros Hc Hp. cbn. split; [done |]. intros w1 r T1 _ Hr. destruct c; try done; by destruct Hr. Qed.

Lemma Tick_owns w : owns w ∅ (Tick cfg) (λ _ _ _, True).
Proof.
  assert (∀ R w T (p : prog R), idle w T p → owns w T p (λ _ _ _, True)) as Hdone.
  { intros R w0 T p Hp. by eapply (owns_mono w0 w0). }
  unfold Tick. cbn -[startApproved deliver_batch bind_ok]. split; [done |]. intros w1 now T1 _ ->.
  apply idle_then; [by apply call_idle |]. intros w2 [n|e] _; [| done].
  apply idle_then; [by apply call_idle |]. intros w3 [n3|e] _; [| done].
  apply idle_then; [apply startApproved_idle |]. intros w4 [[]|e] _; [| done].
  apply idle_then; [by apply call_idle |]. intros w5 [n5|e] _; [| done].
  cbn -[deliver_batch bind_ok]. split; [done |]. intros w6 at_ T6 _ ->.
  cbn -[deliver_batch]. split; [done |]. intros w7 [ds|e] T7 _ Hr; cbn -[deliver_batch]; [| done].
  destruct Hr as [Hnd ->]. eapply owns_then; [apply batch_owns; by apply claim_tokens_held |].
  intros w8 T8 [[]|e] _ _; [| done]. cbn. split; [done |]. intros w9 t9 T9 _ ->. split; [done |]. done.
Qed.
End worker.

(** ** The system *)
Record system := System {
  s_db : bdb;
  s_threads : list (prog unit);
  s_sent : list send;
  s_world : world;
}.

(** What a replica runs: the requests of operators, and passes of workers with
    at most [max] attempts. *)
Inductive entry : prog unit → Prop :=
| entry_prepare cfg actor req : entry (forget (Prepare cfg actor req))
| entry_approve cfg actor id ch sh : cf_Operators cfg = ops → entry (forget (Approve cfg actor id ch sh))
| entry_cancel cfg actor id : entry (forget (Cancel cfg actor id))
| entry_source id ref now : entry (forget (SetBroadcastCampaignSourceRef id ref now))
| entry_report id : entry (forget (BuildReport id))
| entry_tick cfg : wc_MaxAttempts cfg ≤ max → entry (forget (Tick cfg)).

(** Everything else: accounts, preferences, reachability and grants change,
    digests are saved and discarded, and the stored content of a campaign is
    altered behind the server's back. *)
Definition altered (content selector : string) (c : BroadcastCampaign) : BroadcastCampaign :=
  c <|c_Content := content|> <|c_SelectorJSON := selector|>.
Inductive outside (d : bdb) : bdb → Prop :=
| outside_accounts users notify toks :
    outside d (d <|b_users := users|> <|b_notify := notify|> <|b_tokens := toks|>)
| outside_save dig now w d' : SaveProductUpdateDigest dig now d = Ok (w, d') → outside d d'
| outside_discard id version ch d' : DiscardUnusedProductUpdateDigest id version ch d = Ok d' → outside d d'
| outside_alter id content selector :
    outside d (d <|b_campaigns := alter (altered content selector) id (b_campaigns d)|>).

Definition sent_by {A} (q : bquery A) : A → list send :=
  match q in bquery A return A → list send with
  | QSend c d chat text => λ r, [Send c d chat text r]
  | _ => λ _, []
  end.

Inductive step (s : system) : system → Prop :=
| step_outside d : outside (s_db s) d → step s (System d (s_threads s) (s_sent s) (s_world s))
| step_start p : entry p → step s (System (s_db s) (s_threads s ++ [p]) (s_sent s) (s_world s))
| step_call i A (c : bcall A) k now locked a d :
    s_threads s !! i = Some (Call c k) → bcall_op now locked c (s_db s) = Ok (a, d) →
    step s (System d (<[i := k (Ok a)]> (s_threads s)) (s_sent s) (committed c a (s_world s)))
| step_lost i A (c : bcall A) k now locked a d e :      (** committed, but the answer was lost *)
    s_threads s !! i = Some (Call c k) → bcall_op now locked c (s_db s) = Ok (a, d) →
    step s (System d (<[i := k (Err e)]> (s_threads s)) (s_sent s) (committed c a (s_world s)))
| step_fail i A (c : bcall A) k e :                     (** refused, or never reached the database *)
    s_threads s !! i = Some (Call c k) →
    step s (System (s_db s) (<[i := k (Err e)]> (s_threads s)) (s_sent s) (s_world s))
| step_query i A (q : bquery A) k x :
    s_threads s !! i = Some (Query q k) →
    step s (System (s_db s) (<[i := k x]> (s_threads s)) (sent_by q x ++ s_sent s) (s_world s))
| step_crash i : step s (System (s_db s) (<[i := Exit]> (s_threads s)) (s_sent s) (s_world s)).

(** Accounts and digests may be there, but no campaign yet. *)
Definition start (d : bdb) : system := System (d <|b_campaigns := ∅|> <|b_deliveries := ∅|>) [] [] empty_world.
Definition reachable (s : system) : Prop := ∃ d, rtc step (start d) s.

(** ** The invariant *)

(** The message is one an operator released: the text and the selector it was
    sent by have the hashes of the approval. *)
Definition released (w : world) (m : send) : Prop :=
  ∃ ap, ap ∈ w_approved w ∧ ap_campaign ap = bd_CampaignID (sd_delivery m) ∧
    ap_content ap = Hash (sd_text m) ∧ ap_selector ap = Hash (c_SelectorJSON (sd_campaign m)).

Record system_ok (s : system) (P : gmap (string * Z) (nat * tok)) : Prop := {
  sy_db : db_ok (s_world s) (s_db s);
  sy_keys : keys_ok max (b_deliveries (s_db s)) P (s_sent s);
  sy_threads i p : s_threads s !! i = Some p → owns (s_world s) (held i P) p (λ _ _ _, True);
  sy_purse k jt : P !! k = Some jt → (jt.1 < length (s_threads s))%nat;
  sy_sent m : m ∈ s_sent s → released (s_world s) m;
  sy_ops ap : ap ∈ w_approved (s_world s) → ap_operator ap ∈ ops;
}.

Lemma released_mono w w' m : world_le w w' → released w m → released w' m.
Proof. intros [_ Hw] (ap & ? & ?). exists ap. split; [by apply Hw | done]. Qed.

Lemma committed_grows A (c : bcall A) a w : world_le w (committed c a w).
Proof.
  destruct c; cbn; try done.
  - split; cbn; [by intros x Hx; right | done].
  - case_match; [split; cbn; [by intros x Hx; right | done] | done].
  - case_match; [split; cbn; [done | by intros x Hx; right] | done].
Qed.

Lemma committed_ops A (c : bcall A) a w T :
  call_pre max ops w T c → (∀ ap, ap ∈ w_approved w → ap_operator ap ∈ ops) →
  ∀ ap, ap ∈ w_approved (committed c a w) → ap_operator ap ∈ ops.
Proof.
  intros Hpre Hw ap. destruct c; cbn in *; try apply Hw; case_match; try apply Hw.
  intros [->|Ha]%elem_of_cons; [done | by apply Hw].
Qed.

Lemma publish_frame id version entries d d' :
  publish_entries id version entries d = Ok d' → b_campaigns d' = b_campaigns d ∧ b_deliveries d' = b_deliveries d.
Proof.
  revert d. induction entries as [|e entries IH]; intros d; cbn; [by intros [= ->] |].
  unfold publish_entry. case_bool_decide; [| done]. cbn. intros Hp. apply (IH _ Hp).
Qed.

Lemma save_frame dig now d w d' :
  SaveProductUpdateDigest dig now d = Ok (w, d') → b_campaigns d' = b_campaigns d ∧ b_deliveries d' = b_deliveries d.
Proof.
  unfold SaveProductUpdateDigest. case_match; [done |]. cbn -[publish_entries GetProductUpdateDigest sort_strings].
  destruct (GetProductUpdateDigest _ _ _) as [existing|e].
  - intros (v & _ & [= <- <-])%rbind_Ok. done.
  - destruct e; try done. do 2 (case_match; [done |]). intros (d2 & Hp & [= <- <-])%rbind_Ok.
    by apply publish_frame in Hp.
Qed.

Lemma alter_ok w d id content selector :
  db_ok w d → let d' := d <|b_campaigns := alter (altered content selector) id (b_campaigns d)|> in
  db_ok w d' ∧ tables_le d d'.
Proof.
  intros Hd d'. assert (moves d (b_campaigns d')) as Hm; [| split; [by apply moves_ok | by apply moves_le]].
  intros i. cbn. destruct (decide (id = i)) as [<-|Hne].
  - rewrite lookup_alter_eq. destruct (b_campaigns d !! id); [| done]. by split; [.. | left].
  - rewrite lookup_alter_ne by done. apply moves_refl.
Qed.

Lemma discard_frame id version ch d d' :
  DiscardUnusedProductUpdateDigest id version ch d = Ok d' →
  b_campaigns d' = b_campaigns d ∧ b_deliveries d' = b_deliveries d.
Proof.
  unfold DiscardUnusedProductUpdateDigest. destruct (b_digests d !! _); [| done].
  do 2 (case_match; [done |]). by intros [= <-].
Qed.

Lemma outside_sound w d d' :
  db_ok w d → outside d d' → db_ok w d' ∧ tables_le d d' ∧ b_deliveries d' = b_deliveries d.
Proof.
  intros Hd Ho. destruct Ho as [users notify toks|dig now v d' Hs|id version ch d' Hs|id content selector].
  - by apply and_assoc; split; [apply same_ok |].
  - apply save_frame in Hs as [Hc Hdl]. by apply and_assoc; split; [apply same_ok |].
  - apply discard_frame in Hs as [Hc Hdl]. by apply and_assoc; split; [apply same_ok |].
  - by apply and_assoc; split; [apply alter_ok |].
Qed.

Lemma entry_owns w p : entry p → owns w ∅ p (λ _ _ _, True).
Proof.
  assert (∀ R (p : prog R), idle w ∅ p → owns w ∅ (forget p) (λ _ _ _, True)) as Hf.
  { intros R p0 Hp. by eapply owns_forget. }
  intros [cfg actor req|cfg actor id ch sh Hops|cfg actor id|id ref now|id|cfg Hc].
  - apply Hf, prepare_idle.
  - by apply Hf, approve_idle.
  - apply Hf, cancel_idle.
  - apply Hf, source_idle.
  - apply Hf, report_idle.
  - eapply owns_forget. by apply Tick_owns.
Qed.

(** ** Every step keeps it *)

(** The program at [i] goes on as [p], in a later world and with the purse [P']. *)
Lemma answered s P i p0 p w P' d L :
  system_ok s P → s_threads s !! i = Some p0 → world_le (s_world s) w →
  db_ok w d → keys_ok max (b_deliveries d) P' L → others_kept i P P' →
  owns w (held i P') p (λ _ _ _, True) →
  (∀ m, m ∈ L → released w m) → (∀ ap, ap ∈ w_approved w → ap_operator ap ∈ ops) →
  system_ok (System d (<[i := p]> (s_threads s)) L w) P'.
Proof.
  intros [_ _ Hth Hpu _ _] Hi Hw Hd Hk [Hoth Hnew] Hp Hsent Hops. split; cbn; try done.
  - intros j q. destruct (decide (i = j)) as [<-|Hne].
    + rewrite list_lookup_insert_eq by by eapply lookup_lt_Some. by intros [= <-].
    + rewrite list_lookup_insert_ne by done. intros Hj. rewrite Hoth by done. eapply owns_weaken; [exact Hw | auto].
  - intros k jt Hj. rewrite length_insert. destruct (Hnew _ _ Hj) as [Hold| ->]; [by eapply Hpu |].
    by eapply lookup_lt_Some.
Qed.

Definition progress (s : system) (P : gmap (string * Z) (nat * tok)) (s' : system) : Prop :=
  system_ok s' P ∧ tables_le (s_db s) (s_db s') ∧ world_le (s_world s) (s_world s').

Lemma commit_sound s P i A (c : bcall A) k now locked a d r :
  0 < max → system_ok s P → s_threads s !! i = Some (Call c k) → bcall_op now locked c (s_db s) = Ok (a, d) →
  r = Ok a ∨ (∃ e, r = Err e) →
  ∃ P', progress s P' (System d (<[i := k r]> (s_threads s)) (s_sent s) (committed c a (s_world s))).
Proof.
  intros Hmax Hok Hi Hop Hr. pose proof Hok as [Hd Hk Hth _ Hsent Hops].
  destruct (Hth _ _ Hi) as [Hpre Hgo]. pose proof (committed_grows _ c a (s_world s)) as Hw.
  destruct (db_call _ _ _ c _ _ _ _ _ _ _ Hd Hpre Hop) as [Hd' Hle].
  destruct (call_commits max ops _ c _ _ P (s_sent s) i now locked a d r Hmax Hd Hk Hpre Hop Hr) as (P' & Hk' & Hpost & Hoth).
  exists P'. split; [| done]. eapply answered; try done.
  - by apply Hgo.
  - intros m Hm. by eapply released_mono, Hsent.
  - eapply committed_ops; [exact Hpre | exact Hops].
Qed.

Lemma fail_ok s P i A (c : bcall A) k e :
  system_ok s P → s_threads s !! i = Some (Call c k) →
  ∃ P', progress s P' (System (s_db s) (<[i := k (Err e)]> (s_threads s)) (s_sent s) (s_world s)).
Proof.
  intros Hok Hi. pose proof Hok as [Hd Hk Hth _ Hsent Hops]. destruct (Hth _ _ Hi) as [Hpre Hgo].
  destruct (call_fails max ops _ c (s_world s) _ P (s_sent s) i e Hk Hpre) as (P' & Hk' & Hpost & Hoth).
  exists P'. split; [| done]. eapply answered; try done. by apply Hgo.
Qed.

Lemma query_ok s P i A (q : bquery A) k x :
  system_ok s P → s_threads s !! i = Some (Query q k) →
  ∃ P', progress s P' (System (s_db s) (<[i := k x]> (s_threads s)) (sent_by q x ++ s_sent s) (s_world s)).
Proof.
  intros Hok Hi. pose proof Hok as [Hd Hk Hth _ Hsent Hops]. destruct (Hth _ _ Hi) as [Hpre Hgo].
  destruct q as [| | | |c d chat text];
    try (exists P; split; [eapply answered; try done; [apply others_refl | by apply Hgo] | done]).
  destruct Hpre as (Ht & -> & Hid & Hin & (ap & Ha & Hapc & Hapt & Haps & _)). apply lookup_held in Ht.
  exists (<[bd_key d := (i, Tried (bd_Attempts d) x)]> P). split; [| done]. eapply answered; try done.
  - apply (send_keys max _ P (s_sent s) i (bd_Attempts d) (Send c d chat (c_Content c) x)); [done | exact Hk].
  - split; [intros j Hj; by rewrite (held_insert i P _ _ _ Ht), decide_False |].
    intros k' jt [[<- <-]|[_ Hl]]%lookup_insert_Some; [by right | by left].
  - apply Hgo; [done |]. cbn. by rewrite (held_insert i P _ _ _ Ht), decide_True.
  - intros m [->|Hm]%elem_of_cons; [| by apply Hsent]. exists ap. cbn.
    unfold intact in Hin. apply andb_prop_elim in Hin as [H1%bool_decide_spec H2%bool_decide_spec].
    split_and!; [done | congruence | congruence | congruence].
Qed.

Lemma step_sound s P s' : 0 < max → system_ok s P → step s s' → ∃ P', progress s P' s'.
Proof.
  intros Hmax Hok Hst. pose proof Hok as [Hd Hk Hth Hpu Hsent Hops].
  destruct Hst as [d Ho|p He|i A c k now locked a d Hi Hop|i A c k now locked a d e Hi Hop|i A c k e Hi|i A q k x Hi|i].
  - destruct (outside_sound _ _ _ Hd Ho) as (Hd' & Hle & Hdl). exists P. split; [| done].
    split; cbn; try done. by rewrite Hdl.
  - exists P. split; [| done]. split; cbn; try done.
    + intros i q [Hq|[Hi Hq]]%lookup_app_Some; [by apply Hth |]. apply list_lookup_singleton_Some in Hq as [Hi' <-].
      assert (held i P = ∅) as ->; [| by apply entry_owns]. apply map_eq. intros k. rewrite lookup_empty.
      destruct (held i P !! k) as [t|] eqn:Ht; [| done]. apply lookup_held, Hpu in Ht. cbn in Ht. lia.
    + intros k jt Hj. rewrite length_app. apply Hpu in Hj. lia.
  - by eapply commit_sound; [| | | | left].
  - eapply commit_sound; [done.. | exact Hop |]. right. by eexists.
  - by eapply fail_ok.
  - by eapply query_ok.
  - exists P. split; [| done]. split; cbn; try done.
    + intros j q. destruct (decide (i = j)) as [<-|Hne].
      * intros Hq. destruct (decide (i < length (s_threads s))%nat) as [Hl|Hl].
        -- rewrite list_lookup_insert_eq in Hq by done. by injection Hq as <-.
        -- rewrite list_insert_ge in Hq by lia. by apply Hth.
      * rewrite list_lookup_insert_ne by done. apply Hth.
    + intros k jt Hj. rewrite length_insert. by eapply Hpu.
Qed.

Lemma steps_sound s P s' : 0 < max → system_ok s P → rtc step s s' → ∃ P', progress s P' s'.
Proof.
  intros Hmax Hok Hs. revert P Hok. induction Hs as [s|s1 s2 s3 H12 _ IH]; intros P Hok; [by exists P |].
  destruct (step_sound _ _ _ Hmax Hok H12) as (P2 & Hok2 & Ht2 & Hw2).
  destruct (IH _ Hok2) as (P3 & Hok3 & Ht3 & Hw3). exists P3. split; [done |]. split; by etrans.
Qed.

Lemma start_sound d : system_ok (start d) ∅.
Proof.
  split; cbn; try done; try (by intros ? ?%elem_of_nil).
  by apply empty_ok.
Qed.

Lemma reachable_sound s : 0 < max → reachable s → ∃ P, system_ok s P.
Proof. intros Hmax (d & Hs). destruct (steps_sound _ _ _ Hmax (start_sound d) Hs) as (P & Hok & _). by exists P. Qed.
End safety.
