(* ===== verification/BroadcastRun.v ===== *)
(** * Running the server by hand

    A run of [BroadcastSafety] in which programs run one after the other to
    their end, computed: the requests and the pass that bring a message from an
    operator's draft to a recipient, and that it is a run. *)

From S2P Require Import Prelude GoString Sha256 Program Linear OAuthStore Notifications Json BroadcastPolicy BroadcastStore ProductUpdates Broadcast BroadcastWorker BroadcastProps BroadcastLedger BroadcastSafety.

#[local] Remove Hints finite.finite_countable : typeclass_instances.

(** What the world outside answers during a program *)
Record answers := {
  an_now : time;
  an_random : string;
  an_send : result send_error unit;
}.
Definition answer_to (an : answers) {A} (q : bquery A) : A :=
  match q in bquery A return A with
  | QNow => an_now an
  | QCancelled => false
  | QWait => Ok tt
  | QRandom => Ok (an_random an)
  | QSend _ _ _ _ => an_send an
  end.

Fixpoint exec (an : answers) (p : prog unit) (d : bdb) (L : list send) (w : world) : bdb * list send * world :=
  match p with
  | Ret _ | Exit => (d, L, w)
  | Call c k =>
    match bcall_op (an_now an) ∅ c d with
    | Ok (a, d') => exec an (k (Ok a)) d' L (committed c a w)
    | Err e => exec an (k (Err e)) d L w
    end
  | Query q k => let x := answer_to an q in exec an (k x) d (sent_by q x ++ L) w
  end.
Definition exec_on (an : answers) (p : prog unit) (s : bdb * list send * world) : bdb * list send * world :=
  exec an p s.1.1 s.1.2 s.2.

Section run.
Context `{UnicodeTables} (max : Z) (ops : gset Z).

Lemma exec_steps an p d L w ths i :
  ths !! i = Some p →
  ∃ ths', rtc (step max ops) (System d ths L w)
            (let '(d', L', w') := exec an p d L w in System d' ths' L' w').
Proof.
  revert d L w ths. induction p as [r|A c k IH|A q k IH|]; intros d L w ths Hi; cbn -[bcall_op].
  - by exists ths.
  - assert (i < length ths)%nat by by eapply lookup_lt_Some.
    destruct (bcall_op (an_now an) ∅ c d) as [[a d']|e] eqn:Hop.
    + destruct (IH (Ok a) d' L (committed c a w) (<[i := k (Ok a)]> ths)) as [ths' Hr]; [by rewrite list_lookup_insert_eq |].
      exists ths'. eapply rtc_l; [by eapply (step_call _ _ (System d ths L w)) | done].
    + destruct (IH (Err e) d L w (<[i := k (Err e)]> ths)) as [ths' Hr]; [by rewrite list_lookup_insert_eq |].
      exists ths'. eapply rtc_l; [by eapply (step_fail _ _ (System d ths L w)) | done].
  - assert (i < length ths)%nat by by eapply lookup_lt_Some.
    destruct (IH (answer_to an q) d (sent_by q (answer_to an q) ++ L) w (<[i := k (answer_to an q)]> ths))
      as [ths' Hr]; [by rewrite list_lookup_insert_eq |].
    exists ths'. eapply rtc_l; [by eapply (step_query _ _ (System d ths L w)) | done].
  - by exists ths.
Qed.

(** Programs run to their end, the first one first. *)
Fixpoint play (script : list (answers * prog unit)) (s : bdb * list send * world) : bdb * list send * world :=
  match script with
  | [] => s
  | (an, p) :: script => play script (exec_on an p s)
  end.

Definition state_of (s : bdb * list send * world) (ths : list (prog unit)) : system :=
  System s.1.1 ths s.1.2 s.2.

Lemma play_steps script d L w ths :
  Forall (λ ap, entry max ops ap.2) script →
  ∃ ths', rtc (step max ops) (System d ths L w)
            (state_of (play script (d, L, w)) ths').
Proof.
  revert d L w ths. induction script as [|[an p] script IH]; intros d L w ths; [by exists ths |].
  intros [Hp Hs]%Forall_cons_1. cbn [play]. unfold exec_on. cbn [fst snd].
  destruct (exec_steps an p d L w (ths ++ [p]) (length ths)) as [ths1 H1]; [by apply list_lookup_middle |].
  destruct (exec an p d L w) as [[d1 L1] w1]. destruct (IH d1 L1 w1 ths1 Hs) as [ths2 H2]. exists ths2.
  eapply rtc_l; [by apply (step_start _ _ (System d ths L w)) |]. by etrans.
Qed.

(** From tables without campaigns *)
Lemma play_reachable script d :
  Forall (λ ap, entry max ops ap.2) script →
  ∃ ths, reachable max ops (state_of (play script (d <|b_campaigns := ∅|> <|b_deliveries := ∅|>, [], empty_world)) ths).
Proof.
  intros Hs. destruct (play_steps script (d <|b_campaigns := ∅|> <|b_deliveries := ∅|>) [] empty_world [] Hs)
    as [ths Hr]. by exists ths, d.
Qed.
End run.

(** ** A maintenance notice *)
#[local] Existing Instance ascii_tables.

Definition no_policy : Policy := {|
  po_AdminTelegramIDs := {[ 100 ]}; po_LookupAdminTelegramIDs := ∅; po_ClientTelegramIDs := ∅;
  po_AutoApproveClients := false |}.
Definition sample_config : Config := Config_withDefaults {|
  cf_Operators := {[ 100 ]}; cf_ApprovalTTL := 0; cf_RecipientLimit := 0; cf_BatchSize := 0; cf_Policy := no_policy |}.
Definition sample_worker : WorkerConfig := WorkerConfig_withDefaults (λ _, 25) {|
  wc_Policy := no_policy; wc_BatchSize := 0; wc_MaxAttempts := 0; wc_BaseBackoff := 0; wc_MaxBackoff := 0;
  wc_Lease := 0 |}.
Definition member (tg : Z) : audience_user := {|
  au_telegram_login_id := Some tg; au_access_tier := Some TierClient; au_identity_captured_at := Some 1;
  au_last_seen_at := Some 1 |}.
Definition sample_users : gmap Z audience_user := {[ 1 := member 100; 2 := member 200 ]}.
Definition sample_db : bdb := {|
  b_campaigns := ∅; b_deliveries := ∅; b_digests := ∅; b_publications := ∅; b_owners := ∅;
  b_users := sample_users; b_notify := {| nd_prefs := ∅; nd_reach := ∅ |}; b_tokens := ∅ |}.

Definition operator : Actor := {| ac_UserID := 1; ac_TelegramID := 100; ac_Surface := "web" |}.
Definition notice : PrepareRequest := {|
  pq_Selector := {| sel_Category := "maintenance"; sel_Tiers := []; sel_ConnectedVia := [];
                    sel_ActiveWithinDays := 0 |};
  pq_Text := " Down at noon. "; pq_SourceRef := None |}.
Definition notice_audience : Selector := {|
  sel_Category := "maintenance"; sel_Tiers := [TierClient]; sel_ConnectedVia := []; sel_ActiveWithinDays := 0 |}.
Definition notice_text : string := "Down at noon.".

Definition random_bytes : string := "0123456789abcdef".
Definition notice_id : string := newCampaignID random_bytes.
Definition at_ (now : time) (sent : result send_error unit) : answers :=
  {| an_now := now; an_random := random_bytes; an_send := sent |}.
Definition prepare_notice : answers * prog unit :=
  (at_ (10 * Second) (Ok tt), forget (Prepare sample_config operator notice)).
Definition approve_notice : answers * prog unit :=
  (at_ (20 * Second) (Ok tt), forget (Approve sample_config operator notice_id (Hash notice_text)
     (Hash (CanonicalJSON notice_audience)))).
Definition tick_at (now : time) (sent : result send_error unit) : answers * prog unit :=
  (at_ now sent, forget (Tick sample_worker)).

Definition approved_only : list (answers * prog unit) := [prepare_notice; approve_notice].
(** The connection fails at first; the message is sent by the second pass. *)
Definition full_script : list (answers * prog unit) :=
  approved_only ++ [tick_at (30 * Second) (Err SendDialError); tick_at (90 * Second) (Ok tt)].
Definition played (script : list (answers * prog unit)) : bdb * list send * world :=
  play script (sample_db, [], empty_world).

Lemma played_reachable script :
  Forall (λ ap, entry 5 {[ 100 ]} ap.2) script → ∃ ths, reachable 5 {[ 100 ]} (state_of (played script) ths).
Proof. intros Hs. exact (play_reachable 5 {[ 100 ]} script sample_db Hs). Qed.

(** What the runs reach *)
Lemma approved_run :
  ∃ s c, reachable 5 {[ 100 ]} s ∧ b_campaigns (s_db s) !! notice_id = Some c ∧ c_State c = CampaignApproved ∧
    ∃ s' c', rtc (step 5 {[ 100 ]}) s s' ∧ b_campaigns (s_db s') !! notice_id = Some c' ∧
             c_State c' = CampaignCompleted.
Proof.
  destruct (played_reachable approved_only) as [ths Hs]; [by repeat constructor |].
  destruct (play_steps 5 {[ 100 ]} (drop 2 full_script) (played approved_only).1.1 (played approved_only).1.2
    (played approved_only).2 ths) as [ths' Hr]; [by repeat constructor |].
  eexists _, _. split; [exact Hs |]. split; [by vm_compute |]. split; [by vm_compute |].
  eexists _, _. split; [exact Hr |]. split; by vm_compute.
Qed.

Lemma full_run :
  ∃ s m, reachable 5 {[ 100 ]} s ∧ m ∈ s_sent s ∧ count (sends_of (notice_id, 2) (s_sent s)) = 2.
Proof.
  destruct (played_reachable full_script) as [ths Hs]; [by repeat constructor |].
  eexists _, _. split; [exact Hs |]. split; [| by vm_compute].
  assert (head (played full_script).1.2 = Some ltac:(let x := eval vm_compute in (head (played full_script).1.2) in
    match x with Some ?m => exact m end)) as Hh by by vm_compute.
  by apply head_Some_elem_of in Hh.
Qed.
