(* ===== verification/BroadcastTheorems.v ===== *)
(** * What a broadcast guarantees

    The theorems on campaigns and deliveries, over every run of [BroadcastSafety],
    and a run that reaches a delivered message. *)

From S2P Require Import Prelude GoString Sha256 Program Linear OAuthStore Notifications Json BroadcastPolicy BroadcastStore ProductUpdates Broadcast BroadcastWorker BroadcastProps BroadcastFacts BroadcastLedger BroadcastPass BroadcastSafety BroadcastRun.

#[local] Remove Hints finite.finite_countable : typeclass_instances.

Section theorems.
Context `{UnicodeTables}.

(** C26: Whatever interleaves, and even if the stored content of a campaign is
    altered, every message handed to the Bot API carries the text an operator
    approved, under the selector the operator approved: the hashes of both are
    those of an approval made for that campaign by an identity on the operator
    list, and a campaign is approved at most once. *)
Theorem only_released_is_sent max ops s :
  0 < max → reachable max ops s →
  (∀ m, m ∈ s_sent s → ∃ ap, ap ∈ w_approved (s_world s) ∧ ap_campaign ap = bd_CampaignID (sd_delivery m) ∧
     ap_content ap = Hash (sd_text m) ∧ ap_selector ap = Hash (c_SelectorJSON (sd_campaign m)) ∧
     ap_operator ap ∈ ops) ∧
  NoDup (map ap_campaign (w_approved (s_world s))).
Proof.
  intros Hmax Hs. destruct (reachable_sound _ _ _ Hmax Hs) as (P & [Hd _ _ _ Hsent Hops]).
  split; [| apply (ok_single _ _ Hd)]. intros m (ap & Ha & Hc & Ht & Hx)%Hsent. exists ap. auto 6.
Qed.

(** C27: A recipient gets the message of a campaign at most once: of all the
    messages any worker ever sent for a campaign and a user, at most one was
    taken by Telegram or ended without an answer, and at most [max] were sent,
    the largest number of attempts a worker is configured with. *)
Theorem at_most_once max ops s campaign user :
  0 < max → reachable max ops s →
  count (deliveries_of (campaign, user) (s_sent s)) ≤ 1 ∧ count (sends_of (campaign, user) (s_sent s)) ≤ max.
Proof.
  intros Hmax Hs. destruct (reachable_sound _ _ _ Hmax Hs) as (P & [_ Hk _ _ _ _]).
  specialize (Hk (campaign, user)). unfold key_ok in Hk.
  destruct (b_deliveries (s_db s) !! (campaign, user)) as [r|]; [lia |]. destruct Hk as (_ & -> & ->). lia.
Qed.

(** Whatever interleaves, a campaign is never deleted, keeps its hashes,
    category, creator, recipient limit and expiry, only moves forward through
    its states (completed, cancelled and expired are final), keeps its approver,
    and a delivery that was closed as delivered, skipped or failed is never
    touched again. *)
Theorem campaign_history_kept max ops s s' :
  0 < max → reachable max ops s → rtc (step max ops) s s' →
  (∀ id c, b_campaigns (s_db s) !! id = Some c → ∃ c', b_campaigns (s_db s') !! id = Some c' ∧ static c c' ∧
     state_le (c_State c) (c_State c') ∧ (terminal (c_State c) → c_State c' = c_State c) ∧
     (c_State c ≠ CampaignPrepared → c_ApprovedBy c' = c_ApprovedBy c)) ∧
  (∀ k r, b_deliveries (s_db s) !! k = Some r → final (dl_status r) → b_deliveries (s_db s') !! k = Some r).
Proof.
  intros Hmax Hs Hss'. destruct (reachable_sound _ _ _ Hmax Hs) as (P & Hok).
  destruct (steps_sound _ _ _ _ _ Hmax Hok Hss') as (P' & _ & [Hc Hr] & _). split.
  - intros id c Hid. destruct (Hc _ _ Hid) as (c' & Hc' & [Hst Hle Ha]). exists c'. split_and!; [done.. | | |done].
    + by rewrite Hle.
    + intros Ht. by destruct (c_State c), (c_State c').
  - intros k r Hk Hf. destruct (Hr _ _ Hk) as (r' & Hr' & Hl). by rewrite (Hl Hf) in Hr'.
Qed.

(** C29: In every reachable state an approved or sending campaign has an approval
    for exactly its stored hashes by the user it names as approver; deliveries
    exist only for campaigns that were started, at most as many as the campaign's
    recipient limit; and all deliveries of a completed campaign are closed. *)
Theorem broadcast_tables_sound max ops s :
  0 < max → reachable max ops s →
  (∀ id c, b_campaigns (s_db s) !! id = Some c → c_State c = CampaignApproved ∨ c_State c = CampaignSending →
     ∃ ap, ap ∈ w_approved (s_world s) ∧ ap_campaign ap = id ∧ ap_content ap = c_ContentHash c ∧
           ap_selector ap = c_SelectorHash c ∧ c_ApprovedBy c = Some (ap_by ap)) ∧
  (∀ id c, b_campaigns (s_db s) !! id = Some c →
     count (map_to_list (rows_of id (b_deliveries (s_db s)))) ≤ Z.max 0 (c_RecipientLimit c)) ∧
  (∀ k r, b_deliveries (s_db s) !! k = Some r → ∃ c, b_campaigns (s_db s) !! k.1 = Some c ∧
     started (c_State c) ∧ (c_State c = CampaignCompleted → final (dl_status r))).
Proof.
  intros Hmax Hs. destruct (reachable_sound _ _ _ Hmax Hs) as (P & [Hd _ _ _ _ _]). split_and!.
  - intros id c Hc Hst. destruct (ok_campaign _ _ Hd _ _ Hc) as [<- _ _ Ha].
    destruct (Ha Hst) as (ap & Hap & ? & ? & ? & ?). by exists ap.
  - intros id c Hc. unfold count. rewrite length_map_to_list. by apply (ok_limit _ _ Hd).
  - apply (ok_home _ _ Hd).
Qed.

(** ** Before each message *)

(** Programs that send nothing *)
Fixpoint mute {R} (p : prog R) : Prop :=
  match p with
  | Ret _ | Exit => True
  | Call c k => ∀ x, mute (k x)
  | Query q k => not_send q ∧ ∀ x, mute (k x)
  end.
Lemma mute_bind {R S} (p : prog R) (f : R → prog S) : mute p → (∀ r, mute (f r)) → mute (bind p f).
Proof. induction p; cbn; naive_solver. Qed.
Lemma mute_bind_ok {A B} (p : handler A) (f : A → handler B) :
  mute p → (∀ r, mute (f r)) → mute (bind_ok p f).
Proof. intros Hp Hf. apply mute_bind; [done |]. by intros [a|e]. Qed.

Section worker.
Context (cfg : WorkerConfig).

Lemma facts_mute now u : mute (broadcastFacts now u).
Proof. cbn. intros [fs|e]; [| done]. cbn. case_match; [done |]. intros [ps|e]; [| done]. by intros [cs|e]. Qed.
Lemma recipient_mute u now : mute (GetBroadcastRecipientFacts u now).
Proof. unfold GetBroadcastRecipientFacts. case_match; [done |]. by apply mute_bind; [apply facts_mute | intros []]. Qed.
Lemma release_mute l : mute (release l).
Proof. induction l as [|d l IH]; [done |]. intros x. apply IH. Qed.
Lemma retry_mute d after now : mute (retry cfg d after now).
Proof. unfold retry. by case_match. Qed.
Lemma finish_mute d status reason : mute (finish d status reason).
Proof. done. Qed.
Lemma preSend_mute A d e : mute (preSend (A:=A) d e).
Proof. done. Qed.
Lemma storeFault_mute A d e : mute (storeFault (A:=A) cfg d e).
Proof. split; [done |]. intros now. by apply (mute_bind (retry cfg d 0 now)); [apply retry_mute |]. Qed.
Lemma fault_mute d e :
  mute (let* cancelled := ask QCancelled in if cancelled : bool then preSend (A:=unit) d e else storeFault cfg d e)%prog.
Proof. split; [done |]. intros [|]; [apply preSend_mute | apply storeFault_mute]. Qed.
Lemma record_mute d r : mute (record cfg d r).
Proof.
  split; [done |]. intros now. destruct r as [[]|[e| |what]]; [by intros ? ? | | apply retry_mute | by intros ?].
  cbn -[retry ClassifyDelivery]. case_match; [by intros ? ? |]. case_match; [apply retry_mute | by intros ?].
Qed.
Lemma startOne_mute facts now c : mute (startOne cfg facts now c).
Proof.
  unfold startOne. destruct (campaignSelector c); [| done]. destruct (Resolve _ _ _ _). by repeat case_match.
Qed.
Lemma start_all_mute facts now l : mute (start_all cfg facts now l).
Proof.
  induction l as [|c l IH]; [done |]. cbn [start_all]. apply mute_bind_ok; [apply startOne_mute |]. intros _. apply IH.
Qed.
Lemma startApproved_mute now : mute (startApproved cfg now).
Proof.
  unfold startApproved. apply mute_bind_ok; [done |]. intros l. case_match; [done |].
  apply mute_bind_ok; [apply facts_mute |]. intros facts. apply start_all_mute.
Qed.

(** What a worker saw when it hands over a message: it claimed the delivery;
    after that it read the campaign, which was sending and intact; after that it
    read the recipient's account, preferences and grants, and they are eligible
    under the campaign's selector; and after waiting for its turn the clock left
    time for the send within the lease of the claim. *)
Definition checked (tr : list (obs bc_error bcall bquery)) (c : BroadcastCampaign) (d : BroadcastDelivery)
    (chat : Z) (text : string) : Prop :=
  ∃ t2 t1 te tf fs ps cs f sel claimedAt limit ds tr',
    tr = OQuery QNow t2 :: OQuery QWait (Ok tt) :: OQuery QNow t1 :: OQuery QNow te
         :: OCall (CSelectClients (bd_UserID d) tf) (Ok cs) :: OCall (CSelectPrefs (bd_UserID d)) (Ok ps)
         :: OCall (CSelectUsers (bd_UserID d)) (Ok fs) :: OQuery QNow tf
         :: OCall (CGetCampaign (bd_CampaignID d)) (Ok c) :: tr' ∧
    OCall (CClaim limit claimedAt) (Ok ds) ∈ tr' ∧ d ∈ ds ∧
    c_State c = CampaignSending ∧ campaignSelector c = Ok sel ∧
    head (foldl add_client (foldl add_pref fs ps) cs) = Some f ∧
    chat = bf_TelegramID f ∧ text = c_Content c ∧
    dc_Eligible (Evaluate sel f (wc_Policy cfg) te) = true ∧
    time_sub t2 claimedAt ≤ wc_Lease cfg - sendTimeout.
Definition send_checked (A : Type) (tr : list (obs bc_error bcall bquery)) (q : bquery A) : Prop :=
  match q with QSend c d chat text => checked tr c d chat text | _ => True end.

Lemma mute_asks {R} tr (p : prog R) : mute p → asks send_checked (λ _ _, True) tr p.
Proof.
  revert tr. induction p as [r|A c k IH|A q k IH|]; intros tr; cbn; [done | auto | | done].
  intros [Hq Hk]. split; [by destruct q | auto].
Qed.

Lemma asks_extends {R} tr (p : prog R) :
  asks send_checked (λ _ _, True) tr p → asks send_checked (λ tr' _, ∃ l, tr' = l ++ tr) tr p.
Proof. apply asks_mono. intros l r _. by exists l. Qed.

Lemma mute_then {R S} tr (p : prog R) (f : R → prog S) :
  mute p → (∀ l r, asks send_checked (λ _ _, True) (l ++ tr) (f r)) → asks send_checked (λ _ _, True) tr (bind p f).
Proof.
  intros Hp Hf. apply asks_bind. eapply asks_mono; [| apply (mute_asks _ _ Hp)]. intros l r _. apply Hf.
Qed.

Lemma deliver_checked tr d limit at_ ds :
  OCall (CClaim limit at_) (Ok ds) ∈ tr → d ∈ ds → asks send_checked (λ _ _, True) tr (deliver cfg d at_).
Proof.
  intros Htr Hd. unfold deliver, open_campaign. cbn -[finish storeFault preSend campaignSelector open_recipient].
  intros [c|e]; [| apply mute_asks, fault_mute].
  destruct (in_state CampaignSending c) eqn:Hst; cbn -[finish storeFault campaignSelector open_recipient];
    [| apply mute_asks, finish_mute].
  destruct (campaignSelector c) as [sel|e] eqn:Hsel.
  2:{ apply mute_asks. split; [done |]. intros now [[]|e']; [done |].
      destruct e'; try apply storeFault_mute; apply finish_mute. }
  unfold open_recipient. cbn -[finish storeFault preSend GetBroadcastRecipientFacts send_slot].
  split; [done |]. intros tf. unfold GetBroadcastRecipientFacts.
  case_match; [apply mute_asks, fault_mute |].
  cbn -[finish storeFault preSend send_slot Evaluate]. intros [fs|e]; [| apply mute_asks, fault_mute].
  cbn -[finish storeFault preSend send_slot Evaluate]. case_match eqn:Hfs.
  { bool_to_Prop. subst fs. apply mute_asks, finish_mute. }
  cbn -[finish storeFault preSend send_slot Evaluate]. intros [ps|e]; [| apply mute_asks, fault_mute].
  cbn -[finish storeFault preSend send_slot Evaluate]. intros [cs|e]; [| apply mute_asks, fault_mute].
  cbn -[finish storeFault preSend send_slot Evaluate].
  destruct (head (foldl add_client (foldl add_pref fs ps) cs)) as [f|] eqn:Hf; [| apply mute_asks, finish_mute].
  cbn -[finish send_slot Evaluate]. split; [done |]. intros te.
  destruct (dc_Eligible (Evaluate sel f (wc_Policy cfg) te)) eqn:Hel; cbn -[finish send_slot];
    [| apply mute_asks, finish_mute].
  unfold send_slot, leaseExhausted. cbn -[preSend record]. split; [done |]. intros t1.
  case_match; [apply mute_asks, preSend_mute |]. cbn -[preSend record]. split; [done |].
  intros [[]|e]; [| apply mute_asks, preSend_mute]. cbn -[preSend record]. split; [done |]. intros t2.
  case_match eqn:Hl; [apply mute_asks, preSend_mute |]. cbn -[record]. split; [| intros x; apply (mute_asks _ (record cfg d x)), record_mute].
  unfold in_state in Hst. bool_to_Prop. exists t2, t1, te, tf, fs, ps, cs, f, sel, at_, limit, ds, tr. auto 12.
Qed.

Lemma batch_checked tr limit at_ ds l :
  OCall (CClaim limit at_) (Ok ds) ∈ tr → l ⊆ ds → asks send_checked (λ _ _, True) tr (deliver_batch cfg at_ l).
Proof.
  revert tr. induction l as [|d l IH]; intros tr Htr Hl; [done |]. cbn [deliver_batch]. apply asks_bind.
  eapply asks_mono; [| eapply deliver_checked; [exact Htr | apply Hl; by left]].
  intros l' [[]|e] _; [| apply mute_asks, mute_bind; [apply release_mute | intros _; by destruct e]].
  apply IH; [apply elem_of_app; by right |]. intros d' Hd'. apply Hl. by right.
Qed.

(** C28: Whatever the database, the clock and the limiter answer, each message a
    pass of the worker hands to the Bot API is for a delivery it claimed in this
    pass, and was preceded, in this order and immediately before it, by reading
    the campaign (sending, content and selector intact), reading the recipient
    (eligible under that selector), waiting for the rate limiter, and seeing on
    the clock that the send ends within the lease of the claim. *)
Theorem Tick_checked : asks send_checked (λ _ _, True) [] (Tick cfg).
Proof.
  unfold Tick. apply mute_then; [done |]. intros l0 now.
  apply mute_then; [done |]. intros l1 [n1|e]; [| done].
  apply mute_then; [done |]. intros l2 [n2|e]; [| done].
  apply mute_then; [apply startApproved_mute |]. intros l3 [[]|e]; [| done].
  apply mute_then; [done |]. intros l4 [n4|e]; [| done].
  apply mute_then; [done |]. intros l5 at_. cbn -[deliver_batch bind_ok]. generalize (l5 ++ l4 ++ l3 ++ l2 ++ l1 ++ l0 ++ []).
  intros tr. cbn -[deliver_batch]. intros [ds|e]; [| done]. cbn -[deliver_batch]. apply asks_bind.
  eapply asks_mono; [| eapply batch_checked; [by left | done]]. intros l [[]|e] _; done.
Qed.

(** ** A pass on its own *)

(** C30: a pass that no other program interrupts leaves nothing it claimed in
    flight - whatever the clock, the limiter and the Bot API answer, each
    delivery was closed, put off or handed back - and when it ends without an
    error every campaign that is still sending has a delivery that is pending,
    or was in flight already before the pass. *)
Theorem pass_settles d :
  (∀ id c, b_campaigns d !! id = Some c → c_ID c = id) →
  alone (Tick cfg) d (λ r d',
    (∀ k, in_flight d' k → in_flight d k) ∧
    (∀ ids, r = Ok ids → ∀ id c, b_campaigns d' !! id = Some c → c_State c = CampaignSending →
       ∃ k row, b_deliveries d' !! k = Some row ∧ k.1 = id ∧
         (dl_status row = DeliveryPending ∨ dl_status row = DeliverySending ∧ in_flight d k))).
Proof.
  intros Hd. eapply alone_mono; [| apply pass_alone; exact Hd]. intros r d' [Hs Hr]. split; [apply Hs |].
  intros ids ->. apply Hr. by exists ids.
Qed.
End worker.

(** The report of a campaign that is not stored is refused; otherwise it
    carries the state the campaign has and is exact: each of its numbers is the
    number of stored deliveries with that outcome, so that every delivery is
    counted in one place. *)
Theorem report_is_exact id d :
  alone (BuildReport id) d (λ r d', d' = d ∧
    match b_campaigns d !! id with
    | None => r = Err ErrCampaignNotFound
    | Some c => ∃ rep, r = Ok rep ∧ re_CampaignID rep = c_ID c ∧ re_State rep = c_State c ∧ exact_report id d rep
    end).
Proof.
  intros now. cbn [m_op broadcast_machine bcall_op]. unfold GetBroadcastCampaign. destruct (b_campaigns d !! id) as [c|] eqn:Hc; [| by split].
  intros now'. cbn [m_op broadcast_machine bcall_op]. destruct (counts_exact id c d) as (counts & -> & He). split; [done |].
  eexists. split; [reflexivity |].
  assert (∀ l r, re_CampaignID (foldl tally r l) = re_CampaignID r ∧ re_State (foldl tally r l) = re_State r) as Hk.
  { clear. induction l as [|n l IH]; intros r; [done |]. cbn [foldl]. destruct (IH (tally r n)) as [-> ->].
    unfold tally. by repeat case_match. }
  destruct (Hk counts (empty_report c)) as [-> ->]. done.
Qed.
End theorems.

(** ** Witnesses *)
#[local] Existing Instance ascii_tables.

Lemma only_released_is_sent_witness :
  ∃ s m, reachable 5 {[ 100 ]} s ∧ m ∈ s_sent s ∧
    ∃ ap, ap ∈ w_approved (s_world s) ∧ ap_content ap = Hash (sd_text m).
Proof.
  destruct full_run as (s & m & Hs & Hm & _). exists s, m. split_and!; [done.. |].
  destruct (only_released_is_sent 5 {[ 100 ]} s eq_refl Hs) as [Hr _].
  destruct (Hr m Hm) as (ap & Ha & _ & Ht & _). by exists ap.
Defined.

Lemma at_most_once_witness :
  ∃ s, reachable 5 {[ 100 ]} s ∧ count (sends_of (notice_id, 2) (s_sent s)) = 2 ∧
    count (deliveries_of (notice_id, 2) (s_sent s)) ≤ 1.
Proof.
  destruct full_run as (s & m & Hs & _ & Hc). exists s. split_and!; [done.. |].
  apply (at_most_once 5 {[ 100 ]} s notice_id 2 eq_refl Hs).
Defined.

Lemma campaign_history_kept_witness :
  ∃ s s' c c', reachable 5 {[ 100 ]} s ∧ b_campaigns (s_db s) !! notice_id = Some c ∧
    c_State c = CampaignApproved ∧ b_campaigns (s_db s') !! notice_id = Some c' ∧
    c_State c' = CampaignCompleted ∧ static c c' ∧ c_ApprovedBy c' = c_ApprovedBy c.
Proof.
  destruct approved_run as (s & c & Hs & Hc & Hst & s' & c' & Hr & Hc' & Hst').
  destruct (campaign_history_kept 5 {[ 100 ]} s s' eq_refl Hs Hr) as [Hh _].
  destruct (Hh _ _ Hc) as (c2 & Hc2 & Hx & _ & _ & Ha). rewrite Hc' in Hc2. injection Hc2 as <-.
  exists s, s', c, c'. split_and!; [done.. |]. apply Ha. by rewrite Hst.
Defined.

Lemma broadcast_tables_sound_witness :
  ∃ s c, reachable 5 {[ 100 ]} s ∧ b_campaigns (s_db s) !! notice_id = Some c ∧ c_State c = CampaignApproved ∧
    ∃ ap, ap ∈ w_approved (s_world s) ∧ ap_content ap = c_ContentHash c.
Proof.
  destruct approved_run as (s & c & Hs & Hc & Hst & _). exists s, c. split_and!; [done.. |].
  destruct (broadcast_tables_sound 5 {[ 100 ]} s eq_refl Hs) as [Ha _].
  destruct (Ha _ _ Hc (or_introl Hst)) as (ap & Hap & _ & Ht & _). by exists ap.
Defined.

Lemma pass_settles_witness :
  ∃ d c, b_campaigns d !! notice_id = Some c ∧ c_State c = CampaignApproved ∧
    alone (Tick sample_worker) d (λ _ d', ∀ k, in_flight d' k → in_flight d k).
Proof.
  destruct approved_run as (s & c & Hs & Hc & Hst & _). exists (s_db s), c. split_and!; [done.. |].
  destruct (reachable_sound 5 {[ 100 ]} s eq_refl Hs) as (P & [Hd _ _ _ _ _]).
  eapply alone_mono; [| apply (pass_settles sample_worker (s_db s))]; [by intros r d' [Hk _] |].
  intros id c' Hc'. apply (co_id _ _ _ (ok_campaign _ _ Hd _ _ Hc')).
Defined.
