(* ===== verification/DigestProps.v ===== *)
(** * Frozen digests and the campaigns made from them

    Over every run of [BroadcastSafety]: a campaign names a digest that is
    stored, a category has one active digest campaign, and an entry is carried
    by the versions of one digest. *)

From S2P Require Import Prelude GoString Program Linear OAuthStore Notifications Json BroadcastPolicy BroadcastStore ProductUpdates Broadcast BroadcastWorker BroadcastProps BroadcastLedger BroadcastSafety BroadcastRun.

#[local] Remove Hints finite.finite_countable : typeclass_instances.

(** The entry tables agree: an entry belongs to the digest that carries it, and
    to no digest that does not. *)
Record entries_agree (d : bdb) : Prop := {
  en_owner id v e : (id, v, e) ∈ b_publications d → b_owners d !! e = Some id;
  en_backed id e : b_owners d !! e = Some id → ∃ v, (id, v, e) ∈ b_publications d;
}.
Record sources_ok (d : bdb) : Prop := {
  so_stored id c ref :
    b_campaigns d !! id = Some c → c_SourceRef c = Some ref → digest_matches ref (c_Category c) d = true;
  so_single id id' c c' :
    b_campaigns d !! id = Some c → b_campaigns d !! id' = Some c' → is_Some (c_SourceRef c) →
    is_Some (c_SourceRef c') → active (c_State c) → active (c_State c') → c_Category c = c_Category c' → id = id';
}.

(** ** Statements that leave sources alone *)
Record source_kept (c c' : BroadcastCampaign) : Prop := {
  sk_category : c_Category c' = c_Category c;
  sk_source : c_SourceRef c' = c_SourceRef c;
  sk_active : active (c_State c') → active (c_State c);
}.
#[global] Instance source_kept_refl : Reflexive source_kept.
Proof. by split. Qed.

Record frame (d d' : bdb) : Prop := {
  fr_digests : b_digests d' = b_digests d;
  fr_publications : b_publications d' = b_publications d;
  fr_owners : b_owners d' = b_owners d;
  fr_campaign id c' : b_campaigns d' !! id = Some c' →
    c_SourceRef c' = None ∨ ∃ c, b_campaigns d !! id = Some c ∧ source_kept c c';
}.

Lemma frame_same d d' :
  b_digests d' = b_digests d → b_publications d' = b_publications d → b_owners d' = b_owners d →
  b_campaigns d' = b_campaigns d → frame d d'.
Proof. intros ? ? ? Hc. split; [done.. |]. intros id c'. rewrite Hc. intros Hid. right. by exists c'. Qed.

Lemma frame_update id p f d :
  (∀ c, p c = true → source_kept c (f c)) → frame d (update_campaign id p f d).2.
Proof.
  intros Hf. unfold update_campaign. destruct (b_campaigns d !! id) as [c|] eqn:Hc; [| by apply frame_same].
  case_match eqn:Hp; [| by apply frame_same]. split; [done.. |]. intros id' c'. cbn.
  intros [[<- <-]|[_ Hc']]%lookup_insert_Some; right; [exists c; auto | by exists c'].
Qed.
Lemma frame_where p f d :
  (∀ c, p c = true → source_kept c (f c)) →
  frame d (d <|b_campaigns := (update_where (λ _, p) f (b_campaigns d)).2|>).
Proof.
  intros Hf. split; [done.. |]. intros id c'. cbn. rewrite map_lookup_imap.
  destruct (b_campaigns d !! id) as [c|] eqn:Hc; [| done]. cbn. intros [= <-]. right. exists c. split; [done |].
  destruct (p c) eqn:Hp; [by apply Hf | done].
Qed.

Lemma frame_digest_matches d d' ref category : frame d d' → digest_matches ref category d' = digest_matches ref category d.
Proof. intros [Hd _ _ _]. unfold digest_matches. by rewrite Hd. Qed.

Lemma frame_ok d d' : frame d d' → sources_ok d → sources_ok d'.
Proof.
  intros Hf [Hst Hsg]. split.
  - intros id c' ref Hc' Href. rewrite (frame_digest_matches _ _ _ _ Hf).
    destruct (fr_campaign _ _ Hf _ _ Hc') as [Hn|(c & Hc & [Hcat Hsrc _])]; [congruence |].
    rewrite Hcat. eapply Hst; [exact Hc | congruence].
  - intros id id' c1' c2' H1 H2 S1 S2 A1 A2 Hcat.
    destruct (fr_campaign _ _ Hf _ _ H1) as [Hn|(c1 & Hc1 & [Hcat1 Hsrc1 Ha1])]; [rewrite Hn in S1; by destruct S1 |].
    destruct (fr_campaign _ _ Hf _ _ H2) as [Hn|(c2 & Hc2 & [Hcat2 Hsrc2 Ha2])]; [rewrite Hn in S2; by destruct S2 |].
    eapply Hsg; [exact Hc1 | exact Hc2 | congruence | congruence | auto | auto | congruence].
Qed.
Lemma frame_entries d d' : frame d d' → entries_agree d → entries_agree d'.
Proof. intros [_ Hp Ho _] [Hen Hb]. split; rewrite Hp, Ho; auto. Qed.

Section ops.
Context `{UnicodeTables}.

Definition makes_source {A} (c : bcall A) : bool :=
  match c with CInsertSourced _ _ _ | CSetSource _ _ _ => true | _ => false end.

Lemma kept_state c s : active s → active (c_State c) → ∀ c',
  c_State c' = s → c_Category c' = c_Category c → c_SourceRef c' = c_SourceRef c → source_kept c c'.
Proof. intros _ Hc c' _ ? ?. by split. Qed.

Lemma frame_put_manual c now d :
  b_campaigns d !! c_ID c = None → frame d (put_campaign (prepared_row c None now) d).
Proof.
  intros Hc. split; [done.. |]. intros id c'. cbn. intros [[<- <-]|[_ Hc']]%lookup_insert_Some; [by left | right].
  by exists c'.
Qed.

Lemma frame_sending k f d : frame d (update_sending k f d).
Proof. unfold update_sending. repeat case_match; by apply frame_same. Qed.

Lemma update_campaign_frame id p f d n d' :
  update_campaign id p f d = (n, d') → (∀ c, p c = true → source_kept c (f c)) → frame d d'.
Proof. intros Hu Hf. pose proof (frame_update id p f d Hf) as Hfr. by rewrite Hu in Hfr. Qed.

Lemma op_frame A (c : bcall A) now locked d a d' :
  makes_source c = false → bcall_op now locked c d = Ok (a, d') → frame d d'.
Proof.
  intros Hm Hop.
  assert (∀ c s, in_state s c = true → active s → ∀ c', c_Category c' = c_Category c → c_SourceRef c' = c_SourceRef c →
    source_kept c c') as Hstate.
  { intros c0 s Hs Ha c' ? ?. unfold in_state in Hs. bool_to_Prop. split; [done.. |]. intros _. by rewrite Hs. }
  destruct c; try done;
    cbv beta delta [bcall_op reading insert_manual GetBroadcastCampaign ListBroadcastCampaigns
      approve_row expire_row cancel_row EndBroadcastCampaign HaltBroadcastCampaign StartBroadcastCampaign
      BroadcastDeliveryCounts select_users select_prefs select_clients] in Hop; cbv iota beta in Hop;
    try (match type of Hop with context [update_campaign ?i ?p ?f ?d] =>
           destruct (update_campaign i p f d) as [n d2] eqn:Hu;
           apply update_campaign_frame in Hu;
             [| intros c0 Hp; first [by eapply Hstate | by split; [..| intros _; rewrite Hp]
                | unfold approvable in Hp; bool_to_Prop; by eapply Hstate] ]; cbn in Hop end).
  all: try (repeat (injection Hop as <- <- || case_match); simplify_eq; first [done | by apply frame_same]).
  - destruct (b_campaigns d !! c_ID c) eqn:Hc; [done |]. case_match; [| done]. injection Hop as <-. subst.
    by apply frame_put_manual.
  - injection Hop as _ <-. apply frame_where. intros c Hc. unfold lapsed in Hc. bool_to_Prop.
    by eapply (Hstate c CampaignPrepared).
  - repeat case_match; try done. simplify_eq. destruct Hu as [? ? ? Hc]. by split.
  - unfold FinishBroadcastDelivery in Hop. case_match; [| done]. injection Hop as <- <-. apply frame_sending.
  - injection Hop as <- <-. apply frame_sending.
  - injection Hop as <- <-. apply frame_sending.
  - injection Hop as _ <-. apply (frame_where (completes d)). intros c Hc. unfold completes in Hc. bool_to_Prop.
    by eapply (Hstate c CampaignSending).
Qed.

(** ** Statements that name a source *)
Lemma busy_false category d id c :
  category_busy category d = false → b_campaigns d !! id = Some c → active (c_State c) → c_Category c ≠ category.
Proof.
  intros Hb Hc Ha Hcat. apply not_true_iff_false in Hb. destruct Hb. apply existsb_elem_of. exists (id, c).
  split; [by apply elem_of_map_to_list |]. cbn. rewrite bool_decide_true by done. by apply Is_true_true.
Qed.
Lemma taken_false c0 d id c :
  index_taken c0 d = false → b_campaigns d !! id = Some c → active (c_State c) → is_Some (c_SourceRef c) →
  c_Category c ≠ c_Category c0.
Proof.
  intros Hb Hc Ha Hs Hcat. apply not_true_iff_false in Hb. destruct Hb. apply existsb_elem_of. exists (id, c).
  split; [by apply elem_of_map_to_list |]. cbn. rewrite !bool_decide_true by done. by apply Is_true_true.
Qed.

(** Adding, or giving a source to, one campaign of a category without an active
    digest campaign *)
Lemma sources_insert d id c ref :
  sources_ok d → c_SourceRef c = Some ref → digest_matches ref (c_Category c) d = true →
  (∀ id' c', b_campaigns d !! id' = Some c' → active (c_State c') → is_Some (c_SourceRef c') →
     c_Category c' ≠ c_Category c) →
  sources_ok (d <|b_campaigns := <[id := c]> (b_campaigns d)|>).
Proof.
  intros [Hst Hsg] Href Hm Hfree. split.
  - intros id' c' ref'. cbn. intros [[<- <-]|[_ Hc']]%lookup_insert_Some Href'.
    + rewrite Href in Href'. by injection Href' as <-.
    + by apply (Hst _ _ _ Hc').
  - intros id1 id2 c1 c2. cbn. intros [[<- <-]|[N1 H1]]%lookup_insert_Some [[<- <-]|[N2 H2]]%lookup_insert_Some S1 S2 A1 A2 Hcat.
    + done.
    + by destruct (Hfree _ _ H2 A2 S2).
    + by destruct (Hfree _ _ H1 A1 S1).
    + by eapply Hsg.
Qed.

Lemma op_sources A (c : bcall A) now locked d a d' :
  bcall_op now locked c d = Ok (a, d') → sources_ok d ∧ entries_agree d → sources_ok d' ∧ entries_agree d'.
Proof.
  intros Hop [Hs He]. destruct (makes_source c) eqn:Hm.
  2:{ pose proof (op_frame _ _ _ _ _ _ _ Hm Hop) as Hf. split; [by eapply frame_ok | by eapply frame_entries]. }
  destruct c; try done; cbn in Hop.
  - unfold insert_sourced in Hop. case_match eqn:Hg; [| by simplify_eq]. bool_to_Prop.
    destruct (b_campaigns d !! c_ID c) eqn:Hc; [by simplify_eq |]. case_match; [| done]. injection Hop as <- <-.
    split; [| by destruct He; split]. apply (sources_insert d (c_ID c) _ ref); [done.. |].
    intros id' c' Hc' Ha _. by eapply busy_false.
  - unfold set_source_row in Hop. destruct (b_campaigns d !! id) as [c|] eqn:Hc; [| by simplify_eq].
    case_match eqn:Hg; [| by simplify_eq]. destruct (index_taken c d) eqn:Ht; [done |]. injection Hop as <- <-. bool_to_Prop.
    split; [| by destruct He; split]. apply (sources_insert d id _ ref); [done.. |].
    intros id' c' Hc' Ha Hsome. by eapply taken_false.
Qed.
End ops.

(** ** Saving and discarding *)
Lemma publish_entry_agree id v d e d' :
  publish_entry id v d e = Ok d' → entries_agree d →
  entries_agree d' ∧ b_campaigns d' = b_campaigns d ∧ b_digests d' = b_digests d.
Proof.
  unfold publish_entry. case_bool_decide as Ho; [| done]. intros [= <-] [Hen Hb]. split; [| done]. split; cbn.
  - intros id' v' e' [Hin%elem_of_singleton|Hin]%elem_of_union; [injection Hin as -> -> ->; by rewrite lookup_insert_eq |].
    apply Hen in Hin. destruct (decide (e = e')) as [<-|Hne]; [| by rewrite lookup_insert_ne].
    rewrite lookup_insert_eq. rewrite Hin in Ho. cbn in Ho. by subst.
  - intros id' e'. intros [[<- <-]|[_ Hl]]%lookup_insert_Some.
    + exists v. apply elem_of_union. left. by apply elem_of_singleton.
    + destruct (Hb _ _ Hl) as [v' Hv']. exists v'. apply elem_of_union. by right.
Qed.
Lemma publish_entries_agree id v l d d' :
  publish_entries id v l d = Ok d' → entries_agree d →
  entries_agree d' ∧ b_campaigns d' = b_campaigns d ∧ b_digests d' = b_digests d.
Proof.
  revert d. induction l as [|e l IH]; intros d; cbn; [by intros [= <-] |].
  intros (d1 & H1 & H2)%rbind_Ok He. destruct (publish_entry_agree _ _ _ _ _ H1 He) as (He1 & Hc1 & Hd1).
  destruct (IH _ H2 He1) as (He2 & Hc2 & Hd2). rewrite Hc2, Hd2. done.
Qed.

Lemma digest_matches_more ref category d d' :
  (∀ k g, b_digests d !! k = Some g → b_digests d' !! k = Some g) →
  digest_matches ref category d = true → digest_matches ref category d' = true.
Proof. unfold digest_matches. intros Hk. destruct (b_digests d !! _) as [g|] eqn:Hg; [| done]. by rewrite (Hk _ _ Hg). Qed.

Lemma save_agree dig now d w d' :
  SaveProductUpdateDigest dig now d = Ok (w, d') → sources_ok d ∧ entries_agree d → sources_ok d' ∧ entries_agree d'.
Proof.
  unfold SaveProductUpdateDigest. case_match; [done |]. cbn -[publish_entries GetProductUpdateDigest sort_strings].
  destruct (GetProductUpdateDigest _ _ _) as [existing|e] eqn:Hget.
  - by intros (v & _ & [= <- <-])%rbind_Ok.
  - destruct e; try done. do 2 (case_match; [done |]). intros (d2 & Hp & [= <- <-])%rbind_Ok [[Hst Hsg] [Hen Hb]].
    apply publish_entries_agree in Hp as (He & Hc & Hd); [| by split]. cbn in Hc, Hd. split; [| done].
    assert (b_digests d !! (pd_ID dig, pd_Version dig) = None) as Hnew.
    { unfold GetProductUpdateDigest in Hget. destruct (b_digests d !! _); [by case_match | done]. }
    split; rewrite Hc; [| exact Hsg]. intros id c ref Hid Href. eapply digest_matches_more; [| by eapply Hst].
    intros k g Hk. rewrite Hd. rewrite lookup_insert_ne; [done | congruence].
Qed.

Lemma discard_agree id v ch d d' :
  DiscardUnusedProductUpdateDigest id v ch d = Ok d' → sources_ok d ∧ entries_agree d → sources_ok d' ∧ entries_agree d'.
Proof.
  unfold DiscardUnusedProductUpdateDigest. destruct (b_digests d !! (id, v)) as [g|] eqn:Hg; [| done].
  case_match; [done |]. destruct (existsb _ _) eqn:Hused; [done |]. intros [= <-] [[Hst Hsg] [Hen Hb]]. split; split; cbn.
  - intros id' c ref Hc Href. specialize (Hst _ _ _ Hc Href). unfold digest_matches in *. cbn.
    rewrite lookup_delete_ne; [done |]. intros [= -> ->]. apply not_true_iff_false in Hused. destruct Hused.
    apply existsb_elem_of. exists (id', c). split; [by apply elem_of_map_to_list |]. unfold names_digest. cbn. rewrite Href.
    by rewrite !bool_decide_true.
  - exact Hsg.
  - intros id' v' e [Hne Hin]%elem_of_filter. apply map_lookup_filter_Some. split; [by eapply Hen |]. cbn.
    intros [-> Hp]. apply not_true_iff_false in Hp. destruct Hp. apply existsb_elem_of. exists (id, v', e).
    split; [by apply elem_of_elements, elem_of_filter |]. cbn. by rewrite !bool_decide_true.
  - intros id' e [Ho Hf]%map_lookup_filter_Some. cbn in Hf. destruct (decide (id' = id)) as [->|Hne].
    + destruct (published_by _ _ _) eqn:Hp; [| by destruct Hf]. apply existsb_elem_of in Hp as ([[i v'] e'] & Hin & Hp).
      apply elem_of_elements in Hin. cbn in *. bool_to_Prop. subst. by exists v'.
    + destruct (Hb _ _ Ho) as [v' Hv']. exists v'. apply elem_of_filter. split; [| done]. cbn. congruence.
Qed.

(** ** Every run *)
Section runs.
Context `{UnicodeTables}.

Lemma step_sources max ops s s' :
  step max ops s s' → sources_ok (s_db s) ∧ entries_agree (s_db s) → sources_ok (s_db s') ∧ entries_agree (s_db s').
Proof.
  intros [d Hout|p Hp|i A c k now locked a d Hi Hop|i A c k now locked a d e Hi Hop|i A c k e Hi|i A q k x Hi|i] Hok;
    cbn [s_db] in *; try done; try by eapply op_sources.
  destruct Hout as [users notify toks|dig now w d Hsave|id v ch d Hdisc|id content selector].
  - destruct Hok as [[Hst Hsg] [Hen Hb]]. split; split; [exact Hst | exact Hsg | exact Hen | exact Hb].
  - by eapply save_agree.
  - by eapply discard_agree.
  - destruct Hok as [[Hst Hsg] [Hen Hb]]. split; [| by split].
    assert (∀ id' c, alter (altered content selector) id (b_campaigns (s_db s)) !! id' = Some c →
      ∃ c0, b_campaigns (s_db s) !! id' = Some c0 ∧ c_SourceRef c = c_SourceRef c0 ∧ c_Category c = c_Category c0 ∧
            c_State c = c_State c0) as Halter.
    { intros id' c. rewrite lookup_alter. case_decide; [subst | intros Hc; by exists c].
      intros (c0 & Hc0 & ->)%fmap_Some. by exists c0. }
    split; cbn.
    + intros id' c ref (c0 & Hc0 & Hr & Hcat & _)%Halter Href. rewrite Hcat. eapply Hst; [exact Hc0 | congruence].
    + intros id1 id2 c1 c2 (x1 & X1 & R1 & C1 & T1)%Halter (x2 & X2 & R2 & C2 & T2)%Halter.
      rewrite R1, R2, C1, C2, T1, T2. by apply Hsg.
Qed.

(** C33: In every state the server reaches from tables whose entries agree: a
    campaign made from a digest names a digest version that is stored, with the
    same content hash and category, so no digest a campaign was made from is
    ever discarded; a category has at most one prepared, approved or sending
    digest campaign; and a feed entry is carried by the versions of one digest
    only, the published entries being exactly those some other digest carries. *)
Theorem digest_sources_sound max ops d s :
  entries_agree d → rtc (step max ops) (start d) s →
  (∀ id c ref, b_campaigns (s_db s) !! id = Some c → c_SourceRef c = Some ref →
     ∃ g, b_digests (s_db s) !! (sr_DigestID ref, sr_DigestVersion ref) = Some g ∧
          dg_content_hash g = sr_ContentHash ref ∧ dg_category g = c_Category c) ∧
  (∀ id id' c c', b_campaigns (s_db s) !! id = Some c → b_campaigns (s_db s) !! id' = Some c' →
     is_Some (c_SourceRef c) → is_Some (c_SourceRef c') → active (c_State c) → active (c_State c') →
     c_Category c = c_Category c' → id = id') ∧
  (∀ id id' v v' e, (id, v, e) ∈ b_publications (s_db s) → (id', v', e) ∈ b_publications (s_db s) → id = id') ∧
  (∀ id e, e ∈ PublishedProductUpdateEntries id (s_db s) ↔
     ∃ id' v, id' ≠ id ∧ (id', v, e) ∈ b_publications (s_db s)).
Proof.
  intros Hd Hr.
  assert (sources_ok (s_db s) ∧ entries_agree (s_db s)) as [[Hst Hsg] [Hen Hb]].
  { assert (sources_ok (s_db (start d)) ∧ entries_agree (s_db (start d))) as Hok.
    { split; [split; cbn; intros ? ? ? |]; [done.. | by destruct Hd; split]. }
    revert Hok. induction Hr as [s|s s1 s2 Hs _ IH]; [done |]. intros Hok. apply IH. by eapply step_sources. }
  split_and!.
  - intros id c ref Hc Href. specialize (Hst _ _ _ Hc Href). unfold digest_matches in Hst.
    destruct (b_digests (s_db s) !! _) as [g|]; [| done]. bool_to_Prop. by exists g.
  - exact Hsg.
  - intros id id' v v' e H1%Hen H2%Hen. congruence.
  - intros id e. unfold PublishedProductUpdateEntries. rewrite elem_of_dom. split.
    + intros [id' [Ho Hne]%map_lookup_filter_Some]. cbn in Hne. destruct (Hb _ _ Ho) as [v Hv]. by exists id', v.
    + intros (id' & v & Hne & Hin%Hen). exists id'. by apply map_lookup_filter_Some.
Qed.
End runs.

(** ** A campaign made from a digest *)
#[local] Existing Instance ascii_tables.

Definition sample_digest : ProductUpdateDigest := {|
  pd_ID := "2025-01"; pd_Version := 1; pd_Category := "maintenance"; pd_ContentHash := "h1";
  pd_SourceRefs := ["PR 1"]; pd_EntryIDs := ["export-chat"]; pd_CreatedBy := 1; pd_CreatedAt := 0 |}.
Definition sample_ref : CampaignSourceRef := {| sr_DigestID := "2025-01"; sr_DigestVersion := 1; sr_ContentHash := "h1" |}.
Definition saved_db : bdb :=
  match SaveProductUpdateDigest sample_digest 5 sample_db with Ok (_, d) => d | Err _ => sample_db end.
Definition prepare_digest : answers * prog unit :=
  (at_ (10 * Second) (Ok tt), forget (Prepare sample_config operator
     {| pq_Selector := pq_Selector notice; pq_Text := pq_Text notice; pq_SourceRef := Some sample_ref |})).

Lemma digest_sources_sound_witness :
  ∃ s c, rtc (step 5 {[ 100 ]}) (start sample_db) s ∧ b_campaigns (s_db s) !! notice_id = Some c ∧
    c_SourceRef c = Some sample_ref ∧
    ∃ g, b_digests (s_db s) !! ("2025-01", 1) = Some g ∧ dg_content_hash g = "h1" ∧ dg_category g = c_Category c.
Proof.
  assert (SaveProductUpdateDigest sample_digest 5 sample_db = Ok (true, saved_db)) as Hsave by (vm_compute; reflexivity).
  destruct (play_steps 5 {[ 100 ]} [prepare_digest] saved_db [] empty_world []) as [ths Hr]; [by repeat constructor |].
  set (s := state_of _ ths) in Hr.
  assert (∃ c, b_campaigns (s_db s) !! notice_id = Some c ∧ c_SourceRef c = Some sample_ref) as (c & Hc & Href)
    by (eexists; split; by vm_compute).
  assert (rtc (step 5 {[ 100 ]}) (start sample_db) s) as Hrun.
  { eapply rtc_l; [apply (step_outside _ _ _ saved_db); by eapply outside_save | exact Hr]. }
  exists s, c. split; [exact Hrun |]. split; [exact Hc |]. split; [exact Href |].
  destruct (digest_sources_sound 5 {[ 100 ]} sample_db s) as (Hsrc & _); [by split | exact Hrun |].
  apply (Hsrc _ _ _ Hc Href).
Defined.
