(* ===== verification/Notices.v ===== *)
(** * Owner notifications: [src/internal/db/agent_actions.go]

    The statements on [owner_notifications]: what is waiting for the owner's
    Saved Messages, the lease of a delivery with its random id, and the end of
    one.  [now] is the clock reading of the call. *)

From S2P Require Import Prelude GoString Rows Tables Actions.

(** The line break of the owner's texts. *)
Definition nl : string := String (Ascii.ascii_of_nat 10) "".

Section notices.
Context `{Sealer}.
Local Open Scope op_scope.

Record OwnerNotification := MkOwnerNotification {
  on_ID : Z;
  on_UserID : Z;
  on_Kind : string;
  on_ActionID : Z;          (** 0: not tied to an action *)
  on_Body : string;
  on_Status : string;
  on_TGMessageID : Z;
  on_SentAt : time;         (** zero: not sent *)
  on_CreatedAt : time;
}.

(** [None] when the body does not open. *)
Definition open_notification (r : notification_row) : option OwnerNotification :=
  body ← open_opt (n_Body r) (n_UserID r);
  Some (MkOwnerNotification (n_ID r) (n_UserID r) (n_Kind r) (default 0 (n_ActionID r)) body (n_Status r)
    (default 0 (n_TGMessageID r)) (default time_zero (n_SentAt r)) (n_CreatedAt r)).

Definition pending (r : notification_row) : bool := bool_decide (n_Status r = NotificationPending).
(** [claimed_until IS NULL OR claimed_until < $now] *)
Definition unleased (now : time) (r : notification_row) : bool :=
  match n_ClaimedUntil r with Some t => t <? now | None => true end.

(** [ORDER BY created_at]; rows of one instant in any order, here by id. *)
Definition by_created (x y : notification_row) : Prop := n_CreatedAt x ≤ n_CreatedAt y.
#[local] Instance by_created_dec : RelDecision by_created := λ x y, decide (n_CreatedAt x ≤ n_CreatedAt y).

Definition ListPendingOwnerNotifications (now : time) (limit : Z) : op (list OwnerNotification) :=
  let limit := if limit <=? 0 then 50 else limit in
  op_get (λ d, omap open_notification (take (Z.to_nat limit)
    (merge_sort by_created (rows_where (λ r, pending r && unleased now r) (d_notifications d))))).

Definition HasOwnerNotificationSince (userID : Z) (kind : string) (since : time) : op bool :=
  if userID <=? 0 then op_err ErrArgument else
  op_get (λ d, negb (bool_decide (rows_where (λ r, (n_UserID r =? userID) && String.eqb (n_Kind r) kind
    && (since <=? n_CreatedAt r)) (d_notifications d) = []))).

(** The row of an action, of which there is one at most. *)
Definition of_action (action : Z) (r : notification_row) : bool := bool_decide (n_ActionID r = Some action).

Definition InsertOwnerNotification (now : time) (n : OwnerNotification) : op Z :=
  if (on_UserID n <=? 0) || bool_decide (on_Kind n = "") then op_err ErrArgument else
  do* (if on_ActionID n =? 0 then op_ret tt
       else do* GetAgentAction (on_UserID n) (on_ActionID n) in op_ret tt) in
  let* body := seal_opt (on_Body n) (on_UserID n) in
  let* rows := op_get d_notifications in
  let insert := do* insert_notification (on_UserID n) (on_Kind n) (nullable_id (on_ActionID n)) body now in
                op_get d_next in
  if on_ActionID n =? 0 then insert else
  match rows_where (of_action (on_ActionID n)) rows with
  | [] => insert
  | r :: _ => if n_UserID r =? on_UserID n then op_ret (n_ID r) else op_err ErrDB
  end.

(** One [UPDATE owner_notifications] of the row [id]; [None] when it does not
    match. *)
Definition update_notification {A} (p : notification_row → bool) (f : notification_row → notification_row)
    (id : Z) (read : notification_row → A) : op (option A) := λ d,
  match update_row p f id (d_notifications d) with
  | Some t => Ok (read <$> t !! id, d <|d_notifications := t|>)
  | None => Ok (None, d)
  end.

Definition claimable (now : time) (userID : Z) (r : notification_row) : bool :=
  (n_UserID r =? userID) && pending r && unleased now r.

(** [RETURNING random_id]: the id the row has from its first claim on. *)
Definition ClaimOwnerNotification (now : time) (userID id candidateRandomID : Z) (lease : duration) : op (option Z) :=
  if candidateRandomID =? 0 then op_err ErrArgument else
  update_notification (claimable now userID)
    (λ r, r <|n_ClaimedUntil := Some (now + lease)|>
            <|n_RandomID := Some (default candidateRandomID (n_RandomID r))|>)
    id (λ r, default 0 (n_RandomID r)).

Definition end_notification (userID id : Z) (f : notification_row → notification_row) : op unit :=
  let* r := update_notification (λ r, (n_UserID r =? userID) && pending r) f id (λ _, tt) in
  op_lift r ErrOwnerNotificationNotFound.

Definition MarkOwnerNotificationSent (now : time) (userID id tgMessageID : Z) : op unit :=
  end_notification userID id (λ r, r <|n_Status := NotificationSent|>
    <|n_TGMessageID := nullable_id tgMessageID|> <|n_SentAt := Some now|>).
Definition MarkOwnerNotificationFailed (userID id : Z) : op unit :=
  end_notification userID id (λ r, r <|n_Status := NotificationFailed|>).
End notices.
