(* ===== verification/HumanInputTables.v ===== *)
(** * Human-input deliveries and work-item bindings: [db/human_input.go],
    [db/work_item_bindings.go]

    The rows that tie a question of an agent to the code under which its owner
    answers, the users that are polled for questions, and the Saved Messages
    threads that are bound to work items.  One definition per statement or
    transaction; [HumanInputStore] composes them as the methods do. *)

From S2P Require Import Prelude GoString Rows Tables Actions Notices.

(** ** States *)
Definition HumanInputQueued : string := "queued".
Definition HumanInputSent : string := "sent".
Definition HumanInputSubmitted : string := "submitted".
Definition HumanInputUnconfirmed : string := "unconfirmed".
Definition HumanInputAnswered : string := "answered".
Definition HumanInputInactive : string := "inactive".
Definition HumanInputSuperseded : string := "superseded".

Definition humanInputOpen (state : string) : bool :=
  bool_decide (state ∈ [HumanInputQueued; HumanInputSent; HumanInputSubmitted; HumanInputUnconfirmed]).

(** ** Rows.  [hi_OptionDigests] is the decoded JSON list of the column
    [option_ids_json]. *)
Record delivery_row := DeliveryRow {
  hi_ID : Z;
  hi_UserID : Z;
  hi_RequestID : string;
  hi_RequestHash : string;
  hi_RequestVersion : Z;
  hi_WorkItemID : string;
  hi_Kind : string;
  hi_AnswerCode : string;
  hi_OptionDigests : list string;
  hi_NotificationID : option Z;
  hi_TGMessageID : option Z;
  hi_State : string;
  hi_LastOutcome : string;
  hi_DeliveredAt : option time;
  hi_RespondedAt : option time;
  hi_CreatedAt : time;
  hi_UpdatedAt : time;
}.
#[global] Instance eta_delivery_row : Eta delivery_row := λ r,
  DeliveryRow (hi_ID r) (hi_UserID r) (hi_RequestID r) (hi_RequestHash r) (hi_RequestVersion r)
    (hi_WorkItemID r) (hi_Kind r) (hi_AnswerCode r) (hi_OptionDigests r) (hi_NotificationID r)
    (hi_TGMessageID r) (hi_State r) (hi_LastOutcome r) (hi_DeliveredAt r) (hi_RespondedAt r)
    (hi_CreatedAt r) (hi_UpdatedAt r).

Record actor_row := ActorRow {
  ac_TGID : Z;
  ac_DormantUntil : option time;
  ac_FailCount : Z;
  ac_LastError : string;
  ac_UpdatedAt : time;
}.

Record binding_row := BindingRow {
  wb_ID : Z;
  wb_UserID : Z;
  wb_ChatTGID : Z;
  wb_RootTGMessageID : Z;
  wb_WorkItemID : string;
  wb_ExternalKey : string;
  wb_LastState : string;
  wb_LastStateVersion : Z;
  wb_LastExecutionID : string;
  wb_LastRequestID : string;
  wb_CreatedAt : time;
  wb_UpdatedAt : time;
}.
#[global] Instance eta_binding_row : Eta binding_row := λ b,
  BindingRow (wb_ID b) (wb_UserID b) (wb_ChatTGID b) (wb_RootTGMessageID b) (wb_WorkItemID b) (wb_ExternalKey b)
    (wb_LastState b) (wb_LastStateVersion b) (wb_LastExecutionID b) (wb_LastRequestID b) (wb_CreatedAt b)
    (wb_UpdatedAt b).

(** The tables of the agent store and those of this file; [users] with their
    [telegram_login_id]. *)
Record hdb `{Sealer} := MkHDB {
  h_db : DB;
  h_deliveries : gmap Z delivery_row;
  h_actors : gmap Z actor_row;
  h_bindings : gmap Z binding_row;
  h_logins : gmap Z (option Z);
  h_next : Z;                 (** the last row id given out *)
}.
#[global] Instance eta_hdb `{Sealer} : Eta hdb := λ d,
  MkHDB _ (h_db d) (h_deliveries d) (h_actors d) (h_bindings d) (h_logins d) (h_next d).

Section statements.
Context `{Sealer}.

(** A statement on the tables of the agent store. *)
Definition on_store {A} (m : op A) (d : hdb) : result db_error (A * hdb) :=
  match m (h_db d) with Ok (a, s) => Ok (a, d <|h_db := s|>) | Err e => Err e end.

(** ** Deliveries *)
Record HumanInputDelivery := MkHumanInputDelivery {
  hd_ID : Z;
  hd_UserID : Z;
  hd_RequestID : string;
  hd_RequestHash : string;
  hd_RequestVersion : Z;
  hd_WorkItemID : string;
  hd_Kind : string;
  hd_AnswerCode : string;
  hd_OptionDigests : list string;
  hd_NotificationID : Z;
  hd_TGMessageID : Z;
  hd_State : string;
  hd_LastOutcome : string;
  hd_DeliveredAt : time;
  hd_RespondedAt : time;
  hd_CreatedAt : time;
  hd_UpdatedAt : time;
}.
Definition Terminal (d : HumanInputDelivery) : bool := negb (humanInputOpen (hd_State d)).

Definition scanHumanInputDelivery (r : delivery_row) : HumanInputDelivery :=
  MkHumanInputDelivery (hi_ID r) (hi_UserID r) (hi_RequestID r) (hi_RequestHash r) (hi_RequestVersion r)
    (hi_WorkItemID r) (hi_Kind r) (hi_AnswerCode r) (hi_OptionDigests r) (default 0 (hi_NotificationID r))
    (default 0 (hi_TGMessageID r)) (hi_State r) (hi_LastOutcome r) (default time_zero (hi_DeliveredAt r))
    (default time_zero (hi_RespondedAt r)) (hi_CreatedAt r) (hi_UpdatedAt r).

Definition asks_for (userID : Z) (requestID requestHash : string) (r : delivery_row) : bool :=
  (hi_UserID r =? userID) && String.eqb (hi_RequestID r) requestID && String.eqb (hi_RequestHash r) requestHash.
Definition has_code (userID : Z) (code : string) (r : delivery_row) : bool :=
  (hi_UserID r =? userID) && String.eqb (hi_AnswerCode r) code.

Definition select_state (userID : Z) (requestID requestHash : string) (d : hdb) : option string :=
  hi_State <$> head (rows_where (asks_for userID requestID requestHash) (h_deliveries d)).

(** The transaction that inserts a delivery and the notification that carries
    its text, and links them; [false] when the request or the code is taken. *)
Definition insert_delivery (now : time) (x : HumanInputDelivery) (body : sealed) (d : hdb)
    : result db_error (bool * hdb) :=
  let taken r := asks_for (hd_UserID x) (hd_RequestID x) (hd_RequestHash x) r
                 || has_code (hd_UserID x) (hd_AnswerCode x) r in
  if negb (bool_decide (rows_where taken (h_deliveries d) = [])) then Ok (false, d) else
  let id := h_next d + 1 in
  match op_bind (insert_notification (hd_UserID x) NotificationHumanInput None (Some body) now)
                (λ _, op_get d_next) (h_db d) with
  | Err e => Err e
  | Ok (notifID, s) =>
    Ok (true, d <|h_db := s|> <|h_next := id|>
      <|h_deliveries := <[id := DeliveryRow id (hd_UserID x) (hd_RequestID x) (hd_RequestHash x)
          (hd_RequestVersion x) (hd_WorkItemID x) (hd_Kind x) (hd_AnswerCode x) (hd_OptionDigests x)
          (Some notifID) None HumanInputQueued "" None None now now]> (h_deliveries d)|>)
  end.

Definition select_by_code (userID : Z) (code : string) (d : hdb) : option HumanInputDelivery :=
  scanHumanInputDelivery <$> head (rows_where (has_code userID code) (h_deliveries d)).

Definition ListOpenHumanInputDeliveries (userID : Z) (d : hdb) : list HumanInputDelivery :=
  map scanHumanInputDelivery
    (rows_where (λ r, (hi_UserID r =? userID) && humanInputOpen (hi_State r)) (h_deliveries d)).

(** [SELECT state = 'queued', notification_id] *)
Definition select_queued (userID id : Z) (d : hdb) : option (bool * option Z) :=
  match h_deliveries d !! id with
  | Some r => if hi_UserID r =? userID
              then Some (bool_decide (hi_State r = HumanInputQueued), hi_NotificationID r) else None
  | None => None
  end.

Definition responds (state : string) : bool :=
  bool_decide (state = HumanInputAnswered) || bool_decide (state = HumanInputSubmitted).

(** The compare-and-set from the open states; whether a row changed. *)
Definition update_delivery (now : time) (userID id : Z) (state outcome : string) (d : hdb) : bool * hdb :=
  match update_row (λ r, (hi_UserID r =? userID) && humanInputOpen (hi_State r) && negb (String.eqb (hi_State r) state))
          (λ r, r <|hi_State := state|> <|hi_LastOutcome := outcome|>
                  <|hi_RespondedAt := if responds state then Some now else hi_RespondedAt r|>
                  <|hi_UpdatedAt := now|>) id (h_deliveries d) with
  | Some t => (true, d <|h_deliveries := t|>)
  | None => (false, d)
  end.

Definition select_superseded (userID : Z) (requestID keepHash : string) (d : hdb) : list Z :=
  map hi_ID (rows_where (λ r, (hi_UserID r =? userID) && String.eqb (hi_RequestID r) requestID
    && negb (String.eqb (hi_RequestHash r) keepHash) && humanInputOpen (hi_State r)) (h_deliveries d)).

(** Every row of the notification; the creation time of the first one. *)
Definition SetHumanInputDeliveryMessageID (now : time) (notificationID tgMessageID : Z) (d : hdb)
    : option time * hdb :=
  let queued r := bool_decide (hi_NotificationID r = Some notificationID)
                  && bool_decide (hi_State r = HumanInputQueued) in
  (hi_CreatedAt <$> head (rows_where queued (h_deliveries d)),
   d <|h_deliveries := update_where queued
        (λ r, r <|hi_TGMessageID := nullable_id tgMessageID|> <|hi_State := HumanInputSent|>
                <|hi_DeliveredAt := Some now|> <|hi_UpdatedAt := now|>) (h_deliveries d)|>).

(** ** Actors *)
Record HumanInputActor := MkHumanInputActor {
  ha_UserID : Z;
  ha_TGID : Z;
  ha_DormantUntil : time;
  ha_FailCount : Z;
}.

Definition upsert_actor (now : time) (userID tgID : Z) (d : hdb) : hdb :=
  d <|h_actors := <[userID := ActorRow tgID None 0 "" now]> (h_actors d)|>.

Definition select_fail_count (userID : Z) (d : hdb) : option Z := ac_FailCount <$> h_actors d !! userID.

(** [backoff] doubled from [base] once per earlier failure, while it is below
    [max]; [failCount - 1] rounds at most. *)
Fixpoint double_backoff (n : nat) (max backoff : duration) : duration :=
  match n with
  | O => backoff
  | S n => if backoff <? max then double_backoff n max (2 * backoff) else backoff
  end.
Definition dormancy (failCount : Z) (base max : duration) : duration :=
  let backoff := double_backoff (Z.to_nat (failCount - 1)) max base in
  if max <? backoff then max else backoff.

Definition update_dormant (now : time) (userID failCount : Z) (errClass : string) (backoff : duration) (d : hdb) : hdb :=
  d <|h_actors := alter (λ a, ActorRow (ac_TGID a) (Some (now + backoff)) failCount errClass now) userID (h_actors d)|>.

Definition ListPollableHumanInputActors (now : time) (d : hdb) : list HumanInputActor :=
  map (λ x : Z * actor_row, MkHumanInputActor x.1 (ac_TGID x.2) (default time_zero (ac_DormantUntil x.2)) (ac_FailCount x.2))
    (filter (λ x : Z * actor_row, match ac_DormantUntil x.2 with None => true | Some t => t <=? now end = true)
       (sorted_rows (h_actors d))).

Definition bound_user (userID : Z) (d : hdb) : bool :=
  negb (bool_decide (rows_where (λ b, wb_UserID b =? userID) (h_bindings d) = [])).
Definition BackfillHumanInputActorsFromBindings (now : time) (d : hdb) : Z * hdb :=
  let fresh := map_imap (λ u login,
    match login, h_actors d !! u with
    | Some tg, None => if (0 <? tg) && bound_user u d then Some (ActorRow tg None 0 "" now) else None
    | _, _ => None
    end) (h_logins d) in
  (Z.of_nat (size fresh), d <|h_actors := h_actors d ∪ fresh|>).

Definition select_login (userID : Z) (d : hdb) : option Z :=
  match h_logins d !! userID with
  | Some (Some tg) => if tg =? 0 then None else Some tg
  | _ => None
  end.

(** ** Work-item bindings *)

(** [ORDER BY updated_at DESC, id DESC] *)
Definition newer_binding (x y : binding_row) : Prop :=
  wb_UpdatedAt y < wb_UpdatedAt x ∨ (wb_UpdatedAt x = wb_UpdatedAt y ∧ wb_ID y ≤ wb_ID x).
#[local] Instance newer_binding_dec : RelDecision newer_binding.
Proof. intros x y. unfold newer_binding. apply _. Defined.
Definition latest_binding (p : binding_row → bool) (d : hdb) : option binding_row :=
  head (merge_sort newer_binding (rows_where p (h_bindings d))).

Definition of_thread (userID chatTGID rootMsgID : Z) (b : binding_row) : bool :=
  (wb_UserID b =? userID) && (wb_ChatTGID b =? chatTGID) && (wb_RootTGMessageID b =? rootMsgID).

Definition WorkItemExternalKey (userID : Z) (workItemID : string) (d : hdb) : option string :=
  wb_ExternalKey <$> latest_binding (λ b, (wb_UserID b =? userID) && String.eqb (wb_WorkItemID b) workItemID) d.

Definition GetWorkItemBinding (userID chatTGID rootMsgID : Z) (d : hdb) : option binding_row :=
  head (rows_where (of_thread userID chatTGID rootMsgID) (h_bindings d)).

Definition LatestWorkItemBinding (userID chatTGID : Z) (d : hdb) : option binding_row :=
  latest_binding (λ b, (wb_UserID b =? userID) && (wb_ChatTGID b =? chatTGID)) d.

(** [b]'s id and times are not read. *)
Definition UpsertWorkItemBinding (now : time) (b : binding_row) (d : hdb) : result db_error hdb :=
  if (wb_UserID b <=? 0) || (wb_ChatTGID b =? 0) || (wb_RootTGMessageID b =? 0)
     || bool_decide (wb_WorkItemID b = "") || bool_decide (wb_ExternalKey b = "") then Err ErrArgument else
  match GetWorkItemBinding (wb_UserID b) (wb_ChatTGID b) (wb_RootTGMessageID b) d with
  | Some old =>
    Ok (d <|h_bindings := <[wb_ID old := b <|wb_ID := wb_ID old|> <|wb_CreatedAt := wb_CreatedAt old|>
                                           <|wb_UpdatedAt := now|>]> (h_bindings d)|>)
  | None =>
    let id := h_next d + 1 in
    Ok (d <|h_next := id|>
          <|h_bindings := <[id := b <|wb_ID := id|> <|wb_CreatedAt := now|> <|wb_UpdatedAt := now|>]> (h_bindings d)|>)
  end.

Definition TouchWorkItemBindingState (now : time) (userID : Z) (workItemID state : string) (version : Z)
    (execID : string) (d : hdb) : result db_error hdb :=
  if (userID <=? 0) || bool_decide (workItemID = "") then Err ErrArgument else
  Ok (d <|h_bindings := update_where (λ b, (wb_UserID b =? userID) && String.eqb (wb_WorkItemID b) workItemID)
        (λ b, b <|wb_LastState := state|> <|wb_LastStateVersion := version|> <|wb_LastExecutionID := execID|>
                <|wb_UpdatedAt := now|>) (h_bindings d)|>).

Definition SetWorkItemBindingRequest (now : time) (userID chatTGID rootMsgID : Z) (requestID : string) (d : hdb)
    : result db_error hdb :=
  if (userID <=? 0) || (chatTGID =? 0) || (rootMsgID =? 0) then Err ErrArgument else
  Ok (d <|h_bindings := update_where (of_thread userID chatTGID rootMsgID)
        (λ b, b <|wb_LastRequestID := requestID|> <|wb_UpdatedAt := now|>) (h_bindings d)|>).
End statements.
