(* ===== verification/WorkClient.v ===== *)
(** * The client of the work platform: [src/internal/workctx]

    The human-input calls of [humaninput.go], the errors of [errors.go] and what
    [Client.relay] makes of an answer.  Building the request and reading JSON
    are the other side of [http_result]. *)

From S2P Require Import Prelude GoString Regexp.

(** ** Errors: [errors.go] *)
Inductive sentinel :=
| ErrLinkNotFound | ErrLinkRevoked | ErrLinkExpired | ErrRelayRequired | ErrChallengeInvalid
| ErrLinkConflict | ErrActorNotAccepted | ErrStateVersionConflict | ErrExternalKeyInUse
| ErrIncompatibleSchema | ErrExecutionRequestOpen | ErrExecutionActive | ErrInvalidTransition
| ErrRequestNotActive | ErrRequestSuperseded | ErrNotEligible | ErrAnswerInvalid | ErrHumanInputNotFound
| ErrTenantForbidden | ErrWorkItemsUnavailable | ErrWorkItemNotFound | ErrIdempotencyKeyReused | ErrSecretInText.
#[global] Instance sentinel_eq_dec : EqDecision sentinel.
Proof. solve_decision. Defined.

(** The [*APIError] of a non-2xx answer; its message is for logs only. *)
Record APIError := MkAPIError {
  ae_StatusCode : Z;
  ae_Code : string;
}.

(** An error by what [errors.Is] and [errors.As] find in it. *)
Record work_error := WorkError {
  we_is : list sentinel;
  we_api : option APIError;
}.
Definition Is (e : work_error) (s : sentinel) : bool := bool_decide (s ∈ we_is e).
Definition plain_error : work_error := WorkError [] None.
Definition incompatible : work_error := WorkError [ErrIncompatibleSchema] None.

Definition codeToErr : list (string * sentinel) :=
  [("link_not_found", ErrLinkNotFound); ("link_revoked", ErrLinkRevoked); ("link_expired", ErrLinkExpired);
   ("relay_required", ErrRelayRequired); ("challenge_invalid", ErrChallengeInvalid);
   ("link_conflict", ErrLinkConflict); ("actor_not_accepted", ErrActorNotAccepted);
   ("state_version_conflict", ErrStateVersionConflict); ("external_key_in_use", ErrExternalKeyInUse);
   ("execution_request_open", ErrExecutionRequestOpen); ("execution_active", ErrExecutionActive);
   ("invalid_transition", ErrInvalidTransition); ("tenant_forbidden", ErrTenantForbidden);
   ("work_items_unavailable", ErrWorkItemsUnavailable); ("work_item_not_found", ErrWorkItemNotFound);
   ("idempotency_key_reused", ErrIdempotencyKeyReused); ("secret_in_text", ErrSecretInText)].
Definition humanInputRejectionToErr : list (string * sentinel) :=
  [("superseded", ErrRequestSuperseded); ("invalid_value", ErrAnswerInvalid); ("not_eligible", ErrNotEligible);
   ("answered", ErrRequestNotActive); ("expired", ErrRequestNotActive); ("timed_out", ErrRequestNotActive);
   ("not_pending", ErrRequestNotActive); ("resolved", ErrRequestNotActive); ("pending", ErrAnswerInvalid)].

Definition lookup_code (code : string) (l : list (string * sentinel)) : option sentinel :=
  snd <$> head (filter (λ x, x.1 = code) l).
Definition wrapAPIError (status : Z) (code : string) : work_error :=
  WorkError (option_list (lookup_code code codeToErr)) (Some (MkAPIError status code)).
Definition wrapHumanInputRejection (status : Z) (state : string) : work_error :=
  WorkError (option_list (lookup_code state humanInputRejectionToErr)) (Some (MkAPIError status state)).

(** ** Views: [humaninput.go] *)
Definition HumanInputTypeSingleChoice : string := "single_choice".
Definition HumanInputTypeFreeText : string := "free_text".

Definition HumanInputStatePending : string := "pending".
Definition HumanInputStateExpired : string := "expired".
Definition HumanInputStateTimedOut : string := "timed_out".
Definition HumanInputStateResolved : string := "resolved".
Definition HumanInputStateNotPending : string := "not_pending".
Definition HumanInputStateUnknown : string := "unknown".

Definition HumanInputStatusAccepted : string := "accepted".
Definition HumanInputStatusPendingDelivery : string := "pending_delivery".
Definition HumanInputStatusRejected : string := "rejected".
Definition DetailAlreadyAccepted : string := "already accepted".

Definition hex_lower (r : Z) : bool := in_range 48 57 r || in_range 97 102 r.
Definition humanInputIDPattern : regex := cats [BeginText; lit "hir-"; Exactly 16 (Rune hex_lower); EndText].
Definition ValidHumanInputRequestID (id : string) : bool := MatchString humanInputIDPattern id.

(** The fields this side reads. *)
Record RequestView := MkRequestView {
  rv_RequestID : string;
  rv_RequestHash : string;
  rv_RequestVersion : Z;
  rv_WorkItemID : string;
  rv_Question : string;
  rv_Reason : string;
  rv_ResponseType : string;
  rv_Options : list string;
  rv_ContextRefs : list string;
  rv_CanRespond : option bool;
  rv_ExpiresAt : string;
  rv_State : string;
  rv_WorkRef : string;        (** set by this side *)
}.
#[global] Instance eta_RequestView : Eta RequestView := λ v,
  MkRequestView (rv_RequestID v) (rv_RequestHash v) (rv_RequestVersion v) (rv_WorkItemID v) (rv_Question v)
    (rv_Reason v) (rv_ResponseType v) (rv_Options v) (rv_ContextRefs v) (rv_CanRespond v) (rv_ExpiresAt v)
    (rv_State v) (rv_WorkRef v).
Definition Respondable (v : RequestView) : bool := default false (rv_CanRespond v).

Definition validate_view (v : RequestView) : option work_error :=
  if negb (ValidHumanInputRequestID (rv_RequestID v)) then Some incompatible
  else if bool_decide (rv_RequestHash v = "") || bool_decide (rv_State v = "") then Some incompatible
  else if bool_decide (rv_CanRespond v = None) then Some incompatible
  else None.

Record humanInputListEnvelope := MkListEnvelope {
  le_Items : list RequestView;
  le_Count : option Z;
}.
Definition validate_list (l : humanInputListEnvelope) : option work_error :=
  match le_Count l with
  | None => Some incompatible
  | Some n => if negb (n =? Z.of_nat (length (le_Items l))) then Some incompatible
              else head (omap validate_view (le_Items l))
  end.

Record ResponseRequest := MkResponseRequest { rr_RequestHash : string; rr_Value : string }.

Record ResponseView := MkResponseView {
  rs_RequestID : string;
  rs_Status : string;
  rs_State : string;
  rs_Detail : string;
}.
Definition validate_response (v : ResponseView) : option work_error :=
  if bool_decide (rs_RequestID v = "") then Some incompatible
  else if bool_decide (rs_Status v = HumanInputStatusAccepted)
          || bool_decide (rs_Status v = HumanInputStatusPendingDelivery) then None
  else Some incompatible.

(** ** Answers: [relay] *)
Record error_body := MkErrorBody {
  eb_Error : string;
  eb_Code : string;
  eb_Status : string;
  eb_State : string;
}.

(** What came back: nothing, too much, or a status with the body read as an
    error object and as the wanted value ([None] when it does not decode; the
    zero value for an empty body). *)
Inductive http_result (T : Type) :=
| NoAnswer
| TooLarge
| Answered (status : Z) (body : error_body) (out : option T).
Arguments NoAnswer {T}.
Arguments TooLarge {T}.
Arguments Answered {T} status body out.

Definition relay_answer {T} (responds_route : bool) (validate : T → option work_error) (a : http_result T)
    : result work_error T :=
  match a with
  | NoAnswer => Err plain_error
  | TooLarge => Err incompatible
  | Answered status body out =>
    if (status <? 200) || (300 <=? status) then
      if responds_route && bool_decide (eb_Status body = HumanInputStatusRejected) && negb (bool_decide (eb_State body = ""))
      then Err (wrapHumanInputRejection status (eb_State body))
      else Err (wrapAPIError status (if negb (bool_decide (eb_Code body = "")) then eb_Code body else eb_Error body))
    else match out with
         | None => Err plain_error
         | Some v => match validate v with None => Ok v | Some e => Err e end
         end
  end.

Definition isRelayRefusal (e : work_error) : bool :=
  Is e ErrLinkNotFound || Is e ErrLinkRevoked || Is e ErrLinkExpired || Is e ErrRelayRequired.

(** [GetHumanInput] reads a 404 that is no refusal of the relay as "gone". *)
Definition get_error (e : work_error) : work_error :=
  match we_api e with
  | Some api => if (ae_StatusCode api =? 404) && negb (isRelayRefusal e)
                then WorkError (ErrHumanInputNotFound :: we_is e) (we_api e) else e
  | None => e
  end.

(** [isLinkError] and [errClass] of [humaninput/poller.go] *)
Definition isLinkError (e : work_error) : bool :=
  Is e ErrLinkNotFound || Is e ErrLinkRevoked || Is e ErrLinkExpired.

Definition errClass (e : work_error) : string :=
  if Is e ErrLinkNotFound then "link_not_found"
  else if Is e ErrLinkRevoked then "link_revoked"
  else if Is e ErrLinkExpired then "link_expired"
  else if Is e ErrNotEligible then "not_eligible"
  else if Is e ErrRequestSuperseded then "superseded"
  else if Is e ErrRequestNotActive then "not_active"
  else if Is e ErrAnswerInvalid then "answer_invalid"
  else if Is e ErrHumanInputNotFound then "not_found"
  else if Is e ErrIncompatibleSchema then "incompatible_schema"
  else match we_api e with
       | Some api => "api_" +:+ FormatInt (ae_StatusCode api)
       | None => "error"
       end.
