(* ===== verification/OwnerEffects.v ===== *)
(** * The calls of the owner's surface

    The notifier and the human-input adapter touch the store one statement or
    transaction at a time, and ask their other collaborators: the clock, the
    random source, the kill switch, the owner's Saved Messages, and the work
    platform behind [workctx.Client]. *)

From S2P Require Import Prelude GoString Program Rows Tables Actions Notices HumanInputTables WorkClient.

Section owner.
Context `{Sealer}.

Inductive owner_call : Type → Type :=
(** on [owner_notifications] and the actions behind them *)
| CListNotices (limit : Z) : owner_call (list OwnerNotification)
| CInsertNotice (n : OwnerNotification) : owner_call Z
| CClaimNotice (u id candidate : Z) (lease : duration) : owner_call (option Z)
| CNoticeSent (u id msg : Z) : owner_call unit
| CNoticeFailed (u id : Z) : owner_call unit
| CAction (u id : Z) : owner_call AgentAction
| CConversation (u id : Z) : owner_call Conversation
(** on [human_input_deliveries] *)
| CState (u : Z) (rid hash : string) : owner_call (option string)
| CInsertDelivery (x : HumanInputDelivery) (body : sealed) : owner_call bool
| CByCode (u : Z) (code : string) : owner_call (option HumanInputDelivery)
| CListOpen (u : Z) : owner_call (list HumanInputDelivery)
| CQueued (u id : Z) : owner_call (option (bool * option Z))
| CMark (u id : Z) (state outcome : string) : owner_call bool
| CSuperseded (u : Z) (rid keep : string) : owner_call (list Z)
| CSetMessageID (notice msg : Z) : owner_call (option time)
(** on [human_input_actors], [users] and [work_item_bindings] *)
| CUpsertActor (u tg : Z) : owner_call unit
| CFailCount (u : Z) : owner_call (option Z)
| CDormant (u failCount : Z) (class : string) (backoff : duration) : owner_call unit
| CListActors (at_ : time) : owner_call (list HumanInputActor)
| CLogin (u : Z) : owner_call (option Z)
| CExternalKey (u : Z) (item : string) : owner_call (option string).

(** What the store does on a call made at [now]. *)
Definition owner_op (now : time) {A} (c : owner_call A) (d : hdb) : result db_error (A * hdb) :=
  match c in owner_call A return result db_error (A * hdb) with
  | CListNotices limit => on_store (ListPendingOwnerNotifications now limit) d
  | CInsertNotice n => on_store (InsertOwnerNotification now n) d
  | CClaimNotice u id candidate lease => on_store (ClaimOwnerNotification now u id candidate lease) d
  | CNoticeSent u id msg => on_store (MarkOwnerNotificationSent now u id msg) d
  | CNoticeFailed u id => on_store (MarkOwnerNotificationFailed u id) d
  | CAction u id => on_store (GetAgentAction u id) d
  | CConversation u id => on_store (GetConversation u id) d
  | CState u rid hash => Ok (select_state u rid hash d, d)
  | CInsertDelivery x body => insert_delivery now x body d
  | CByCode u code => Ok (select_by_code u code d, d)
  | CListOpen u => Ok (ListOpenHumanInputDeliveries u d, d)
  | CQueued u id => Ok (select_queued u id d, d)
  | CMark u id state outcome => Ok (update_delivery now u id state outcome d)
  | CSuperseded u rid keep => Ok (select_superseded u rid keep d, d)
  | CSetMessageID notice msg => Ok (SetHumanInputDeliveryMessageID now notice msg d)
  | CUpsertActor u tg => Ok (tt, upsert_actor now u tg d)
  | CFailCount u => Ok (select_fail_count u d, d)
  | CDormant u n class backoff => Ok (tt, update_dormant now u n class backoff d)
  | CListActors at_ => Ok (ListPollableHumanInputActors at_ d, d)
  | CLogin u => Ok (select_login u d, d)
  | CExternalKey u item => Ok (WorkItemExternalKey u item d, d)
  end.

(** A send the client library reports as failed: Telegram refused the random
    id as used, or anything else. *)
Inductive self_error := SelfAlreadyDelivered | SelfFailed (what : string).

(** The first argument of [QSelf] and of [QRespond] is not passed on: it names
    the notification, and the user, the request is made for. *)
Inductive owner_query : Type → Type :=
| QNow : owner_query time
| QCancelled : owner_query bool
| QGlobalKill : owner_query bool
| QRandomID : owner_query (option Z)                 (** [None]: the source failed *)
| QRandomBytes : owner_query (list Z)                (** the bytes read before it fails *)
| QShuffle (l : list HumanInputDelivery) : owner_query (list HumanInputDelivery)
| QBudgetSpent : owner_query bool
| QSelf (notice u rid : Z) (text : string) : owner_query (result self_error Z)
| QLocateSelf (u : Z) (text : string) (since : time) : owner_query (result unit (option Z))
| QReply (u : Z) (text : string) : owner_query (result string unit)
| QHttpList (actor : Z) : owner_query (http_result humanInputListEnvelope)
| QHttpGet (actor : Z) (rid : string) : owner_query (http_result RequestView)
| QHttpRespond (u actor : Z) (rid : string) (r : ResponseRequest) (idemKey : string)
    : owner_query (http_result ResponseView).

End owner.

Abbreviation owner := (prog db_error owner_call owner_query) (only parsing).

(** ** [workctx.Client] as programs *)
Section client.
Context `{Sealer}.
Local Open Scope prog_scope.

Definition relayed {T} (responds_route : bool) (validate : T → option work_error) (actor : Z)
    (q : owner_query (http_result T)) : owner (result work_error T) :=
  if actor <=? 0 then fail plain_error else
  let* a := ask q in Ret (relay_answer responds_route validate a).

Definition ListHumanInput (actor : Z) : owner (result work_error (list RequestView)) :=
  let? l := relayed false validate_list actor (QHttpList actor) in ok (le_Items l).

Definition GetHumanInput (actor : Z) (requestID : string) : owner (result work_error RequestView) :=
  if negb (ValidHumanInputRequestID requestID) then fail plain_error else
  let* r := relayed false validate_view actor (QHttpGet actor requestID) in
  Ret (map_err get_error r).

Definition RespondHumanInput (u actor : Z) (requestID : string) (r : ResponseRequest) (idemKey : string)
    : owner (result work_error ResponseView) :=
  if negb (ValidHumanInputRequestID requestID) then fail plain_error else
  relayed true validate_response actor (QHttpRespond u actor requestID r idemKey).
End client.
