(* ===== verification/Notifier.v ===== *)
(** * The notifier: [src/internal/agent/control/notifier.go]

    The sweep that delivers the owner's notifications into Saved Messages, and
    the text each of them gets. *)

From S2P Require Import Prelude GoString Program Rows Policy Tables Actions Notices HumanInputTables WorkClient OwnerEffects.

(** ** Texts within Telegram's cap *)
Definition maxTelegramMessageLen : Z := 4096.
Definition truncatedSuffix : string := nl +:+ nl +:+ "[truncated]".

Definition truncateForTelegram (s : string) : string :=
  let r := runes s in
  if Z.of_nat (length r) <=? maxTelegramMessageLen then s else
  let cut := maxTelegramMessageLen - rune_count truncatedSuffix in
  let cut := if cut <? 0 then 0 else cut in
  string_of_runes (take (Z.to_nat cut) r) +:+ truncatedSuffix.

Definition reserveTail (prefix body tail : string) : string :=
  let marker := "[truncated]" in
  let budget := maxTelegramMessageLen - rune_count prefix - rune_count tail in
  let payload := runes body in
  let budget := if budget <? 0 then 0 else budget in
  let payload :=
    if budget <? Z.of_nat (length payload) then
      let cut := budget - rune_count marker in
      let cut := if cut <? 0 then 0 else cut in
      take (Z.to_nat cut) payload ++ runes marker
    else payload in
  prefix +:+ string_of_runes payload +:+ tail.

Definition action_status_text (s : ActionStatus) : string :=
  match s with
  | ActionProposed => "proposed" | ActionPendingApproval => "pending_approval" | ActionApproved => "approved"
  | ActionExecuting => "executing" | ActionExecuted => "executed" | ActionRejected => "rejected"
  | ActionExpired => "expired" | ActionDenied => "denied" | ActionDeliveryUnknown => "delivery_unknown"
  end.

Section notifier.
Context `{Sealer}.
Local Open Scope prog_scope.

Record NotifierConfig := MkNotifierConfig {
  nc_ClaimLease : duration;
  nc_MaxPendingAge : duration;
  nc_Locator : bool;           (** the sender can look delivered messages up *)
}.
Definition defaultClaimLease : duration := 2 * Minute.
Definition defaultMaxPendingAge : duration := 24 * Hour.

Variable cfg : NotifierConfig.

Definition claimLease : duration := if 0 <? nc_ClaimLease cfg then nc_ClaimLease cfg else defaultClaimLease.

Definition Reply (userID : Z) (text : string) : owner (result string unit) :=
  ask (QReply userID (truncateForTelegram text)).

(** The name of the peer and the conversation; 0 when there is none. *)
Definition peerLabel (action : AgentAction) : owner (string * Z) :=
  if aa_ConversationID action =? 0 then Ret ("", 0) else
  let* r := invoke (CConversation (aa_UserID action) (aa_ConversationID action)) in
  match r with
  | Err _ => Ret ("", 0)
  | Ok conv =>
    let who := c_PeerDisplayName conv in
    let who := if bool_decide (who = "") then c_PeerUsername conv else who in
    let who := if bool_decide (who = "") then "peer " +:+ FormatInt (c_PeerTGID conv) else who in
    Ret (who, c_ID conv)
  end.

Definition no_reply_footer (who : string) (convID : Z) : string :=
  nl +:+ nl +:+
  (if convID =? 0
   then "The agent cannot read a reply here. To act on this, write to the sender in that chat yourself (the agent then stops replying there)."
   else "The agent cannot read a reply here. To act on this, write to " +:+ who
        +:+ " in that chat yourself (the agent then stops replying there). Details: /mctl show " +:+ FormatInt convID).
Definition instructions (code : string) : string :=
  nl +:+ nl +:+ "/mctl approve " +:+ code +:+ nl +:+ "/mctl reject " +:+ code.
Definition approval_prefix (who : string) (convID : Z) (policyReasons : string) : string :=
  (if convID =? 0 then "Draft reply awaiting approval:" +:+ nl
   else "Draft reply awaiting approval (to " +:+ who +:+ ", conv #" +:+ FormatInt convID +:+ "):" +:+ nl)
  +:+ (match OwnerHoldReasons policyReasons with
       | [] => ""
       | reasons => "Held because " +:+ Join reasons "; " +:+ "." +:+ nl
       end)
  +:+ nl.

Definition format (n : OwnerNotification) : owner (result db_error string) :=
  if negb (String.eqb (on_Kind n) NotificationApproval) || (on_ActionID n =? 0)
  then ok (truncateForTelegram (on_Body n)) else
  let? action := invoke (CAction (on_UserID n) (on_ActionID n)) in
  if String.eqb (aa_ActionType action) ActionTypeOwnerApproval then
    let* peer := peerLabel action in
    ok (reserveTail ("Owner input requested:" +:+ nl +:+ nl) (aa_Payload action) (no_reply_footer peer.1 peer.2))
  else if bool_decide (aa_ApprovalCode action = "") then
    ok (truncateForTelegram ("Draft reply (already resolved, status: " +:+ action_status_text (aa_Status action) +:+ "):"
          +:+ nl +:+ nl +:+ aa_Payload action))
  else
    let* peer := peerLabel action in
    ok (reserveTail (approval_prefix peer.1 peer.2 (aa_PolicyReasons action)) (aa_Payload action)
          (instructions (aa_ApprovalCode action))).

(** ** Delivery *)

(** 0: unknown *)
Definition locateDelivered (n : OwnerNotification) (text : string) : owner Z :=
  if negb (nc_Locator cfg) then Ret 0 else
  let* r := ask (QLocateSelf (on_UserID n) text (on_CreatedAt n)) in
  match r with Ok (Some id) => Ret id | _ => Ret 0 end.

Definition recordHumanInputSent (n : OwnerNotification) (msgID : Z) : owner unit :=
  forget (invoke (CSetMessageID (on_ID n) msgID)).

(** Retires a notification that has been failing for too long. *)
Definition retire_overdue (n : OwnerNotification) : owner unit :=
  let* now := ask QNow in
  if (0 <? nc_MaxPendingAge cfg) && (nc_MaxPendingAge cfg <? time_sub now (on_CreatedAt n))
  then forget (invoke (CNoticeFailed (on_UserID n) (on_ID n))) else Ret tt.

Inductive notice_outcome := NoticeDelivered | NoticeFailed | NoticeSkipped.

Definition delivered (n : OwnerNotification) (msgID : Z) : owner notice_outcome :=
  let* _ := invoke (CNoticeSent (on_UserID n) (on_ID n) msgID) in
  let* _ := (if String.eqb (on_Kind n) NotificationHumanInput then recordHumanInputSent n msgID else Ret tt) in
  Ret NoticeDelivered.

Definition deliver_claimed (n : OwnerNotification) (randomID : Z) : owner notice_outcome :=
  let* text := format n in
  match text with
  | Err _ => let* _ := retire_overdue n in Ret NoticeFailed
  | Ok text =>
    let* sent := ask (QSelf (on_ID n) (on_UserID n) randomID text) in
    match sent with
    | Ok msgID => delivered n msgID
    | Err SelfAlreadyDelivered => let* msgID := locateDelivered n text in delivered n msgID
    | Err (SelfFailed _) => let* _ := retire_overdue n in Ret NoticeFailed
    end
  end.

Definition deliver_notice (n : OwnerNotification) : owner notice_outcome :=
  let* candidate := ask QRandomID in
  match candidate with
  | None => Ret NoticeSkipped
  | Some candidate =>
    let* claim := invoke (CClaimNotice (on_UserID n) (on_ID n) candidate claimLease) in
    match claim with
    | Ok (Some randomID) => deliver_claimed n randomID
    | Ok None | Err _ => Ret NoticeSkipped
    end
  end.

Fixpoint deliver_notices (l : list OwnerNotification) (delivered failed : Z) : owner (Z * Z) :=
  match l with
  | [] => Ret (delivered, failed)
  | n :: l =>
    let* o := deliver_notice n in
    match o with
    | NoticeDelivered => deliver_notices l (delivered + 1) failed
    | NoticeFailed => deliver_notices l delivered (failed + 1)
    | NoticeSkipped => deliver_notices l delivered failed
    end
  end.

Definition DeliverPending : owner (result db_error (Z * Z)) :=
  let* kill := ask QGlobalKill in
  if kill : bool then ok (0, 0) else
  let? notifs := invoke (CListNotices 50) in
  let* counts := deliver_notices notifs 0 0 in ok counts.
End notifier.
