(* ===== verification/Sanitize.v ===== *)
(** * Text from outside: [src/internal/sanitize/sanitize.go]

    The cleaning of user-generated text before a model or an owner sees it.
    The category [Cf] is a table of the Go distribution, the class
    [FormatTable]. *)

From S2P Require Import Prelude GoString Regexp Redact.

Class FormatTable := {
  rune_format : Z → bool;             (** [unicode.Cf] *)
}.
Definition no_format : FormatTable := {| rune_format _ := false |}.

Definition invisibleChars : list Z :=
  [173; 847; 1564; 6068; 6069; 6158; 8203; 8204; 8205; 8288; 65279].

(** [unicode.Cc] *)
Definition rune_control (r : Z) : bool := in_range 0 31 r || in_range 127 159 r.

(** [strings.Map]: an invalid byte is visited, and written, as [RuneError]. *)
Definition strings_map (f : Z → option Z) (s : string) : string := string_of_runes (omap f (runes s)).

Definition excessiveNewlines : regex := AtLeast 3 (Rune (Z.eqb 10)).

Section sanitize.
Context `{FormatTable}.

Definition visible (r : Z) : option Z :=
  if bool_decide (r ∈ invisibleChars) then None
  else if (rune_control r || rune_format r) && negb (r =? 9) && negb (r =? 10) then None
  else Some r.

Definition UserContent (text : string) (maxLength : Z) : string :=
  if bool_decide (text = "") then "[empty]" else
  let cleaned := strings_map visible text in
  let cleaned := ReplaceAll excessiveNewlines (λ _ _, [10; 10]) cleaned in
  let cleaned := TrimSpace cleaned in
  if bool_decide (cleaned = "") then "[empty]" else
  let rs := runes cleaned in
  if maxLength <? Z.of_nat (length rs)
  then string_of_runes (take (Z.to_nat maxLength) rs) +:+ " [truncated]"
  else cleaned.

Definition Name (text : string) (maxLength : Z) : string :=
  let result := UserContent text maxLength in
  if bool_decide (result = "[empty]") then result else
  let result := ReplaceAll (Rune (Z.eqb 10)) (λ _ _, [32]) result in
  let result := ReplaceAll (AtLeast 2 (Rune (Z.eqb 32))) (λ _ _, [32]) result in
  TrimSpace result.
End sanitize.
