(* ===== verification/HumanInputStore.v ===== *)
(** * The methods of [src/internal/db/human_input.go]

    What the adapter calls, composed of the statements of [HumanInputTables]
    the way the methods run them: only [insert_delivery] is one transaction. *)

From S2P Require Import Prelude GoString Program Rows Tables Actions Notices HumanInputTables WorkClient OwnerEffects.

Inductive hi_error :=
| HStore (e : db_error)
| HWork (e : work_error)
| ErrHumanInputCodeConflict
| ErrHumanInputDeliveryNotFound
| HArgument
| HCrypt
| HRandom                   (** the random source failed *)
| HCodesExhausted
| HCancelled
| HReply (what : string).

Section store.
Context `{Sealer}.
Local Open Scope prog_scope.

Abbreviation method A := (owner (result hi_error A)).
Definition call {A} (c : owner_call A) : method A := try c HStore.

(** Whether the delivery was inserted, or else the state of the row that holds
    the request. *)
Definition UpsertHumanInputDeliveryTx (x : HumanInputDelivery) (body : string) : method (bool * string) :=
  if (hd_UserID x <=? 0) || bool_decide (hd_RequestID x = "") || bool_decide (hd_RequestHash x = "")
     || bool_decide (hd_Kind x = "") || bool_decide (hd_AnswerCode x = "") then fail HArgument else
  let? existing := call (CState (hd_UserID x) (hd_RequestID x) (hd_RequestHash x)) in
  match existing with
  | Some state => ok (false, state)
  | None =>
    match SealForUser body (hd_UserID x) with
    | None => fail HCrypt
    | Some sealed =>
      let? inserted := call (CInsertDelivery x sealed) in
      if inserted : bool then ok (true, "") else
      let? existing := call (CState (hd_UserID x) (hd_RequestID x) (hd_RequestHash x)) in
      match existing with
      | Some state => ok (false, state)
      | None => fail ErrHumanInputCodeConflict
      end
    end
  end.

Definition GetHumanInputDeliveryByCode (userID : Z) (code : string) : method HumanInputDelivery :=
  let? row := call (CByCode userID code) in
  match row with Some d => ok d | None => fail ErrHumanInputDeliveryNotFound end.

Definition MarkHumanInputDelivery (userID id : Z) (state outcome : string) : method bool :=
  let? q := call (CQueued userID id) in
  match q with
  | None => fail ErrHumanInputDeliveryNotFound
  | Some (wasQueued, notifID) =>
    let? changed := call (CMark userID id state outcome) in
    if negb changed then ok false else
    match notifID with
    | Some notif =>
      if wasQueued && negb (humanInputOpen state) && negb (bool_decide (state = HumanInputAnswered)) then
        let* r := invoke (CNoticeFailed userID notif) in
        match r with
        | Ok _ | Err ErrOwnerNotificationNotFound => ok true
        | Err e => fail (HStore e)
        end
      else ok true
    | None => ok true
    end
  end.

Fixpoint supersede_all (userID : Z) (ids : list Z) (changedCount : Z) : method Z :=
  match ids with
  | [] => ok changedCount
  | id :: ids =>
    let? changed := MarkHumanInputDelivery userID id HumanInputSuperseded "superseded" in
    supersede_all userID ids (if changed : bool then changedCount + 1 else changedCount)
  end.
Definition SupersedeHumanInputDeliveries (userID : Z) (requestID keepHash : string) : method Z :=
  let? ids := call (CSuperseded userID requestID keepHash) in supersede_all userID ids 0.

Definition UpsertHumanInputActor (userID tgID : Z) : method unit :=
  if (userID <=? 0) || (tgID <=? 0) then fail HArgument else call (CUpsertActor userID tgID).

Definition MarkHumanInputActorDormant (userID : Z) (class : string) (base max : duration) : method unit :=
  let? failCount := call (CFailCount userID) in
  match failCount with
  | None => ok tt
  | Some n => call (CDormant userID (n + 1) class (dormancy (n + 1) base max))
  end.

(** [db/store.go] *)
Definition TelegramIDByUserID (userID : Z) : method (option Z) :=
  if userID <=? 0 then fail HArgument else call (CLogin userID).

(** [agent/actor/actor.go]: [None] when the account is not linked. *)
Definition Resolve (userID selfTGID : Z) : method (option Z) :=
  if selfTGID <=? 0 then ok None else
  let? stored := TelegramIDByUserID userID in
  ok (match stored with
      | Some tg => if tg =? selfTGID then Some selfTGID else None
      | None => None
      end).
End store.
