(* ===== verification/HumanInput.v ===== *)
(** * Questions of agents to their owner: [src/internal/humaninput],
    [src/internal/answercode]

    The poller that finds pending questions on the work platform and queues one
    message each, and the handler of [/mctl input] that submits the owner's
    answer.  How a question reads ([Render] and the reference it shows, in
    [render.go]) is an argument. *)

From S2P Require Import Prelude GoString Sha256 Program Rows Tables Actions Notices HumanInputTables WorkClient OwnerEffects Sanitize HumanInputStore.

(** ** Answer codes: [answercode.go] *)
Definition Length : nat := 6.
Definition alphabet : list Z := bytes "23456789ABCDEFGHJKMNPQRSTUVWXYZ".
Definition rejectionCeiling : Z := 256 - 256 mod Z.of_nat (length alphabet).

(** What a byte adds to the code. *)
Definition pick (b : Z) : option Z :=
  if rejectionCeiling <=? b then None else alphabet !! Z.to_nat (b mod Z.of_nat (length alphabet)).

(** [n] characters out of the bytes read, and the bytes behind them; [None]
    when the source fails before. *)
Fixpoint draw (n : nat) (bs : list Z) : option (list Z * list Z) :=
  match n with
  | O => Some ([], bs)
  | S n' =>
    (fix skip (bs : list Z) : option (list Z * list Z) :=
       match bs with
       | [] => None
       | b :: bs =>
         match pick b with
         | None => skip bs
         | Some c => match draw n' bs with Some (cs, rest) => Some (c :: cs, rest) | None => None end
         end
       end) bs
  end.
Definition New (bs : list Z) : option (string * list Z) :=
  match draw Length bs with Some (cs, rest) => Some (of_bytes cs, rest) | None => None end.

Definition reservedCodes : list string := ["STATUS"].
(** Every round reads a byte, so the number of bytes is enough fuel. *)
Fixpoint new_code (n : nat) (bs : list Z) : option string :=
  match n with
  | O => None
  | S n =>
    match New bs with
    | None => None
    | Some (code, rest) => if bool_decide (code ∈ reservedCodes) then new_code n rest else Some code
    end
  end.

(** ** Small functions *)
Definition OptionDigest `{UnicodeTables} (option_ : string) : string :=
  hex_encode (str_prefix 8 (Sum256 (ToLower (TrimSpace option_)))).

Definition idemKey (requestID requestHash : string) (tgMessageID : Z) : string :=
  hex_encode (Sum256 (requestID +:+ "|" +:+ requestHash +:+ "|" +:+ FormatInt tgMessageID)).

(** The runes of the lowercased text that are kept, until 32 bytes are there. *)
Definition token_rune (r : Z) : bool := in_range 97 122 r || in_range 48 57 r || (r =? 95) || (r =? 45).
Definition safeToken `{UnicodeTables} (s : string) : string :=
  of_bytes (take 32 (filter (λ r, token_rune r = true) (runes (ToLower s)))).

Definition normalizeCode `{UnicodeTables} (code : string) : string := ToUpper (TrimSpace code).

(** Line and paragraph separators become [sep]. *)
Definition breaks_to (sep r : Z) : option Z := if (r =? 8232) || (r =? 8233) then Some sep else Some r.
Definition oneLine `{FormatTable} (s : string) (max : Z) : string := strings_map (breaks_to 32) (Name s max).
Definition rendersBlank `{FormatTable} (s : string) : bool := String.eqb (UserContent s 1) "[empty]".

(** ** Replies *)
Definition NoLongerActive : string := "This question is no longer active.".
Definition replyAlready : string := "Already answered.".
Definition replyNotLinked : string := "This Telegram account is not linked to a platform identity yet. An operator needs to resolve this before /mctl input can be used.".
Definition replyNeutral : string := "This answer could not be accepted from this account.".
Definition replyInvalid : string := "That answer was not accepted. Check the question and try again.".
Definition replyPlatformErr : string := "The platform did not accept that answer.".
Definition replyNotSubmitted : string := "Could not reach the platform; nothing was submitted. Try again.".
Definition inputUsage : string :=
  "Usage: /mctl input <code> <answer>" +:+ nl +:+ "Also: /mctl input status [code]".

Definition couldNotConfirm (code : string) : string :=
  "Could not confirm; check again with /mctl input status " +:+ code.
Definition unconfirmedWaiting (code : string) : string :=
  "Your answer to " +:+ code +:+ " could not be confirmed, and the question is still waiting. Sending the same answer again is safe: /mctl input "
  +:+ code +:+ " <answer>".
Definition resolvedUnconfirmed (code : string) : string :=
  "Question " +:+ code +:+ " was answered. Whether it was your answer could not be confirmed; check /mctl work status.".
Definition submittedUnconfirmed (echo code : string) : string :=
  "Submitted: " +:+ echo +:+ ". The platform has not confirmed it yet; check with /mctl input status " +:+ code.
Definition answeredBy (echo : string) : string := "Answered by you: " +:+ echo +:+ ". Agent will resume.".

Definition maxAnswerRunes : Z := 2000.
Definition maxEchoRunes : Z := 60.
Definition maxStatusRows : nat := 5.

Section human_input.
Context `{Sealer} `{UnicodeTables} `{FormatTable}.
Local Open Scope prog_scope.

Abbreviation method A := (owner (result hi_error A)).

(** ** The handler: [handler.go] *)
Record Meta := MkMeta { mt_UserID : Z; mt_SelfTGID : Z; mt_TGMessageID : Z }.

Definition reply (userID : Z) (text : string) : method unit :=
  let* r := ask (QReply userID text) in Ret (map_err HReply r).
Definition Usage (userID : Z) : method unit := reply userID inputUsage.

(** The index into the options, or the usage hint. *)
Fixpoint index_of (want : string) (l : list string) (i : nat) : option nat :=
  match l with
  | [] => None
  | d :: l => if String.eqb d want then Some i else index_of want l (S i)
  end.
Definition optionIndex (row : HumanInputDelivery) (code value : string) : result string nat :=
  let value := TrimSpace value in
  let n := Z.of_nat (length (hd_OptionDigests row)) in
  let usage := "Reply with an option number 1-" +:+ FormatInt n +:+ ": /mctl input " +:+ code +:+ " <number>" in
  if bool_decide (value = "") || (n =? 0) then Err usage else
  match Atoi value with
  | Some i => if (i <? 1) || (n <? i) then Err usage else Ok (Z.to_nat (i - 1))
  | None => match index_of (OptionDigest value) (hd_OptionDigests row) 0 with
            | Some i => Ok i
            | None => Err usage
            end
  end.

(** The value to submit and its echo, or the usage hint. *)
Definition freeText (code value : string) : result string (string * string) :=
  let value := TrimSpace value in
  if bool_decide (value = "")
  then Err ("Add your answer after the code: /mctl input " +:+ code +:+ " <your answer>") else
  let r := runes value in
  if maxAnswerRunes <? Z.of_nat (length r)
  then Err ("Answer is too long (" +:+ FormatInt maxAnswerRunes
            +:+ " characters max). Shorten it and send again: /mctl input " +:+ code +:+ " <your answer>") else
  let echo := if maxEchoRunes <? Z.of_nat (length r) then take (Z.to_nat maxEchoRunes) r ++ runes "..." else r in
  Ok (string_of_runes r, oneLine (string_of_runes echo) (maxEchoRunes + 3)).

(** A failed mark is only logged. *)
Definition markTerminal (row : HumanInputDelivery) (state outcome : string) : owner unit :=
  forget (MarkHumanInputDelivery (hd_UserID row) (hd_ID row) state outcome).
Definition markAnswered (row : HumanInputDelivery) (outcome : string) : owner unit :=
  markTerminal row HumanInputAnswered outcome.
Definition markUnconfirmed (row : HumanInputDelivery) : owner unit :=
  if bool_decide (hd_State row = HumanInputSubmitted) then Ret tt
  else markTerminal row HumanInputUnconfirmed "submit_unconfirmed".

(** The text a canonical view leads to; it also updates the row. *)
Definition settle (row : HumanInputDelivery) (v : RequestView) (afterSubmit : bool) : owner string :=
  let code := hd_AnswerCode row in
  if bool_decide (rv_State v = HumanInputStateResolved) then
    if bool_decide (hd_State row = HumanInputUnconfirmed) && negb afterSubmit then
      let* _ := markTerminal row HumanInputInactive "resolved_unconfirmed" in Ret (resolvedUnconfirmed code)
    else if afterSubmit || bool_decide (hd_State row = HumanInputSubmitted) then
      let* _ := markAnswered row "resolved" in
      Ret (if afterSubmit then "Answered. Check /mctl work status for progress." else "Answered. Agent will resume.")
    else let* _ := markTerminal row HumanInputInactive "resolved" in Ret "Answered."
  else if bool_decide (rv_State v = HumanInputStatePending) then
    if afterSubmit then let* _ := markUnconfirmed row in Ret (couldNotConfirm code)
    else if bool_decide (hd_State row = HumanInputSubmitted)
         then Ret "Submitted; waiting for the platform to confirm."
    else if bool_decide (hd_State row = HumanInputUnconfirmed) then Ret (unconfirmedWaiting code)
    else Ret "Waiting for your answer."
  else if bool_decide (rv_State v ∈ [HumanInputStateExpired; HumanInputStateTimedOut; HumanInputStateNotPending]) then
    let* _ := markTerminal row HumanInputInactive (safeToken (rv_State v)) in Ret NoLongerActive
  else
    let* _ := (if afterSubmit then markUnconfirmed row else Ret tt) in Ret (couldNotConfirm code).

Definition canonicalText (actorTGID : Z) (row : HumanInputDelivery) (afterSubmit : bool) : owner string :=
  let* r := GetHumanInput actorTGID (hd_RequestID row) in
  match r with
  | Err e =>
    if Is e ErrHumanInputNotFound then
      let* _ := markTerminal row HumanInputInactive "not_found" in Ret NoLongerActive
    else
      let* _ := (if afterSubmit then markUnconfirmed row else Ret tt) in Ret (couldNotConfirm (hd_AnswerCode row))
  | Ok v =>
    if negb (String.eqb (rv_RequestHash v) (hd_RequestHash row)) then
      let* _ := markTerminal row HumanInputSuperseded "superseded" in Ret NoLongerActive
    else settle row v afterSubmit
  end.

Definition rejectionOutcome (e : work_error) : string :=
  match we_api e with
  | Some api => if bool_decide (ae_Code api = "") then errClass e else safeToken (ae_Code api)
  | None => errClass e
  end.

(** What becomes of a submitted answer. *)
Definition submitted (userID actorTGID : Z) (row : HumanInputDelivery) (code echo : string)
    (resp : result work_error ResponseView) : method unit :=
  match resp with
  | Ok v =>
    if bool_decide (rs_Status v = HumanInputStatusAccepted) then
      let* _ := markAnswered row "accepted" in
      reply userID (if bool_decide (rs_Detail v = DetailAlreadyAccepted) then replyAlready else answeredBy echo)
    else
      let* _ := markTerminal row HumanInputSubmitted "pending_delivery" in
      reply userID (submittedUnconfirmed echo code)
  | Err e =>
    if Is e ErrRequestSuperseded then
      let* _ := markTerminal row HumanInputSuperseded "superseded" in reply userID NoLongerActive
    else if Is e ErrRequestNotActive then
      let* _ := markTerminal row HumanInputInactive (rejectionOutcome e) in reply userID NoLongerActive
    else if Is e ErrNotEligible || isLinkError e then reply userID replyNeutral
    else if Is e ErrAnswerInvalid then reply userID replyInvalid
    else if match we_api e with Some api => ae_StatusCode api <? 500 | None => false end
    then reply userID replyPlatformErr
    else
      let* text := canonicalText actorTGID row true in reply userID text
  end.

Definition submit (meta : Meta) (actorTGID : Z) (row : HumanInputDelivery) (code value echo : string) : method unit :=
  let* resp := RespondHumanInput (mt_UserID meta) actorTGID (hd_RequestID row)
                 (MkResponseRequest (hd_RequestHash row) value)
                 (idemKey (hd_RequestID row) (hd_RequestHash row) (mt_TGMessageID meta)) in
  submitted (mt_UserID meta) actorTGID row code echo resp.

Definition answer_choice (meta : Meta) (actorTGID : Z) (row : HumanInputDelivery) (code value : string) : method unit :=
  let u := mt_UserID meta in
  match optionIndex row code value with
  | Err hint => reply u hint
  | Ok idx =>
    let* r := GetHumanInput actorTGID (hd_RequestID row) in
    match r with
    | Err e =>
      if Is e ErrHumanInputNotFound then
        let* _ := markTerminal row HumanInputInactive "not_found" in reply u NoLongerActive
      else reply u replyNotSubmitted
    | Ok v =>
      if negb (String.eqb (rv_RequestHash v) (hd_RequestHash row)) then
        let* _ := markTerminal row HumanInputSuperseded "superseded" in reply u NoLongerActive
      else if negb (bool_decide (rv_State v = HumanInputStatePending)) then
        let* text := settle row v false in reply u text
      else match rv_Options v !! idx, hd_OptionDigests row !! idx with
           | Some o, Some d =>
             if negb (String.eqb (OptionDigest o) d) then reply u replyPlatformErr
             else submit meta actorTGID row code o ("option " +:+ FormatInt (Z.of_nat idx + 1))
           | _, _ => reply u replyPlatformErr
           end
    end
  end.

Definition Answer (meta : Meta) (code value : string) : method unit :=
  let u := mt_UserID meta in
  let? actorTGID := Resolve u (mt_SelfTGID meta) in
  match actorTGID with
  | None => reply u replyNotLinked
  | Some actorTGID =>
    let code := normalizeCode code in
    let* row := GetHumanInputDeliveryByCode u code in
    match row with
    | Err ErrHumanInputDeliveryNotFound => reply u NoLongerActive
    | Err e => fail e
    | Ok row =>
      if Terminal row then
        reply u (if bool_decide (hd_State row = HumanInputAnswered) then replyAlready else NoLongerActive)
      else if bool_decide (hd_Kind row = HumanInputTypeSingleChoice) then answer_choice meta actorTGID row code value
      else if bool_decide (hd_Kind row = HumanInputTypeFreeText) then
        match freeText code value with
        | Err hint => reply u hint
        | Ok (value, echo) => submit meta actorTGID row code value echo
        end
      else reply u NoLongerActive
    end
  end.

Fixpoint status_lines (actorTGID : Z) (rows : list HumanInputDelivery) : owner string :=
  match rows with
  | [] => Ret ""
  | row :: rows =>
    let* text := canonicalText actorTGID row false in
    let* rest := status_lines actorTGID rows in
    Ret (hd_AnswerCode row +:+ ": " +:+ text +:+ nl +:+ rest)
  end.

Definition Status (meta : Meta) (code : string) : method unit :=
  let u := mt_UserID meta in
  let? actorTGID := Resolve u (mt_SelfTGID meta) in
  match actorTGID with
  | None => reply u replyNotLinked
  | Some actorTGID =>
    let* _ := UpsertHumanInputActor u actorTGID in
    let code := normalizeCode code in
    if negb (bool_decide (code = "")) then
      let* row := GetHumanInputDeliveryByCode u code in
      match row with
      | Err ErrHumanInputDeliveryNotFound => reply u NoLongerActive
      | Err e => fail e
      | Ok row => let* text := canonicalText actorTGID row false in reply u text
      end
    else
      let? open := call (CListOpen u) in
      match open with
      | [] => reply u "No open input requests."
      | _ =>
        let* lines := status_lines actorTGID (take maxStatusRows open) in
        let rest := drop maxStatusRows open in
        let more := match rest with
                    | [] => ""
                    | _ => FormatInt (Z.of_nat (length rest)) +:+ " more open, not checked here: "
                           +:+ Join (map hd_AnswerCode rest) ", " +:+ ". Use /mctl input status <code>." +:+ nl
                    end in
        reply u (TrimRight (lines +:+ more) nl)
      end
  end.

(** ** The poller: [poller.go] *)
Variable Render : RequestView → string → string.
Variable WorkRefFromExternalKey : string → string.

Definition dormantBase : duration := Minute.
Definition dormantMax : duration := Hour.
Definition codeAttempts : nat := 5.
Definition maxSettleReads : nat := 5.
Definition maxOptions : nat := 10.
Definition maxLabelRunes : Z := 120.

(** The key under which options that read the same collide. *)
Definition option_key (o : string) : string :=
  let key := ToLower (oneLine o maxLabelRunes) in
  if HasSuffix key " [truncated]" then "digest:" +:+ OptionDigest o else key.
Fixpoint options_problem (seen : list string) (l : list string) : string :=
  match l with
  | [] => ""
  | o :: l =>
    if rendersBlank o then "empty_option"
    else if bool_decide (option_key o ∈ seen) then "duplicate_options"
    else options_problem (option_key o :: seen) l
  end.

Definition undeliverable (r : RequestView) : string :=
  if negb (ValidHumanInputRequestID (rv_RequestID r)) || bool_decide (rv_RequestHash r = "") then "malformed"
  else if rendersBlank (rv_Question r) then "empty_question"
  else if negb (Respondable r) then "cannot_respond"
  else if bool_decide (rv_ResponseType r = HumanInputTypeFreeText) then ""
  else if bool_decide (rv_ResponseType r = HumanInputTypeSingleChoice) then
    if bool_decide (rv_Options r = []) then "no_options"
    else if (maxOptions <? length (rv_Options r))%nat then "too_many_options"
    else options_problem [] (rv_Options r)
  else "unsupported_type".

Definition optionDigests (r : RequestView) : list string :=
  if bool_decide (rv_ResponseType r = HumanInputTypeSingleChoice) then map OptionDigest (rv_Options r) else [].

Definition new_delivery (userID : Z) (r : RequestView) (code : string) : HumanInputDelivery :=
  MkHumanInputDelivery 0 userID (rv_RequestID r) (rv_RequestHash r) (rv_RequestVersion r) (rv_WorkItemID r)
    (rv_ResponseType r) code (optionDigests r) 0 0 "" "" time_zero time_zero time_zero time_zero.

(** The state of a terminal row that holds the request, or the empty text. *)
Fixpoint insert_coded (attempts : nat) (userID : Z) (r : RequestView) : method string :=
  match attempts with
  | O => fail HCodesExhausted
  | S attempts =>
    let* bs := ask QRandomBytes in
    match new_code (length bs) bs with
    | None => fail HRandom
    | Some code =>
      let* res := UpsertHumanInputDeliveryTx (new_delivery userID r code) (Render r code) in
      match res with
      | Err ErrHumanInputCodeConflict => insert_coded attempts userID r
      | Err e => fail e
      | Ok (inserted, existing) =>
        if inserted : bool then ok ""
        else if negb (humanInputOpen existing) then ok (safeToken existing) else ok ""
      end
    end
  end.

Definition with_work_ref (userID : Z) (r : RequestView) : owner RequestView :=
  if bool_decide (rv_WorkItemID r = "") then Ret r else
  let* key := invoke (CExternalKey userID (rv_WorkItemID r)) in
  match key with
  | Ok (Some key) =>
    let ref := WorkRefFromExternalKey key in
    Ret (if bool_decide (ref = "") then r else r <|rv_WorkRef := ref|>)
  | _ => Ret r
  end.

Definition enqueue (userID : Z) (r : RequestView) : method string :=
  let? _ := SupersedeHumanInputDeliveries userID (rv_RequestID r) (rv_RequestHash r) in
  let* r := with_work_ref userID r in
  insert_coded codeAttempts userID r.

(** Why and how an open row that the list does not show is closed; [None]
    keeps it. *)
Definition absent_outcome (d : HumanInputDelivery) (r : result work_error RequestView) : option (string * string) :=
  match r with
  | Err e => if Is e ErrHumanInputNotFound then Some (HumanInputInactive, "not_found") else None
  | Ok v =>
    if negb (String.eqb (rv_RequestHash v) (hd_RequestHash d)) then Some (HumanInputSuperseded, "superseded")
    else if bool_decide (rv_State v ∈ [HumanInputStatePending; HumanInputStateUnknown]) then None
    else if bool_decide (rv_State v = HumanInputStateResolved) then
      if bool_decide (hd_State d = HumanInputSubmitted) then Some (HumanInputAnswered, "resolved")
      else if bool_decide (hd_State d = HumanInputUnconfirmed) then Some (HumanInputInactive, "resolved_unconfirmed")
      else Some (HumanInputInactive, "resolved")
    else if bool_decide (rv_State v ∈ [HumanInputStateExpired; HumanInputStateTimedOut; HumanInputStateNotPending])
    then Some (HumanInputInactive, safeToken (rv_State v))
    else None
  end.

Definition follow_up (d : HumanInputDelivery) (state outcome : string) : string :=
  if bool_decide (state = HumanInputAnswered)
  then "Your answer to " +:+ hd_AnswerCode d +:+ " was confirmed. Agent will resume."
  else if bool_decide (outcome = "resolved_unconfirmed") then resolvedUnconfirmed (hd_AnswerCode d)
  else NoLongerActive +:+ " (" +:+ hd_AnswerCode d +:+ ")".

Definition settleAbsent (a : HumanInputActor) (d : HumanInputDelivery) : owner unit :=
  let* r := GetHumanInput (ha_TGID a) (hd_RequestID d) in
  match absent_outcome d r with
  | None => Ret tt
  | Some (state, outcome) =>
    let wasDelivered := bool_decide (hd_State d ∈ [HumanInputSent; HumanInputSubmitted; HumanInputUnconfirmed]) in
    let* changed := MarkHumanInputDelivery (ha_UserID a) (hd_ID d) state outcome in
    match changed with
    | Ok true =>
      if wasDelivered
      then forget (invoke (CInsertNotice (MkOwnerNotification 0 (ha_UserID a) NotificationHumanInput 0
                                            (follow_up d state outcome) "" 0 time_zero time_zero)))
      else Ret tt
    | _ => Ret tt
    end
  end.

Definition request_key (requestID requestHash : string) : string :=
  requestID +:+ chr (Ascii.ascii_of_nat 0) +:+ requestHash.

(** The requests the list shows as pending are queued; a failed one is only
    logged.  Its keys are what the list shows. *)
Fixpoint enqueue_listed (userID : Z) (reqs : list RequestView) : owner (list string) :=
  match reqs with
  | [] => Ret []
  | r :: reqs =>
    if negb (bool_decide (rv_State r = HumanInputStatePending)) then enqueue_listed userID reqs else
    let* _ := (if bool_decide (undeliverable r = "") then forget (enqueue userID r) else Ret tt) in
    let* keys := enqueue_listed userID reqs in
    Ret (request_key (rv_RequestID r) (rv_RequestHash r) :: keys)
  end.

Fixpoint settle_all (a : HumanInputActor) (absent : list HumanInputDelivery) : method unit :=
  match absent with
  | [] => ok tt
  | d :: absent =>
    let* cancelled := ask QCancelled in
    if cancelled : bool then fail HCancelled else
    let* spent := ask QBudgetSpent in
    if spent : bool then ok tt else
    let* _ := settleAbsent a d in settle_all a absent
  end.

Definition pollActor (a : HumanInputActor) : method unit :=
  let? stored := TelegramIDByUserID (ha_UserID a) in
  if negb (bool_decide (stored = Some (ha_TGID a))) then ok tt else
  let* reqs := ListHumanInput (ha_TGID a) in
  match reqs with
  | Err e =>
    if isLinkError e then
      let? _ := MarkHumanInputActorDormant (ha_UserID a) (errClass e) dormantBase dormantMax in fail (HWork e)
    else fail (HWork e)
  | Ok reqs =>
    let* listed := enqueue_listed (ha_UserID a) reqs in
    let? open := call (CListOpen (ha_UserID a)) in
    let absent := filter (λ d, request_key (hd_RequestID d) (hd_RequestHash d) ∉ listed) open in
    let* absent := (if (maxSettleReads <? length absent)%nat then
                      let* shuffled := ask (QShuffle absent) in Ret (take maxSettleReads shuffled)
                    else Ret absent) in
    settle_all a absent
  end.

Fixpoint poll_all (actors : list HumanInputActor) : method unit :=
  match actors with
  | [] => ok tt
  | a :: actors =>
    let* cancelled := ask QCancelled in
    if cancelled : bool then fail HCancelled else
    let* _ := pollActor a in poll_all actors
  end.

Definition RunOnce : method unit :=
  let* kill := ask QGlobalKill in
  if kill : bool then ok tt else
  let* now := ask QNow in
  let? actors := call (CListActors now) in
  poll_all actors.
End human_input.
