(* ===== verification/OwnerProps.v ===== *)
(** * The ledger of the owner's surface

    What the poller, the handler of [/mctl input] and the notifier may do, and
    what they learn from each answer, over a world that only grows: the
    questions queued so far, the random ids the notifications were claimed
    with, the messages in the owners' Saved Messages, the accounts that were
    read as linked, the commands of the owners, and the traffic with the work
    platform. *)

From S2P Require Import Prelude GoString Program Linear Rows Tables Actions Notices HumanInputTables WorkClient OwnerEffects Notifier Sanitize HumanInputStore HumanInput.

(** ** The world *)

(** What of a delivery never changes. *)
Record question := Question {
  qn_User : Z;
  qn_Request : string;
  qn_Hash : string;
  qn_Kind : string;
  qn_Code : string;
  qn_Digests : list string;
}.
Definition row_question (r : delivery_row) : question :=
  Question (hi_UserID r) (hi_RequestID r) (hi_RequestHash r) (hi_Kind r) (hi_AnswerCode r) (hi_OptionDigests r).
Definition asked_question (d : HumanInputDelivery) : question :=
  Question (hd_UserID d) (hd_RequestID d) (hd_RequestHash d) (hd_Kind d) (hd_AnswerCode d) (hd_OptionDigests d).

Record message := Message {
  ms_Notice : Z;
  ms_User : Z;
  ms_Random : Z;
  ms_Text : string;
}.
Definition ms_key (m : message) : Z * Z := (ms_User m, ms_Random m).

(** One exchange with the platform. *)
Inductive exchange :=
| EvList (actor : Z) (a : http_result humanInputListEnvelope)
| EvRead (actor : Z) (rid : string) (a : http_result RequestView)
| EvRespond (u actor : Z) (rid : string) (req : ResponseRequest) (key : string) (a : http_result ResponseView).

(** A call of the handler of [/mctl input] with an answer: the message it came
    in, and the code and the value behind it. *)
Record command := Command {
  cm_Meta : Meta;
  cm_Code : string;
  cm_Value : string;
}.

Record owner_world := OwnerWorld {
  ow_questions : gmap Z question;
  ow_claims : gmap Z (Z * Z);          (** the user and random id of a claimed notification *)
  ow_box : list message;
  ow_links : list (Z * Z);             (** user and Telegram id *)
  ow_said : list command;
  ow_api : list exchange;
}.
Record owner_le (w w' : owner_world) : Prop := {
  le_questions : ow_questions w ⊆ ow_questions w';
  le_claims : ow_claims w ⊆ ow_claims w';
  le_box : ow_box w ⊆ ow_box w';
  le_links : ow_links w ⊆ ow_links w';
  le_said : ow_said w ⊆ ow_said w';
  le_api : ow_api w ⊆ ow_api w';
}.
#[global] Instance owner_le_preorder : PreOrder owner_le.
Proof.
  split; [by intros w; split |]. intros w1 w2 w3 [] []. split; by etrans.
Qed.

Section ledger.
Context `{SL : Sealer} `{UT : UnicodeTables} `{FT : FormatTable}.

(** ** Facts of the traffic *)
Definition reads (w : owner_world) (actor : Z) (rid : string) (v : RequestView) : Prop :=
  ∃ a, EvRead actor rid a ∈ ow_api w ∧ relay_answer false validate_view a = Ok v.

(** An answer to [q] was handed to the platform. *)
Definition tried (w : owner_world) (q : question) : Prop :=
  ∃ actor req key a, EvRespond (qn_User q) actor (qn_Request q) req key a ∈ ow_api w ∧ rr_RequestHash req = qn_Hash q.
(** The platform took one, with the status [status]. *)
Definition taken (status : string) (w : owner_world) (q : question) : Prop :=
  ∃ actor req key a v, EvRespond (qn_User q) actor (qn_Request q) req key a ∈ ow_api w ∧ rr_RequestHash req = qn_Hash q ∧
    relay_answer true validate_response a = Ok v ∧ rs_Status v = status.
(** The platform shows it as resolved. *)
Definition resolved (w : owner_world) (q : question) : Prop :=
  ∃ actor v, reads w actor (qn_Request q) v ∧ rv_RequestHash v = qn_Hash q ∧ rv_State v = HumanInputStateResolved.
Definition confirmed (w : owner_world) (q : question) : Prop :=
  taken HumanInputStatusAccepted w q ∨ (tried w q ∧ resolved w q).

Definition linked (w : owner_world) (u actor : Z) : Prop := (u, actor) ∈ ow_links w.

(** The evidence a state needs. *)
Definition state_backed (w : owner_world) (q : question) (state : string) : Prop :=
  (state = HumanInputAnswered → confirmed w q) ∧
  (state = HumanInputSubmitted → taken HumanInputStatusPendingDelivery w q) ∧
  (state = HumanInputUnconfirmed → tried w q).

Definition known (w : owner_world) (d : HumanInputDelivery) : Prop :=
  ow_questions w !! hd_ID d = Some (asked_question d) ∧
  ValidHumanInputRequestID (hd_RequestID d) = true ∧
  state_backed w (asked_question d) (hd_State d).

(** The platform listed the request as pending for an account of the user. *)
Definition asked (w : owner_world) (x : HumanInputDelivery) : Prop :=
  ∃ actor a l r code, linked w (hd_UserID x) actor ∧ EvList actor a ∈ ow_api w ∧ relay_answer false validate_list a = Ok l ∧
    r ∈ le_Items l ∧ rv_State r = HumanInputStatePending ∧ undeliverable r = "" ∧ x = new_delivery (hd_UserID x) r code.

(** [typed] names the [k]th of the options with the digests [ds]: by its number,
    counted from one, or by its text when that is no number, where the first one
    is meant. *)
Definition names_option (ds : list string) (typed : string) (k : nat) : Prop :=
  (k < length ds)%nat ∧ TrimSpace typed ≠ "" ∧
  match Atoi (TrimSpace typed) with
  | Some n => n = Z.of_nat k + 1
  | None => ds !! k = Some (OptionDigest (TrimSpace typed)) ∧
      ∀ j, (j < k)%nat → ds !! j ≠ Some (OptionDigest (TrimSpace typed))
  end.
(** What may be submitted for [typed]: the option it names, which reads now as it
    did when the question was asked, or the text without the space around it,
    neither blank nor too long. *)
Definition an_option (w : owner_world) (q : question) (actor : Z) (typed value : string) : Prop :=
  ∃ v k, names_option (qn_Digests q) typed k ∧
    reads w actor (qn_Request q) v ∧ rv_RequestHash v = qn_Hash q ∧ rv_State v = HumanInputStatePending ∧
    rv_Options v !! k = Some value ∧ qn_Digests q !! k = Some (OptionDigest value).
Definition a_text (typed value : string) : Prop :=
  value = string_of_runes (runes (TrimSpace typed)) ∧ TrimSpace typed ≠ "" ∧
  Z.of_nat (length (runes (TrimSpace typed))) ≤ maxAnswerRunes.
Definition submission (w : owner_world) (u actor : Z) (rid : string) (req : ResponseRequest) (key : string) : Prop :=
  linked w u actor ∧ ∃ id q cmd, ow_questions w !! id = Some q ∧ cmd ∈ ow_said w ∧
    mt_UserID (cm_Meta cmd) = u ∧ mt_SelfTGID (cm_Meta cmd) = actor ∧
    qn_User q = u ∧ qn_Code q = normalizeCode (cm_Code cmd) ∧ qn_Request q = rid ∧ rr_RequestHash req = qn_Hash q ∧
    key = idemKey rid (qn_Hash q) (mt_TGMessageID (cm_Meta cmd)) ∧
    ((qn_Kind q = HumanInputTypeSingleChoice ∧ an_option w q actor (cm_Value cmd) (rr_Value req)) ∨
     (qn_Kind q = HumanInputTypeFreeText ∧ a_text (cm_Value cmd) (rr_Value req))).

(** The notification's message is in the Saved Messages of [u]. *)
Definition shown (w : owner_world) (n u : Z) : Prop :=
  ∃ rid, ow_claims w !! n = Some (u, rid) ∧ (u, rid) ∈ map ms_key (ow_box w).

(** ** The protocol *)
Definition settling (state : string) : Prop := state ≠ HumanInputQueued ∧ state ≠ HumanInputSent.
Definition closing (state : string) : Prop :=
  state ≠ HumanInputAnswered ∧ state ≠ HumanInputSubmitted ∧ state ≠ HumanInputUnconfirmed.
Definition may_settle (w : owner_world) (id : Z) (state : string) : Prop :=
  settling state ∧ (closing state ∨ ∃ q, ow_questions w !! id = Some q ∧ state_backed w q state).

Definition owner_pre {A} (w : owner_world) (c : owner_call A) : Prop :=
  match c with
  | CNoticeSent u id _ => shown w id u
  | CSetMessageID n _ => ∃ u, shown w n u
  | CInsertDelivery x _ => asked w x
  | CMark u id state _ => may_settle w id state
  | _ => True
  end.
Definition owner_post {A} (w : owner_world) (c : owner_call A) : result db_error A → Prop :=
  match c in owner_call A return result db_error A → Prop with
  | CClaimNotice u id _ _ => λ r, ∀ rid, r = Ok (Some rid) → ow_claims w !! id = Some (u, rid)
  | CByCode u code => λ r, ∀ d, r = Ok (Some d) → known w d ∧ hd_UserID d = u ∧ hd_AnswerCode d = code
  | CListOpen u => λ r, ∀ l, r = Ok l → ∀ d, d ∈ l → known w d ∧ hd_UserID d = u
  | CLogin u => λ r, ∀ tg, r = Ok (Some tg) → linked w u tg
  | _ => λ _, True
  end.
Definition owner_qpre {A} (w : owner_world) (q : owner_query A) : Prop :=
  match q with
  | QSelf n u rid _ => ow_claims w !! n = Some (u, rid)
  | QHttpList actor => ∃ u, linked w u actor
  | QHttpGet actor _ => ∃ u, linked w u actor
  | QHttpRespond u actor rid req key => submission w u actor rid req key
  | _ => True
  end.
Definition owner_qpost {A} (w : owner_world) (q : owner_query A) : A → Prop :=
  match q in owner_query A return A → Prop with
  | QSelf n u rid _ => λ r, (∃ id, r = Ok id) ∨ r = Err SelfAlreadyDelivered → (u, rid) ∈ map ms_key (ow_box w)
  | QShuffle l => λ l', l' ⊆ l
  | QHttpList actor => λ a, EvList actor a ∈ ow_api w
  | QHttpGet actor rid => λ a, EvRead actor rid a ∈ ow_api w
  | QHttpRespond u actor rid req key => λ a, EvRespond u actor rid req key a ∈ ow_api w
  | _ => λ _, True
  end.

(** ** The facts last *)
Lemma reads_mono w w' actor rid v : owner_le w w' → reads w actor rid v → reads w' actor rid v.
Proof. intros Hw (a & Ha & Hv). exists a. split; [by apply Hw | done]. Qed.
Lemma tried_mono w w' q : owner_le w w' → tried w q → tried w' q.
Proof. intros Hw (actor & req & key & a & Ha & Hh). exists actor, req, key, a. split; [by apply Hw | done]. Qed.
Lemma taken_mono status w w' q : owner_le w w' → taken status w q → taken status w' q.
Proof.
  intros Hw (actor & req & key & a & v & Ha & Hh). exists actor, req, key, a, v. split; [by apply Hw | done].
Qed.
Lemma confirmed_mono w w' q : owner_le w w' → confirmed w q → confirmed w' q.
Proof.
  intros Hw [Ht|[Ht (actor & v & Hr & Hv)]]; [left; by eapply taken_mono | right].
  split; [by eapply tried_mono |]. exists actor, v. split; [by eapply reads_mono | done].
Qed.
Lemma linked_mono w w' u actor : owner_le w w' → linked w u actor → linked w' u actor.
Proof. intros Hw. apply Hw. Qed.
Lemma question_mono w w' id q : owner_le w w' → ow_questions w !! id = Some q → ow_questions w' !! id = Some q.
Proof. intros Hw Hq. eapply lookup_weaken; [exact Hq | by apply Hw]. Qed.
Lemma state_backed_mono w w' q state : owner_le w w' → state_backed w q state → state_backed w' q state.
Proof.
  intros Hw (Ha & Hs & Hu). split_and!; intros He;
    [eapply confirmed_mono, Ha, He | eapply taken_mono, Hs, He | eapply tried_mono, Hu, He]; done.
Qed.
Lemma delivery_known_mono w w' d : owner_le w w' → known w d → known w' d.
Proof.
  intros Hw (Hq & Hv & Hs). split_and!; [by eapply question_mono | done | by eapply state_backed_mono].
Qed.
Lemma shown_mono w w' n u : owner_le w w' → shown w n u → shown w' n u.
Proof.
  intros Hw (rid & Hc & (m & Hk & Hm)%list_elem_of_fmap). exists rid.
  split; [eapply lookup_weaken; [done | by apply Hw] |]. apply list_elem_of_fmap. exists m. split; [done | by apply Hw].
Qed.
Lemma asked_mono w w' x : owner_le w w' → asked w x → asked w' x.
Proof.
  intros Hw (actor & a & l & r & code & Hl & Ha & Hx). exists actor, a, l, r, code.
  split_and!; [by eapply linked_mono | by apply Hw | apply Hx..].
Qed.
Lemma may_settle_mono w w' id state : owner_le w w' → may_settle w id state → may_settle w' id state.
Proof.
  intros Hw [Hs [Hc|(q & Hq & Hb)]]; (split; [done |]); [by left | right]. exists q.
  split; [by eapply question_mono | by eapply state_backed_mono].
Qed.
Lemma submission_mono w w' u actor rid req key :
  owner_le w w' → submission w u actor rid req key → submission w' u actor rid req key.
Proof.
  intros Hw (Hl & id & q & cmd & Hq & Hcmd & Hu & Hs & Hqu & Hc & Hr & Hh & Hk & Hv). split; [by eapply linked_mono |].
  exists id, q, cmd. split_and!; [by eapply question_mono | by apply Hw | done.. |].
  destruct Hv as [[Hkind (v & k & Hn & Hv & Hx)]|Hv]; [left | by right].
  split; [done |]. exists v, k. split_and!; [done | by eapply reads_mono | apply Hx..].
Qed.

#[global, refine] Instance owner_ledger : Ledger db_error owner_call owner_query owner_world unit := {
  l_le := owner_le;
  l_pre A w _ c := owner_pre w c;
  l_post A w _ c r _ := owner_post w c r;
  l_qpre A w _ q := owner_qpre w q;
  l_qpost A w _ q a _ := owner_qpost w q a;
}.
Proof.
  - intros A w w' _ c Hw. destruct c; cbn; try done.
    + by apply shown_mono.
    + by apply asked_mono.
    + by apply may_settle_mono.
    + intros [u Hu]. exists u. by eapply shown_mono.
  - intros A w w' _ q Hw. destruct q; cbn; try done.
    + intros Hc. eapply lookup_weaken; [exact Hc | by apply Hw].
    + intros [u Hu]. exists u. by eapply linked_mono.
    + intros [u Hu]. exists u. by eapply linked_mono.
    + by apply submission_mono.
Defined.

(** [keeps w p Φ]: [p] keeps to the protocol from [w] on, and its result
    satisfies [Φ] of the world it ends in. *)
Definition keeps {R} (w : owner_world) (p : owner R) (Φ : owner_world → R → Prop) : Prop :=
  owns w tt p (λ w' _ r, Φ w' r).

Abbreviation runs w p := (keeps w p (λ _ _, True)).

(** ** Keeping to the protocol *)
Lemma owner_seq {R S} w (p : owner R) (f : R → owner S) Φ Ψ :
  keeps w p Φ → (∀ w' r, owner_le w w' → Φ w' r → keeps w' (f r) Ψ) → keeps w (bind p f) Ψ.
Proof. intros Hp Hf. eapply owns_then; [exact Hp |]. intros w' [] r. apply Hf. Qed.

Lemma keeps_then {R S} w (p : owner R) (f : R → owner S) Ψ :
  runs w p → (∀ w' r, owner_le w w' → keeps w' (f r) Ψ) → keeps w (bind p f) Ψ.
Proof. intros Hp Hf. eapply owner_seq; [exact Hp |]. auto. Qed.

Lemma keeps_ok_then {A B} w (p : owner (result hi_error A)) (f : A → owner (result hi_error B)) Φ :
  keeps w p (λ w' r, ∀ a, r = Ok a → Φ w' a) → (∀ w' a, owner_le w w' → Φ w' a → runs w' (f a)) →
  runs w (bind_ok p f).
Proof. intros Hp Hf. eapply owner_seq; [exact Hp |]. intros w' [a|e] Hw Ha; [| done]. apply Hf; [done | by apply Ha]. Qed.

Lemma runs_ok_then {A B} w (p : owner (result hi_error A)) (f : A → owner (result hi_error B)) :
  runs w p → (∀ w' a, owner_le w w' → runs w' (f a)) → runs w (bind_ok p f).
Proof. intros Hp Hf. apply keeps_then; [done |]. intros w' [a|e] Hw; [by apply Hf | done]. Qed.

Lemma keeps_ask {A R} w (q : owner_query A) (f : A → owner R) Φ :
  owner_qpre w q → (∀ w' x, owner_le w w' → owner_qpost w' q x → keeps w' (f x) Φ) → keeps w (bind (ask q) f) Φ.
Proof. intros Hq Hf. split; [done |]. intros w' x []. apply Hf. Qed.

Lemma keeps_invoke {A R} w (c : owner_call A) (f : result db_error A → owner R) Φ :
  owner_pre w c → (∀ w' x, owner_le w w' → owner_post w' c x → keeps w' (f x) Φ) → keeps w (bind (invoke c) f) Φ.
Proof. intros Hq Hf. split; [done |]. intros w' x []. apply Hf. Qed.

Lemma keeps_call {A B} w (c : owner_call A) (f : A → owner (result hi_error B)) (Φ : owner_world → result hi_error B → Prop) :
  owner_pre w c → (∀ w' a, owner_le w w' → owner_post w' c (Ok a) → keeps w' (f a) Φ) →
  (∀ w' e, Φ w' (Err e)) → keeps w (bind_ok (call c) f) Φ.
Proof.
  intros Hq Hf He. split; [done |]. intros w' [a|e] [] Hw Hx; [by apply Hf | apply He].
Qed.
Lemma runs_call {A B} w (c : owner_call A) (f : A → owner (result hi_error B)) :
  owner_pre w c → (∀ w' a, owner_le w w' → owner_post w' c (Ok a) → runs w' (f a)) → runs w (bind_ok (call c) f).
Proof. intros Hq Hf. by apply keeps_call. Qed.

Lemma runs_forget {R} w (p : owner R) : runs w p → runs w (forget p).
Proof. intros Hp. by apply keeps_then. Qed.
Lemma runs_invoke {A} w (c : owner_call A) : owner_pre w c → runs w (invoke c).
Proof. intros Hc. by split. Qed.
Lemma runs_ask {A} w (q : owner_query A) : owner_qpre w q → runs w (ask q).
Proof. intros Hc. by split. Qed.
Lemma runs_mono {R} w w' (p : owner R) : owner_le w w' → runs w p → runs w' p.
Proof. intros Hw Hp. exact (owns_weaken (H := owner_ledger) w w' tt p Hw Hp). Qed.

(** ** The store's methods *)
Lemma closing_may_settle w id state : settling state → closing state → may_settle w id state.
Proof. intros Hs Hc. split; [done | by left]. Qed.

Lemma mark_runs w u id state outcome : may_settle w id state → runs w (MarkHumanInputDelivery u id state outcome).
Proof.
  intros Hs. apply runs_call; [done |]. intros w1 [[queued notif]|] H1 _; [| done].
  apply runs_call; [by eapply may_settle_mono |]. intros w2 [|] H2 _; [| done].
  cbn. destruct notif as [n|]; [| done]. case_match; [| done].
  apply keeps_invoke; [done |]. intros w3 r _ _. destruct r as [|[]]; done.
Qed.
Lemma markTerminal_runs w row state outcome : may_settle w (hd_ID row) state → runs w (markTerminal row state outcome).
Proof. intros Hs. by apply runs_forget, mark_runs. Qed.

Lemma supersede_all_runs w u ids n : runs w (supersede_all u ids n).
Proof.
  revert w n. induction ids as [|id ids IH]; intros w n; [done |].
  apply runs_ok_then; [by apply mark_runs, closing_may_settle |]. intros w' changed _. apply IH.
Qed.
Lemma supersede_runs w u rid keep : runs w (SupersedeHumanInputDeliveries u rid keep).
Proof. apply runs_call; [done |]. intros w' ids _ _. apply supersede_all_runs. Qed.

Lemma upsert_delivery_runs w x body : asked w x → runs w (UpsertHumanInputDeliveryTx x body).
Proof.
  intros Hx. unfold UpsertHumanInputDeliveryTx. case_match; [done |].
  apply runs_call; [done |]. intros w1 [state|] H1 _; [done |]. case_match; [| done].
  apply runs_call; [by eapply asked_mono |]. intros w2 [|] _ _; [done |].
  apply runs_call; [done |]. by intros w3 [state|] _ _.
Qed.

Lemma by_code_keeps w u code :
  keeps w (GetHumanInputDeliveryByCode u code) (λ w' r, ∀ d, r = Ok d → known w' d ∧ hd_UserID d = u ∧ hd_AnswerCode d = code).
Proof.
  apply keeps_call; [done | | done]. intros w1 [d|] _ Hd; [| done]. intros d' [= <-]. by apply Hd.
Qed.

Lemma login_keeps w u : keeps w (TelegramIDByUserID u) (λ w' r, ∀ tg, r = Ok (Some tg) → linked w' u tg).
Proof.
  unfold TelegramIDByUserID. case_match; [done |]. split; [done |]. intros w1 [[tg|]|e] [] _ Hl; try done.
  intros tg' [= <-]. by apply Hl.
Qed.

Lemma Resolve_keeps w u self :
  keeps w (Resolve u self) (λ w' r, ∀ tg, r = Ok (Some tg) → linked w' u tg ∧ 0 < tg ∧ tg = self).
Proof.
  unfold Resolve. case_match; [done |]. bool_to_Prop. eapply owner_seq; [apply login_keeps |].
  intros w1 [[tg|]|e] _ Hl; [| done..]. intros tg'. cbn. case_match; [| done]. intros [= <-]. bool_to_Prop. subst.
  split_and!; [by apply Hl | lia | done].
Qed.

Lemma actor_runs w u tg : runs w (UpsertHumanInputActor u tg).
Proof. unfold UpsertHumanInputActor. by case_match. Qed.
Lemma dormant_runs w u class base max : runs w (MarkHumanInputActorDormant u class base max).
Proof. apply runs_call; [done |]. by intros w1 [n|] _ _. Qed.

(** ** The client *)
Lemma GetHumanInput_keeps w u actor rid :
  linked w u actor → keeps w (GetHumanInput actor rid) (λ w' r, ∀ v, r = Ok v → reads w' actor rid v).
Proof.
  intros Hl. unfold GetHumanInput, relayed. case_match; [done |]. case_match; [done |].
  apply keeps_ask; [by exists u |]. intros w1 a _ Ha v Hv. exists a. split; [done |].
  destruct (relay_answer _ _ a); [| done]. by injection Hv as ->.
Qed.

Lemma ListHumanInput_keeps w u actor :
  linked w u actor → keeps w (ListHumanInput actor) (λ w' r, ∀ reqs, r = Ok reqs →
    ∃ a l, EvList actor a ∈ ow_api w' ∧ relay_answer false validate_list a = Ok l ∧ reqs = le_Items l).
Proof.
  intros Hl. unfold ListHumanInput, relayed. case_match; [done |]. split; [by exists u |].
  intros w1 a [] _ Ha. cbn -[relay_answer]. destruct (relay_answer _ _ a) as [l|e] eqn:Hv; [| done].
  intros reqs [= <-]. by exists a, l.
Qed.

Lemma RespondHumanInput_keeps w q actor req key :
  ValidHumanInputRequestID (qn_Request q) = true → 0 < actor → rr_RequestHash req = qn_Hash q →
  submission w (qn_User q) actor (qn_Request q) req key →
  keeps w (RespondHumanInput (qn_User q) actor (qn_Request q) req key)
    (λ w' r, tried w' q ∧ ∀ v, r = Ok v → taken (rs_Status v) w' q).
Proof.
  intros Hv Ha Hh Hs. unfold RespondHumanInput, relayed. rewrite Hv. cbn -[bind].
  rewrite (proj2 (Z.leb_gt _ _)) by done. apply keeps_ask; [done |]. intros w1 a _ Hev. split.
  - by exists actor, req, key, a.
  - intros v Hr. by exists actor, req, key, a, v.
Qed.
End ledger.
