(* ===== verification/OwnerRuns.v ===== *)
(** * The programs of the owner's surface keep to the ledger

    The handler of [/mctl input], the poller and the notifier, each from any
    world on. *)

From S2P Require Import Prelude GoString Program Linear Rows Tables Actions Notices HumanInputTables WorkClient OwnerEffects Notifier Sanitize HumanInputStore HumanInput OwnerProps.

Section programs.
Context `{SL : Sealer} `{UT : UnicodeTables} `{FT : FormatTable}.
Abbreviation runs w p := (keeps w p (λ _ _, True)).

(** ** Closing a question *)
Lemma closing_runs w row state outcome : settling state → closing state → runs w (markTerminal row state outcome).
Proof. intros Hs Hc. by apply markTerminal_runs, closing_may_settle. Qed.
#[local] Hint Extern 1 (settling _) => by split : core.
#[local] Hint Extern 1 (closing _) => by split_and! : core.

Lemma backed_may_settle w row state :
  known w row → settling state → state_backed w (asked_question row) state → may_settle w (hd_ID row) state.
Proof. intros [Hq _] Hs Hb. split; [done |]. right. by exists (asked_question row). Qed.

Lemma answered_runs w row outcome : known w row → confirmed w (asked_question row) → runs w (markAnswered row outcome).
Proof. intros Hk Hc. apply markTerminal_runs, backed_may_settle; [done | by split | by split_and!]. Qed.

Lemma unconfirmed_runs w row : known w row → tried w (asked_question row) → runs w (markUnconfirmed row).
Proof.
  intros Hk Ht. unfold markUnconfirmed. case_match; [done |].
  apply markTerminal_runs, backed_may_settle; [done | by split | by split_and!].
Qed.

Lemma taken_tried status w q : taken status w q → tried w q.
Proof. intros (actor & req & key & a & v & He & Hh & _). by exists actor, req, key, a. Qed.

(** ** The handler *)
Lemma settle_runs w actor row v after :
  known w row → reads w actor (hd_RequestID row) v → rv_RequestHash v = hd_RequestHash row →
  (after = true → tried w (asked_question row)) → runs w (settle row v after).
Proof.
  intros Hk Hv Hh Ht. unfold settle. case_match eqn:Hres.
  - bool_to_Prop. assert (resolved w (asked_question row)) as Hr by by exists actor, v.
    case_match; [by apply keeps_then; [apply closing_runs |] |].
    case_match eqn:Haft; [| by apply keeps_then; [apply closing_runs |]].
    apply keeps_then; [| done]. apply answered_runs; [done |]. right. split; [| done].
    apply orb_true_iff in Haft as [Haft|Hs]; [by apply Ht |]. bool_to_Prop.
    destruct Hk as (_ & _ & _ & Hsub & _). by eapply taken_tried, Hsub.
  - case_match; [| case_match; [by apply keeps_then; [apply closing_runs |] |]].
    + destruct after; [by apply keeps_then; [apply unconfirmed_runs; auto |] |]. by repeat case_match.
    + destruct after; [| done]. apply keeps_then; [| done]. by apply unconfirmed_runs; auto.
Qed.

Lemma canonicalText_runs w u actor row after :
  known w row → linked w u actor → (after = true → tried w (asked_question row)) →
  runs w (canonicalText actor row after).
Proof.
  intros Hk Hl Ht. unfold canonicalText. eapply owner_seq; [by eapply GetHumanInput_keeps |].
  intros w1 [v|e] H1 Hv.
  - case_match eqn:Hh; [by apply keeps_then; [apply closing_runs |] |]. bool_to_Prop.
    apply String.eqb_eq in Hh. eapply settle_runs; [by eapply delivery_known_mono | by apply Hv | done |].
    intros Ha. eapply tried_mono; [done | auto].
  - case_match; [by apply keeps_then; [apply closing_runs |] |].
    destruct after; [| done]. apply keeps_then; [| done]. apply unconfirmed_runs; [by eapply delivery_known_mono |].
    eapply tried_mono; [done | auto].
Qed.

Lemma reply_runs w u text : runs w (reply u text).
Proof. by split. Qed.

Lemma relay_answer_Ok {T} route (validate : T → option work_error) a v :
  relay_answer route validate a = Ok v → validate v = None.
Proof. destruct a; cbn; repeat case_match; congruence. Qed.

Lemma taken_status status w q :
  taken status w q → status = HumanInputStatusAccepted ∨ status = HumanInputStatusPendingDelivery.
Proof.
  intros (actor & req & key & a & v & _ & _ & Hv%relay_answer_Ok & <-). revert Hv. unfold validate_response.
  case_match; [done |]. case_match eqn:Hs; [| done]. intros _.
  apply orb_true_iff in Hs as [Hs|Hs]; bool_to_Prop; auto.
Qed.

Lemma submitted_runs w u actor row code echo resp :
  known w row → linked w u actor → tried w (asked_question row) →
  (∀ v, resp = Ok v → taken (rs_Status v) w (asked_question row)) →
  runs w (submitted u actor row code echo resp).
Proof.
  intros Hk Hl Ht Hv. unfold submitted. destruct resp as [v|e].
  - specialize (Hv _ eq_refl). case_match eqn:Hs; (apply keeps_then; [| intros; apply reply_runs]); bool_to_Prop.
    + apply answered_runs; [done |]. left. by rewrite <- Hs.
    + apply markTerminal_runs, backed_may_settle; [done | by split |]. split_and!; [done | | done].
      intros _. destruct (taken_status _ _ _ Hv) as [E|<-]; done.
  - repeat (case_match; [first [apply reply_runs | apply keeps_then; [by apply closing_runs | intros; apply reply_runs]] |]).
    apply keeps_then; [by apply (canonicalText_runs _ u) |]. intros; apply reply_runs.
Qed.

(** [row] is the question the command asks for, and [actor] the account it came
    from. *)
Record addressed (w : owner_world) (cmd : command) (actor : Z) (row : HumanInputDelivery) : Prop := {
  ad_said : cmd ∈ ow_said w;
  ad_known : known w row;
  ad_user : hd_UserID row = mt_UserID (cm_Meta cmd);
  ad_code : hd_AnswerCode row = normalizeCode (cm_Code cmd);
  ad_linked : linked w (mt_UserID (cm_Meta cmd)) actor;
  ad_actor : actor = mt_SelfTGID (cm_Meta cmd);
  ad_positive : 0 < actor;
}.
Lemma addressed_mono w w' cmd actor row : owner_le w w' → addressed w cmd actor row → addressed w' cmd actor row.
Proof.
  intros Hw [Hs Hk Hu Hc Hl Ha Hp]. split; [by apply Hw | by eapply delivery_known_mono | done | done | by eapply linked_mono | done..].
Qed.

Lemma submit_runs w cmd actor row code value echo :
  addressed w cmd actor row →
  (hd_Kind row = HumanInputTypeSingleChoice ∧ an_option w (asked_question row) actor (cm_Value cmd) value ∨
   hd_Kind row = HumanInputTypeFreeText ∧ a_text (cm_Value cmd) value) →
  runs w (submit (cm_Meta cmd) actor row code value echo).
Proof.
  intros [Hsaid Hk Hu Hc Hl Hself Ha] Hv. pose proof Hk as (Hq & Hid & _). unfold submit. rewrite <- Hu in Hl |- *.
  eapply owner_seq; [apply (RespondHumanInput_keeps w (asked_question row)); [done | done | done |] |].
  - split; [done |]. exists (hd_ID row), (asked_question row), cmd. by split_and!.
  - intros w1 r H1 [Ht Hr]. apply submitted_runs; [by eapply delivery_known_mono | by eapply linked_mono | done | done].
Qed.

(** The number or the text the owner typed leads to the option it names. *)
Lemma index_of_spec want ds i k :
  index_of want ds i = Some k →
  ∃ j, k = (i + j)%nat ∧ ds !! j = Some want ∧ ∀ j', (j' < j)%nat → ds !! j' ≠ Some want.
Proof.
  revert i. induction ds as [|d ds IH]; intros i; [done |]. cbn [index_of].
  destruct (String.eqb_spec d want) as [->|Hne].
  - intros [= <-]. exists 0%nat. split_and!; [lia | done | lia].
  - intros (j & -> & Hj & Hfirst)%IH. exists (S j). split_and!; [lia | done |].
    intros [|j'] Hlt; cbn; [congruence | apply Hfirst; lia].
Qed.
Lemma optionIndex_names row code typed k :
  optionIndex row code typed = Ok k → names_option (hd_OptionDigests row) typed k.
Proof.
  unfold optionIndex, names_option. case_match eqn:He; [done |]. apply orb_false_iff in He as [He Hn]. bool_to_Prop.
  destruct (Atoi _) as [n|] eqn:Hat.
  - case_match eqn:Hr; [done |]. apply orb_false_iff in Hr as [H1 H2]. bool_to_Prop. intros [= <-].
    split_and!; [lia | done | lia].
  - destruct (index_of _ _ _) as [i|] eqn:Hi; [| done]. intros [= <-].
    apply index_of_spec in Hi as (j & -> & Hj & Hfirst). cbn in *. split_and!; [by eapply lookup_lt_Some | done..].
Qed.

Lemma answer_choice_runs w cmd actor row code :
  addressed w cmd actor row → hd_Kind row = HumanInputTypeSingleChoice →
  runs w (answer_choice (cm_Meta cmd) actor row code (cm_Value cmd)).
Proof.
  intros Had Hkind. unfold answer_choice. destruct (optionIndex _ _ _) as [idx|hint] eqn:Hidx; [| apply reply_runs].
  apply optionIndex_names in Hidx. eapply owner_seq; [eapply GetHumanInput_keeps, Had |]. intros w1 [v|e] H1 Hv.
  2:{ case_match; [apply keeps_then; [by apply closing_runs |] |]; intros; apply reply_runs. }
  specialize (Hv _ eq_refl). apply (addressed_mono _ w1) in Had; [| done]. pose proof (ad_known _ _ _ _ Had) as Hk.
  case_match eqn:Hh; [apply keeps_then; [by apply closing_runs |]; intros; apply reply_runs |].
  bool_to_Prop. apply String.eqb_eq in Hh.
  case_match eqn:Hp; bool_to_Prop.
  { apply keeps_then; [by eapply settle_runs | intros; apply reply_runs]. }
  destruct (rv_Options v !! idx) as [o|] eqn:Ho; [| apply reply_runs].
  destruct (hd_OptionDigests row !! idx) as [d|] eqn:Hd; [| apply reply_runs].
  case_match eqn:Hdig; [apply reply_runs |]. bool_to_Prop. apply String.eqb_eq in Hdig as <-.
  apply submit_runs; [done |]. left. split; [done |]. exists v, idx. by split_and!.
Qed.

Lemma freeText_text code typed r echo : freeText code typed = Ok (r, echo) → a_text typed r.
Proof.
  unfold freeText. case_match eqn:He; [done |]. case_match eqn:Hl; [done |]. intros [= <- _]. bool_to_Prop.
  by split_and!.
Qed.

Lemma Answer_runs w cmd : cmd ∈ ow_said w → runs w (Answer (cm_Meta cmd) (cm_Code cmd) (cm_Value cmd)).
Proof.
  intros Hsaid. unfold Answer.
  eapply owner_seq; [apply Resolve_keeps |]. intros w1 [[actor|]|e] H1 Ha; [| by split | done].
  destruct (Ha _ eq_refl) as (Hl & Hpos & Hself).
  eapply owner_seq; [apply by_code_keeps |]. intros w2 [row|[]] H2 Hr; try done; try apply reply_runs.
  destruct (Hr _ eq_refl) as (Hk & Hu & Hc). assert (addressed w2 cmd actor row) as Had.
  { split; [apply H2, H1, Hsaid | done | done | done | by eapply linked_mono | done..]. }
  case_match; [apply reply_runs |]. case_match; bool_to_Prop; [by apply answer_choice_runs |].
  case_match; bool_to_Prop; [| apply reply_runs].
  destruct (freeText _ _) as [[v echo]|hint] eqn:Hf; [| apply reply_runs].
  apply submit_runs; [done |]. right. split; [done |]. by eapply freeText_text.
Qed.

Lemma status_lines_runs w u actor rows :
  linked w u actor → (∀ d, d ∈ rows → known w d) → runs w (status_lines actor rows).
Proof.
  revert w. induction rows as [|row rows IH]; intros w Hl Hk; [done |]. cbn [status_lines].
  apply keeps_then; [eapply canonicalText_runs; [apply Hk; by left | exact Hl | done] |]. intros w1 text H1.
  apply keeps_then; [| done]. apply IH; [by eapply linked_mono |]. intros d Hd. eapply delivery_known_mono; [done |]. apply Hk. by right.
Qed.

Lemma Status_runs w meta code : runs w (Status meta code).
Proof.
  destruct meta as [u self msg]. unfold Status. cbn [mt_UserID mt_SelfTGID].
  eapply owner_seq; [apply Resolve_keeps |]. intros w1 [[actor|]|e] _ Ha; [| by split | done].
  destruct (Ha _ eq_refl) as [Hl _]. apply keeps_then; [apply actor_runs |]. intros w2 _ H2.
  apply (linked_mono _ w2) in Hl; [| done]. case_match.
  - eapply owner_seq; [apply by_code_keeps |]. intros w3 [row|[]] H3 Hr; try done; try apply reply_runs.
    destruct (Hr _ eq_refl) as [Hk _]. apply keeps_then; [| intros; apply reply_runs].
    eapply canonicalText_runs; [done | by eapply linked_mono | done].
  - apply runs_call; [done |]. intros w3 [|d l] H3 Hd; [apply reply_runs |].
    apply keeps_then; [| intros; apply reply_runs]. eapply status_lines_runs; [by eapply linked_mono |].
    intros x (i & Hx & _)%elem_of_take. apply (Hd _ eq_refl). by eapply list_elem_of_lookup_2.
Qed.

(** ** The poller *)
Section poller.
Context (Render : RequestView → string → string) (WorkRef : string → string).

Lemma with_work_ref_keeps w u r :
  keeps w (with_work_ref WorkRef u r) (λ _ r', ∃ ref, r' = r <|rv_WorkRef := ref|>).
Proof.
  assert (∃ ref, r = r <|rv_WorkRef := ref|>) as Hr by (exists (rv_WorkRef r); by destruct r).
  unfold with_work_ref. case_match; [done |]. apply keeps_invoke; [done |].
  intros w1 [[key|]|e] _ _; try done. case_match; [done |]. by eexists.
Qed.

Lemma insert_coded_runs w n u r :
  (∀ code, asked w (new_delivery u r code)) → runs w (insert_coded Render n u r).
Proof.
  revert w. induction n as [|n IH]; intros w Ha; [done |]. cbn [insert_coded].
  apply keeps_ask; [done |]. intros w1 bs H1 _. case_match; [| done].
  apply keeps_then; [apply upsert_delivery_runs; eapply asked_mono; [done | apply Ha] |].
  intros w2 [[[] state]|[]] H2; try done; [by case_match |].
  apply IH. intros code. apply (asked_mono w); [by etrans | apply Ha].
Qed.

Lemma enqueue_runs w u r : (∀ code, asked w (new_delivery u r code)) → runs w (enqueue Render WorkRef u r).
Proof.
  intros Ha. apply runs_ok_then; [apply supersede_runs |]. intros w1 _ H1.
  eapply owner_seq; [apply with_work_ref_keeps |]. intros w2 r' H2 [ref ->].
  apply insert_coded_runs. intros code. apply (asked_mono w); [by etrans | apply (Ha code)].
Qed.

Lemma enqueue_listed_runs w u actor a l reqs :
  linked w u actor → EvList actor a ∈ ow_api w → relay_answer false validate_list a = Ok l → reqs ⊆ le_Items l →
  runs w (enqueue_listed Render WorkRef u reqs).
Proof.
  intros Hl Ha Hv. revert w Hl Ha. induction reqs as [|r reqs IH]; intros w Hl Ha Hreqs; [done |].
  cbn [enqueue_listed]. assert (reqs ⊆ le_Items l) as Hreqs' by set_solver.
  case_match eqn:Hp; [by apply IH |]. bool_to_Prop. apply keeps_then.
  - case_match eqn:Hu; [| done]. bool_to_Prop. apply runs_forget, enqueue_runs. intros code.
    exists actor, a, l, r, code. split_and!; try done. set_solver.
  - intros w1 _ H1. apply keeps_then; [| done]. apply IH; [by apply (linked_mono w) | by apply H1 | done].
Qed.

Lemma absent_outcome_settles w actor d r state outcome :
  known w d → (∀ v, r = Ok v → reads w actor (hd_RequestID d) v) → absent_outcome d r = Some (state, outcome) →
  may_settle w (hd_ID d) state.
Proof.
  intros Hk Hv. unfold absent_outcome. destruct r as [v|e].
  - specialize (Hv _ eq_refl). case_match eqn:Hh; [intros [= <- _]; by apply closing_may_settle |].
    bool_to_Prop. apply String.eqb_eq in Hh. case_match; [done |]. case_match eqn:Hres; bool_to_Prop.
    + case_match eqn:Hs; bool_to_Prop.
      * intros [= <- _]. apply backed_may_settle; [done | by split |]. split_and!; [| done..]. intros _. right.
        split; [| by exists actor, v]. destruct Hk as (_ & _ & _ & Hsub & _). by eapply taken_tried, Hsub.
      * case_match; intros [= <- _]; by apply closing_may_settle.
    + case_match; [| done]. intros [= <- _]. by apply closing_may_settle.
  - case_match; [| done]. intros [= <- _]. by apply closing_may_settle.
Qed.

Lemma settleAbsent_runs w a d :
  known w d → linked w (ha_UserID a) (ha_TGID a) → runs w (settleAbsent a d).
Proof.
  intros Hk Hl. eapply owner_seq; [by eapply GetHumanInput_keeps |]. intros w1 r H1 Hr.
  destruct (absent_outcome d r) as [[state outcome]|] eqn:Ho; [| done].
  apply keeps_then.
  - apply mark_runs. apply (absent_outcome_settles w1 (ha_TGID a) d r state outcome); [by apply (delivery_known_mono w) | exact Hr | exact Ho].
  - intros w2 [[]|e] _; try done. destruct (bool_decide _); [| done]. exact (conj I (λ _ _ _ _ _, I)).
Qed.

Lemma settle_all_runs w a l :
  linked w (ha_UserID a) (ha_TGID a) → (∀ d, d ∈ l → known w d) → runs w (settle_all a l).
Proof.
  revert w. induction l as [|d l IH]; intros w Hl Hk; [done |]. cbn [settle_all].
  apply keeps_ask; [done |]. intros w1 [] H1 _; [done |]. apply keeps_ask; [done |]. intros w2 [] H2 _; [done |].
  assert (owner_le w w2) as H02 by by etrans.
  apply keeps_then; [apply settleAbsent_runs; [apply (delivery_known_mono w); [done | apply Hk; by left] | by apply (linked_mono w)] |].
  intros w3 _ H3. assert (owner_le w w3) as H03 by by etrans. apply IH; [by apply (linked_mono w) |].
  intros x Hx. apply (delivery_known_mono w); [done | apply Hk; by right].
Qed.

Lemma pollActor_runs w a : runs w (pollActor Render WorkRef a).
Proof.
  unfold pollActor. eapply owner_seq; [apply login_keeps |]. intros w1 [stored|e] _ Hl; [| done].
  case_match eqn:Hs; [done |]. bool_to_Prop. specialize (Hl _ (f_equal Ok Hs)).
  eapply owner_seq; [by eapply ListHumanInput_keeps |]. intros w2 [reqs|e] H2 Hr.
  2:{ case_match; [| done]. apply runs_ok_then; [apply dormant_runs | done]. }
  destruct (Hr _ eq_refl) as (ans & l & Hev & Hv & ->). apply (linked_mono _ w2) in Hl; [| done].
  apply keeps_then; [by eapply enqueue_listed_runs |]. intros w3 listed H3. apply (linked_mono _ w3) in Hl; [| done].
  apply runs_call; [done |]. intros w4 open H4 Hopen. apply (linked_mono _ w4) in Hl; [| done].
  set (absent := filter _ open). assert (∀ d, d ∈ absent → known w4 d) as Habs.
  { intros d [_ Hd]%list_elem_of_filter. by apply (Hopen _ eq_refl). }
  eapply (owner_seq _ _ _ (λ w' l, ∀ d, d ∈ l → known w' d)).
  - case_match; [| done]. apply keeps_ask; [done |]. intros w5 shuffled H5 Hsh d (i & Hd & _)%elem_of_take.
    eapply delivery_known_mono; [done |]. apply Habs, Hsh. by eapply list_elem_of_lookup_2.
  - intros w5 l' H5 Hk. apply settle_all_runs; [by eapply linked_mono | done].
Qed.

Lemma RunOnce_runs w : runs w (RunOnce Render WorkRef).
Proof.
  apply keeps_ask; [done |]. intros w1 [] _ _; [done |]. apply keeps_ask; [done |]. intros w2 now _ _.
  apply runs_call; [done |]. intros w3 actors _ _. revert w3. induction actors as [|a actors IH]; intros w3; [done |].
  apply keeps_ask; [done |]. intros w4 [] _ _; [done |]. apply keeps_then; [apply pollActor_runs |]. intros. apply IH.
Qed.
End poller.

(** ** The notifier *)
Section notifier.
Context (cfg : NotifierConfig).

Lemma format_runs w n : runs w (format n).
Proof.
  unfold format. case_match; [done |]. split; [done |]. intros w1 [action|e] [] _ _; [| done].
  assert (∀ w (k : string * Z → owner (result db_error string)), (∀ p, ∃ s, k p = ok s) →
    runs w (bind (peerLabel action) k)) as Hpeer.
  { intros w2 k Hk. apply keeps_then.
    - unfold peerLabel. case_match; [done |]. apply keeps_invoke; [done |]. by intros w3 [conv|e] _ _.
    - intros w3 p _. by destruct (Hk p) as [s ->]. }
  cbn [bind]. case_match; [apply Hpeer; by eexists |]. case_match; [done |]. apply Hpeer. by eexists.
Qed.

Lemma retire_overdue_runs w n : runs w (retire_overdue cfg n).
Proof. apply keeps_ask; [done |]. intros w1 now _ _. case_match; [| done]. apply runs_forget. by split. Qed.

Lemma delivered_runs w n msg : shown w (on_ID n) (on_UserID n) → runs w (delivered n msg).
Proof.
  intros Hs. apply keeps_invoke; [done |]. intros w1 r H1 _. apply keeps_then; [| done].
  case_match; [| done]. apply runs_forget. split; [| done]. exists (on_UserID n). by apply (shown_mono w).
Qed.

Lemma deliver_claimed_runs w n rid :
  ow_claims w !! on_ID n = Some (on_UserID n, rid) → runs w (deliver_claimed cfg n rid).
Proof.
  intros Hc. apply keeps_then; [apply format_runs |]. intros w1 [text|e] H1.
  2:{ apply keeps_then; [apply retire_overdue_runs | done]. }
  assert (∀ w', owner_le w w' → ow_claims w' !! on_ID n = Some (on_UserID n, rid)) as Hc'.
  { intros w' Hw. eapply lookup_weaken; [exact Hc | by apply Hw]. }
  apply keeps_ask; [by apply Hc' |]. intros w2 sent H2 Hsent. assert (owner_le w w2) as H02 by by etrans.
  assert (∀ w', owner_le w2 w' → (∃ id, sent = Ok id) ∨ sent = Err SelfAlreadyDelivered →
    shown w' (on_ID n) (on_UserID n)) as Hshown.
  { intros w' Hw Hr. apply (shown_mono w2); [done |]. exists rid. split; [by apply Hc' | by apply Hsent]. }
  destruct sent as [msg|[|what]].
  - apply delivered_runs, Hshown; [done |]. left. by eexists.
  - apply keeps_then.
    + unfold locateDelivered. case_match; [done |]. apply keeps_ask; [done |]. by intros w3 [[id|]|[]] _ _.
    + intros w3 msg H3. apply delivered_runs, Hshown; [done | by right].
  - apply keeps_then; [apply retire_overdue_runs | done].
Qed.

Lemma deliver_notice_runs w n : runs w (deliver_notice cfg n).
Proof.
  apply keeps_ask; [done |]. intros w1 [candidate|] _ _; [| done].
  apply keeps_invoke; [done |]. intros w2 [[rid|]|e] _ Hc; [| done..]. by apply deliver_claimed_runs, Hc.
Qed.

Lemma deliver_notices_runs w l m n : runs w (deliver_notices cfg l m n).
Proof.
  revert w m n. induction l as [|x l IH]; intros w m n; [done |].
  apply keeps_then; [apply deliver_notice_runs |]. intros w1 [] _; apply IH.
Qed.

Lemma DeliverPending_runs w : runs w (DeliverPending cfg).
Proof.
  apply keeps_ask; [done |]. intros w1 [] _ _; [done |]. split; [done |]. intros w2 [l|e] [] _ _; [| done].
  exact (keeps_then w2 (deliver_notices cfg l 0 0) ok (λ _ _, True) (deliver_notices_runs w2 l 0 0) (λ _ _ _, I)).
Qed.
End notifier.
End programs.
