(* ===== verification/OwnerTables.v ===== *)
(** * The tables of the owner's surface

    What holds of [owner_notifications] and [human_input_deliveries] in the
    world of [OwnerProps], and that every call keeps it and keeps the promises
    of the ledger. *)

From S2P Require Import Prelude GoString Program Linear Rows Tables Actions Notices HumanInputTables WorkClient OwnerEffects Notifier Sanitize HumanInputStore HumanInput OwnerProps.

Section tables.
Context `{SL : Sealer} `{UT : UnicodeTables} `{FT : FormatTable}.

(** ** The invariant *)
Definition claims_of (t : gmap Z notification_row) : gmap Z (Z * Z) :=
  omap (λ r, (λ rid, (n_UserID r, rid)) <$> n_RandomID r) t.
Definition world_of (d : hdb) (box : list message) (links : list (Z * Z)) (said : list command)
    (api : list exchange) : owner_world :=
  OwnerWorld (row_question <$> h_deliveries d) (claims_of (d_notifications (h_db d))) box links said api.

Record notices_ok (w : owner_world) (s : DB) : Prop := {
  no_id i r : d_notifications s !! i = Some r → n_ID r = i ∧ i ≤ d_next s;
  no_sent i r : d_notifications s !! i = Some r → n_Status r = NotificationSent → shown w i (n_UserID r);
}.

(** A question has a notification of its own, was listed for its user, and its
    state has the evidence it needs. *)
Record row_ok (w : owner_world) (s : DB) (r : delivery_row) : Prop := {
  ro_valid : ValidHumanInputRequestID (hi_RequestID r) = true;
  ro_notice : ∃ n nr, hi_NotificationID r = Some n ∧ d_notifications s !! n = Some nr ∧ n_UserID nr = hi_UserID r;
  ro_backed : state_backed w (row_question r) (hi_State r);
  ro_sent n : hi_State r = HumanInputSent → hi_NotificationID r = Some n → shown w n (hi_UserID r);
  ro_asked : ∃ x, asked w x ∧ row_question r = asked_question x;
}.
Definition same_request (r r' : delivery_row) : Prop :=
  hi_UserID r = hi_UserID r' ∧ hi_RequestID r = hi_RequestID r' ∧ hi_RequestHash r = hi_RequestHash r'.
Definition same_code (r r' : delivery_row) : Prop := hi_UserID r = hi_UserID r' ∧ hi_AnswerCode r = hi_AnswerCode r'.

Record deliveries_ok (w : owner_world) (d : hdb) : Prop := {
  de_id i r : h_deliveries d !! i = Some r → hi_ID r = i ∧ i ≤ h_next d;
  de_row i r : h_deliveries d !! i = Some r → row_ok w (h_db d) r;
  de_unique i j r r' : h_deliveries d !! i = Some r → h_deliveries d !! j = Some r' →
    same_request r r' ∨ same_code r r' ∨ hi_NotificationID r = hi_NotificationID r' → i = j;
}.
Record tables_ok (w : owner_world) (d : hdb) : Prop := {
  tk_notices : notices_ok w (h_db d);
  tk_deliveries : deliveries_ok w d;
}.

(** ** Changes of the notifications *)

(** What an update of a notification keeps. *)
Record notice_le (r r' : notification_row) : Prop := {
  nl_id : n_ID r' = n_ID r;
  nl_user : n_UserID r' = n_UserID r;
  nl_random rid : n_RandomID r = Some rid → n_RandomID r' = Some rid;
}.
#[global] Instance notice_le_refl : Reflexive notice_le.
Proof. by intros r; split. Qed.

(** New rows, none of them claimed. *)
Record notices_grow (s s' : DB) : Prop := {
  ng_next : d_next s ≤ d_next s';
  ng_kept : d_notifications s ⊆ d_notifications s';
  ng_new i r : d_notifications s' !! i = Some r → d_notifications s !! i = None →
    d_next s < i ≤ d_next s' ∧ n_ID r = i ∧ n_Status r = NotificationPending ∧ n_RandomID r = None;
}.
#[global] Instance notices_grow_refl : Reflexive notices_grow.
Proof. intros s. split; [done | done |]. congruence. Qed.

Lemma claims_lookup t n u rid :
  claims_of t !! n = Some (u, rid) ↔ ∃ r, t !! n = Some r ∧ n_UserID r = u ∧ n_RandomID r = Some rid.
Proof.
  unfold claims_of. rewrite lookup_omap, bind_Some. split.
  - intros (r & Hr & (x & Hx & [= -> <-])%fmap_Some). by exists r.
  - intros (r & Hr & <- & Hx). exists r. split; [done |]. by rewrite Hx.
Qed.

Lemma claims_mono (t t' : gmap Z notification_row) :
  (∀ i r, t !! i = Some r → ∃ r', t' !! i = Some r' ∧ notice_le r r') → claims_of t ⊆ claims_of t'.
Proof.
  intros Ht. apply map_subseteq_spec. intros n [u rid] (r & Hr & <- & Hx)%claims_lookup.
  destruct (Ht _ _ Hr) as (r' & Hr' & Hle). apply claims_lookup. exists r'.
  split_and!; [done | by apply Hle | by apply Hle].
Qed.

Lemma notices_ok_mono w w' s : owner_le w w' → notices_ok w s → notices_ok w' s.
Proof. intros Hw [H1 H2]. split; [done |]. intros i r Hr Hs. apply (shown_mono w); [done | by eapply H2]. Qed.
Lemma row_ok_mono w w' s s' r :
  owner_le w w' →
  (∀ i r, d_notifications s !! i = Some r → ∃ r', d_notifications s' !! i = Some r' ∧ notice_le r r') →
  row_ok w s r → row_ok w' s' r.
Proof.
  intros Hw Hs [H1 (n & nr & Hn & Hnr & Hu) H3 H4 (x & Hx & Hq)]. split; [done | | | |].
  - destruct (Hs _ _ Hnr) as (nr' & Hnr' & Hle). exists n, nr'. split_and!; [done.. |]. rewrite <- Hu. apply Hle.
  - by apply (state_backed_mono w).
  - intros m Hst Hm. apply (shown_mono w); [done | by apply H4].
  - exists x. split; [by apply (asked_mono w) | done].
Qed.

(** The deliveries when only the other tables change. *)
Lemma deliveries_ok_mono w w' d d' :
  owner_le w w' → h_deliveries d' = h_deliveries d → h_next d ≤ h_next d' →
  (∀ i r, d_notifications (h_db d) !! i = Some r → ∃ r', d_notifications (h_db d') !! i = Some r' ∧ notice_le r r') →
  deliveries_ok w d → deliveries_ok w' d'.
Proof.
  intros Hw Hd Hn Hs [H1 H2 H3]. split; rewrite Hd; [| | done].
  - intros i r Hr. destruct (H1 _ _ Hr). split; [done | lia].
  - intros i r Hr. by eapply row_ok_mono, H2.
Qed.

Lemma tables_ok_mono w w' d : owner_le w w' → tables_ok w d → tables_ok w' d.
Proof.
  intros Hw [Hn Hd]. split; [by apply (notices_ok_mono w) |]. apply (deliveries_ok_mono w w' d); try done.
  intros i r Hr. by exists r.
Qed.

Section change.
Context (d d' : hdb) (box : list message) (links : list (Z * Z)) (said : list command) (api : list exchange).
Context (Hsame : h_deliveries d' = h_deliveries d) (Hnext : h_next d ≤ h_next d').
Let w := world_of d box links said api.
Let w' := world_of d' box links said api.

Lemma notices_world_le :
  (∀ i r, d_notifications (h_db d) !! i = Some r → ∃ r', d_notifications (h_db d') !! i = Some r' ∧ notice_le r r') →
  owner_le w w'.
Proof. intros Hs. split; cbn; [by rewrite Hsame | by apply claims_mono | done..]. Qed.

Lemma notices_grow_kept : tables_ok w d → notices_grow (h_db d) (h_db d') → owner_le w w' ∧ tables_ok w' d'.
Proof.
  intros [[Hid Hsent] Hd] [Hn Hk Hnew].
  assert (∀ i r, d_notifications (h_db d) !! i = Some r →
    ∃ r', d_notifications (h_db d') !! i = Some r' ∧ notice_le r r') as Hs.
  { intros i r Hr. exists r. split; [by eapply lookup_weaken | done]. }
  pose proof (notices_world_le Hs) as Hw. split; [done |]. split; [| by eapply deliveries_ok_mono].
  split; intros i r Hr; destruct (d_notifications (h_db d) !! i) as [r0|] eqn:Hr0.
  - rewrite (lookup_weaken _ _ _ _ Hr0 Hk) in Hr. injection Hr as <-. destruct (Hid _ _ Hr0). split; [done | lia].
  - destruct (Hnew _ _ Hr Hr0) as (? & ? & _). split; [done | lia].
  - rewrite (lookup_weaken _ _ _ _ Hr0 Hk) in Hr. injection Hr as <-. intros Hst.
    apply (shown_mono w); [done | by apply Hsent].
  - destruct (Hnew _ _ Hr Hr0) as (_ & _ & -> & _). done.
Qed.

Lemma notices_update_kept id r r' :
  tables_ok w d → d_notifications (h_db d) !! id = Some r → notice_le r r' →
  (n_Status r' = NotificationSent → shown w id (n_UserID r')) →
  h_db d' = (h_db d) <|d_notifications := <[id := r']> (d_notifications (h_db d))|> →
  owner_le w w' ∧ tables_ok w' d'.
Proof.
  intros [[Hid Hsent] Hd] Hr Hle Hst Hdb.
  assert (∀ i r, d_notifications (h_db d) !! i = Some r →
    ∃ r', d_notifications (h_db d') !! i = Some r' ∧ notice_le r r') as Hs.
  { intros i r1 Hr1. rewrite Hdb. cbn. destruct (decide (i = id)) as [->|].
    - rewrite Hr in Hr1. injection Hr1 as <-. exists r'. by rewrite lookup_insert_eq.
    - exists r1. by rewrite lookup_insert_ne. }
  pose proof (notices_world_le Hs) as Hw. split; [done |]. split; [| by eapply deliveries_ok_mono].
  split; rewrite Hdb; cbn; intros i r1 [[<- <-]|[_ Hr1]]%lookup_insert_Some.
  - destruct (Hid _ _ Hr). split; [etrans; [apply Hle | done] | done].
  - by apply Hid.
  - intros. apply (shown_mono w); [done | by apply Hst].
  - intros. apply (shown_mono w); [done | by apply Hsent].
Qed.
End change.

(** ** The statements *)
Lemma update_notification_Ok {A} p f id (read : notification_row → A) s x s' :
  update_notification p f id read s = Ok (x, s') →
  (x = None ∧ s' = s) ∨
  ∃ r, d_notifications s !! id = Some r ∧ p r = true ∧ x = Some (read (f r)) ∧
    s' = s <|d_notifications := <[id := f r]> (d_notifications s)|>.
Proof.
  unfold update_notification. destruct (update_row _ _ _ _) as [t|] eqn:Hu; intros [= <- <-]; [| by left].
  apply update_row_Some in Hu as (r & Hr & Hp & ->). right. exists r. by rewrite lookup_insert_eq.
Qed.


Lemma insert_notification_grows u kind action body now s :
  ∃ s', insert_notification u kind action body now s = Ok (tt, s') ∧ d_next s' = d_next s + 1 ∧
    d_notifications s' !! d_next s' = Some (NotificationRow (d_next s') u kind action body NotificationPending now None None None None) ∧
    ((∀ i r, d_notifications s !! i = Some r → i ≤ d_next s) → notices_grow s s').
Proof.
  eexists. split; [done |]. cbn. rewrite lookup_insert_eq. split_and!; [done.. |]. intros Hid. split; cbn.
  - lia.
  - apply insert_subseteq, eq_None_not_Some. intros [r Hr]. specialize (Hid _ _ Hr). lia.
  - intros i r [[<- <-]|[_ Hr]]%lookup_insert_Some Hn; [| congruence]. split_and!; [lia | lia | done..].
Qed.

(** Statements that only read. *)
Definition quiet {A} (m : op A) : Prop := ∀ s a s', m s = Ok (a, s') → s' = s.
Lemma quiet_bind {A B} (m : op A) (f : A → op B) : quiet m → (∀ a, quiet (f a)) → quiet (op_bind m f).
Proof.
  intros Hm Hf s b s2. unfold op_bind. destruct (m s) as [[a s1]|] eqn:E; [| done]. intros Hb.
  rewrite (Hf _ _ _ _ Hb). by eapply Hm.
Qed.
Lemma quiet_ret {A} (a : A) : quiet (op_ret a).
Proof. by intros s a' s' [= _ <-]. Qed.
Lemma quiet_err {A} e : quiet (op_err e : op A).
Proof. by intros s a' s'. Qed.
Lemma quiet_get {A} (f : DB → A) : quiet (op_get f).
Proof. by intros s a' s' [= _ <-]. Qed.
Lemma quiet_lift {A} (o : option A) e : quiet (op_lift o e).
Proof. destruct o; [apply quiet_ret | apply quiet_err]. Qed.

(** Statements that add notifications at most. *)
Definition ids_ok (s : DB) : Prop := ∀ i r, d_notifications s !! i = Some r → i ≤ d_next s.
Definition adding {A} (m : op A) : Prop := ∀ s a s', ids_ok s → m s = Ok (a, s') → notices_grow s s'.

Lemma ids_ok_grow s s' : ids_ok s → notices_grow s s' → ids_ok s'.
Proof.
  intros Hid [Hn Hk Hnew] i r Hr. destruct (d_notifications s !! i) as [r0|] eqn:Hr0.
  - specialize (Hid _ _ Hr0). lia.
  - by destruct (Hnew _ _ Hr Hr0) as [[_ ?] _].
Qed.
Lemma notices_grow_trans s1 s2 s3 : notices_grow s1 s2 → notices_grow s2 s3 → notices_grow s1 s3.
Proof.
  intros [Hn Hk Hnew] [Hn' Hk' Hnew']. split; [lia | by etrans |]. intros i r Hr Hi.
  destruct (d_notifications s2 !! i) as [r2|] eqn:Hr2.
  - rewrite (lookup_weaken _ _ _ _ Hr2 Hk') in Hr. injection Hr as <-. destruct (Hnew _ _ Hr2 Hi) as [[? ?] ?].
    split; [lia | done].
  - destruct (Hnew' _ _ Hr Hr2) as [[? ?] ?]. split; [lia | done].
Qed.

Lemma quiet_adding {A} (m : op A) : quiet m → adding m.
Proof. intros Hm s a s' _ Hop. by rewrite (Hm _ _ _ Hop). Qed.
Lemma adding_bind {A B} (m : op A) (f : A → op B) : adding m → (∀ a, adding (f a)) → adding (op_bind m f).
Proof.
  intros Hm Hf s b s2 Hid. unfold op_bind. destruct (m s) as [[a s1]|] eqn:E; [| done]. intros Hb.
  specialize (Hm _ _ _ Hid E). eapply notices_grow_trans; [exact Hm |]. eapply Hf, Hb. by eapply ids_ok_grow.
Qed.
Lemma adding_insert u kind action body now : adding (insert_notification u kind action body now).
Proof.
  intros s [] s' Hid Hop. destruct (insert_notification_grows u kind action body now s) as (s2 & Hop2 & _ & _ & Hg).
  rewrite Hop in Hop2. injection Hop2 as <-. by apply Hg.
Qed.

Ltac quiet_steps := repeat first [apply quiet_bind; [| intros ?] | apply quiet_ret | apply quiet_err | apply quiet_get
  | apply quiet_lift | progress unfold op_require | case_match].

Lemma GetAgentAction_quiet u id : quiet (GetAgentAction u id).
Proof. unfold GetAgentAction, getAgentAction. quiet_steps. Qed.
Lemma GetConversation_quiet u id : quiet (GetConversation u id).
Proof. unfold GetConversation. quiet_steps. Qed.


Lemma InsertOwnerNotification_adding now n : adding (InsertOwnerNotification now n).
Proof.
  unfold InsertOwnerNotification. case_match; [by apply quiet_adding |]. apply adding_bind.
  { apply quiet_adding. case_match; [apply quiet_ret |].
    apply quiet_bind; [apply GetAgentAction_quiet |]. intros ?. apply quiet_ret. }
  intros _. apply adding_bind.
  { apply quiet_adding. unfold seal_opt. quiet_steps. }
  intros body. apply adding_bind; [apply quiet_adding, quiet_get |]. intros rows.
  assert (adding (op_bind (insert_notification (on_UserID n) (on_Kind n) (nullable_id (on_ActionID n)) body now) (λ _, op_get d_next))).
  { apply adding_bind; [apply adding_insert |]. intros _. apply quiet_adding, quiet_get. }
  case_match; [done |]. case_match; [done |]. apply quiet_adding. case_match; [apply quiet_ret | apply quiet_err].
Qed.

(** ** Changes of the deliveries *)
Section delivery.
Context (d : hdb) (box : list message) (links : list (Z * Z)) (said : list command) (api : list exchange).
Let w := world_of d box links said api.

(** Deliveries that move to another state. *)
Record moved (r r' : delivery_row) : Prop := {
  mv_question : row_question r' = row_question r;
  mv_id : hi_ID r' = hi_ID r;
  mv_notice : hi_NotificationID r' = hi_NotificationID r;
  mv_backed : state_backed w (row_question r) (hi_State r');
  mv_sent n : hi_State r' = HumanInputSent → hi_NotificationID r = Some n → shown w n (hi_UserID r);
}.
Lemma moved_refl r : row_ok w (h_db d) r → moved r r.
Proof. intros [_ _ Hb Hs _]. by split. Qed.

Lemma moved_row_ok r r' : moved r r' → row_ok w (h_db d) r → row_ok w (h_db d) r'.
Proof.
  intros [Hq Hi Hn Hb Hs] [H1 H2 H3 H4 H5]. pose proof Hq as [= Eu Er Eh Ek Ec Ed].
  split; rewrite ?Er, ?Eu, ?Hn, ?Hq; done.
Qed.

Lemma deliveries_moved_kept t :
  tables_ok w d →
  (∀ i r, h_deliveries d !! i = Some r → ∃ r', t !! i = Some r' ∧ moved r r') →
  (∀ i r', t !! i = Some r' → is_Some (h_deliveries d !! i)) →
  let d' := d <|h_deliveries := t|> in
  world_of d' box links said api = w ∧ tables_ok w d'.
Proof.
  intros [Hn [Hid Hrow Huniq]] Hmv Hdom d'.
  assert (∀ i r', t !! i = Some r' → ∃ r, h_deliveries d !! i = Some r ∧ moved r r') as Hback.
  { intros i r' Hr'. destruct (Hdom _ _ Hr') as [r Hr]. exists r. split; [done |].
    destruct (Hmv _ _ Hr) as (x & Hx & ?). congruence. }
  split.
  - unfold w, world_of, d'. cbn. f_equal. apply map_eq. intros i. rewrite !lookup_fmap.
    destruct (h_deliveries d !! i) as [r|] eqn:Hr.
    + destruct (Hmv _ _ Hr) as (r' & -> & Hm). cbn. by rewrite (mv_question _ _ Hm).
    + destruct (t !! i) as [r'|] eqn:Hr'; [| done]. destruct (Hdom _ _ Hr'). congruence.
  - split; [done |]. unfold d'. split; cbn.
    + intros i r' (r & Hr & Hm)%Hback. rewrite (mv_id _ _ Hm). by apply Hid.
    + intros i r' (r & Hr & Hm)%Hback. by eapply moved_row_ok, Hrow.
    + intros i j r1' r2' (r1 & Hr1 & M1)%Hback (r2 & Hr2 & M2)%Hback Hs. apply (Huniq i j r1 r2); [done.. |].
      pose proof (mv_question _ _ M1) as [= ? ? ? ? ? ?]. pose proof (mv_question _ _ M2) as [= ? ? ? ? ? ?].
      pose proof (mv_notice _ _ M1). pose proof (mv_notice _ _ M2). unfold same_request, same_code in *. congruence.
Qed.

(** A new question, with its notification. *)
Lemma asked_valid x : asked w x → ValidHumanInputRequestID (hd_RequestID x) = true.
Proof.
  intros (actor & a & l & r & code & _ & _ & _ & _ & _ & Hu & ->). cbn. revert Hu. unfold undeliverable.
  destruct (ValidHumanInputRequestID _); [done |]. cbn. done.
Qed.

Lemma insert_delivery_true now x body d' :
  insert_delivery now x body d = Ok (true, d') →
  ∃ s', insert_notification (hd_UserID x) NotificationHumanInput None (Some body) now (h_db d) = Ok (tt, s') ∧
    (∀ i r, h_deliveries d !! i = Some r →
       asks_for (hd_UserID x) (hd_RequestID x) (hd_RequestHash x) r = false ∧ has_code (hd_UserID x) (hd_AnswerCode x) r = false) ∧
    let id := h_next d + 1 in
    d' = d <|h_db := s'|> <|h_next := id|>
      <|h_deliveries := <[id := DeliveryRow id (hd_UserID x) (hd_RequestID x) (hd_RequestHash x)
          (hd_RequestVersion x) (hd_WorkItemID x) (hd_Kind x) (hd_AnswerCode x) (hd_OptionDigests x)
          (Some (d_next s')) None HumanInputQueued "" None None now now]> (h_deliveries d)|>.
Proof.
  unfold insert_delivery. case_match eqn:Ht; [done |].
  destruct (insert_notification_grows (hd_UserID x) NotificationHumanInput None (Some body) now (h_db d)) as (s' & Hs' & _).
  unfold op_bind. rewrite Hs'. cbn -[insert_notification]. intros [= <-]. exists s'. split_and!; [done | | done].
  intros i r Hr. bool_to_Prop. apply orb_false_iff. by apply (proj1 (rows_where_nil _ _) Ht i r).
Qed.

Lemma insert_delivery_false now x body d' : insert_delivery now x body d = Ok (false, d') → d' = d.
Proof. unfold insert_delivery. case_match; [by intros [= <-] | by destruct (op_bind _ _ _) as [[]|]]. Qed.

Lemma insert_delivery_kept now x body a d' :
  tables_ok w d → asked w x → insert_delivery now x body d = Ok (a, d') →
  owner_le w (world_of d' box links said api) ∧ tables_ok (world_of d' box links said api) d'.
Proof.
  intros Hok Hask. destruct a.
  2:{ by intros ->%insert_delivery_false. }
  intros (s' & Hs' & Hfree & ->)%insert_delivery_true. pose proof Hok as [[Hid Hsent] [Hdid Hrow Huniq]].
  destruct (insert_notification_grows (hd_UserID x) NotificationHumanInput None (Some body) now (h_db d))
    as (s2 & Hs2 & Hnext & Hnew & Hg). rewrite Hs' in Hs2. injection Hs2 as <-.
  assert (ids_ok (h_db d)) as Hids by (intros i r Hr; by eapply Hid). specialize (Hg Hids).
  set (d1 := d <|h_db := s'|>).
  destruct (notices_grow_kept d d1 box links said api eq_refl (Z.le_refl _) Hok Hg) as [Hw Hok'].
  set (w1 := world_of d1 box links said api) in *.
  set (id := h_next d + 1). set (r0 := DeliveryRow id _ _ _ _ _ _ _ _ _ _ _ _ _ _ _ _).
  assert (h_deliveries d !! id = None) as Hfresh.
  { apply eq_None_not_Some. intros [r Hr]. apply Hdid in Hr as [_ ?]. unfold id in *. lia. }
  match goal with |- owner_le _ ?w2 ∧ _ => set (w2' := w2) end.
  assert (owner_le w1 w2') as Hw12.
  { split; [| done..]. cbn. rewrite fmap_insert. apply insert_subseteq. by rewrite lookup_fmap, Hfresh. }
  assert (owner_le w w2') as Hw2 by by etrans. split; [done |].
  destruct (tables_ok_mono _ _ _ Hw12 Hok') as [Hn2 [Hd2id Hd2row _]]. split; [done |]. split; cbn.
  - intros i r [[<- <-]|[_ Hr]]%lookup_insert_Some; [done |]. destruct (Hdid _ _ Hr). unfold id. split; [done | lia].
  - intros i r [[<- <-]|[_ Hr]]%lookup_insert_Some; [| by eapply Hd2row]. split; cbn.
    + by apply asked_valid.
    + exists (d_next s'). eexists. split_and!; [done | exact Hnew | done].
    + by split_and!.
    + done.
    + exists x. split; [by apply (asked_mono w) | done].
  - assert (∀ i r, h_deliveries d !! i = Some r → ¬ (same_request r r0 ∨ same_code r r0 ∨ hi_NotificationID r = hi_NotificationID r0)) as Hdiff.
    { intros i r Hr [(E1 & E2 & E3)|[[E1 E2]|E]]; destruct (Hfree _ _ Hr) as [H1 H2]; cbn in *.
      - revert H1. unfold asks_for. by rewrite E1, E2, E3, Z.eqb_refl, !String.eqb_refl.
      - revert H2. unfold has_code. by rewrite E1, E2, Z.eqb_refl, String.eqb_refl.
      - destruct (ro_notice _ _ _ (Hrow _ _ Hr)) as (n & nr & Hn & Hnr & _). rewrite E in Hn. injection Hn as <-.
        specialize (Hids _ _ Hnr). lia. }
    assert (∀ r r', same_request r r' ∨ same_code r r' ∨ hi_NotificationID r = hi_NotificationID r' →
      same_request r' r ∨ same_code r' r ∨ hi_NotificationID r' = hi_NotificationID r) as Hsym.
    { unfold same_request, same_code. naive_solver. }
    intros i j r r' [[<- <-]|[_ Hr]]%lookup_insert_Some [[<- <-]|[_ Hr']]%lookup_insert_Some Hs; [done | | |].
    + exfalso. apply (Hdiff _ _ Hr'). by apply Hsym.
    + exfalso. by apply (Hdiff _ _ Hr).
    + by apply (Huniq i j r r').
Qed.

(** ** What the selections answer *)
Lemma scan_known i r : tables_ok w d → h_deliveries d !! i = Some r → known w (scanHumanInputDelivery r).
Proof.
  intros [_ [Hid Hrow _]] Hr. destruct (Hid _ _ Hr) as [Hi _], (Hrow _ _ Hr) as [Hv _ Hb _ _]. split_and!; [| done..].
  cbn. rewrite Hi, lookup_fmap, Hr. done.
Qed.
Lemma scanned_known p r : tables_ok w d → r ∈ rows_where p (h_deliveries d) → known w (scanHumanInputDelivery r) ∧ p r = true.
Proof. intros Hok (Hp & i & Hr)%elem_of_rows_where. split; [by eapply scan_known | done]. Qed.
End delivery.

(** ** Every call *)

(** The accounts read as linked. *)
Definition seen_login {A} (c : owner_call A) : A → list (Z * Z) → list (Z * Z) :=
  match c in owner_call A return A → list (Z * Z) → list (Z * Z) with
  | CLogin u => λ tg links, match tg with Some tg => (u, tg) :: links | None => links end
  | _ => λ _ links, links
  end.

Definition call_kept {A} (c : owner_call A) (now : time) (d : hdb) box links said api : Prop :=
  ∀ a d', owner_op now c d = Ok (a, d') →
  let w' := world_of d' box (seen_login c a links) said api in
  owner_le (world_of d box links said api) w' ∧ tables_ok w' d' ∧ owner_post w' c (Ok a).

Section call.
Context (now : time) (d : hdb) (box : list message) (links : list (Z * Z)) (said : list command) (api : list exchange).
Let w := world_of d box links said api.
Context (Hok : tables_ok w d).

(** A call that leaves the tables of the ledger alone. *)
Lemma kept_same d' :
  h_deliveries d' = h_deliveries d → h_next d' = h_next d → h_db d' = h_db d →
  owner_le w (world_of d' box links said api) ∧ tables_ok (world_of d' box links said api) d'.
Proof.
  intros E1 E2 E3. apply notices_grow_kept; [done | by rewrite E2 | done | by rewrite E3].
Qed.

Lemma kept_adding {A} (m : op A) (a : A) d' :
  adding m → on_store m d = Ok (a, d') →
  owner_le w (world_of d' box links said api) ∧ tables_ok (world_of d' box links said api) d'.
Proof.
  intros Hm. unfold on_store. destruct (m (h_db d)) as [[b s]|] eqn:E; [| done]. intros [= <- <-].
  apply notices_grow_kept; [done | done | done |]. eapply Hm, E.
  intros i r Hr. by eapply (no_id _ _ (tk_notices _ _ Hok)).
Qed.

Lemma kept_update {A} p f id (read : notification_row → A) x d' :
  (∀ r, d_notifications (h_db d) !! id = Some r → p r = true →
     notice_le r (f r) ∧ (n_Status (f r) = NotificationSent → shown w id (n_UserID r))) →
  on_store (update_notification p f id read) d = Ok (x, d') →
  owner_le w (world_of d' box links said api) ∧ tables_ok (world_of d' box links said api) d'.
Proof.
  intros Hf. unfold on_store. destruct (update_notification _ _ _ _ _) as [[b s]|] eqn:E; [| done]. intros [= <- <-].
  apply update_notification_Ok in E as [[-> ->]|(r & Hr & Hp & _ & ->)].
  - by apply kept_same.
  - destruct (Hf _ Hr Hp) as [Hle Hst]. eapply notices_update_kept; [done | done | done | exact Hr | exact Hle | | done].
    rewrite (nl_user _ _ Hle). exact Hst.
Qed.

Lemma kept_mark u id state outcome a d' :
  owner_pre w (CMark u id state outcome) → update_delivery now u id state outcome d = (a, d') →
  world_of d' box links said api = w ∧ tables_ok w d'.
Proof.
  intros [[Hnq Hns] Hb]. unfold update_delivery. destruct (update_row _ _ _ _) as [t|] eqn:E; intros [= <- <-]; [| done].
  apply update_row_Some in E as (r & Hr & _ & ->). apply deliveries_moved_kept; [done | |].
  - intros i r1 Hr1. destruct (decide (i = id)) as [->|].
    + rewrite Hr in Hr1. injection Hr1 as <-. rewrite lookup_insert_eq. eexists. split; [done |].
      split; try done. cbn. destruct Hb as [(H1 & H2 & H3)|(q & Hq & Hb)]; [by split_and! |].
      cbn in Hq. rewrite lookup_fmap, Hr in Hq. by injection Hq as <-.
    + rewrite lookup_insert_ne by done. exists r1. split; [done |]. apply moved_refl.
      by eapply (de_row _ _ (tk_deliveries _ _ Hok)).
  - intros i r' [[<- _]|[_ Hr']]%lookup_insert_Some; by eexists.
Qed.

(** Several rows at once. *)
Lemma kept_set_message n msg a d' :
  owner_pre w (CSetMessageID n msg) → SetHumanInputDeliveryMessageID now n msg d = (a, d') →
  world_of d' box links said api = w ∧ tables_ok w d'.
Proof.
  intros [u Hu] [= _ <-]. apply deliveries_moved_kept; [done | |].
  - intros i r Hr. rewrite lookup_update_where, Hr. eexists. split; [done |].
    pose proof (de_row _ _ (tk_deliveries _ _ Hok) _ _ Hr) as Hrow. cbn. case_match eqn:Hp; [| by apply moved_refl].
    bool_to_Prop. split; try done. cbn. intros m _ Hm.
    assert (m = n) as -> by congruence. destruct (ro_notice _ _ _ Hrow) as (m & nr & Hm2 & Hnr & Hus).
    assert (m = n) as -> by congruence. destruct Hu as (rid & Hc & Hbox). pose proof Hc as (nr2 & Hnr2 & Hus2 & _)%claims_lookup.
    rewrite Hnr in Hnr2. injection Hnr2 as <-. exists rid. rewrite <- Hus, Hus2. done.
  - intros i r'. rewrite lookup_update_where. by destruct (h_deliveries d !! i).
Qed.
End call.

Lemma kept_le d d' box links said api :
  world_of d' box links said api = world_of d box links said api ∧ tables_ok (world_of d box links said api) d' →
  owner_le (world_of d box links said api) (world_of d' box links said api) ∧ tables_ok (world_of d' box links said api) d'.
Proof. by intros [-> Ht]. Qed.

(** The calls on the notifications. *)
Lemma claim_kept now u id candidate lease d box links said api :
  tables_ok (world_of d box links said api) d → call_kept (CClaimNotice u id candidate lease) now d box links said api.
Proof.
  intros Hok a d' Hop w'. cbn in Hop. unfold ClaimOwnerNotification in Hop. case_match; [done |].
  assert (owner_le (world_of d box links said api) w' ∧ tables_ok w' d') as [Hle Hok'].
  { eapply kept_update, Hop; [done |]. intros r _ Hp. unfold claimable, pending in Hp. bool_to_Prop.
    split; [| match goal with H : n_Status r = _ |- _ => by cbn; rewrite H end].
    split; cbn; [done | done |]. by intros rid ->. }
  split_and!; [done | done |]. intros rid [= ->]. unfold on_store in Hop.
  destruct (update_notification _ _ _ _ _) as [[b s]|] eqn:E; [| done]. injection Hop as -> <-.
  apply update_notification_Ok in E as [[? _]|(r & Hr & Hp & Hb & ->)]; [done |]. injection Hb as ->.
  apply claims_lookup. cbn. eexists. rewrite lookup_insert_eq. split; [done |]. cbn. split; [| done].
  unfold claimable in Hp. by bool_to_Prop.
Qed.

Lemma end_notification_update u id f s x s' :
  end_notification u id f s = Ok (x, s') →
  ∃ y, update_notification (λ r, (n_UserID r =? u) && pending r) f id (λ _, tt) s = Ok (y, s').
Proof.
  unfold end_notification, op_bind. destruct (update_notification _ _ _ _ _) as [[y s1]|]; [| done].
  destruct y; cbn; [| done]. intros [= _ <-]. by eexists.
Qed.

Lemma end_kept (f : notification_row → notification_row) u id d x d' box links said api :
  tables_ok (world_of d box links said api) d →
  (∀ r, notice_le r (f r)) → (∀ r, n_Status (f r) = NotificationSent → shown (world_of d box links said api) id u) →
  on_store (end_notification u id f) d = Ok (x, d') →
  owner_le (world_of d box links said api) (world_of d' box links said api) ∧ tables_ok (world_of d' box links said api) d'.
Proof.
  intros Hok Hle Hst Hop. unfold on_store in Hop. destruct (end_notification _ _ _ _) as [[x' s]|] eqn:E; [| done].
  injection Hop as -> <-. apply end_notification_update in E as [y E].
  eapply (kept_update d box links said api Hok _ f id (λ _, tt) y). 2:{ unfold on_store. by rewrite E. }
  intros r _ Hp. split; [done |]. apply andb_true_iff in Hp as [->%Z.eqb_eq _]. apply Hst.
Qed.

Lemma owner_op_kept {A} (c : owner_call A) now d box links said api :
  tables_ok (world_of d box links said api) d → owner_pre (world_of d box links said api) c → call_kept c now d box links said api.
Proof.
  intros Hok Hpre a d' Hop w'. pose proof Hok as Hok0.
  assert (∀ {B} (m : op B) b, adding m → on_store m d = Ok (b, d') →
    owner_le (world_of d box links said api) (world_of d' box links said api) ∧ tables_ok (world_of d' box links said api) d') as Hadd.
  { intros B m b Hm Ho. by eapply kept_adding. }
  destruct c; cbn -[on_store] in Hop; cbn in w'; try (injection Hop as <- <-).
  - destruct (kept_same d box links said api Hok (d <|h_db := h_db d|>)); try done; by split_and!.
  - destruct (Hadd _ _ _ (InsertOwnerNotification_adding _ _) Hop). by split_and!.
  - by apply (claim_kept now).
  - assert (owner_le (world_of d box links said api) w' ∧ tables_ok w' d') as [? ?]; [| by split_and!].
    eapply end_kept, Hop; [done | by split | done].
  - assert (owner_le (world_of d box links said api) w' ∧ tables_ok w' d') as [? ?]; [| by split_and!].
    eapply end_kept, Hop; [done | by split | by intros r].
  - destruct (Hadd _ _ _ (quiet_adding _ (GetAgentAction_quiet _ _)) Hop). by split_and!.
  - destruct (Hadd _ _ _ (quiet_adding _ (GetConversation_quiet _ _)) Hop). by split_and!.
  - by split_and!.
  - destruct (insert_delivery_kept d box links said api now x body a d' Hok Hpre Hop). by split_and!.
  - split_and!; [done | done |]. intros x [= Hx]. unfold select_by_code in Hx.
    destruct (rows_where _ _) as [|r l] eqn:E; [done |]. injection Hx as <-.
    destruct (scanned_known d box links said api (has_code u code) r Hok) as [Hk Hp]; [rewrite E; by left |].
    split; [done |]. unfold has_code in Hp. apply andb_true_iff in Hp as [Hu Hc%String.eqb_eq]. bool_to_Prop. by split.
  - split_and!; [done | done |]. intros l [= <-] x (r & -> & Hr)%list_elem_of_fmap.
    destruct (scanned_known d box links said api _ r Hok Hr) as [Hk Hp]. split; [done |]. by bool_to_Prop.
  - by split_and!.
  - injection Hop as Hop. destruct (kept_le d d' box links said api) as [? ?]; [by eapply kept_mark | by split_and!].
  - by split_and!.
  - edestruct (kept_le d) as [? ?]; [by eapply (kept_set_message now) | by split_and!].
  - destruct (kept_same d box links said api Hok (upsert_actor now u tg d)); try done; by split_and!.
  - by split_and!.
  - destruct (kept_same d box links said api Hok (update_dormant now u failCount class backoff d)); try done; by split_and!.
  - by split_and!.
  - assert (owner_le (world_of d box links said api) w') as Hle.
    { split; cbn; try done. destruct (select_login u d); set_solver. }
    split_and!; [done | by apply (tables_ok_mono _ _ _ Hle) |]. intros tg [= E]. unfold linked, w'. cbn. rewrite E. set_solver.
  - by split_and!.
Qed.
End tables.
