(* ===== verification/OwnerSafety.v ===== *)
(** * The owner's surface in every run

    Pollers, handlers of [/mctl input] and notifiers run at once, over one
    database, Telegram and the work platform; calls are refused or their
    answers lost, sends are delivered with the answer lost, processes stop, and
    other parts of the server queue notifications.  The theorems: a notification
    is one message, a question is asked once and settles once, and an answer is
    submitted only as the owner gave it. *)

From S2P Require Import Prelude GoString Program Linear Rows Tables Actions Notices HumanInputTables WorkClient OwnerEffects Notifier Sanitize HumanInputStore HumanInput OwnerProps OwnerRuns OwnerTables.

(** ** The system *)
Record system `{Sealer} := System {
  os_db : hdb;
  os_box : list message;             (** the Saved Messages of all owners, latest first *)
  os_links : list (Z * Z);           (** the accounts that were read as linked *)
  os_said : list command;            (** the commands that reached the handler *)
  os_api : list exchange;            (** the traffic with the platform *)
  os_threads : list (owner unit);
}.

(** The answer of a call that took effect may be lost on the way. *)
Definition answered {A} (a : A) (r : result db_error A) : Prop := r = Ok a ∨ ∃ e, r = Err e.

(** Telegram refuses a random id the user has used. *)
Inductive self_sent (box : list message) (m : message) : result self_error Z → list message → Prop :=
| sent_new id : ms_key m ∉ map ms_key box → self_sent box m (Ok id) (m :: box)
| sent_lost what : ms_key m ∉ map ms_key box → self_sent box m (Err (SelfFailed what)) (m :: box)
| sent_refused what : self_sent box m (Err (SelfFailed what)) box
| sent_again : ms_key m ∈ map ms_key box → self_sent box m (Err SelfAlreadyDelivered) box.

(** The exchange with the platform that a query is, if it is one. *)
Definition exchange_of {A} (q : owner_query A) : A → option exchange :=
  match q in owner_query A return A → option exchange with
  | QHttpList actor => λ a, Some (EvList actor a)
  | QHttpGet actor rid => λ a, Some (EvRead actor rid a)
  | QHttpRespond u actor rid req key => λ a, Some (EvRespond u actor rid req key a)
  | _ => λ _, None
  end.
(** What the other collaborators may answer. *)
Definition local_answer {A} (q : owner_query A) : A → Prop :=
  match q in owner_query A return A → Prop with
  | QSelf _ _ _ _ => λ _, False
  | QShuffle l => λ l', l' ≡ₚ l
  | QRandomBytes => Forall is_byte
  | _ => λ _, True
  end.

Section system.
Context `{SL : Sealer} `{UT : UnicodeTables} `{FT : FormatTable}.
(** The programs, with the command an answer is started by. *)
Variable starts : option command → owner unit → Prop.

Inductive step (s : system) : system → Prop :=
| step_start cmd p :
    starts cmd p →
    step s (System _ (os_db s) (os_box s) (os_links s) (option_list cmd ++ os_said s) (os_api s) (os_threads s ++ [p]))
| step_call i A (c : owner_call A) k now a d r :
    os_threads s !! i = Some (Call c k) → owner_op now c (os_db s) = Ok (a, d) → answered a r →
    step s (System _ d (os_box s) (seen_login c a (os_links s)) (os_said s) (os_api s) (<[i := k r]> (os_threads s)))
| step_error i A (c : owner_call A) k e :        (** refused, or it never reached the database *)
    os_threads s !! i = Some (Call c k) →
    step s (System _ (os_db s) (os_box s) (os_links s) (os_said s) (os_api s) (<[i := k (Err e)]> (os_threads s)))
| step_self i n u rid text k r box :
    os_threads s !! i = Some (Query (QSelf n u rid text) k) → self_sent (os_box s) (Message n u rid text) r box →
    step s (System _ (os_db s) box (os_links s) (os_said s) (os_api s) (<[i := k r]> (os_threads s)))
| step_exchange i A (q : owner_query A) k a ev :
    os_threads s !! i = Some (Query q k) → exchange_of q a = Some ev →
    step s (System _ (os_db s) (os_box s) (os_links s) (os_said s) (ev :: os_api s) (<[i := k a]> (os_threads s)))
| step_local i A (q : owner_query A) k a :
    os_threads s !! i = Some (Query q k) → exchange_of q a = None → local_answer q a →
    step s (System _ (os_db s) (os_box s) (os_links s) (os_said s) (os_api s) (<[i := k a]> (os_threads s)))
| step_crash i : step s (System _ (os_db s) (os_box s) (os_links s) (os_said s) (os_api s) (delete i (os_threads s)))
| step_others d :                                (** other writers queue notifications at most *)
    h_deliveries d = h_deliveries (os_db s) → h_next d = h_next (os_db s) → notices_grow (h_db (os_db s)) (h_db d) →
    step s (System _ d (os_box s) (os_links s) (os_said s) (os_api s) (os_threads s)).

(** A database with no notification and no question yet. *)
Definition fresh (d : hdb) : Prop := d_notifications (h_db d) = ∅ ∧ h_deliveries d = ∅.
Definition start (d : hdb) : system := System _ d [] [] [] [] [].
Definition reachable (s : system) : Prop := ∃ d, fresh d ∧ rtc step (start d) s.

(** ** The invariant *)
Definition world (s : system) : owner_world := world_of (os_db s) (os_box s) (os_links s) (os_said s) (os_api s).

Record box_ok (w : owner_world) : Prop := {
  bx_claimed m : m ∈ ow_box w → ow_claims w !! ms_Notice m = Some (ms_key m);
  bx_keys : NoDup (map ms_key (ow_box w));
}.
Definition api_ok (w : owner_world) : Prop :=
  ∀ u actor rid req key a, EvRespond u actor rid req key a ∈ ow_api w → submission w u actor rid req key.

Record system_ok (s : system) : Prop := {
  so_tables : tables_ok (world s) (os_db s);
  so_box : box_ok (world s);
  so_api : api_ok (world s);
  so_threads : Forall (λ p, keeps (world s) p (λ _ _, True)) (os_threads s);
}.

Context (Hstarts : ∀ cmd p w, starts cmd p → option_list cmd ⊆ ow_said w → keeps w p (λ _ _, True)).

Lemma box_ok_mono w w' : owner_le w w' → ow_box w' = ow_box w → box_ok w → box_ok w'.
Proof.
  intros Hw Hb [H1 H2]. split; rewrite Hb; [| done]. intros m Hm. eapply lookup_weaken; [by apply H1 | by apply Hw].
Qed.
Lemma api_ok_mono w w' : owner_le w w' → ow_api w' = ow_api w → api_ok w → api_ok w'.
Proof. intros Hw Ha Hok u actor rid req key a. rewrite Ha. intros Hin. apply (submission_mono w); [done |]. by eapply Hok. Qed.

(** The world moves on, and thread [i] with it. *)
Lemma moved_on s d box links said api i p :
  let s' := System _ d box links said api (<[i := p]> (os_threads s)) in
  Forall (λ p, keeps (world s) p (λ _ _, True)) (os_threads s) →
  owner_le (world s) (world s') → tables_ok (world s') d → box_ok (world s') → api_ok (world s') →
  keeps (world s') p (λ _ _, True) → system_ok s'.
Proof.
  intros s' Hp Hle Ht Hb Ha Hk. split; [done.. |]. apply Forall_insert; [| done].
  eapply Forall_impl; [exact Hp |]. intros q Hq. exact (runs_mono _ _ q Hle Hq).
Qed.

Lemma self_sent_box w m r box :
  box_ok w → ow_claims w !! ms_Notice m = Some (ms_key m) → self_sent (ow_box w) m r box →
  ow_box w ⊆ box ∧ (∀ x, x ∈ box → ow_claims w !! ms_Notice x = Some (ms_key x)) ∧ NoDup (map ms_key box) ∧
  ((∃ id, r = Ok id) ∨ r = Err SelfAlreadyDelivered → ms_key m ∈ map ms_key box).
Proof.
  intros [H1 H2] Hc Hs. destruct Hs as [id Hn|what Hn|what|Hin].
  - split_and!; [set_solver | | by constructor | by left]. intros x [->|Hx]%elem_of_cons; [done | by apply H1].
  - split_and!; [set_solver | | by constructor | by left]. intros x [->|Hx]%elem_of_cons; [done | by apply H1].
  - split_and!; [done | done | done |]. by intros [[id ?]|?].
  - by split_and!.
Qed.

Lemma owner_step s s' : system_ok s → step s s' → system_ok s'.
Proof.
  intros [Ht Hb Ha Hp] Hstep.
  destruct Hstep as [cmd p Hs|i A c k now a d r Hi Hop Hr|i A c k e Hi|i n u rid text k r box Hi Hsent|i A q k a ev Hi Hev|i A q k a Hi Hev Hl|i|d Hd Hn Hg].
  - set (w' := world_of (os_db s) (os_box s) (os_links s) (option_list cmd ++ os_said s) (os_api s)).
    assert (owner_le (world s) w') as Hle by (split; cbn; try done; set_solver).
    split; [by apply (tables_ok_mono _ _ _ Hle) | by eapply box_ok_mono | by eapply api_ok_mono |].
    apply Forall_app. split.
    + eapply Forall_impl; [exact Hp |]. intros q Hq. exact (runs_mono _ _ q Hle Hq).
    + repeat constructor. apply (Hstarts cmd p w'); [done |]. cbn. set_solver.
  - pose proof (proj1 (Forall_lookup _ _) Hp _ _ Hi) as [Hpre Hk].
    destruct (owner_op_kept c now _ _ _ _ _ Ht Hpre a d Hop) as (Hle & Ht' & Hpost).
    apply moved_on; [done.. | by eapply box_ok_mono | by eapply api_ok_mono |].
    apply (Hk _ _ tt); [done |]. destruct Hr as [->|[e ->]]; [done |]. by destruct c.
  - pose proof (proj1 (Forall_lookup _ _) Hp _ _ Hi) as [_ Hk]. apply moved_on; [done.. |].
    apply (Hk _ _ tt); [done |]. by destruct c.
  - pose proof (proj1 (Forall_lookup _ _) Hp _ _ Hi) as [Hpre Hk].
    destruct (self_sent_box (world s) (Message n u rid text) r box Hb Hpre Hsent) as (Hsub & Hbox & Hnd & Hpost).
    assert (owner_le (world s) (world_of (os_db s) box (os_links s) (os_said s) (os_api s))) as Hle by by split.
    apply moved_on; [done | done | by apply (tables_ok_mono _ _ _ Hle) | by split | by eapply api_ok_mono |].
    apply (Hk _ _ tt); [done | done].
  - pose proof (proj1 (Forall_lookup _ _) Hp _ _ Hi) as [Hpre Hk].
    assert (owner_le (world s) (world_of (os_db s) (os_box s) (os_links s) (os_said s) (ev :: os_api s))) as Hle.
    { split; cbn; try done. set_solver. }
    apply moved_on; [done | done | by apply (tables_ok_mono _ _ _ Hle) | by eapply box_ok_mono | |].
    + intros u actor rid req key x. cbn. intros [E|Hin]%elem_of_cons; (apply (submission_mono (world s)); [done |]);
        [| by eapply Ha]. destruct q; try discriminate Hev; injection Hev as <-; try discriminate E.
      injection E as -> -> -> -> -> _. exact Hpre.
    + apply (Hk _ _ tt); [done |]. destruct q; try discriminate Hev; injection Hev as <-; by left.
  - pose proof (proj1 (Forall_lookup _ _) Hp _ _ Hi) as [Hpre Hk]. apply moved_on; [done.. |].
    apply (Hk _ _ tt); [done |]. destruct q; try done. cbn in Hl. cbn. by rewrite Hl.
  - split; [done.. |]. by apply Forall_delete.
  - destruct (notices_grow_kept (os_db s) d (os_box s) (os_links s) (os_said s) (os_api s) Hd ltac:(by rewrite Hn) Ht Hg) as [Hle Ht'].
    split; [done | by eapply box_ok_mono | by eapply api_ok_mono |].
    eapply Forall_impl; [exact Hp |]. intros q Hq. exact (runs_mono _ _ q Hle Hq).
Qed.

Lemma owner_start d : fresh d → system_ok (start d).
Proof.
  intros [Hn Hd]. split; cbn; [| | by intros ? ? ? ? ? ? ?%elem_of_nil | constructor].
  - split; split; rewrite ?Hn, ?Hd; intros *; try by rewrite lookup_empty. 
  - split; [by intros m ?%elem_of_nil | constructor].
Qed.

Lemma steps_kept s s' : system_ok s → rtc step s s' → system_ok s'.
Proof. intros Hok Hs. induction Hs as [|s1 s2 s3 H12 _ IH]; [done |]. apply IH. by eapply owner_step. Qed.
Lemma owner_reachable s : reachable s → system_ok s.
Proof. intros (d & Hd & Hs). eapply steps_kept, Hs. by apply owner_start. Qed.
End system.
