(* ===== verification/OwnerTheorems.v ===== *)
(** * What the owner's surface guarantees

    The theorems on the system of [OwnerSafety], the text of a notification, and
    the answer codes. *)

From S2P Require Import Prelude GoString Program Linear Rows Tables Actions Notices HumanInputTables WorkClient OwnerEffects Notifier Sanitize HumanInputStore HumanInput OwnerProps OwnerRuns OwnerTables OwnerSafety.

(** ** The programs *)
Section programs.
Context `{SL : Sealer} `{UT : UnicodeTables} `{FT : FormatTable}.

Inductive owner_program : option command → owner unit → Prop :=
| a_poll Render WorkRef : owner_program None (forget (RunOnce Render WorkRef))
| an_answer meta code value : owner_program (Some (Command meta code value)) (forget (Answer meta code value))
| a_status meta code : owner_program None (forget (Status meta code))
| a_delivery cfg : owner_program None (forget (DeliverPending cfg)).

Lemma owner_program_keeps cmd p w : owner_program cmd p → option_list cmd ⊆ ow_said w → keeps w p (λ _ _, True).
Proof.
  intros [Render WorkRef|meta code value|meta code|cfg] Hsaid; apply runs_forget;
    [apply RunOnce_runs | | apply Status_runs | apply DeliverPending_runs].
  apply (Answer_runs w (Command meta code value)), Hsaid. by left.
Qed.
Lemma owner_kept s : reachable owner_program s → system_ok s.
Proof. apply owner_reachable, owner_program_keeps. Qed.

(** ** One message per notification *)
Lemma box_notices w : box_ok w → NoDup (map ms_Notice (ow_box w)).
Proof.
  intros [Hc Hk]. revert Hc Hk. generalize (ow_box w). intros box. induction box as [|m box IH]; intros Hc Hk; [constructor |].
  apply NoDup_cons in Hk as [Hm Hk]. cbn. constructor; [| apply IH; [intros x Hx; apply Hc; by right | done]].
  intros (x & E & Hx)%list_elem_of_fmap. apply Hm, list_elem_of_fmap. exists x. split; [| done].
  pose proof (Hc x ltac:(by right)) as H1. pose proof (Hc m ltac:(by left)) as H2. congruence.
Qed.

(** C5: a notification becomes one message.  However the notifiers race, lose
    answers and are killed, every send of a notification carries the user and
    the random id of its row, which Telegram takes once: the owner's Saved
    Messages hold at most one message for it, and a notification marked sent, or
    a question marked sent, is there under that random id. *)
Theorem notice_sent_once s :
  reachable owner_program s →
  NoDup (map ms_Notice (os_box s)) ∧ NoDup (map ms_key (os_box s)) ∧
  (∀ m, m ∈ os_box s → ∃ r, d_notifications (h_db (os_db s)) !! ms_Notice m = Some r ∧
     n_UserID r = ms_User m ∧ n_RandomID r = Some (ms_Random m)) ∧
  (∀ i r, d_notifications (h_db (os_db s)) !! i = Some r → n_Status r = NotificationSent →
     ∃ rid, n_RandomID r = Some rid ∧ (n_UserID r, rid) ∈ map ms_key (os_box s)) ∧
  (∀ i q, h_deliveries (os_db s) !! i = Some q → hi_State q = HumanInputSent →
     ∃ n r rid, hi_NotificationID q = Some n ∧ d_notifications (h_db (os_db s)) !! n = Some r ∧
       n_RandomID r = Some rid ∧ (hi_UserID q, rid) ∈ map ms_key (os_box s)).
Proof.
  intros Hs. destruct (owner_kept s Hs) as [[[_ Hsent] [_ Hrow _]] Hb _ _].
  assert (∀ n u, shown (world s) n u → ∃ r rid, d_notifications (h_db (os_db s)) !! n = Some r ∧ n_UserID r = u ∧
    n_RandomID r = Some rid ∧ (u, rid) ∈ map ms_key (os_box s)) as Hshown.
  { intros n u (rid & (r & Hr & Hu & Hx)%claims_lookup & Hin). by exists r, rid. }
  split_and!.
  - by apply (box_notices (world s)).
  - apply Hb.
  - intros m Hm. pose proof (bx_claimed _ Hb m Hm) as (r & Hr & Hu & Hx)%claims_lookup. by exists r.
  - intros i r Hr Hst. destruct (Hshown _ _ (Hsent _ _ Hr Hst)) as (r' & rid & Hr' & _ & Hx & Hin). exists rid. split; congruence.
  - intros i q Hq Hst. destruct (Hrow _ _ Hq) as [_ (n & nr & Hn & _) _ Hsq _].
    destruct (Hshown _ _ (Hsq n Hst Hn)) as (r & rid & Hr & _ & Hx & Hin). by exists n, r, rid.
Qed.

(** ** Questions *)
Lemma map_inj {A B} (f : A → B) l x y : NoDup (map f l) → x ∈ l → y ∈ l → f x = f y → x = y.
Proof.
  induction l as [|a l IH]; intros Hn Hx Hy E; [by apply elem_of_nil in Hx |].
  apply NoDup_cons in Hn as [Ha Hn].
  apply elem_of_cons in Hx as [->|Hx]; apply elem_of_cons in Hy as [->|Hy]; [done | | | by apply IH];
    exfalso; apply Ha, list_elem_of_fmap; by eexists.
Qed.

(** C8: a question is asked once.  Every stored question was listed by the
    platform as pending for an account linked to its user, and could be shown;
    a request of the platform has one row, an answer code leads to one question
    of its user, and each question has a notification of its own, so that at
    most one message carries it. *)
Theorem question_asked_once s :
  reachable owner_program s →
  (∀ i q, h_deliveries (os_db s) !! i = Some q →
     ∃ x, asked (world s) x ∧ row_question q = asked_question x) ∧
  (∀ i j q q', h_deliveries (os_db s) !! i = Some q → h_deliveries (os_db s) !! j = Some q' →
     same_request q q' ∨ same_code q q' → i = j) ∧
  (∀ i j q q' m m', h_deliveries (os_db s) !! i = Some q → h_deliveries (os_db s) !! j = Some q' →
     same_request q q' → m ∈ os_box s → m' ∈ os_box s →
     hi_NotificationID q = Some (ms_Notice m) → hi_NotificationID q' = Some (ms_Notice m') →
     m = m' ∧ ms_User m = hi_UserID q).
Proof.
  intros Hs. destruct (owner_kept s Hs) as [[_ [_ Hrow Huniq]] Hb _ _]. split_and!.
  - intros i q Hq. by destruct (Hrow _ _ Hq).
  - intros i j q q' Hq Hq' [Hsame|Hsame]; (apply (Huniq i j q q'); [done.. |]); tauto.
  - intros i j q q' m m' Hq Hq' Hsame Hm Hm' Hn Hn'.
    assert (i = j) as <- by (apply (Huniq i j q q'); [done.. | by left]).
    rewrite Hq in Hq'. injection Hq' as <-. rewrite Hn in Hn'. injection Hn' as E.
    assert (m = m') as <-.
    { apply (map_inj ms_Notice (os_box s)); [by apply (box_notices (world s)) | done..]. }
    split; [done |]. destruct (Hrow _ _ Hq) as [_ (n & nr & Hn2 & Hnr & Hu) _ _ _]. rewrite Hn in Hn2. injection Hn2 as <-.
    pose proof (bx_claimed _ Hb m Hm) as (r & Hr & Hru & _)%claims_lookup. unfold ms_key in *. congruence.
Qed.

(** How far a question has come. *)
Definition stage (q : delivery_row) : nat :=
  if bool_decide (hi_State q = HumanInputQueued) then 0
  else if bool_decide (hi_State q = HumanInputSent) then 1
  else if humanInputOpen (hi_State q) then 2 else 3.

Record question_kept (q q' : delivery_row) : Prop := {
  qk_question : row_question q' = row_question q;
  qk_notice : hi_NotificationID q' = hi_NotificationID q;
  qk_stage : (stage q ≤ stage q')%nat;
  qk_final : stage q = 3%nat → q' = q;
}.
#[global] Instance question_kept_preorder : PreOrder question_kept.
Proof.
  split; [by intros q; split |]. intros q1 q2 q3 [A1 A2 A3 A4] [B1 B2 B3 B4].
  split; [congruence | congruence | lia |]. intros H1. rewrite <- (A4 H1). apply B4. rewrite (A4 H1). done.
Qed.

(** What [step] does to the questions. *)
Definition questions_kept (t t' : gmap Z delivery_row) : Prop :=
  ∀ i q, t !! i = Some q → ∃ q', t' !! i = Some q' ∧ question_kept q q'.
#[global] Instance questions_kept_preorder : PreOrder questions_kept.
Proof.
  split; [by intros t i q Hq; exists q |]. intros t1 t2 t3 H1 H2 i q (q2 & Hq2 & K2)%H1.
  destruct (H2 _ _ Hq2) as (q3 & Hq3 & K3). exists q3. split; [done | by etrans].
Qed.

Lemma mark_questions_kept u id state outcome now d a d' :
  settling state → update_delivery now u id state outcome d = (a, d') → questions_kept (h_deliveries d) (h_deliveries d').
Proof.
  intros [Hnq Hns]. unfold update_delivery. destruct (update_row _ _ _ _) as [t|] eqn:E; intros [= _ <-]; [| done].
  apply update_row_Some in E as (r & Hr & Hp & ->). intros i q Hq. cbn. destruct (decide (i = id)) as [->|].
  - rewrite Hr in Hq. injection Hq as <-. eexists. rewrite lookup_insert_eq. split; [done |].
    apply andb_true_iff in Hp as [Hp _]. apply andb_true_iff in Hp as [_ Ho]. split; [done | done | |].
    + unfold stage. cbn. rewrite (bool_decide_eq_false_2 (state = _)), (bool_decide_eq_false_2 (state = _)), Ho by done.
      repeat case_match; lia.
    + unfold stage. rewrite Ho. by repeat case_match.
  - exists q. by rewrite lookup_insert_ne.
Qed.

Lemma message_questions_kept now n msg d a d' :
  SetHumanInputDeliveryMessageID now n msg d = (a, d') → questions_kept (h_deliveries d) (h_deliveries d').
Proof.
  intros [= _ <-] i q Hq. cbn. rewrite lookup_update_where, Hq. eexists. split; [done |]. cbn.
  case_match eqn:Hp; [| done]. apply andb_true_iff in Hp as [_ Hp%bool_decide_eq_true].
  split; [done | done | |]; unfold stage; rewrite Hp; vm_compute; [lia | done].
Qed.

Lemma owner_op_questions {A} (c : owner_call A) now w d a d' :
  tables_ok w d → owner_pre w c → owner_op now c d = Ok (a, d') → questions_kept (h_deliveries d) (h_deliveries d').
Proof.
  intros Hok Hpre Hop. assert (∀ {B} (m : op B) b, on_store m d = Ok (b, d') → h_deliveries d' = h_deliveries d) as Hst.
  { intros B m b. unfold on_store. destruct (m (h_db d)) as [[x s]|]; [by intros [= _ <-] | done]. }
  destruct c; cbn -[on_store] in Hop; try (apply Hst in Hop; by rewrite Hop); try (by injection Hop as _ <-).
  - destruct a; [| apply insert_delivery_false in Hop; rewrite Hop; reflexivity].
    apply insert_delivery_true in Hop as (s' & _ & _ & ->). intros i q Hq. exists q. cbn. split; [| done].
    rewrite lookup_insert_ne; [done |]. intros <-. apply (de_id _ _ (tk_deliveries _ _ Hok)) in Hq. lia.
  - apply (mark_questions_kept u id state outcome now d a d'); [by destruct Hpre | congruence].
  - apply (message_questions_kept now notice msg d a d'). congruence.
Qed.

(** C9: the life of a question.  Whatever happens, a question keeps its user,
    request, kind, options, answer code and notification; it never goes back
    from sent to queued, nor from an open answer to either; and once it is
    closed nothing changes it. *)
Theorem question_lifecycle s s' :
  reachable owner_program s → rtc (step owner_program) s s' →
  ∀ i q, h_deliveries (os_db s) !! i = Some q →
    ∃ q', h_deliveries (os_db s') !! i = Some q' ∧ row_question q' = row_question q ∧
      hi_NotificationID q' = hi_NotificationID q ∧ (stage q ≤ stage q')%nat ∧ (humanInputOpen (hi_State q) = false → q' = q).
Proof.
  intros Hs Hs'. apply owner_kept in Hs as Hok.
  assert (questions_kept (h_deliveries (os_db s)) (h_deliveries (os_db s'))) as Hk.
  { clear Hs. induction Hs' as [|s1 s2 s3 H12 _ IH]; [done |].
    etrans; [| apply IH; eapply owner_step, H12; [apply owner_program_keeps | done]].
    destruct H12; cbn; try done; [| by match goal with H : h_deliveries _ = _ |- _ => rewrite H end].
    destruct Hok as [Ht _ _ Hp]. eapply owner_op_questions; [exact Ht | | done].
    by destruct (proj1 (Forall_lookup _ _) Hp _ _ H). }
  intros i q (q' & Hq' & [K1 K2 K3 K4])%Hk. exists q'. split_and!; [done.. |]. intros Hc. apply K4.
  unfold stage. rewrite Hc. case_bool_decide as E; [by rewrite E in Hc |]. case_bool_decide as E2; [by rewrite E2 in Hc | done].
Qed.

(** C6: an answer is submitted as its owner gave it.  Every answer handed to the
    platform comes from one command of [/mctl input] that its owner typed: the
    account it acts as sent the command and is the one stored for the user, the
    code of the command leads to the question, queued for that user under the
    same content hash, and the idempotency key is that of the question and of the
    message the command came in.  For a choice its value is the option which what
    was typed names, by number or by text, as the platform showed it, still
    pending and under the same hash, and with the digest the question was stored
    with at that place; for a text it is what was typed without the space around
    it, of one to 2000 characters. *)
Theorem submissions_checked s u actor rid req key a :
  reachable owner_program s → EvRespond u actor rid req key a ∈ os_api s →
  (u, actor) ∈ os_links s ∧ ∃ cmd i q, cmd ∈ os_said s ∧ h_deliveries (os_db s) !! i = Some q ∧
    mt_UserID (cm_Meta cmd) = u ∧ mt_SelfTGID (cm_Meta cmd) = actor ∧
    hi_UserID q = u ∧ hi_AnswerCode q = normalizeCode (cm_Code cmd) ∧
    hi_RequestID q = rid ∧ hi_RequestHash q = rr_RequestHash req ∧
    key = idemKey rid (rr_RequestHash req) (mt_TGMessageID (cm_Meta cmd)) ∧
    ((hi_Kind q = HumanInputTypeSingleChoice ∧ ∃ v k, names_option (hi_OptionDigests q) (cm_Value cmd) k ∧
        reads (world s) actor rid v ∧ rv_RequestHash v = rr_RequestHash req ∧ rv_State v = HumanInputStatePending ∧
        rv_Options v !! k = Some (rr_Value req) ∧ hi_OptionDigests q !! k = Some (OptionDigest (rr_Value req))) ∨
     (hi_Kind q = HumanInputTypeFreeText ∧ rr_Value req = string_of_runes (runes (TrimSpace (cm_Value cmd))) ∧
        TrimSpace (cm_Value cmd) ≠ "" ∧ Z.of_nat (length (runes (TrimSpace (cm_Value cmd)))) ≤ maxAnswerRunes)).
Proof.
  intros Hs Hin. destruct (owner_kept s Hs) as [_ _ Ha _].
  destruct (Ha _ _ _ _ _ _ Hin) as (Hl & i & q & cmd & Hq & Hcmd & Hu & Hself & Hqu & Hc & Hr & Hh & Hk & Hv).
  split; [done |]. cbn in Hq. apply lookup_fmap_Some in Hq as (r & <- & Hrow). exists cmd, i, r. cbn in *.
  rewrite <- Hh in Hk. split_and!; [done.. |]. destruct Hv as [[Hkind (v & k & Hv)]|Hv]; [left | by right].
  split; [done |]. exists v, k. cbn in Hv. destruct Hv as (H0 & H1 & H2 & H3 & H4 & H5). split_and!; congruence.
Qed.

End programs.
