(* ===== verification/OwnerTexts.v ===== *)
(** * The owner's texts and codes

    The text of a draft awaiting approval within Telegram's cap, and the answer
    codes of [answercode.go]. *)

From S2P Require Import Prelude GoString Program Utf8 Policy Rows Tables Actions Notices HumanInputTables WorkClient OwnerEffects Notifier Sanitize HumanInputStore HumanInput.

(** ** Counting runes *)
Lemma encode_rune_lead r : scalar r → ∃ b e, encode_rune r = b :: e ∧ cont b = false.
Proof.
  intros Hr%encode_rune_cases. destruct Hr; do 2 eexists; (split; [done |]); unfold cont;
    (apply andb_false_iff; rewrite Z.leb_gt, Z.leb_gt; lia).
Qed.

Lemma bytes_string_of_runes rs : Forall scalar rs → bytes (string_of_runes rs) = encode rs.
Proof. intros Hrs. by apply encodes_of. Qed.

Lemma rune_count_between prefix rs c t :
  Forall scalar rs → byte_of_ascii c < 128 →
  rune_count (prefix +:+ string_of_runes rs +:+ String c t)
  = rune_count prefix + Z.of_nat (length rs) + rune_count (String c t).
Proof.
  intros Hrs Hc. unfold rune_count. rewrite !bytes_app, bytes_string_of_runes by done.
  assert (decode (bytes prefix ++ encode rs ++ bytes (String c t))
    = decode (bytes prefix) ++ decode (encode rs ++ bytes (String c t))) as Hsplit.
  { destruct Hrs as [|r rs Hr Hrs]; [by apply decode_app_ascii |]. rewrite encode_cons, <- (assoc_L (++)).
    destruct (encode_rune_lead r Hr) as (b & e & -> & Hb). by apply decode_app_lead. }
  rewrite Hsplit, decode_encode, !length_app, length_map by done. lia.
Qed.

(** ** Texts within the cap *)
Section reserve.
Context (prefix body : string) (c : Ascii.ascii) (t : string).
Let tail := String c t.
Context (Hc : byte_of_ascii c < 128).

Lemma reserveTail_shape : ∃ mid, reserveTail prefix body tail = prefix +:+ mid +:+ tail.
Proof. by eexists. Qed.

Lemma reserveTail_fits :
  rune_count prefix + rune_count tail + 11 ≤ maxTelegramMessageLen →
  rune_count (reserveTail prefix body tail) ≤ maxTelegramMessageLen ∧
  (rune_count prefix + rune_count body + rune_count tail ≤ maxTelegramMessageLen →
     reserveTail prefix body tail = prefix +:+ string_of_runes (runes body) +:+ tail).
Proof.
  intros Hroom. pose proof (runes_scalar body) as Hs.
  assert (Z.of_nat (length (runes body)) = rune_count body) as Hlen.
  { unfold runes, rune_count. by rewrite length_fmap. }
  unfold reserveTail. fold tail. rewrite Hlen.
  rewrite (proj2 (Z.ltb_ge (maxTelegramMessageLen - rune_count prefix - rune_count tail) 0)) by lia.
  assert (rune_count "[truncated]" = 11) as Hm by done. rewrite Hm. case_match; bool_to_Prop.
  - split; [| lia]. rewrite (proj2 (Z.ltb_ge _ 0)) by lia. unfold tail in *. rewrite rune_count_between; [| | done].
    + rewrite length_app, length_take. change (length (runes "[truncated]")) with 11%nat. lia.
    + apply Forall_app. split; [by apply Forall_take | apply runes_scalar].
  - unfold tail in *. rewrite rune_count_between by done. split; [lia | done].
Qed.
End reserve.

Section texts.
Context `{SL : Sealer}.

Lemma instructions_head code : ∃ c t, instructions code = String c t ∧ byte_of_ascii c < 128.
Proof. do 2 eexists. split; [reflexivity | by vm_compute]. Qed.

(** What [format] answers for a draft. *)
Definition draft_text (tr : list (obs db_error owner_call owner_query)) (n : OwnerNotification) (text : string) : Prop :=
  ∃ action, OCall (CAction (on_UserID n) (on_ActionID n)) (Ok action) ∈ tr ∧
    (aa_ActionType action ≠ ActionTypeOwnerApproval → aa_ApprovalCode action ≠ "" →
     ∃ who conv, let prefix := approval_prefix who conv (aa_PolicyReasons action) in
       let tail := instructions (aa_ApprovalCode action) in
       (∃ mid, text = prefix +:+ mid +:+ tail) ∧
       (rune_count prefix + rune_count tail + 11 ≤ maxTelegramMessageLen →
          rune_count text ≤ maxTelegramMessageLen ∧
          (rune_count prefix + rune_count (aa_Payload action) + rune_count tail ≤ maxTelegramMessageLen →
             text = prefix +:+ string_of_runes (runes (aa_Payload action)) +:+ tail))).

(** C10: the commands of a draft survive.  The message for a draft that awaits
    its owner always ends in the two commands with the draft's code, whatever is
    cut; if the heading and the commands leave room for the cut mark the message
    is within Telegram's cap, and it carries the draft in full when that fits. *)
Theorem draft_keeps_commands n :
  on_Kind n = NotificationApproval → on_ActionID n ≠ 0 →
  outcomes (λ tr r, ∀ text, r = Ok text → draft_text tr n text) [] (format n).
Proof.
  intros Hk Ha. unfold format. rewrite Hk, String.eqb_refl, (proj2 (Z.eqb_neq _ _) Ha). cbn -[peerLabel].
  intros [action|e]; [| done]. cbn -[peerLabel]. case_match eqn:Ht.
  { apply outcomes_bind, outcomes_any. intros l p text _. exists action. split; [apply elem_of_app; right; by left |].
    apply String.eqb_eq in Ht. done. }
  case_match eqn:Hcode.
  { intros text _. exists action. split; [by left |]. by bool_to_Prop. }
  apply outcomes_bind, outcomes_any. intros l [who conv] text E. assert (text = _) as -> by (symmetry; exact (f_equal (λ r, match r with Ok t => t | Err _ => text end) E)).
  cbn [fst snd]. exists action.
  split; [apply elem_of_app; right; by left |]. intros _ _. exists who, conv. cbn zeta.
  destruct (instructions_head (aa_ApprovalCode action)) as (c & t & -> & Hc). generalize (approval_prefix who conv (aa_PolicyReasons action)).
  intros prefix. split; [apply reserveTail_shape | by apply reserveTail_fits].
Qed.
End texts.

(** ** Answer codes *)
Definition all_bytes : list Z := map Z.of_nat (seq 0 256).

Lemma draw_alphabet n bs cs rest : draw n bs = Some (cs, rest) → length cs = n ∧ Forall (λ c, c ∈ alphabet) cs.
Proof.
  revert bs cs rest. induction n as [|n IH]; intros bs cs rest; [by intros [= <- _] |]. cbn.
  induction bs as [|b bs IHb]; [done |]. destruct (pick b) as [c|] eqn:Hp; [| done].
  destruct (draw n bs) as [[cs' rest']|] eqn:E; [| done]. intros [= <- <-]. destruct (IH _ _ _ E) as [Hl Ha].
  split; [cbn; by rewrite Hl |]. constructor; [| done]. unfold pick in Hp. case_match; [done |].
  by eapply list_elem_of_lookup_2.
Qed.

Lemma alphabet_bytes : Forall is_byte alphabet.
Proof. repeat constructor; unfold is_byte; by vm_compute. Qed.

(** Answer codes carry no bias.  Of the 256 bytes of the random source
    exactly eight lead to each of the thirty-one characters and the rest are
    drawn again; a code that comes out has six characters of that alphabet and
    is no word that the command reads as something else. *)
Theorem answer_codes_uniform n bs code :
  new_code n bs = Some code →
  (∀ c, c ∈ alphabet → length (filter (λ b, pick b = Some c) all_bytes) = 8%nat) ∧
  length (filter (λ b, pick b = None) all_bytes) = 8%nat ∧
  length (bytes code) = 6%nat ∧ Forall (λ c, c ∈ alphabet) (bytes code) ∧ code ∉ reservedCodes.
Proof.
  intros Hcode. split; [| split].
  - apply Forall_forall. apply (bool_decide_eq_true_1 _). vm_compute. reflexivity.
  - by vm_compute.
  - revert bs Hcode. induction n as [|n IH]; intros bs; [done |]. cbn [new_code]. unfold New.
    destruct (draw Length bs) as [[cs rest]|] eqn:E; [| done]. case_match eqn:Hr; [by apply IH |]. intros [= <-].
    bool_to_Prop. destruct (draw_alphabet _ _ _ _ E) as [Hl Ha]. rewrite bytes_of_bytes; [done |].
    eapply Forall_impl; [exact Ha |]. apply Forall_forall, alphabet_bytes.
Qed.
