(* ===== verification/OwnerRun.v ===== *)
(** * A question from the list to the answer

    One run of the owner's surface: the poller finds a question, the notifier
    puts it into the owner's Saved Messages, and the owner answers.  The
    theorems of [OwnerTheorems] and [OwnerTexts] at the states of this run. *)

From S2P Require Import Prelude GoString Program Linear Rows Tables Actions Notices HumanInputTables WorkClient OwnerEffects Notifier Sanitize HumanInputStore HumanInput OwnerProps OwnerRuns OwnerTables OwnerSafety OwnerTheorems OwnerTexts.

#[local] Existing Instance pair_sealer.
#[local] Existing Instance ascii_tables.
#[local] Existing Instance no_format.

(** ** One program to its end *)
Record oracle := Oracle {
  or_now : time;
  or_random : Z;
  or_bytes : list Z;
  or_list : http_result humanInputListEnvelope;
  or_get : http_result RequestView;
  or_respond : http_result ResponseView;
}.
Section served.
Context (o : oracle) (Hbytes : Forall is_byte (or_bytes o)).

Definition says {A} (q : owner_query A) : A :=
  match q in owner_query A return A with
  | QNow => or_now o
  | QCancelled | QGlobalKill | QBudgetSpent => false
  | QRandomID => Some (or_random o)
  | QRandomBytes => or_bytes o
  | QShuffle l => l
  | QSelf n _ _ _ => Ok (900 + n)
  | QLocateSelf _ _ _ => Ok None
  | QReply _ _ => Ok tt
  | QHttpList _ => or_list o
  | QHttpGet _ _ => or_get o
  | QHttpRespond _ _ _ _ _ => or_respond o
  end.

(** [None] when Telegram would refuse the random id. *)
Definition box_after {A} (q : owner_query A) (box : list message) : option (list message) :=
  match q with
  | QSelf n u rid text =>
    if bool_decide ((u, rid) ∈ map ms_key box) then None else Some (Message n u rid text :: box)
  | _ => Some box
  end.

Fixpoint served (p : owner unit) (s : system) : option system :=
  match p with
  | Ret _ => Some (System _ (os_db s) (os_box s) (os_links s) (os_said s) (os_api s) [p])
  | Exit => None
  | Call c k =>
    match owner_op (or_now o) c (os_db s) with
    | Ok (a, d) => served (k (Ok a)) (System _ d (os_box s) (seen_login c a (os_links s)) (os_said s) (os_api s) [])
    | Err _ => None
    end
  | Query q k =>
    match box_after q (os_box s) with
    | Some box => served (k (says q)) (System _ (os_db s) box (os_links s) (os_said s) (option_list (exchange_of q (says q)) ++ os_api s) [])
    | None => None
    end
  end.

Lemma query_step starts A (q : owner_query A) k s box :
  os_threads s = [Query q k] → box_after q (os_box s) = Some box →
  step starts s (System _ (os_db s) box (os_links s) (os_said s) (option_list (exchange_of q (says q)) ++ os_api s) [k (says q)]).
Proof.
  intros Hs Hb. assert (os_threads s !! 0%nat = Some (Query q k)) as Hi by by rewrite Hs.
  replace [k (says q)] with (<[0%nat := k (says q)]> (os_threads s)) by by rewrite Hs.
  destruct (exchange_of q (says q)) as [ev|] eqn:Hev.
  { destruct q; try discriminate Hev; injection Hb as <-; by eapply step_exchange. }
  destruct q; try discriminate Hev;
    lazymatch type of Hi with context [QSelf] => idtac | _ => injection Hb as <-;
      eapply step_local; [exact Hi | reflexivity | first [exact I | exact Hbytes | exact (Permutation_refl l)]] end.
  cbn in Hb. case_bool_decide as Hin; [done |]. injection Hb as <-. eapply step_self; [exact Hi | by apply sent_new].
Qed.

Lemma served_steps starts p s s' :
  served p s = Some s' → rtc (step starts) (System _ (os_db s) (os_box s) (os_links s) (os_said s) (os_api s) [p]) s'.
Proof.
  revert s. induction p as [r|A c k IH|A q k IH|]; intros s; cbn [served]; [by intros [= <-] | | | done].
  - destruct (owner_op _ _ _) as [[a d]|] eqn:E; [| done]. intros Hs. eapply rtc_l; [| by eapply IH].
    eapply (step_call starts (System _ (os_db s) (os_box s) (os_links s) (os_said s) (os_api s) [Call c k]) 0 A c k); [done | exact E | by left].
  - destruct (box_after _ _) as [box|] eqn:E; [| done]. intros Hs. eapply rtc_l; [| by eapply IH].
    by apply (query_step starts A q k (System _ (os_db s) (os_box s) (os_links s) (os_said s) (os_api s) [Query q k])).
Qed.

Lemma served_finished p s s' : served p s = Some s' → ∃ x, os_threads s' = [Ret x].
Proof.
  revert s. induction p as [r|A c k IH|A q k IH|]; intros s; cbn [served]; [| | | done].
  - intros [= <-]. by exists r.
  - destruct (owner_op _ _ _) as [[a d]|]; [apply IH | done].
  - destruct (box_after _ _) as [box|]; [apply IH | done].
Qed.
End served.

(** A program that runs alone, after which its process ends. *)
Definition ended (s : system) : system := System _ (os_db s) (os_box s) (os_links s) (os_said s) (os_api s) [].
Definition told (cmd : option command) (s : system) : system :=
  System _ (os_db s) (os_box s) (os_links s) (option_list cmd ++ os_said s) (os_api s) (os_threads s).
Definition runs_alone (o : oracle) (cmd : option command) (p : owner unit) (s : system) : option system :=
  ended <$> served o p (told cmd s).

Lemma alone_reachable o cmd p s s' :
  Forall is_byte (or_bytes o) → owner_program cmd p → reachable owner_program s → os_threads s = [] →
  runs_alone o cmd p s = Some s' →
  rtc (step owner_program) s s' ∧ reachable owner_program s' ∧ os_threads s' = [].
Proof.
  intros Hb Hp (d & Hd & Hs) Ht (s1 & E & ->)%fmap_Some. assert (rtc (step owner_program) s (ended s1)) as Hrun.
  { eapply rtc_l; [apply (step_start _ s cmd p Hp) |]. rewrite Ht. cbn [app].
    etrans; [by apply (served_steps o Hb owner_program p (told cmd s) s1) |].
    destruct (served_finished o p (told cmd s) s1 E) as [x Hx]. eapply rtc_l; [apply (step_crash _ s1 0) |]. by rewrite Hx. }
  split_and!; [done | | done]. exists d. split; [done | by etrans].
Qed.

Lemma three_runs o c1 c2 c3 p1 p2 p3 d s2 s3 :
  Forall is_byte (or_bytes o) → owner_program c1 p1 → owner_program c2 p2 → owner_program c3 p3 → fresh d →
  (s1 ← runs_alone o c1 p1 (start d); runs_alone o c2 p2 s1) = Some s2 → runs_alone o c3 p3 s2 = Some s3 →
  reachable owner_program s2 ∧ rtc (step owner_program) s2 s3 ∧ reachable owner_program s3.
Proof.
  intros Hb H1 H2 H3 Hd (s1 & E1 & E2)%bind_Some E3.
  destruct (alone_reachable o c1 p1 (start d) s1) as (_ & R1 & T1); [done | done | by exists d | done | done |].
  destruct (alone_reachable o c2 p2 s1 s2) as (_ & R2 & T2); [done.. |].
  by destruct (alone_reachable o c3 p3 s2 s3) as (R & R3 & _).
Qed.

(** ** The run *)
Definition rid : string := "hir-0123456789abcdef".
Definition yes_or_no : RequestView :=
  MkRequestView rid "h1" 1 "" "Deploy now?" "" HumanInputTypeSingleChoice ["Yes"; "No"] [] (Some true) "" HumanInputStatePending "".
Definition no_error : error_body := MkErrorBody "" "" "" "".
Definition accepts : oracle := Oracle (5 * Second) 4242 [0; 1; 2; 3; 4; 5; 255]
  (Answered 200 no_error (Some (MkListEnvelope [yes_or_no] (Some 1))))
  (Answered 200 no_error (Some yes_or_no))
  (Answered 200 no_error (Some (MkResponseView rid HumanInputStatusAccepted "" ""))).
Definition plain_text (v : RequestView) (code : string) : string := rv_Question v +:+ " /mctl input " +:+ code.

Definition linked_db : hdb := MkHDB _ empty_db ∅ {[ 1 := ActorRow 500 None 0 "" 0 ]} ∅ {[ 1 := Some 500 ]} 0.
Lemma linked_db_fresh : fresh linked_db.
Proof. by split. Qed.

Definition polls : owner unit := forget (RunOnce plain_text (λ _, "")).
Definition delivers : owner unit := forget (DeliverPending (MkNotifierConfig 0 (24 * Hour) true)).
Definition typed_answer : command := Command (MkMeta 1 500 77) "234567" " 1 ".
Definition answers : owner unit :=
  forget (Answer (cm_Meta typed_answer) (cm_Code typed_answer) (cm_Value typed_answer)).

Definition shown_state : option system := 
  s ← runs_alone accepts None polls (start linked_db); runs_alone accepts None delivers s.
Definition answered_state : option system := s ← shown_state; runs_alone accepts (Some typed_answer) answers s.

(** What a run leaves: the question, the messages and the last submission. *)
Definition question_state (s : system) : option string := hi_State <$> h_deliveries (os_db s) !! 1.
Definition the_message : message := Message 1 1 4242 "Deploy now? /mctl input 234567".
Definition the_answer : exchange :=
  EvRespond 1 500 rid (MkResponseRequest "h1" "Yes") (idemKey rid "h1" 77) (or_respond accepts).

Lemma shown_run : (λ s, (question_state s, os_box s)) <$> shown_state = Some (Some HumanInputSent, [the_message]).
Proof. vm_compute. reflexivity. Qed.
Lemma answered_run :
  (λ s, (question_state s, os_box s, head (os_api s))) <$> answered_state
  = Some (Some HumanInputAnswered, [the_message], Some the_answer).
Proof. vm_compute. reflexivity. Qed.

(** The two states, one after the other. *)
Definition shows (s : system) (state : string) : Prop :=
  reachable owner_program s ∧ os_box s = [the_message] ∧ ∃ q, h_deliveries (os_db s) !! 1 = Some q ∧ hi_State q = state.

Lemma found_states s2 s3 :
  shown_state = Some s2 → runs_alone accepts (Some typed_answer) answers s2 = Some s3 →
  reachable owner_program s2 ∧ rtc (step owner_program) s2 s3 ∧ reachable owner_program s3.
Proof.
  apply three_runs; [| constructor | constructor | constructor | apply linked_db_fresh].
  repeat constructor; unfold is_byte; lia.
Qed.

Lemma run_states :
  ∃ s1 s2, shows s1 HumanInputSent ∧ shows s2 HumanInputAnswered ∧ rtc (step owner_program) s1 s2 ∧ the_answer ∈ os_api s2.
Proof.
  pose proof shown_run as R1. pose proof answered_run as R2. pose proof found_states as Hfound. unfold answered_state in R2.
  destruct shown_state as [s1|]; [| done]. cbn [mbind option_bind] in R2.
  destruct (runs_alone accepts (Some typed_answer) answers s1) as [s2|] eqn:E2; [| done].
  destruct (Hfound s1 s2 eq_refl E2) as (H1 & Hrun & H2). clear Hfound E2.
  apply Some_inj, pair_equal_spec in R1 as [Q1 B1]. apply Some_inj, pair_equal_spec in R2 as [R2 A2].
  apply pair_equal_spec in R2 as [Q2 B2]. apply fmap_Some in Q1 as (q1 & Q1 & F1). apply fmap_Some in Q2 as (q2 & Q2 & F2).
  exists s1, s2. split_and!; [| | exact Hrun |].
  - split_and!; [exact H1 | exact B1 |]. by exists q1.
  - split_and!; [exact H2 | exact B2 |]. by exists q2.
  - apply head_Some in A2 as [l ->]. by left.
Qed.

(** ** The theorems on it *)
Lemma notice_sent_once_witness :
  ∃ s, reachable owner_program s ∧ NoDup (map ms_Notice (os_box s)) ∧
    ∃ r, d_notifications (h_db (os_db s)) !! 1 = Some r ∧ n_UserID r = 1 ∧ n_RandomID r = Some 4242.
Proof.
  destruct run_states as (s & _ & (Hs & Hbox & _) & _). exists s. split; [done |].
  destruct (notice_sent_once s Hs) as (Hnd & _ & Hm & _). split; [done |]. apply (Hm the_message). rewrite Hbox. by left.
Defined.

Lemma question_asked_once_witness :
  ∃ s q, reachable owner_program s ∧ h_deliveries (os_db s) !! 1 = Some q ∧
    ∃ x, asked (world s) x ∧ row_question q = asked_question x.
Proof.
  destruct run_states as (s & _ & (Hs & _ & q & Hq & _) & _). exists s, q. split_and!; [done.. |].
  by apply (proj1 (question_asked_once s Hs) 1).
Defined.

Lemma question_lifecycle_witness :
  ∃ s s' q, reachable owner_program s ∧ h_deliveries (os_db s) !! 1 = Some q ∧ hi_State q = HumanInputSent ∧
    rtc (step owner_program) s s' ∧
    ∃ q', h_deliveries (os_db s') !! 1 = Some q' ∧ hi_State q' = HumanInputAnswered ∧ row_question q' = row_question q.
Proof.
  destruct run_states as (s & s' & (Hs & _ & q & Hq & Hst) & (_ & _ & q1 & Hq1 & Hst1) & Hrun & _). exists s, s', q.
  split_and!; [done.. |]. destruct (question_lifecycle s s' Hs Hrun 1 q Hq) as (q' & Hq' & Hk & _).
  exists q'. assert (q1 = q') as <- by congruence. done.
Defined.

Lemma submissions_checked_witness :
  ∃ s cmd, reachable owner_program s ∧ the_answer ∈ os_api s ∧ (1, 500) ∈ os_links s ∧ cmd ∈ os_said s ∧
    mt_SelfTGID (cm_Meta cmd) = 500 ∧ idemKey rid "h1" 77 = idemKey rid "h1" (mt_TGMessageID (cm_Meta cmd)).
Proof.
  destruct run_states as (_ & s & _ & (Hs & _) & _ & Hin). exists s.
  destruct (submissions_checked s 1 500 rid _ _ _ Hs Hin) as (Hl & cmd & i & q & Hc & _ & _ & Ha & _ & _ & _ & _ & Hk & _).
  exists cmd. by split_and!.
Defined.


Definition a_draft : OwnerNotification := MkOwnerNotification 3 1 NotificationApproval 9 "" NotificationPending 0 0 0.
Lemma draft_keeps_commands_witness :
  outcomes (λ tr r, ∀ text, r = Ok text → draft_text tr a_draft text) [] (format a_draft).
Proof. by apply (draft_keeps_commands a_draft). Defined.

Lemma answer_codes_uniform_witness :
  new_code 7 [0; 1; 2; 3; 4; 5; 255] = Some "234567" ∧ Forall (λ c, c ∈ alphabet) (bytes "234567").
Proof.
  assert (new_code 7 [0; 1; 2; 3; 4; 5; 255] = Some "234567") as E by by vm_compute. split; [done |].
  by apply (answer_codes_uniform _ _ _ E).
Defined.
